(* ===== verification/_CoqProject ===== *)
-Q . S2P
Prelude.v
Utils.v
InMemList.v
Blocks.v
Palloc.v
PallocClients.v
PallocFrame.v
Malloc.v
PageTable.v
Owned.v
FreeMap.v
Bytes.v
Io.v
Fs.v
Disk.v
Inode.v
Dir.v
DiskFs.v
Intr.v
Once.v
Thread.v
Scheduler.v
Manager.v
Sync.v
SyncSafe.v
Wakeups.v
Asm.v
Virtio.v
Plic.v
Trap.v
UserBuf.v
Fair.v
UserPool.v
Load.v
Userproc.v
Donation.v
Condvar.v
Statics.v
Console.v
Entry.v
Main.v
Boot.v
Book.v
