(* ===== verification/Prelude.v ===== *)
(** * Tacos, verified: root of the development

    Tacos is an instructional operating system kernel for one RISC-V hart, in Rust
    ([src/]), with a command line tool that runs its tests ([tool/src/]).  This
    library models the kernel's code and the tool's bookmarks as executable
    definitions and proves what makes them correct.  This file is the prelude:
    results, panics, the state monad, machine integers, tactics and the lemmas all
    other files share.

    ** The parts and how they interact

    Memory.  The boot code gives the RAM behind the kernel's image to two buddy
    allocators, the kernel's and that of user pages ([mem.rs], [mem/palloc.rs]).
    The kernel heap ([mem/malloc.rs]) takes pages from the first one; page tables
    ([mem/pagetable.rs]) are pages of the heap, and the pages they map for a program
    come from the second one.  User programs are loaded ([userproc/load.rs]) into a
    table cloned from the kernel's.
    - [Utils.v]: [mem/layout.rs], [mem/utils.rs].
    - [InMemList.v]: [mem/utils/list.rs], the free list that lives in the free blocks.
    - [Blocks.v], [Palloc.v], [PallocClients.v], [PallocFrame.v]: [mem/palloc.rs]; the
      vocabulary, the operations with their specifications, the allocator with its
      clients as a step relation, and its locality.
    - [Statics.v]: the statics through which the kernel reaches the allocators and its
      page table ([Palloc], [UserPool], [KernelPgTable]); a call through them is the call
      on the allocator ([Statics.static_equivalence]).
    - [Malloc.v]: [mem/malloc.rs].
    - [PageTable.v]: [mem/pagetable.rs], [mem/pagetable/entry.rs], [translate] of
      [mem.rs]; [Owned.v]: which tables and pages an address space owns.
    - [UserPool.v]: [UserPool] of [mem/palloc.rs]; [Load.v]: [userproc/load.rs] and
      [PageTable::destroy]; [Userproc.v]: [userproc.rs] and [Drop for Thread].
    - [Boot.v]: [mem::init], [mem::get_pte] and the part of [main.rs] around them, with
      the shell.

    Start and end.  The firmware enters [_entry] with paging off; [main] sets up the
    memory, the traps and the devices, runs the tests or the shell and switches off.
    - [Entry.v]: the assembly and the page table of [boot.rs], run on a hart with the
      address translation of the architecture.
    - [Console.v]: the calls of the firmware ([sbi.rs]), printing ([sbi/console.rs]) and
      the panic handler of [main.rs].
    - [Main.v]: the calls of [main] that set up traps and devices, and its end.

    Files.  A file is a cursor over a shared vnode; a vnode is an inode, a run of
    consecutive disk sectors, and the bitmap of free sectors and the root directory
    are inodes themselves ([fs.rs], [fs/disk.rs] and the files under [fs/disk/]).
    - [Bytes.v], [Io.v]: byte slices, and the stream traits of [io.rs].
    - [Fs.v]: [fs.rs] and [fs/inmem.rs].
    - [Disk.v], [FreeMap.v], [Inode.v], [Dir.v], [DiskFs.v]: sectors, then
      [fs/disk/free_map.rs], [fs/disk/inode.rs], [fs/disk/dir.rs] with
      [fs/disk/path.rs], and [fs/disk.rs] with [fs/disk/swap.rs].
    - [Virtio.v]: [device/virtio.rs], which implements the sectors of [Disk.v].

    Threads.  The manager keeps the threads and asks a scheduler for the next one;
    semaphores block and wake threads; locks and condition variables are made of
    semaphores, with priorities donated to the holder of a lock.
    - [Intr.v], [Once.v]: interrupt level and clock ([sbi/interrupt.rs],
      [sbi/timer.rs]), the primitive locks ([sync/intr.rs], [sync/spin.rs],
      [sync/mutex.rs]) and one-time initialisation ([sync/once.rs], [sync/lazy.rs]).
    - [Thread.v], [Scheduler.v], [Manager.v]: [thread/imp.rs],
      [thread/scheduler.rs] with its two implementations, [thread/manager.rs] and
      [thread.rs].
    - [Sync.v]: [sync/sema.rs], [sync/sleep.rs], [sync/condvar.rs], [sleepq.rs] and the
      tick of [sbi/timer.rs], as a machine of threads and timer interrupts;
      [SyncSafe.v], [Wakeups.v], [Fair.v], [Donation.v], [Condvar.v]: what holds of it.

    Traps.  The assembly of the trap entry saves the registers in a frame and calls
    the handler, which serves system calls, page faults and interrupts.
    - [Asm.v]: the assembly of [trap.rs], [thread/switch.rs] and [thread/imp.rs].
    - [Plic.v]: [device/plic.rs]; [Trap.v]: [trap.rs], [trap/syscall.rs],
      [trap/pagefault.rs]; [UserBuf.v]: [mem/userbuf.rs].

    The tool.  [Book.v]: [tool/src/book.rs], with [cli.rs] and the targets of
    [build.rs].

    ** How the code is represented

    - A function that changes state is a computation of the monad [M S] over the
      state its component keeps; it may panic, with the reason ([panic]).  A
      [Result] of the code is a value ([result]); [x ←? m ; k] is the operator [?].
      Only [OutOfFuel] is not a behaviour of the code.
    - Memory that data structures live in is a map from addresses to 64-bit words, so
      that the free lists, arena headers and page tables are the words of the source,
      with its aliasing; where bytes matter (sectors, buffers, virtqueues, user pages)
      it is bytes.  The kernel's pool and the user pool are two memories, since no
      word belongs to both.
    - A [usize] or [u32] is a [Z], with [wrap64] and [wrap32] where the arithmetic can
      overflow: the release build is modelled, which wraps.
    - An [Arc] is a name in a store of its component (threads by identifier, inodes
      by handle), so that all holders see the same object.
    - Traits are type classes, and what clients rely on is a class of laws that the
      implementation discharges: [PageSourceLaws] (by [Malloc.v]), [StreamLaws] and
      [VnodeLaws] (by [Fs.v], [Inode.v]), [ScheduleLaws] (by both schedulers),
      [BlockDeviceLaws] (by [Virtio.v]), [UserPoolLaws] (by [Palloc.v]).
    - Hardware and other crates are parameters with documented laws: the virtio
      device ([VirtioLaws]), the interrupt controller ([PlicLaws]), the firmware
      ([FirmwareLaws]), the flags of the
      [bitflags] crate, [elf_rs] and [toml].  Each has a concrete instance in the
      witnesses.
    - Threads interleave where the code runs with interrupts on.  A call that gives
      up the processor in its middle leaves the rest of itself as a frame on its
      thread's stack; a step of the machine ([Sync.step]) runs one frame of the current
      thread or takes a timer interrupt.  Sections under an interrupt lock are one
      step, which [Intr.with_guard_run] justifies: with one hart and interrupts off
      the section runs alone, and leaving it restores the level.

    ** What is proved

    - Allocators: [PallocClients.palloc_reachable_safe], [alloc_correct] and
      [dealloc_correct], [Malloc.heap_reachable_safe],
      [InMemList.inmemlist_refines_sequence], [Boot.mem_init_correct]: over any history
      blocks are aligned, disjoint and inside the pool, can be given back, and buddies
      merge; the three pools start disjoint.
    - Address spaces: [PageTable.map_correct], [user_table_isolated],
      [translate_correct], [Userproc.execute_correct], [thread_drop_correct],
      [start_enters_user], [Load.malformed_segment_panics]: mappings change where they
      should and nowhere else, a program is loaded as its file says, and everything
      allocated for it is given back once, on the error paths too.
    - Files: the [Inode], [Dir], [DiskFs] and [Io] theorems on reading, writing,
      resizing, closing, creating, removing and persisting, with their error branches.
    - Start: [Entry.boot_entry_correct] takes the hart to [main] at its linked address, or to
      a page fault on a hart that leaves the A bits to software;
      [Main.main_devices_correct] that no interrupt can be taken before its handler is
      in place; [Console.panic_handler_correct] that a panic is printed and ends the
      machine.
    - Devices: [Virtio.virtio_implements_block_device], [virtio_init_correct],
      [Plic.plic_correct].
    - Threads: [SyncSafe.mutex_machine_safe] is an invariant over all interleavings;
      [Scheduler.priority_schedule_correct], [Fair.round_robin],
      [Fair.scheduling_liveness], [Fair.equal_priorities_equivalent] say who runs and
      when; [Wakeups.semaphore_up_correct], [tick_correct],
      [Condvar.notify_one_correct], [notify_all_correct] and
      [Donation.donation_chain_correct] what wakes and raises threads.
    - Traps: [Asm.trap_roundtrip], [Asm.switch_correct], [Trap.syscall_roundtrip],
      [UserBuf.user_access_correct]; [Asm.listings_typed] types the assembly.
    - Tool: [Book.book_main_correct], [Book.failed_rerun].

    Several theorems state a defect as the code has it (the leaked sector when the
    root directory is full, the deadlock of [remove], the unbounded recursion of
    [find_and_donate] on a cycle, the panics on malformed executables); the doc
    comments say so.

    ** Fuel and bounds

    Loops whose end depends on the data take fuel.  [Palloc.insert_loop] gets one
    more than the pages of the range, [merge_loop] one more than [MAX_ORDER],
    [PageTable.map_fuel] one more than the pages to map, [InMemList.iter_find] one
    more than the words of the memory (no list is longer), the loops of [Io.v] and
    [Inode.v] one more than the bytes to move, [DiskFs.dir_fuel] one more than the entries of the root directory.  That
    this is enough is part of the theorems, which say that the operation returns.
    [UserBuf.urun] has one unit per instruction of the path.  The spinning of
    [Intr.spin_acquire], the shell and the donation recursion have no bound in the
    code; there the theorems quantify over the fuel.

    ** Not modelled

    - Clearing the bss, reading the boot arguments and starting the test thread in
      [main.rs]; the log lines inside the other components ([kprintln!] changes nothing
      but the console, [Console.kprintln_run]); [macros.rs], which no module declares.
    - The test runner ([tool/src/test.rs], [tool/src/main.rs]) starts processes and
      prints; the kernel's tests and the user programs are not the kernel.
    - Condition variables and positive sleeps are operations of the machine of
      [Sync.v], but not of the programs that [SyncSafe.v] covers; what notifying and the
      tick do with their waiters is in [Condvar.v] and [Wakeups.v].
    - Donation and [notify_all] are proved for a thread that is not preempted meanwhile.
    - Caches, fences of the virtual memory and the order of memory accesses between
      hart and device: the device sees memory when it is notified. *)

From stdpp Require Export base gmap list fin_maps sets.
From stdpp Require Export strings.
From Stdlib Require Export ZArith Lia.

#[global] Set Default Goal Selector "!".
#[global] Open Scope Z_scope.

(** ** Results, panics and the kernel monad *)

(** The ways a run of the kernel stops.  All of them end in the panic handler
    of [main.rs], except [MemFault], an access through a pointer that is not
    mapped, [Deadlock], a thread that waits for a lock it holds itself, and
    [OutOfFuel], which only the model has. *)
Inductive panic : Type :=
  | AssertFailed
  | Unreachable
  | UnwrapNone
  | IndexOutOfBounds
  | SliceLenMismatch
  | Explicit
  | Unimplemented
  | MemFault
  | Deadlock
  | OutOfFuel.

#[export] Instance panic_eq_dec : EqDecision panic.
Proof. solve_decision. Defined.

(** [error.rs]: the errors of the kernel, in the order of their codes. *)
Inductive OsError : Type :=
  | BadPtr
  | UnexpectedEOF
  | NoSuchFile
  | UnknownFormat
  | UserError
  | CreateExistInode
  | OpenInvalidInode
  | DiskSectorAllocFail
  | RootDirFull
  | CstrFormatErr
  | ArgumentTooLong
  | InvalidFileMode
  | FileNotOpened.

#[export] Instance OsError_eq_dec : EqDecision OsError.
Proof. solve_decision. Defined.

(** The outcome of a computation that may panic. *)
Inductive outcome (A : Type) : Type :=
  | Ret (a : A)
  | Panic (p : panic).
Arguments Ret {A} a.
Arguments Panic {A} p.

(** [core::result::Result<T, OsError>], a value as in the source. *)
Inductive result (A : Type) : Type :=
  | Ok (a : A)
  | Err (e : OsError).
Arguments Ok {A} a.
Arguments Err {A} e.

#[export] Instance outcome_ret : MRet outcome := λ A a, Ret a.
#[export] Instance outcome_bind : MBind outcome := λ A B f m,
  match m with Ret a => f a | Panic p => Panic p end.

(** Computations over a state [S] that may panic. *)
Definition M (S A : Type) : Type := S → outcome (A * S).

#[export] Instance M_ret S : MRet (M S) := λ A a s, Ret (a, s).
#[export] Instance M_bind S : MBind (M S) := λ A B f m s,
  match m s with Ret (a, s') => f a s' | Panic p => Panic p end.

Definition get {S} : M S S := λ s, Ret (s, s).
Definition gets {S A} (f : S → A) : M S A := λ s, Ret (f s, s).
Definition put {S} (s' : S) : M S unit := λ _, Ret ((), s').
Definition modify {S} (f : S → S) : M S unit := λ s, Ret ((), f s).
Definition fail {S A} (p : panic) : M S A := λ _, Panic p.
Definition lift {S A} (o : outcome A) : M S A :=
  λ s, match o with Ret a => Ret (a, s) | Panic p => Panic p end.

(** [assert!(b)] *)
Definition assert_ (b : bool) : outcome unit :=
  if b then Ret () else Panic AssertFailed.

Declare Scope kernel_scope.
Delimit Scope kernel_scope with kernel.

(** [let x = m?; k]: return early with the error of [m]. *)
Notation "x ←? m ; k" :=
  (mbind (λ r, match r with Ok x => k | Err e => mret (Err e) end) m)
  (at level 20, m at level 100, k at level 200, right associativity) : kernel_scope.

#[global] Open Scope kernel_scope.

(** Running a list of actions for effect: [for x in l { f(x) }]. *)
Fixpoint for_each {S A} (l : list A) (f : A → M S unit) : M S unit :=
  match l with
  | [] => mret ()
  | x :: l => f x ;; for_each l f
  end.

(** ** Machine integers

    An unsigned [w]-bit integer is a [Z] in [0, 2^w).  Arithmetic that can
    overflow is written with its wrap-around, which is what the release build
    (the one the test tool runs) computes. *)
Definition wrap (w n : Z) : Z := n mod 2 ^ w.
Abbreviation wrap64 := (wrap 64).
Abbreviation wrap32 := (wrap 32).
Abbreviation wrap16 := (wrap 16).
Abbreviation wrap8 := (wrap 8).

Definition in_range (w n : Z) : Prop := 0 ≤ n < 2 ^ w.
Abbreviation is_usize := (in_range 64).
Abbreviation is_u32 := (in_range 32).

(** [!x] at width [w]. *)
Definition bnot (w n : Z) : Z := wrap w (Z.lnot n).

(** [usize::is_power_of_two] *)
Definition is_power_of_two (n : Z) : bool :=
  bool_decide (0 < n) && bool_decide (n = 2 ^ Z.log2 n).

(** [usize::next_power_of_two]: the smallest power of two not below [n]. *)
Definition next_power_of_two (n : Z) : Z := wrap64 (2 ^ Z.log2_up n).

Fixpoint pos_trailing_zeros (p : positive) : Z :=
  match p with
  | xO q => 1 + pos_trailing_zeros q
  | _ => 0
  end.

(** [usize::trailing_zeros] *)
Definition trailing_zeros (n : Z) : Z :=
  match n with
  | Zpos p => pos_trailing_zeros p
  | _ => 64
  end.

(** [usize::leading_zeros] *)
Definition leading_zeros (n : Z) : Z :=
  if bool_decide (n ≤ 0) then 64 else 63 - Z.log2 n.

(** [usize::saturating_sub] *)
Definition saturating_sub (a b : Z) : Z := Z.max 0 (a - b).

(** ** Automation *)

Create HintDb tacos.
Create Rewrite HintDb tacos_rw.

(** Runs the monadic combinators of the goal or of a hypothesis by one layer. *)
Ltac run := cbn [mbind mret M_bind M_ret outcome_bind outcome_ret get gets put
                 modify fail lift assert_] in *.
Ltac unmonad := unfold mbind, mret, M_bind, M_ret, outcome_bind, outcome_ret,
                       get, gets, put, modify, fail, lift in *.

(** Splits conjunctions and existentials of the context. *)
Ltac split_hyps := repeat match goal with
  | H : _ ∧ _ |- _ => destruct H
  | H : ∃ _, _ |- _ => destruct H
  end.

(** Linear arithmetic after turning boolean tests into propositions. *)
Ltac blia := repeat case_bool_decide; try lia.

(** ** Lemmas on machine integers *)

Lemma pow2_pos k : 0 ≤ k → 0 < 2 ^ k.
Proof. intros. apply Z.pow_pos_nonneg; lia. Qed.

Lemma wrap_small w n : in_range w n → wrap w n = n.
Proof. intros. apply Z.mod_small. done. Qed.

Lemma wrap_in_range w n : 0 ≤ w → in_range w (wrap w n).
Proof. intros. apply Z.mod_pos_bound, pow2_pos. done. Qed.

Lemma is_power_of_two_iff n :
  is_power_of_two n = true ↔ ∃ k, 0 ≤ k ∧ n = 2 ^ k.
Proof.
  unfold is_power_of_two. rewrite andb_true_iff, !bool_decide_eq_true. split.
  - intros [? Hn]. exists (Z.log2 n). split; [apply Z.log2_nonneg | done].
  - intros (k & ? & ->). split; [by apply pow2_pos|].
    by rewrite Z.log2_pow2.
Qed.

Lemma is_power_of_two_pow2 k : 0 ≤ k → is_power_of_two (2 ^ k) = true.
Proof. intros. apply is_power_of_two_iff. eauto. Qed.

Lemma trailing_zeros_pow2 k : 0 ≤ k → trailing_zeros (2 ^ k) = k.
Proof.
  intros Hk. pattern k. apply natlike_ind; [done| |done].
  intros j Hj IH. rewrite Z.pow_succ_r by done.
  pose proof (pow2_pos j Hj) as Hp.
  destruct (2 ^ j) as [|p|p] eqn:E; [lia| |lia].
  change (2 * Z.pos p) with (Z.pos p~0).
  cbn [trailing_zeros pos_trailing_zeros] in *. lia.
Qed.

Lemma pos_trailing_zeros_nonneg p : 0 ≤ pos_trailing_zeros p.
Proof. induction p; cbn; lia. Qed.

Lemma trailing_zeros_nonneg n : 0 ≤ trailing_zeros n.
Proof. destruct n; cbn; [lia|apply pos_trailing_zeros_nonneg|lia]. Qed.

(** [2 ^ trailing_zeros n] is the largest power of two that divides [n]. *)
Lemma trailing_zeros_divide n : 0 < n → (2 ^ trailing_zeros n | n).
Proof.
  destruct n as [|p|p]; try lia. intros _. cbn [trailing_zeros].
  induction p as [p _|p [c IH]|]; cbn [pos_trailing_zeros];
    [apply Z.divide_1_l| |apply Z.divide_1_l].
  exists c. rewrite Z.pow_add_r by (pose proof (pos_trailing_zeros_nonneg p); lia).
  change (Z.pos p~0) with (2 * Z.pos p). rewrite IH at 1. ring.
Qed.

Lemma trailing_zeros_ge n k : 0 < n → 0 ≤ k → (2 ^ k | n) → k ≤ trailing_zeros n.
Proof.
  destruct n as [|p|p]; try lia. intros _ Hk. revert k Hk. cbn [trailing_zeros].
  induction p as [p _|p IH|]; cbn [pos_trailing_zeros]; intros k Hk [c Hc].
  - destruct (decide (k = 0)); [lia|].
    replace k with (Z.succ (k - 1)) in Hc by lia.
    rewrite Z.pow_succ_r in Hc by lia. lia.
  - destruct (decide (k = 0)) as [->|].
    { pose proof (pos_trailing_zeros_nonneg p). lia. }
    enough (k - 1 ≤ pos_trailing_zeros p) by lia. apply IH; [lia|].
    exists c. replace k with (Z.succ (k - 1)) in Hc by lia.
    rewrite Z.pow_succ_r in Hc by lia. lia.
  - destruct (decide (k = 0)); [lia|].
    replace k with (Z.succ (k - 1)) in Hc by lia.
    rewrite Z.pow_succ_r in Hc by lia. lia.
Qed.

Lemma lor_shiftl_small x b n : 0 ≤ n → 0 ≤ b < 2 ^ n → Z.lor (Z.shiftl x n) b = x * 2 ^ n + b.
Proof.
  intros Hn Hb. rewrite Z.add_nocarry_lxor, Z.lxor_lor, <- Z.shiftl_mul_pow2; try done; try lia.
  all: apply Z.bits_inj'; intros k Hk; rewrite ?Z.land_spec, Z.bits_0, ?Z.shiftl_mul_pow2 by lia.
  all: rewrite <- ?Z.shiftl_mul_pow2, ?Z.shiftl_spec by lia.
  all: destruct (decide (k < n)); [by rewrite Z.testbit_neg_r by lia|].
  all: assert (E : Z.testbit b k = false); [|by rewrite E, andb_false_r].
  all: rewrite <- (Z.mod_small b (2 ^ n)) by done; apply Z.mod_pow2_bits_high; lia.
Qed.

(** ** Lemmas on lists *)

Lemma filter_all {A} (P : A → Prop) `{∀ x, Decision (P x)} (l : list A) :
  Forall P l → filter P l = l.
Proof. induction 1; [done|]. by rewrite filter_cons_True, IHForall. Qed.

Lemma filter_none {A} (P : A → Prop) `{∀ x, Decision (P x)} (l : list A) :
  Forall (λ x, ¬ P x) l → filter P l = [].
Proof. induction 1; [done|]. by rewrite filter_cons_False. Qed.
