(* ===== verification/Utils.v ===== *)
(** * Address arithmetic of the memory subsystem

    [mem/layout.rs] and [mem/utils.rs]: the constants of the address space,
    physical addresses, rounding to a power of two and page alignment.  The
    functions keep their [assert!]s (they return an [outcome]) and their 64-bit
    wrap-around; the theorems give the exact value on the inputs where the
    additions do not overflow. *)

From S2P Require Import Prelude.

(** ** [mem/layout.rs] *)
Definition VM_BASE : Z := 0xFFFFFFC080000000.
Definition PM_BASE : Z := 0x0000000080000000.
Definition KERN_BASE : Z := 0x0000000080200000.
Definition VM_OFFSET : Z := VM_BASE - PM_BASE.
Definition PLIC_BASE : Z := 0xC000000 + VM_OFFSET.
Definition MMIO_BASE : Z := 0x10001000 + VM_OFFSET.

(** ** [mem/utils.rs] *)
Definition PG_SHIFT : Z := 12.
Definition PG_MASK : Z := Z.shiftl 1 PG_SHIFT - 1.
Definition PG_SIZE : Z := Z.shiftl 1 PG_SHIFT.

(** [in_kernel_space] *)
Definition in_kernel_space (va : Z) : bool :=
  bool_decide (Z.land va VM_OFFSET = VM_OFFSET).

(** [struct PhysAddr(usize)] and its methods. *)
Record PhysAddr : Type := mkPhysAddr { pa_value : Z }.

Definition pa_ppn (pa : PhysAddr) : Z := Z.shiftr (pa_value pa) PG_SHIFT.
Definition into_va (pa : PhysAddr) : Z := wrap64 (pa_value pa + VM_OFFSET).
Definition from_pa (pa : Z) : PhysAddr := mkPhysAddr pa.

(** [impl From<usize> for PhysAddr] *)
Definition from_va (va : Z) : outcome PhysAddr :=
  assert_ (in_kernel_space va) ;;
  mret (mkPhysAddr (wrap64 (va - VM_OFFSET))).

Definition round_up (n align : Z) : outcome Z :=
  assert_ (is_power_of_two align) ;;
  mret (Z.land (wrap64 (wrap64 (n + align) - 1)) (bnot 64 (wrap64 (align - 1)))).

Definition div_round_up (n align : Z) : outcome Z :=
  assert_ (is_power_of_two align) ;;
  r ← round_up n align ;
  mret (r / align).

Definition round_down (n align : Z) : outcome Z :=
  assert_ (is_power_of_two align) ;;
  mret (Z.land n (bnot 64 (wrap64 (align - 1)))).

(** The shift amount is taken modulo 64, as the release build does. *)
Definition prev_power_of_two (num : Z) : Z :=
  Z.shiftl 1 (wrap 6 (64 - leading_zeros num - 1)).

(** [trait PageAlign] *)
Class PageAlign (A : Type) := {
  floor : A → A;
  ceil : A → A;
}.

Definition is_aligned {A} `{PageAlign A, EqDecision A} (a : A) : bool :=
  bool_decide (floor a = a).

#[export] Instance PageAlign_usize : PageAlign Z := {
  floor a := Z.shiftl (Z.shiftr a PG_SHIFT) PG_SHIFT;
  ceil a := Z.shiftl (Z.shiftr (wrap64 (wrap64 (a + PG_SIZE) - 1)) PG_SHIFT) PG_SHIFT;
}.

#[export] Instance PhysAddr_eq_dec : EqDecision PhysAddr.
Proof. solve_decision. Defined.

#[export] Instance PageAlign_PhysAddr : PageAlign PhysAddr := {
  floor pa := mkPhysAddr (floor (pa_value pa));
  ceil pa := mkPhysAddr (ceil (pa_value pa));
}.

(** ** Masks and rounding *)

Lemma PG_SIZE_pow2 : PG_SIZE = 2 ^ 12.
Proof. done. Qed.

Lemma VM_OFFSET_mask : VM_OFFSET = 2 ^ 64 - 2 ^ 38.
Proof. done. Qed.

(** Clearing the low [k] bits of a [usize]. *)
Lemma land_bnot_low n k :
  0 ≤ k ≤ 63 → is_usize n →
  Z.land n (bnot 64 (wrap64 (2 ^ k - 1))) = n - n mod 2 ^ k.
Proof.
  intros Hk Hn.
  assert (Hk2 : 2 ^ k < 2 ^ 64) by (apply Z.pow_lt_mono_r; lia).
  pose proof (pow2_pos k ltac:(lia)).
  rewrite (wrap_small 64 (2 ^ k - 1)) by (unfold in_range; lia).
  rewrite Z.sub_1_r, <- Z.ones_equiv. unfold bnot, wrap.
  rewrite <- Z.land_ones by lia.
  rewrite (Z.land_comm (Z.lnot _)), Z.land_assoc.
  rewrite (Z.land_ones n) by lia. rewrite (Z.mod_small n) by done.
  rewrite <- Z.ldiff_land, Z.ldiff_ones_r by lia.
  rewrite Z.shiftr_div_pow2, Z.shiftl_mul_pow2 by lia.
  pose proof (Z.div_mod n (2 ^ k)). lia.
Qed.

Lemma round_down_pow2 n k :
  0 ≤ k ≤ 63 → is_usize n → round_down n (2 ^ k) = Ret (n - n mod 2 ^ k).
Proof.
  intros. unfold round_down. rewrite is_power_of_two_pow2 by lia. cbn.
  unmonad. f_equal. by apply land_bnot_low.
Qed.

Lemma round_up_pow2 n k :
  0 ≤ k ≤ 63 → 0 ≤ n → n + 2 ^ k ≤ 2 ^ 64 →
  round_up n (2 ^ k) = Ret ((n + 2 ^ k - 1) / 2 ^ k * 2 ^ k).
Proof.
  intros Hk Hn Hov. unfold round_up. rewrite is_power_of_two_pow2 by lia. cbn.
  unmonad. f_equal.
  pose proof (pow2_pos k ltac:(lia)).
  replace (wrap64 (wrap64 (n + 2 ^ k) - 1)) with (n + 2 ^ k - 1).
  2:{ unfold wrap. rewrite Zminus_mod_idemp_l. symmetry. apply Z.mod_small. lia. }
  rewrite land_bnot_low by (unfold in_range; lia).
  pose proof (Z.div_mod (n + 2 ^ k - 1) (2 ^ k)). lia.
Qed.

(** The rounded value is the least multiple not below [n]. *)
Lemma ceil_div_bounds n d : 0 < d →
  (d | (n + d - 1) / d * d) ∧ n ≤ (n + d - 1) / d * d < n + d.
Proof.
  intros. split; [apply Z.divide_factor_r|].
  pose proof (Z.div_mod (n + d - 1) d). pose proof (Z.mod_pos_bound (n + d - 1) d). lia.
Qed.

(** An address is in kernel space exactly when it is at or above [VM_OFFSET]. *)
Lemma in_kernel_space_iff va :
  is_usize va → in_kernel_space va = true ↔ VM_OFFSET ≤ va.
Proof.
  intros Hva. unfold in_kernel_space. rewrite bool_decide_eq_true, VM_OFFSET_mask.
  assert (Hl : Z.land va (2 ^ 64 - 2 ^ 38) = va - va mod 2 ^ 38).
  { rewrite <- (land_bnot_low va 38) by (done || lia). done. }
  rewrite Hl. unfold in_range in Hva.
  pose proof (Z.div_mod va (2 ^ 38)). pose proof (Z.mod_pos_bound va (2 ^ 38)).
  split; [lia|]. intros Hge.
  assert (va / 2 ^ 38 = 2 ^ 26 - 1); [|lia].
  symmetry. apply (Zdiv_unique _ _ _ (va - (2 ^ 64 - 2 ^ 38))); lia.
Qed.

Lemma is_aligned_usize (a : Z) : is_aligned a = true ↔ a mod PG_SIZE = 0.
Proof.
  unfold is_aligned. rewrite bool_decide_eq_true. cbn.
  rewrite Z.shiftl_mul_pow2, Z.shiftr_div_pow2 by (cbv; congruence).
  rewrite PG_SIZE_pow2. unfold PG_SHIFT.
  pose proof (Z.div_mod a (2 ^ 12)). lia.
Qed.

Lemma next_power_of_two_small n :
  n ≤ 2 ^ 63 → next_power_of_two n = 2 ^ Z.log2_up n.
Proof.
  intros. unfold next_power_of_two. apply wrap_small. unfold in_range.
  pose proof (Z.log2_up_nonneg n).
  split; [apply Z.pow_nonneg; lia|]. apply Z.pow_lt_mono_r; [lia..|].
  destruct (decide (n ≤ 1)).
  - rewrite Z.log2_up_eqn0 by lia. lia.
  - apply Z.log2_up_le_mono in H. rewrite Z.log2_up_pow2 in H; lia.
Qed.

Lemma trailing_zeros_next_power_of_two n :
  n ≤ 2 ^ 63 → trailing_zeros (next_power_of_two n) = Z.log2_up n.
Proof.
  intros. rewrite next_power_of_two_small by done.
  apply trailing_zeros_pow2, Z.log2_up_nonneg.
Qed.

Lemma prev_power_of_two_spec n :
  0 < n → is_usize n →
  prev_power_of_two n = 2 ^ Z.log2 n.
Proof.
  intros Hn [_ Hlt]. unfold prev_power_of_two, leading_zeros.
  rewrite bool_decide_eq_false_2 by lia.
  replace (64 - (63 - Z.log2 n) - 1) with (Z.log2 n) by lia.
  assert (Z.log2 n < 64) by (apply Z.log2_lt_pow2; lia).
  pose proof (Z.log2_nonneg n).
  rewrite wrap_small by (unfold in_range; cbn; lia).
  rewrite Z.shiftl_1_l. done.
Qed.

#[export] Hint Rewrite round_down_pow2 round_up_pow2 prev_power_of_two_spec
  trailing_zeros_next_power_of_two using (assumption || lia) : tacos_rw.

(** ** Properties *)

(** [round_up], [round_down] and [div_round_up] of [mem/utils.rs].  For a
    power-of-two alignment and an addition that does not overflow, [round_up]
    returns the least multiple of the alignment that is not below [n],
    [round_down] the greatest one not above it, and [div_round_up] counts the
    units [round_up] covers. *)
Theorem rounding_correct (n k : Z) :
  0 ≤ k ≤ 63 → 0 ≤ n → n + 2 ^ k ≤ 2 ^ 64 →
  ∃ up down cnt,
    round_up n (2 ^ k) = Ret up ∧ (2 ^ k | up) ∧ n ≤ up < n + 2 ^ k ∧
    round_down n (2 ^ k) = Ret down ∧ (2 ^ k | down) ∧ down ≤ n < down + 2 ^ k ∧
    div_round_up n (2 ^ k) = Ret cnt ∧ cnt * 2 ^ k = up.
Proof.
  intros Hk Hn Hov. pose proof (pow2_pos k ltac:(lia)) as Hp.
  exists ((n + 2 ^ k - 1) / 2 ^ k * 2 ^ k), (n - n mod 2 ^ k), ((n + 2 ^ k - 1) / 2 ^ k).
  unfold div_round_up. rewrite is_power_of_two_pow2 by lia. cbn. unmonad.
  rewrite round_up_pow2, round_down_pow2 by (unfold in_range; lia).
  rewrite Z.div_mul by lia.
  pose proof (ceil_div_bounds n (2 ^ k) Hp) as [? ?].
  pose proof (Z.mod_pos_bound n (2 ^ k) Hp).
  repeat split; try done; try lia.
  exists (n / 2 ^ k). pose proof (Z.div_mod n (2 ^ k)). lia.
Qed.

Lemma rounding_correct_witness : ∃ up down cnt,
    round_up 5000 (2 ^ 12) = Ret up ∧ (2 ^ 12 | up) ∧ 5000 ≤ up < 5000 + 2 ^ 12 ∧
    round_down 5000 (2 ^ 12) = Ret down ∧ (2 ^ 12 | down) ∧ down ≤ 5000 < down + 2 ^ 12 ∧
    div_round_up 5000 (2 ^ 12) = Ret cnt ∧ cnt * 2 ^ 12 = up.
Proof. apply (rounding_correct 5000 12); lia. Defined.

(** Physical and virtual addresses convert into each other.  A kernel
    virtual address converts to a physical one and back to itself, every
    physical address below [2^38] converts to a kernel virtual address and
    back, and converting an address outside kernel space panics. *)
Theorem phys_addr_roundtrip (a : Z) :
  is_usize a →
  (VM_OFFSET ≤ a → ∃ pa, from_va a = Ret pa ∧ into_va pa = a) ∧
  (a < 2 ^ 38 → from_va (into_va (from_pa a)) = Ret (from_pa a)) ∧
  (a < VM_OFFSET → from_va a = Panic AssertFailed).
Proof.
  intros Ha. pose proof VM_OFFSET_mask as HV. unfold in_range in Ha. repeat split.
  - intros Hge. unfold from_va. rewrite (proj2 (in_kernel_space_iff a Ha)) by done.
    cbn. unmonad. eexists. split; [done|]. unfold into_va. cbn.
    rewrite (wrap_small 64 (a - _)) by (unfold in_range; lia).
    rewrite wrap_small by (unfold in_range; lia). lia.
  - intros Hlt. unfold into_va, from_va, from_pa. cbn [pa_value].
    rewrite (wrap_small 64 (a + VM_OFFSET)) by (unfold in_range; lia).
    rewrite (proj2 (in_kernel_space_iff (a + VM_OFFSET) ltac:(unfold in_range; lia))) by lia.
    cbn. unmonad. rewrite Z.add_simpl_r, wrap_small by done. done.
  - intros Hlt. unfold from_va.
    destruct (in_kernel_space a) eqn:E; [|done].
    apply in_kernel_space_iff in E; [lia|done].
Qed.

Lemma phys_addr_roundtrip_witness :
  from_va (into_va (from_pa 0x80200000)) = Ret (from_pa 0x80200000).
Proof. apply (phys_addr_roundtrip 0x80200000); unfold in_range; lia. Defined.
