(* ===== verification/InMemList.v ===== *)
(** * The intrusive free list

    [mem/utils/list.rs].  An [InMemList] is one word, the address of its first
    node, and a node is a free block whose first word holds the address of the
    next one.  The model keeps that: the memory is a finite map from addresses
    to words, a list is known by the address of its head word, and [push],
    [pop], [iter_mut], [next] and [ListNode::pop] read and write that memory,
    with the aliasing of the source ([IterMut]'s [prev] is the head word itself
    at the first node).  [list_at] relates the memory to the sequence of nodes,
    and the specifications at the end say which cells an operation writes. *)

From S2P Require Import Prelude.

(** Memory at the granularity of 64-bit words, keyed by address. *)
Abbreviation memory := (gmap Z Z).

Definition read (p : Z) : M memory Z := λ m,
  match m !! p with Some v => Ret (v, m) | None => Panic MemFault end.

Definition write (p v : Z) : M memory unit := λ m,
  match m !! p with Some _ => Ret ((), <[p := v]> m) | None => Panic MemFault end.

(** [InMemList::new]: the null head. *)
Definition list_new : Z := 0.

Definition is_empty (l : Z) : M memory bool :=
  h ← read l ; mret (bool_decide (h = 0)).

Definition push (l item : Z) : M memory unit :=
  h ← read l ;
  write item h ;;
  write l item.

Definition pop (l : Z) : M memory (option Z) :=
  e ← is_empty l ;
  match e with
  | true => mret None
  | false =>
      popped_item ← read l ;
      next ← read popped_item ;
      write l next ;;
      mret (Some popped_item)
  end.

(** [IterMut] and [ListNode] have the same two fields. *)
Record IterMut : Type := mkIter { it_prev : Z; it_curr : Z }.
Record ListNode : Type := mkNode { nd_prev : Z; nd_curr : Z }.

Definition iter_mut (l : Z) : M memory IterMut :=
  h ← read l ; mret (mkIter l h).

Definition iter_next (it : IterMut) : M memory (option ListNode * IterMut) :=
  if bool_decide (it_curr it = 0) then mret (None, it)
  else
    nxt ← read (it_curr it) ;
    mret (Some (mkNode (it_prev it) (it_curr it)), mkIter (it_curr it) nxt).

(** [ListNode::value] *)
Definition node_value (nd : ListNode) : Z := nd_curr nd.

(** [ListNode::pop] *)
Definition node_pop (nd : ListNode) : M memory Z :=
  v ← read (nd_curr nd) ;
  write (nd_prev nd) v ;;
  mret (nd_curr nd).

(** [Iterator::find]: [next] until the predicate holds.  The fuel bounds the
    number of nodes visited. *)
Fixpoint iter_find (fuel : nat) (P : ListNode → bool) (it : IterMut) :
    M memory (option ListNode) :=
  match fuel with
  | O => fail OutOfFuel
  | S fuel =>
      '(nd, it') ← iter_next it ;
      match nd with
      | None => mret None
      | Some nd => if P nd then mret (Some nd) else iter_find fuel P it'
      end
  end.

(** [list.iter_mut().find(..)]: a list without cycles has at most as many nodes
    as the memory has words. *)
Definition find (l : Z) (P : ListNode → bool) : M memory (option ListNode) :=
  m ← get ;
  it ← iter_mut l ;
  iter_find (S (size (m : memory))) P it.

(** ** What a list holds *)

(** [chain m p xs]: following the links from [p] visits exactly [xs]. *)
Fixpoint chain (m : memory) (p : Z) (xs : list Z) : Prop :=
  match xs with
  | [] => p = 0
  | x :: xs => p = x ∧ x ≠ 0 ∧ ∃ q, m !! x = Some q ∧ chain m q xs
  end.

(** The list whose head word is at [l] holds the nodes [xs]. *)
Definition list_at (m : memory) (l : Z) (xs : list Z) : Prop :=
  NoDup (l :: xs) ∧ ∃ h, m !! l = Some h ∧ chain m h xs.

Lemma chain_frame (m m' : memory) p xs :
  (∀ a, a ∈ xs → m' !! a = m !! a) → chain m p xs → chain m' p xs.
Proof.
  revert p. induction xs as [|x xs IH]; intros p Hf; [done|].
  intros (-> & Hx & q & Hq & Hc). cbn. split; [done|]. split; [done|].
  exists q. split; [rewrite Hf; [done|left]|]. apply IH; [|done].
  intros a Ha. apply Hf. by right.
Qed.

Lemma list_at_frame (m m' : memory) l xs :
  (∀ a, a ∈ l :: xs → m' !! a = m !! a) → list_at m l xs → list_at m' l xs.
Proof.
  intros Hf (Hnd & h & Hh & Hc). split; [done|]. exists h. split.
  - rewrite Hf; [done|left].
  - eapply chain_frame; [|done]. intros a Ha. apply Hf. by right.
Qed.

Lemma chain_mapped (m : memory) p xs a : chain m p xs → a ∈ xs → is_Some (m !! a).
Proof.
  revert p. induction xs as [|x xs IH]; intros p; [set_solver|].
  intros (_ & _ & q & Hq & Hc) [->|]%elem_of_cons; eauto.
Qed.

Lemma list_at_mapped (m : memory) l xs a : list_at m l xs → a ∈ l :: xs → is_Some (m !! a).
Proof.
  intros (_ & h & Hh & Hc) [->|]%elem_of_cons; eauto using chain_mapped.
Qed.

(** The nodes of a list are distinct cells of the memory: the fuel of [find] is
    enough. *)
Lemma list_at_length (m : memory) l xs : list_at m l xs → (length xs < S (size m))%nat.
Proof.
  intros Hl. assert (Hnd : NoDup xs) by (destruct Hl as [Hnd _]; by apply NoDup_cons in Hnd as [_ ?]).
  assert (Hsub : list_to_set xs ⊆ (dom m : gset Z)).
  { intros a Ha%elem_of_list_to_set. apply elem_of_dom.
    eapply list_at_mapped; [done|by right]. }
  apply subseteq_size in Hsub. rewrite size_list_to_set, size_dom in Hsub by done. lia.
Qed.


(** ** Specifications of the operations *)

Section specs.
Implicit Types (m : memory) (l x p : Z) (xs : list Z).

Lemma is_empty_spec m l xs :
  list_at m l xs → is_empty l m = Ret (bool_decide (xs = []), m).
Proof.
  intros (_ & h & Hh & Hc). unfold is_empty, read. unmonad. rewrite Hh. repeat f_equal.
  destruct xs; cbn in Hc; [by rewrite !bool_decide_eq_true_2|].
  destruct Hc as (-> & ? & _). by rewrite !bool_decide_eq_false_2.
Qed.

Lemma push_spec m l x xs :
  list_at m l xs → is_Some (m !! x) → x ≠ 0 → x ∉ l :: xs →
  ∃ m', push l x m = Ret ((), m') ∧ list_at m' l (x :: xs) ∧
    (∀ a, a ≠ l → a ≠ x → m' !! a = m !! a) ∧ dom m' = dom m.
Proof.
  intros (Hnd & h & Hh & Hc) [v Hv] Hx [Hxl Hxs]%not_elem_of_cons.
  exists (<[l := x]> (<[x := h]> m)). unfold push, read, write. unmonad.
  rewrite Hh, Hv. rewrite lookup_insert_ne, Hh by done.
  split; [done|]. split; [|split].
  - apply NoDup_cons in Hnd as [Hl Hnd]. split.
    + repeat (apply NoDup_cons; split); [set_solver|done|done].
    + exists x. rewrite lookup_insert_eq. split; [done|]. cbn.
      split; [done|]. split; [done|]. exists h.
      rewrite lookup_insert_ne, lookup_insert_eq by done. split; [done|].
      eapply chain_frame; [|done]. intros a Ha.
      rewrite !lookup_insert_ne; [done|set_solver..].
  - intros a ? ?. by rewrite !lookup_insert_ne.
  - rewrite !dom_insert_lookup_L; [done|by eexists|].
    rewrite lookup_insert_ne by done. by eexists.
Qed.

Lemma pop_spec m l x xs :
  list_at m l (x :: xs) →
  ∃ m', pop l m = Ret (Some x, m') ∧ list_at m' l xs ∧
    (∀ a, a ≠ l → m' !! a = m !! a) ∧ dom m' = dom m.
Proof.
  intros Hl. pose proof (is_empty_spec _ _ _ Hl) as He.
  destruct Hl as (Hnd & h & Hh & (-> & Hx & q & Hq & Hc)).
  exists (<[l := q]> m). unfold pop, read, write in *. unmonad.
  rewrite He, bool_decide_eq_false_2 by done. rewrite Hh, Hq, Hh.
  split; [done|]. split; [|split].
  - apply NoDup_cons in Hnd as [Hlx [_ Hnd]%NoDup_cons]. split.
    + apply NoDup_cons. split; [set_solver|done].
    + exists q. rewrite lookup_insert_eq. split; [done|].
      eapply chain_frame; [|done]. intros a Ha.
      rewrite lookup_insert_ne; [done|set_solver].
  - intros a ?. by rewrite lookup_insert_ne.
  - apply dom_insert_lookup_L. by eexists.
Qed.

Lemma pop_nil_spec m l : list_at m l [] → pop l m = Ret (None, m).
Proof.
  intros Hl. unfold pop. unmonad. rewrite (is_empty_spec _ _ _ Hl). done.
Qed.

(** Skipping the cell at [prev]: the node before [b], or the head word. *)
Lemma chain_skip m p pre b post q :
  chain m p (pre ++ b :: post) → NoDup (pre ++ b :: post) → m !! b = Some q →
  match last pre with
  | None => chain m q post
  | Some y => chain (<[y := q]> m) p (pre ++ post)
  end.
Proof.
  revert p. induction pre as [|x pre IH]; intros p Hc Hnd Hb.
  - cbn in *. destruct Hc as (_ & _ & q' & Hq' & Hc). by simplify_eq.
  - destruct Hc as (-> & Hx & q' & Hq' & Hc).
    cbn [app] in Hnd. apply NoDup_cons in Hnd as [Hxn Hnd].
    specialize (IH q' Hc Hnd Hb). rewrite last_cons.
    destruct (last pre) as [y|] eqn:Ey.
    + cbn. split; [done|]. split; [done|]. exists q'. split; [|done].
      apply last_Some_elem_of in Ey.
      rewrite lookup_insert_ne; [done|]. intros ->. set_solver.
    + apply last_None in Ey as ->. cbn. split; [done|]. split; [done|].
      exists q. rewrite lookup_insert_eq. split; [done|].
      eapply chain_frame; [|done]. intros a Ha.
      rewrite lookup_insert_ne; [done|]. intros ->. set_solver.
Qed.

Lemma iter_find_skip (P : ListNode → bool) m pre prv p b post fuel :
  chain m p (pre ++ b :: post) → (length pre < fuel)%nat →
  (∀ pr a, a ∈ pre → P (mkNode pr a) = false) →
  (∀ pr, P (mkNode pr b) = true) →
  iter_find fuel P (mkIter prv p) m =
    Ret (Some (mkNode (default prv (last pre)) b), m).
Proof.
  revert p prv fuel. induction pre as [|x pre IH]; intros p prv fuel Hc Hlen Hpre Hb;
    (destruct fuel as [|fuel]; [cbn in Hlen; lia|]).
  - destruct Hc as (-> & Hbz & q & Hq & _).
    cbn [iter_find]. unfold iter_next, read. cbn [it_curr it_prev]. unmonad.
    rewrite bool_decide_eq_false_2, Hq by done. by rewrite Hb.
  - destruct Hc as (-> & Hxz & q & Hq & Hc).
    cbn [iter_find]. unfold iter_next, read. cbn [it_curr it_prev]. unmonad.
    rewrite bool_decide_eq_false_2, Hq by done. rewrite Hpre by left.
    specialize (IH q x fuel Hc ltac:(cbn in Hlen; lia)).
    rewrite last_cons. unfold iter_next, read in IH. rewrite IH.
    + by destruct (last pre).
    + intros. apply Hpre. by right.
    + done.
Qed.

Lemma iter_find_none (P : ListNode → bool) m xs prv p fuel :
  chain m p xs → (length xs < fuel)%nat →
  (∀ pr a, a ∈ xs → P (mkNode pr a) = false) →
  iter_find fuel P (mkIter prv p) m = Ret (None, m).
Proof.
  revert p prv fuel. induction xs as [|x xs IH]; intros p prv fuel Hc Hlen HP;
    (destruct fuel as [|fuel]; [cbn in Hlen; lia|]).
  - cbn in Hc. subst p. done.
  - destruct Hc as (-> & Hxz & q & Hq & Hc).
    cbn [iter_find]. unfold iter_next, read. cbn [it_curr it_prev]. unmonad.
    rewrite bool_decide_eq_false_2, Hq by done. rewrite HP by left.
    apply IH; [done|cbn in Hlen; lia|]. intros. apply HP. by right.
Qed.

Lemma find_none_spec m l xs b :
  list_at m l xs → b ∉ xs →
  find l (λ nd, bool_decide (node_value nd = b)) m = Ret (None, m).
Proof.
  intros Hl Hb. pose proof (list_at_length _ _ _ Hl) as Hlen.
  destruct Hl as (_ & h & Hh & Hc). unfold find, iter_mut, read. unmonad. rewrite Hh.
  apply (iter_find_none _ _ xs); [done..|].
  intros pr a Ha. apply bool_decide_eq_false_2. cbn. set_solver.
Qed.

(** Finding the node at [b] and popping it unlinks exactly that node. *)
Lemma find_pop_spec m l pre b post :
  list_at m l (pre ++ b :: post) →
  ∃ nd m',
    find l (λ nd, bool_decide (node_value nd = b)) m = Ret (Some nd, m) ∧
    node_pop nd m = Ret (b, m') ∧ list_at m' l (pre ++ post) ∧
    (∀ a, a ∉ l :: pre ++ b :: post → m' !! a = m !! a) ∧ dom m' = dom m.
Proof.
  intros Hl. pose proof (list_at_length _ _ _ Hl) as Hlen.
  pose proof (λ a, list_at_mapped _ _ _ a Hl) as Hmap.
  destruct Hl as (Hnd & h & Hh & Hc).
  apply NoDup_cons in Hnd as [Hlx Hnd].
  destruct (Hmap b ltac:(set_solver)) as [q Hq].
  exists (mkNode (default l (last pre)) b), (<[default l (last pre) := q]> m).
  assert (Hprev : default l (last pre) ∈ l :: pre).
  { destruct (last pre) eqn:E; [right; by apply last_Some_elem_of|left]. }
  split; [|split; [|split; [|split]]].
  - unfold find, iter_mut, read. unmonad. rewrite Hh.
    apply iter_find_skip with post; [done| | |].
    + rewrite length_app in Hlen. cbn in Hlen. lia.
    + intros pr a Ha. apply bool_decide_eq_false_2. cbn. intros ->.
      apply NoDup_app in Hnd as (_ & Hnd & _). set_solver.
    + intros pr. by apply bool_decide_eq_true_2.
  - unfold node_pop, read, write. unmonad. cbn. rewrite Hq.
    destruct (Hmap (default l (last pre))) as [? ->]; [set_solver|done].
  - pose proof (chain_skip _ _ _ _ _ _ Hc Hnd Hq) as Hskip. split.
    { apply NoDup_cons. split; [set_solver|].
      apply NoDup_app in Hnd as (? & ? & [? ?]%NoDup_cons).
      apply NoDup_app. split; [done|]. split; [set_solver|done]. }
    destruct (last pre) as [y|] eqn:Ey; cbn.
    + exists h. split; [|done]. apply last_Some_elem_of in Ey.
      rewrite lookup_insert_ne; [done|]. intros ->. set_solver.
    + apply last_None in Ey as ->. exists q. rewrite lookup_insert_eq. split; [done|].
      eapply chain_frame; [|done]. intros a Ha. rewrite lookup_insert_ne; [done|].
      intros ->. set_solver.
  - intros a Ha. rewrite lookup_insert_ne; [done|]. intros Heq. subst a.
    apply elem_of_cons in Hprev. set_solver.
  - apply dom_insert_lookup_L. apply Hmap. set_solver.
Qed.
End specs.

(** ** Runs of list operations *)

(** The three things the allocators do to a list: [push], [pop], and unlinking
    the node that [iter_mut().find(..)] returns. *)
Inductive list_op : Type :=
  | OpPush (x : Z)
  | OpPop
  | OpRemove (b : Z).

Definition run_op (l : Z) (o : list_op) : M memory (option Z) :=
  match o with
  | OpPush x => push l x ;; mret None
  | OpPop => pop l
  | OpRemove b =>
      r ← find l (λ nd, bool_decide (node_value nd = b)) ;
      match r with
      | Some nd => v ← node_pop nd ; mret (Some v)
      | None => mret None
      end
  end.

(** The same operations on a sequence. *)
Definition spec_op (o : list_op) (xs : list Z) : option Z * list Z :=
  match o with
  | OpPush x => (None, x :: xs)
  | OpPop => (head xs, tail xs)
  | OpRemove b => if decide (b ∈ xs) then (Some b, filter (λ x, x ≠ b) xs) else (None, xs)
  end.

Fixpoint run_ops (l : Z) (os : list list_op) : M memory (list (option Z)) :=
  match os with
  | [] => mret []
  | o :: os => r ← run_op l o ; rs ← run_ops l os ; mret (r :: rs)
  end.

Fixpoint spec_ops (os : list list_op) (xs : list Z) : list (option Z) * list Z :=
  match os with
  | [] => ([], xs)
  | o :: os =>
      let '(r, xs) := spec_op o xs in
      let '(rs, xs) := spec_ops os xs in (r :: rs, xs)
  end.

(** Only fresh, mapped, non-null cells are pushed. *)
Fixpoint ops_ok (dm : gset Z) (l : Z) (os : list list_op) (xs : list Z) : Prop :=
  match os with
  | [] => True
  | o :: os =>
      match o with OpPush x => x ∈ dm ∧ x ≠ 0 ∧ x ∉ l :: xs | _ => True end ∧
      ops_ok dm l os (spec_op o xs).2
  end.

Lemma filter_remove (pre post : list Z) b :
  NoDup (pre ++ b :: post) → filter (λ x, x ≠ b) (pre ++ b :: post) = pre ++ post.
Proof.
  intros (_ & Hd & [Hb _]%NoDup_cons)%NoDup_app.
  rewrite filter_app, filter_cons_False by naive_solver.
  f_equal; apply filter_all, Forall_forall; intros x Hx ->; set_solver.
Qed.

Lemma run_op_refines m l xs o :
  list_at m l xs → ops_ok (dom m) l [o] xs →
  ∃ m', run_op l o m = Ret ((spec_op o xs).1, m') ∧
    list_at m' l (spec_op o xs).2 ∧ dom m' = dom m.
Proof.
  intros Hl [Hok _]. destruct o as [x| |b]; cbn.
  - destruct Hok as (Hx & Hz & Hn).
    destruct (push_spec m l x xs Hl) as (m' & Hp & Hl' & _ & Hd); [by apply elem_of_dom|done|done|].
    exists m'. unmonad. by rewrite Hp.
  - destruct xs as [|x xs].
    + exists m. by rewrite pop_nil_spec.
    + destruct (pop_spec m l x xs Hl) as (m' & Hp & Hl' & _ & Hd). exists m'. by rewrite Hp.
  - unmonad. case_decide as Hb.
    + pose proof Hl as [[_ Hnd]%NoDup_cons _].
      apply list_elem_of_split in Hb as (pre & post & ->).
      destruct (find_pop_spec m l pre b post Hl) as (nd & m' & Hf & Hp & Hl' & _ & Hd).
      exists m'. rewrite Hf, Hp. cbn. by rewrite filter_remove.
    + exists m. by rewrite (find_none_spec m l xs).
Qed.

(** C38: the intrusive list refines a sequence.  Any run of pushes, pops and
    removals on the list in memory returns what the same run returns on the
    sequence of its nodes, and leaves the list of the sequence behind, provided
    that the cells pushed are mapped, not null and not already in the list. *)
Theorem inmemlist_refines_sequence (os : list list_op) (m : memory) (l : Z) (xs : list Z) :
  list_at m l xs → ops_ok (dom m) l os xs →
  ∃ m', run_ops l os m = Ret ((spec_ops os xs).1, m') ∧
    list_at m' l (spec_ops os xs).2 ∧ dom m' = dom m.
Proof.
  revert m xs. induction os as [|o os IH]; intros m xs Hl Hok; [by exists m|].
  destruct Hok as [Ho Hos].
  destruct (run_op_refines m l xs o Hl) as (m1 & Hr & Hl1 & Hd1); [done|].
  destruct (IH m1 _ Hl1) as (m2 & Hr2 & Hl2 & Hd2); [by rewrite Hd1|].
  exists m2. cbn. unfold mbind, M_bind. rewrite Hr. cbn in Hr2 |- *. rewrite Hr2.
  destruct (spec_op o xs) as [r ys]. cbn in *. destruct (spec_ops os ys).
  split; [done|]. split; [done|congruence].
Qed.

Lemma inmemlist_refines_sequence_witness :
  ∃ m', run_ops 8 [OpPush 4096; OpPush 8192; OpPush 12288; OpRemove 8192; OpPop]
          {[ 8 := 0; 4096 := 7; 8192 := 7; 12288 := 7 ]} =
        Ret ([None; None; None; Some 8192; Some 12288], m') ∧
    list_at m' 8 [4096] ∧
    dom m' = dom (M := memory) {[ 8 := 0; 4096 := 7; 8192 := 7; 12288 := 7 ]}.
Proof.
  apply (inmemlist_refines_sequence
           [OpPush 4096; OpPush 8192; OpPush 12288; OpRemove 8192; OpPop]
           {[ 8 := 0; 4096 := 7; 8192 := 7; 12288 := 7 ]} 8 []).
  - split; [apply NoDup_singleton|]. by exists 0.
  - repeat split; try (apply elem_of_dom; by eexists); try done; cbn; set_solver by lia.
Defined.
