(* ===== verification/Blocks.v ===== *)
(** * Blocks and pages of the buddy allocator

    The vocabulary in which the page allocator of [mem/palloc.rs] is specified:
    a block of order [i] at address [b] is the [2^i] pages from [b] on, and the
    nine free lists, as lists of addresses, stand for the pages of all their
    blocks.  Splitting and merging blocks are permutations of pages, and the
    buddy of a block is the other half of the block one order up. *)

From S2P Require Import Prelude Utils.

(** The addresses of the [cnt] pages from [b] on. *)
Definition page_range (b : Z) (cnt : Z) : list Z :=
  (λ k, b + k * PG_SIZE) <$> seqZ 0 cnt.

Definition block_size (i : nat) : Z := 2 ^ Z.of_nat i * PG_SIZE.
Definition block_pages (i : nat) (b : Z) : list Z := page_range b (2 ^ Z.of_nat i).

(** The buddy of a block, as [dealloc] computes it. *)
Definition buddy_of (b : Z) (i : nat) : Z :=
  Z.lxor b (Z.shiftl 1 (Z.of_nat i + PG_SHIFT)).

(** The blocks of free lists, the first list having order [k]. *)
Fixpoint blocks_from (k : nat) (fls : list (list Z)) : list (nat * Z) :=
  match fls with
  | [] => []
  | xs :: fls => (pair k <$> xs) ++ blocks_from (S k) fls
  end.

Definition blocks (fls : list (list Z)) : list (nat * Z) := blocks_from 0 fls.
Definition pages (fls : list (list Z)) : list Z :=
  blocks fls ≫= λ '(i, b), block_pages i b.

(** ** Ranges of pages *)

Lemma elem_of_page_range b cnt a :
  a ∈ page_range b cnt ↔ ∃ k, 0 ≤ k < cnt ∧ a = b + k * PG_SIZE.
Proof.
  unfold page_range. rewrite list_elem_of_fmap. split.
  - intros (k & -> & Hk%elem_of_seqZ). exists k. split; [lia|done].
  - intros (k & ? & ->). exists k. split; [done|]. apply elem_of_seqZ. lia.
Qed.

Lemma page_range_app b c d :
  0 ≤ c → 0 ≤ d → page_range b (c + d) = page_range b c ++ page_range (b + c * PG_SIZE) d.
Proof.
  intros. unfold page_range. rewrite seqZ_app by lia. rewrite fmap_app. f_equal.
  replace (seqZ (0 + c) d) with ((λ i, c + i) <$> seqZ 0 d) by (rewrite fmap_add_seqZ; f_equal; lia).
  rewrite <- list_fmap_compose. apply list_fmap_ext. intros. cbn. lia.
Qed.

Lemma page_range_nil b c : c ≤ 0 → page_range b c = [].
Proof. intros. unfold page_range. by rewrite seqZ_nil. Qed.

Lemma page_range_one b : page_range b 1 = [b].
Proof.
  unfold page_range. rewrite seqZ_cons, seqZ_nil by lia. cbn [fmap list_fmap]. f_equal. lia.
Qed.

Lemma length_page_range b c : 0 ≤ c → Z.of_nat (length (page_range b c)) = c.
Proof. intros. unfold page_range. rewrite length_fmap, length_seqZ. lia. Qed.

Lemma NoDup_page_range b c : NoDup (page_range b c).
Proof.
  unfold page_range. apply NoDup_fmap; [|apply NoDup_seqZ].
  intros x y. rewrite PG_SIZE_pow2. lia.
Qed.

(** ** Blocks *)

Lemma elem_of_block_pages i b a :
  a ∈ block_pages i b ↔ ∃ k, 0 ≤ k < 2 ^ Z.of_nat i ∧ a = b + k * PG_SIZE.
Proof. apply elem_of_page_range. Qed.

Lemma block_pages_head i b : b ∈ block_pages i b.
Proof. apply elem_of_block_pages. exists 0. pose proof (pow2_pos (Z.of_nat i)). lia. Qed.

Lemma length_block_pages i b : Z.of_nat (length (block_pages i b)) = 2 ^ Z.of_nat i.
Proof. apply length_page_range. pose proof (pow2_pos (Z.of_nat i)). lia. Qed.

(** A block is its two halves. *)
Lemma block_pages_split i b :
  block_pages (S i) b = block_pages i b ++ block_pages i (b + block_size i).
Proof.
  unfold block_pages, block_size. pose proof (pow2_pos (Z.of_nat i)).
  rewrite <- page_range_app by lia. f_equal.
  rewrite Nat2Z.inj_succ, Z.pow_succ_r by lia. lia.
Qed.

Lemma block_size_pow2 i : block_size i = 2 ^ (Z.of_nat i + 12).
Proof. unfold block_size. rewrite PG_SIZE_pow2, <- Z.pow_add_r by lia. done. Qed.

Lemma block_size_S i : block_size (S i) = 2 * block_size i.
Proof. rewrite !block_size_pow2, <- Z.pow_succ_r by lia. f_equal. lia. Qed.

Lemma block_size_pos i : 0 < block_size i.
Proof. rewrite block_size_pow2. apply pow2_pos. lia. Qed.

(** ** Buddies *)

Lemma lxor_pow2 c k : 0 ≤ k →
  Z.lxor (c * 2 ^ k) (2 ^ k) = if Z.even c then (c + 1) * 2 ^ k else (c - 1) * 2 ^ k.
Proof.
  intros Hk.
  replace (2 ^ k) with (Z.shiftl 1 k) at 2 by apply Z.shiftl_1_l.
  rewrite <- (Z.shiftl_mul_pow2 c), <- Z.shiftl_lxor, Z.shiftl_mul_pow2 by done.
  assert (Hev : ∀ d, Z.lxor (2 * d) 1 = 2 * d + 1).
  { intros d. symmetry. apply Z.add_nocarry_lxor.
    apply Z.bits_inj'. intros n Hn. rewrite Z.land_spec, Z.bits_0.
    destruct (decide (n = 0)) as [->|].
    - by rewrite Z.testbit_even_0.
    - rewrite (Z.bits_above_log2 1 n) by (cbn; lia). apply andb_false_r. }
  destruct (Z.even c) eqn:E.
  - apply Z.even_spec in E as [d ->]. by rewrite Hev.
  - rewrite <- Z.negb_odd, negb_false_iff, Z.odd_spec in E. destruct E as [d ->].
    assert (Hod : Z.lxor (2 * d + 1) 1 = 2 * d)
      by (by rewrite <- Hev, Z.lxor_assoc, Z.lxor_nilpotent, Z.lxor_0_r).
    rewrite Hod. f_equal. lia.
Qed.

Section buddies.
Context (b : Z) (i : nat) (Hb : (block_size i | b)).

Lemma buddy_of_cases :
  (buddy_of b i = b + block_size i ∧ (block_size (S i) | b)) ∨
  (buddy_of b i = b - block_size i ∧ (block_size (S i) | b - block_size i)).
Proof using Hb.
  destruct Hb as [c ->]. unfold buddy_of. rewrite Z.shiftl_1_l.
  rewrite block_size_S. rewrite (block_size_pow2 i). unfold PG_SHIFT.
  rewrite lxor_pow2 by lia.
  destruct (Z.even c) eqn:E.
  - apply Z.even_spec in E as [d ->]. left. split; [lia|]. exists d. lia.
  - rewrite <- Z.negb_odd, negb_false_iff, Z.odd_spec in E. destruct E as [d ->].
    right. split; [lia|]. exists d. lia.
Qed.

Lemma buddy_of_ne : buddy_of b i ≠ b.
Proof using Hb. pose proof (block_size_pos i). destruct buddy_of_cases; lia. Qed.

Lemma buddy_of_aligned : (block_size i | buddy_of b i).
Proof using Hb.
  destruct buddy_of_cases as [[-> _]|[-> _]].
  - apply Z.divide_add_r; [done|apply Z.divide_refl].
  - apply Z.divide_sub_r; [done|apply Z.divide_refl].
Qed.

(** The lower of the two buddies starts the merged block. *)
Lemma buddy_min_aligned : (block_size (S i) | Z.min b (buddy_of b i)).
Proof using Hb.
  pose proof (block_size_pos i).
  destruct buddy_of_cases as [[-> ?]|[-> ?]].
  - by rewrite Z.min_l by lia.
  - by rewrite Z.min_r by lia.
Qed.

Lemma buddy_merge :
  block_pages (S i) (Z.min b (buddy_of b i)) ≡ₚ block_pages i b ++ block_pages i (buddy_of b i).
Proof using Hb.
  pose proof (block_size_pos i). rewrite block_pages_split.
  destruct buddy_of_cases as [[-> _]|[-> _]].
  - by rewrite Z.min_l by lia.
  - rewrite Z.min_r, Z.sub_add by lia. apply Permutation_app_comm.
Qed.
End buddies.

Lemma buddy_of_involutive b i : buddy_of (buddy_of b i) i = b.
Proof. unfold buddy_of. by rewrite Z.lxor_assoc, Z.lxor_nilpotent, Z.lxor_0_r. Qed.

(** ** Free lists *)

Section free_lists.
Implicit Types (fls : list (list Z)) (xs ys : list Z).

Lemma elem_of_blocks_from k fls i b :
  (i, b) ∈ blocks_from k fls ↔
  ∃ j xs, i = (k + j)%nat ∧ fls !! j = Some xs ∧ b ∈ xs.
Proof.
  revert k. induction fls as [|ys fls IH]; intros k; cbn [blocks_from].
  { split; [set_solver|]. intros (j & xs & _ & Hj & _). by rewrite lookup_nil in Hj. }
  rewrite elem_of_app, IH, list_elem_of_fmap. split.
  - intros [(b' & [= -> ->] & Hb)|(j & xs & -> & Hj & Hb)].
    + exists 0%nat, ys. rewrite Nat.add_0_r. done.
    + exists (S j), xs. split; [lia|done].
  - intros ([|j] & xs & -> & Hj & Hb); cbn in Hj; simplify_eq.
    + left. exists b. rewrite Nat.add_0_r. done.
    + right. exists j, xs. split; [lia|done].
Qed.

Lemma elem_of_blocks fls i b :
  (i, b) ∈ blocks fls ↔ ∃ xs, fls !! i = Some xs ∧ b ∈ xs.
Proof.
  unfold blocks. rewrite elem_of_blocks_from. split.
  - intros (j & xs & -> & ? & ?). eauto.
  - intros (xs & ? & ?). exists i, xs. done.
Qed.

Lemma elem_of_pages fls a :
  a ∈ pages fls ↔ ∃ i xs b, fls !! i = Some xs ∧ b ∈ xs ∧ a ∈ block_pages i b.
Proof.
  unfold pages. rewrite list_elem_of_bind. split.
  - intros ([i b] & Ha & (xs & ? & ?)%elem_of_blocks). eauto 10.
  - intros (i & xs & b & ? & ? & ?). exists (i, b). split; [done|].
    apply elem_of_blocks. eauto.
Qed.

Lemma blocks_from_insert k fls i ys :
  (i < length fls)%nat →
  blocks_from k (<[i := ys]> fls) ≡ₚ
    (pair (k + i)%nat <$> ys) ++ blocks_from k (<[i := []]> fls).
Proof.
  revert k i. induction fls as [|xs fls IH]; intros k i Hi; [cbn in Hi; lia|].
  destruct i as [|i]; cbn.
  - by rewrite Nat.add_0_r.
  - rewrite (IH (S k) i) by (cbn in Hi; lia).
    rewrite !(assoc_L (++)). rewrite (Permutation_app_comm (pair k <$> xs)).
    replace (S k + i)%nat with (k + S i)%nat by lia. done.
Qed.

Lemma pages_insert fls i ys :
  (i < length fls)%nat →
  pages (<[i := ys]> fls) ≡ₚ (ys ≫= block_pages i) ++ pages (<[i := []]> fls).
Proof.
  intros Hi. unfold pages, blocks. rewrite (blocks_from_insert 0 fls i ys) by done.
  rewrite bind_app. apply Permutation_app_tail.
  induction ys as [|y ys IH]; cbn; [done|]. by rewrite IH.
Qed.

(** Taking a block out of a list, and putting one in. *)
Lemma pages_cons fls i x xs :
  (i < length fls)%nat →
  pages (<[i := x :: xs]> fls) ≡ₚ block_pages i x ++ pages (<[i := xs]> fls).
Proof.
  intros Hi. rewrite (pages_insert fls i (x :: xs)), (pages_insert fls i xs) by done.
  cbn. by rewrite (assoc_L (++)).
Qed.

Lemma pages_uncons fls i x xs :
  fls !! i = Some (x :: xs) → pages fls ≡ₚ block_pages i x ++ pages (<[i := xs]> fls).
Proof.
  intros Hi. rewrite <- (pages_cons fls i x xs) by (by eapply lookup_lt_Some).
  by rewrite list_insert_id.
Qed.

Lemma pages_remove fls i pre x post :
  fls !! i = Some (pre ++ x :: post) →
  pages fls ≡ₚ block_pages i x ++ pages (<[i := pre ++ post]> fls).
Proof.
  intros Hi. pose proof (lookup_lt_Some _ _ _ Hi) as Hlt.
  rewrite <- (list_insert_id fls i _ Hi) at 1.
  rewrite (pages_insert fls i (pre ++ x :: post)), (pages_insert fls i (pre ++ post)) by done.
  rewrite !bind_app. cbn. rewrite !(assoc_L (++)).
  by rewrite (Permutation_app_comm (pre ≫= block_pages i)).
Qed.

Lemma pages_heads fls i xs b : fls !! i = Some xs → b ∈ xs → b ∈ pages fls.
Proof. intros. apply elem_of_pages. eauto 10 using block_pages_head. Qed.

Lemma pages_empty n : pages (replicate n []) = [].
Proof.
  unfold pages, blocks. generalize 0%nat. induction n as [|n IH]; intros k; [done|].
  cbn. apply IH.
Qed.
End free_lists.
