(* ===== verification/Palloc.v ===== *)
(** * The page allocator

    [mem/palloc.rs]: the buddy allocator behind [Palloc] and [UserPool].  The
    operations run on the memory of [InMemList.v], so the free lists really live
    in the free pages.  [pool_inv] is the invariant of an allocator whose free
    lists hold the blocks [fls]; the theorems say that [insert_range], [alloc]
    and [dealloc] keep it, move exactly the right pages, keep the counters in
    step with the lists and leave no two free buddies unmerged. *)

From S2P Require Import Prelude Utils InMemList Blocks.

Definition MAX_ORDER : nat := 8.
Definition USER_POOL_LIMIT : Z := 256.

(** [struct BuddyAllocator]: the array [free_lists] is in memory, at an address
    fixed by the [static] that holds the allocator. *)
Record BuddyAllocator : Type := mkBuddy {
  ba_mem : memory;
  total : Z;
  allocated : Z;
}.

Section palloc.
Context (base : Z). (* the address of [free_lists] *)

Definition on_mem {A} (c : M memory A) : M BuddyAllocator A := λ s,
  match c (ba_mem s) with
  | Ret (a, m) => Ret (a, mkBuddy m (total s) (allocated s))
  | Panic p => Panic p
  end.

Definition add_total (d : Z) : M BuddyAllocator unit :=
  modify (λ s, mkBuddy (ba_mem s) (wrap64 (total s + d)) (allocated s)).
Definition add_allocated (d : Z) : M BuddyAllocator unit :=
  modify (λ s, mkBuddy (ba_mem s) (total s) (wrap64 (allocated s + d))).

(** [self.free_lists[i]], with the bounds check of the index. *)
Definition free_list (i : nat) : M BuddyAllocator Z :=
  if bool_decide (i ≤ MAX_ORDER)%nat then mret (base + 8 * Z.of_nat i)
  else fail IndexOutOfBounds.

Definition push_block (i : nat) (b : Z) : M BuddyAllocator unit :=
  l ← free_list i ; on_mem (push l b).
Definition pop_block (i : nat) : M BuddyAllocator (option Z) :=
  l ← free_list i ; on_mem (pop l).
Definition list_empty (i : nat) : M BuddyAllocator bool :=
  l ← free_list i ; on_mem (is_empty l).

(** [BuddyAllocator::empty] over a memory whose head words are null. *)
Definition empty (m : memory) : BuddyAllocator := mkBuddy m 0 0.

(** The body of the loop of [insert_range] computes the order of the next
    block; [order_at] is that computation. *)
Definition order_at (current_start end_ : Z) : nat :=
  let size := Z.min (wrap64 (Z.shiftl 1 (wrap 6 (trailing_zeros current_start))))
                    (prev_power_of_two (wrap64 (end_ - current_start))) in
  Z.to_nat (Z.min (wrap64 (trailing_zeros size - PG_SHIFT)) (Z.of_nat MAX_ORDER)).

Fixpoint insert_loop (fuel : nat) (current_start end_ : Z) : M BuddyAllocator unit :=
  match fuel with
  | O => fail OutOfFuel
  | S fuel =>
      if bool_decide (current_start < end_) then
        let order := order_at current_start end_ in
        push_block order current_start ;;
        insert_loop fuel (wrap64 (current_start + Z.shiftl 1 (Z.of_nat order) * PG_SIZE)) end_
      else mret ()
  end.

(** Every iteration takes at least one page. *)
Definition insert_range (start end_ : Z) : M BuddyAllocator unit :=
  start ← lift (round_up start PG_SIZE) ;
  end_ ← lift (round_down end_ PG_SIZE) ;
  add_total (end_ - start) ;;
  insert_loop (S (Z.to_nat ((end_ - start) / PG_SIZE))) start end_.

(** One step of the splitting loop of [alloc]. *)
Definition split_step (j : nat) : M BuddyAllocator unit :=
  blk ← pop_block (S j) ;
  match blk with
  | Some block =>
      let half := wrap64 (block + Z.shiftl 1 (Z.of_nat j) * PG_SIZE) in
      push_block j half ;;
      push_block j block
  | None => mret ()
  end.

Definition unwrap {S A} (o : option A) : M S A :=
  match o with Some a => mret a | None => fail UnwrapNone end.

Fixpoint alloc_scan (order : nat) (idxs : list nat) : M BuddyAllocator Z :=
  match idxs with
  | [] => fail Unreachable (* memory is exhausted *)
  | i :: idxs =>
      e ← list_empty i ;
      if negb e then
        for_each (rev (seq order (i - order))) split_step ;;
        add_allocated (Z.shiftl 1 (Z.of_nat order)) ;;
        p ← pop_block order ;
        unwrap p
      else alloc_scan order idxs
  end.

Definition order_of (n : Z) : nat := Z.to_nat (trailing_zeros (next_power_of_two n)).

Definition alloc (n : Z) : M BuddyAllocator Z :=
  lift (assert_ (bool_decide (n ≤ Z.shiftl 1 (Z.of_nat MAX_ORDER)))) ;;
  let order := order_of n in
  alloc_scan order (seq order (S MAX_ORDER - order)).

(** The merging loop of [dealloc]; the order grows, so the fuel is at most
    [MAX_ORDER + 1]. *)
Fixpoint merge_loop (fuel : nat) (curr_ptr : Z) (curr_order : nat) : M BuddyAllocator unit :=
  match fuel with
  | O => fail OutOfFuel
  | S fuel =>
      if bool_decide (curr_order < MAX_ORDER)%nat then
        let buddy := buddy_of curr_ptr curr_order in
        l ← free_list curr_order ;
        r ← on_mem (find l (λ nd, bool_decide (node_value nd = buddy))) ;
        match r with
        | Some blk =>
            on_mem (node_pop blk) ;;
            pop_block curr_order ;;
            let curr_ptr := Z.min curr_ptr buddy in
            push_block (S curr_order) curr_ptr ;;
            merge_loop fuel curr_ptr (S curr_order)
        | None => mret ()
        end
      else mret ()
  end.

Definition dealloc (ptr n : Z) : M BuddyAllocator unit :=
  let order := order_of n in
  push_block order ptr ;;
  merge_loop (S MAX_ORDER) ptr order ;;
  add_allocated (- Z.shiftl 1 (Z.of_nat order)).

(** ** The invariant *)

Definition head_words : list Z := (λ i, base + 8 * i) <$> seqZ 0 9.

(** All the words of the page at [pg] are mapped. *)
Definition page_mapped (m : memory) (pg : Z) : Prop :=
  ∀ k, 0 ≤ k < 512 → is_Some (m !! (pg + 8 * k)).

(** The memory [m] holds an allocator whose free lists are [fls]. *)
Record pool_inv (m : memory) (fls : list (list Z)) : Prop := {
  pi_length : length fls = S MAX_ORDER;
  pi_lists : ∀ i xs, fls !! i = Some xs → list_at m (base + 8 * Z.of_nat i) xs;
  pi_nodup : NoDup (pages fls);
  pi_mapped : ∀ a, a ∈ pages fls → page_mapped m a;
  pi_heads : ∀ h a, h ∈ head_words → a ∈ pages fls → ¬ (a ≤ h < a + PG_SIZE);
  pi_aligned : ∀ i xs b, fls !! i = Some xs → b ∈ xs → (block_size i | b);
  pi_range : ∀ a, a ∈ pages fls → 0 < a ∧ a + PG_SIZE ≤ 2 ^ 64;
}.

(** No two free blocks below the top order are buddies. *)
Definition coalesced (fls : list (list Z)) : Prop :=
  ∀ i xs b, (i < MAX_ORDER)%nat → fls !! i = Some xs → b ∈ xs → buddy_of b i ∉ xs.

(** A block that may be given to the allocator: aligned, mapped, away from the
    free pages and from the head words. *)
Record block_ok (m : memory) (fls : list (list Z)) (i : nat) (b : Z) : Prop := {
  bo_nodup : NoDup (block_pages i b ++ pages fls);
  bo_mapped : ∀ a, a ∈ block_pages i b → page_mapped m a;
  bo_heads : ∀ h a, h ∈ head_words → a ∈ block_pages i b → ¬ (a ≤ h < a + PG_SIZE);
  bo_aligned : (block_size i | b);
  bo_range : ∀ a, a ∈ block_pages i b → 0 < a ∧ a + PG_SIZE ≤ 2 ^ 64;
}.

(** ** The steps keep the invariant *)

Lemma elem_of_head_words i : (i ≤ MAX_ORDER)%nat → base + 8 * Z.of_nat i ∈ head_words.
Proof.
  intros. unfold head_words. apply list_elem_of_fmap. exists (Z.of_nat i).
  split; [done|]. apply elem_of_seqZ. unfold MAX_ORDER in *. lia.
Qed.

Lemma page_mapped_dom (m m' : memory) a :
  dom m' = dom m → page_mapped m a → page_mapped m' a.
Proof.
  intros Hd Hm k Hk. apply elem_of_dom. rewrite Hd. apply elem_of_dom. by apply Hm.
Qed.

Lemma page_mapped_head (m : memory) a : page_mapped m a → is_Some (m !! a).
Proof. intros Hm. specialize (Hm 0). rewrite Z.add_0_r in Hm. apply Hm. lia. Qed.

Section steps.
Context (m : memory) (fls : list (list Z)) (Hinv : pool_inv m fls).

Lemma pool_index i xs : fls !! i = Some xs → (i ≤ MAX_ORDER)%nat.
Proof using Hinv.
  intros H%lookup_lt_Some. rewrite (pi_length _ _ Hinv) in H. lia.
Qed.

(** The nodes of the lists are not head words. *)
Lemma node_not_head i xs b h :
  fls !! i = Some xs → b ∈ xs → h ∈ head_words → h ≠ b.
Proof using Hinv.
  intros Hi Hb Hh ->. eapply (pi_heads _ _ Hinv); [done|by eapply pages_heads|].
  rewrite PG_SIZE_pow2. lia.
Qed.

(** A node is in one list only. *)
Lemma node_unique i j xs ys b :
  fls !! i = Some xs → fls !! j = Some ys → b ∈ xs → b ∈ ys → i = j.
Proof using Hinv.
  intros Hi Hj Hx Hy. destruct (decide (i = j)) as [|Hne]; [done|exfalso].
  apply list_elem_of_split in Hx as (pre & post & ->).
  pose proof (pi_nodup _ _ Hinv) as Hnd.
  rewrite (pages_remove _ _ _ _ _ Hi) in Hnd.
  apply NoDup_app in Hnd as (_ & Hd & _). apply (Hd b (block_pages_head i b)).
  apply (pages_heads _ j ys); [|done]. by rewrite list_lookup_insert_ne.
Qed.

(** Changing the cells of one list leaves the other lists alone. *)
Lemma other_list_frame (m' : memory) i j xs ys :
  fls !! i = Some xs → fls !! j = Some ys → i ≠ j →
  (∀ a, a ∉ (base + 8 * Z.of_nat i) :: xs → m' !! a = m !! a) →
  list_at m' (base + 8 * Z.of_nat j) ys.
Proof using Hinv.
  intros Hi Hj Hne Hf. apply (list_at_frame m); [|by apply (pi_lists _ _ Hinv)].
  intros a Ha. apply Hf. intros Ha'.
  pose proof (elem_of_head_words i (pool_index _ _ Hi)) as Hhi.
  pose proof (elem_of_head_words j (pool_index _ _ Hj)) as Hhj.
  apply elem_of_cons in Ha as [->|Ha]; apply elem_of_cons in Ha' as [Ha'|Ha'].
  - lia.
  - by apply (node_not_head i xs _ _ Hi Ha' Hhj).
  - subst a. by apply (node_not_head j ys _ _ Hj Ha Hhi).
  - apply Hne. by eapply node_unique.
Qed.

(** Replacing list [i] by [ys], whose pages are free pages, in memory [m']. *)
Lemma pool_inv_shrink (m' : memory) i xs ys rest :
  fls !! i = Some xs → list_at m' (base + 8 * Z.of_nat i) ys →
  (∀ a, a ∉ (base + 8 * Z.of_nat i) :: xs → m' !! a = m !! a) → dom m' = dom m →
  (∀ b, b ∈ ys → b ∈ xs) → pages fls ≡ₚ rest ++ pages (<[i := ys]> fls) →
  pool_inv m' (<[i := ys]> fls).
Proof using Hinv.
  intros Hi Hl Hf Hd Hsub Hp. destruct Hinv as [Hlen Hls Hnd Hmap Hh Hal Hr].
  assert (Hin : ∀ a, a ∈ pages (<[i := ys]> fls) → a ∈ pages fls).
  { intros a Ha. rewrite Hp. apply elem_of_app. by right. }
  split.
  - by rewrite length_insert.
  - intros j zs Hj. destruct (decide (i = j)) as [->|Hne].
    + rewrite list_lookup_insert_eq in Hj by (by eapply lookup_lt_Some).
      by simplify_eq.
    + rewrite list_lookup_insert_ne in Hj by done.
      eapply (other_list_frame m' i j); done.
  - rewrite Hp in Hnd. by apply NoDup_app in Hnd as (_ & _ & ?).
  - intros a Ha. eapply page_mapped_dom; [done|]. eauto.
  - eauto.
  - intros j zs b Hj Hb. destruct (decide (i = j)) as [->|Hne].
    + rewrite list_lookup_insert_eq in Hj by (by eapply lookup_lt_Some).
      simplify_eq. eauto.
    + rewrite list_lookup_insert_ne in Hj by done. eauto.
  - eauto.
Qed.

Lemma free_list_spec i s : (i ≤ MAX_ORDER)%nat →
  free_list i s = Ret (base + 8 * Z.of_nat i, s).
Proof. intros. unfold free_list. by rewrite bool_decide_eq_true_2. Qed.

Lemma list_empty_spec i xs t al :
  fls !! i = Some xs →
  list_empty i (mkBuddy m t al) = Ret (bool_decide (xs = []), mkBuddy m t al).
Proof using Hinv.
  intros Hi. unfold list_empty, on_mem. unmonad.
  rewrite free_list_spec by (by eapply pool_index). cbn.
  rewrite (is_empty_spec _ _ xs); [done|]. by apply (pi_lists _ _ Hinv).
Qed.

Lemma pop_block_spec i x xs t al :
  fls !! i = Some (x :: xs) →
  ∃ m', pop_block i (mkBuddy m t al) = Ret (Some x, mkBuddy m' t al) ∧
    pool_inv m' (<[i := xs]> fls) ∧ dom m' = dom m.
Proof using Hinv.
  intros Hi. destruct (pop_spec m _ x xs (pi_lists _ _ Hinv _ _ Hi))
    as (m' & Hpop & Hl & Hf & Hd).
  exists m'. split; [|split; [|done]].
  - unfold pop_block, on_mem. unmonad.
    rewrite free_list_spec by (by eapply pool_index). cbn. by rewrite Hpop.
  - eapply pool_inv_shrink; [done|done| |done|by right|by apply pages_uncons].
    intros a Ha. apply Hf. set_solver.
Qed.

Lemma push_block_spec i x xs t al :
  fls !! i = Some xs → block_ok m fls i x →
  ∃ m', push_block i x (mkBuddy m t al) = Ret ((), mkBuddy m' t al) ∧
    pool_inv m' (<[i := x :: xs]> fls) ∧ dom m' = dom m ∧
    pages (<[i := x :: xs]> fls) ≡ₚ block_pages i x ++ pages fls.
Proof using Hinv.
  intros Hi [Hnd Hmap Hh Hal Hr].
  pose proof (lookup_lt_Some _ _ _ Hi) as Hlt.
  pose proof (block_pages_head i x) as Hx.
  pose proof (elem_of_head_words i (pool_index _ _ Hi)) as Hhd.
  assert (Hxh : ∀ h, h ∈ head_words → h ≠ x).
  { intros h Hin ->. apply (Hh _ _ Hin Hx). rewrite PG_SIZE_pow2. lia. }
  assert (Hxp : ∀ j ys, fls !! j = Some ys → x ∉ ys).
  { intros j ys Hj Hin. apply NoDup_app in Hnd as (_ & Hd & _).
    eapply Hd; [done|]. by eapply pages_heads. }
  assert (Hp : pages (<[i := x :: xs]> fls) ≡ₚ block_pages i x ++ pages fls).
  { rewrite pages_cons by done. by rewrite (list_insert_id fls i xs). }
  destruct (push_spec m (base + 8 * Z.of_nat i) x xs) as (m' & Hpush & Hl & Hf & Hd).
  { by apply (pi_lists _ _ Hinv). }
  { apply page_mapped_head. by apply Hmap. }
  { specialize (Hr _ Hx). lia. }
  { apply not_elem_of_cons. split; [apply not_eq_sym; by apply Hxh|by eapply Hxp]. }
  exists m'. split; [|split; [|split; [done|done]]].
  { unfold push_block, on_mem. unmonad.
    rewrite free_list_spec by (by eapply pool_index). cbn. by rewrite Hpush. }
  assert (Hin : ∀ a, a ∈ pages (<[i := x :: xs]> fls) → a ∈ block_pages i x ∨ a ∈ pages fls).
  { intros a Ha. by rewrite Hp, elem_of_app in Ha. }
  split.
  - rewrite length_insert. apply (pi_length _ _ Hinv).
  - intros j ys Hj. destruct (decide (i = j)) as [->|Hne].
    + rewrite list_lookup_insert_eq in Hj by done. by simplify_eq.
    + rewrite list_lookup_insert_ne in Hj by done.
      apply (list_at_frame m); [|by apply (pi_lists _ _ Hinv)].
      pose proof (elem_of_head_words j (pool_index _ _ Hj)) as Hhj.
      intros a [->|Ha]%elem_of_cons; apply Hf.
      * lia.
      * by apply Hxh.
      * intros ->. by apply (node_not_head j ys _ _ Hj Ha Hhd).
      * intros ->. by apply (Hxp _ _ Hj).
  - by rewrite Hp.
  - intros a [Ha|Ha]%Hin; (eapply page_mapped_dom; [done|]); [by apply Hmap|].
    by apply (pi_mapped _ _ Hinv).
  - intros h a Hhh [Ha|Ha]%Hin; [by apply Hh|by apply (pi_heads _ _ Hinv)].
  - intros j ys b Hj Hb. destruct (decide (i = j)) as [->|Hne].
    + rewrite list_lookup_insert_eq in Hj by done. simplify_eq.
      apply elem_of_cons in Hb as [->|Hb]; [done|]. by eapply (pi_aligned _ _ Hinv).
    + rewrite list_lookup_insert_ne in Hj by done. by eapply (pi_aligned _ _ Hinv).
  - intros a [Ha|Ha]%Hin; [by apply Hr|by apply (pi_range _ _ Hinv)].
Qed.
End steps.

(** A block taken out of the lists may be given back. *)
Lemma block_ok_taken m m' fls fls' i b rest :
  pool_inv m fls → dom m' = dom m → (block_size i | b) →
  pages fls ≡ₚ rest ++ block_pages i b ++ pages fls' → block_ok m' fls' i b.
Proof.
  intros Hinv Hd Hal Hp.
  assert (Hin : ∀ a, a ∈ block_pages i b → a ∈ pages fls).
  { intros a Ha. rewrite Hp, !elem_of_app. auto. }
  split.
  - pose proof (pi_nodup _ _ Hinv) as Hnd. rewrite Hp in Hnd.
    by apply NoDup_app in Hnd as (_ & _ & ?).
  - intros a Ha. eapply page_mapped_dom; [done|]. apply (pi_mapped _ _ Hinv). auto.
  - intros h a Hh Ha. apply (pi_heads _ _ Hinv); auto.
  - done.
  - intros a Ha. apply (pi_range _ _ Hinv). auto.
Qed.

Lemma coalesced_insert fls i ys :
  coalesced fls → (∀ b, b ∈ ys → buddy_of b i ∉ ys) → coalesced (<[i := ys]> fls).
Proof.
  intros Hc Hys j xs b Hj Hx Hb. destruct (decide (i = j)) as [->|Hne].
  - apply list_lookup_insert_Some in Hx as [(_ & <- & _)|(? & _)]; [|done]. auto.
  - rewrite list_lookup_insert_ne in Hx by done. eauto.
Qed.

Lemma coalesced_sub fls i xs ys :
  coalesced fls → fls !! i = Some xs → (∀ b, b ∈ ys → b ∈ xs) →
  coalesced (<[i := ys]> fls).
Proof.
  intros Hc Hi Hsub j zs b Hj Hz Hb. destruct (decide (i = j)) as [->|Hne].
  - apply list_lookup_insert_Some in Hz as [(_ & <- & _)|(? & _)]; [|done].
    intros Hin. eapply (Hc j xs b); eauto.
  - rewrite list_lookup_insert_ne in Hz by done. eauto.
Qed.

(** *** Allocation *)

Lemma aligned_half fls m j b rest :
  pool_inv m fls → fls !! S j = Some (b :: rest) →
  (block_size j | b) ∧ (block_size j | b + block_size j) ∧
  wrap64 (b + Z.shiftl 1 (Z.of_nat j) * PG_SIZE) = b + block_size j.
Proof.
  intros Hinv HSj.
  pose proof (pi_aligned _ _ Hinv _ _ b HSj ltac:(left)) as Hal.
  assert (Halj : (block_size j | b)).
  { etrans; [|exact Hal]. rewrite block_size_S. apply Z.divide_factor_r. }
  split; [done|]. split; [apply Z.divide_add_r; [done|apply Z.divide_refl]|].
  rewrite Z.shiftl_1_l. fold (block_size j). apply wrap_small.
  destruct (pi_range _ _ Hinv (b + block_size j)) as [? ?].
  - rewrite (pages_uncons _ _ _ _ HSj), block_pages_split, !elem_of_app.
    left. right. apply block_pages_head.
  - rewrite PG_SIZE_pow2 in *. unfold in_range. lia.
Qed.

Lemma split_step_spec m fls j b rest ys t al :
  pool_inv m fls → fls !! S j = Some (b :: rest) → fls !! j = Some ys →
  ∃ m', let fls' := <[j := b :: b + block_size j :: ys]> (<[S j := rest]> fls) in
    split_step j (mkBuddy m t al) = Ret ((), mkBuddy m' t al) ∧
    pool_inv m' fls' ∧ dom m' = dom m ∧ pages fls' ≡ₚ pages fls.
Proof.
  intros Hinv HSj Hj.
  destruct (pop_block_spec m fls Hinv (S j) b rest t al HSj) as (m1 & Hpop & Hinv1 & Hd1).
  destruct (aligned_half fls m j b rest Hinv HSj) as (Halb & Halh & Hhalf).
  pose proof (pages_uncons _ _ _ _ HSj) as Hp.
  rewrite block_pages_split, <- (assoc_L (++)) in Hp.
  set (fls1 := <[S j := rest]> fls) in *.
  assert (Hj1 : fls1 !! j = Some ys) by (unfold fls1; by rewrite list_lookup_insert_ne by lia).
  pose proof (lookup_lt_Some _ _ _ Hj1) as Hlt.
  destruct (push_block_spec m1 fls1 Hinv1 j (b + block_size j) ys t al Hj1)
    as (m2 & Hpush2 & Hinv2 & Hd2 & Hp2).
  { by eapply (block_ok_taken m m1 fls fls1). }
  destruct (push_block_spec m2 _ Hinv2 j b (b + block_size j :: ys) t al)
    as (m3 & Hpush3 & Hinv3 & Hd3 & Hp3).
  { by apply list_lookup_insert_eq. }
  { eapply (block_ok_taken m m2 fls _ _ _ []); [done|congruence|done|].
    cbn [app]. by rewrite Hp2. }
  rewrite list_insert_insert_eq in Hinv3, Hp3.
  exists m3. cbn zeta. split; [|split; [done|split; [congruence|]]].
  - unfold split_step. unmonad. rewrite Hpop, Hhalf, Hpush2, Hpush3. done.
  - by rewrite Hp3, Hp2, Hp.
Qed.

Lemma split_loop_spec d : ∀ m fls o b rest t al,
  pool_inv m fls → fls !! (o + d)%nat = Some (b :: rest) →
  (∀ j, (o ≤ j < o + d)%nat → fls !! j = Some []) →
  ∃ m' fls' xs,
    for_each (rev (seq o d)) split_step (mkBuddy m t al) = Ret ((), mkBuddy m' t al) ∧
    pool_inv m' fls' ∧ dom m' = dom m ∧ pages fls' ≡ₚ pages fls ∧
    fls' !! o = Some (b :: xs) ∧
    (coalesced (<[(o + d)%nat := rest]> fls) → coalesced (<[o := xs]> fls')).
Proof.
  induction d as [|d IH]; intros m fls o b rest t al Hinv Hi Hemp.
  { exists m, fls, rest. rewrite Nat.add_0_r in *. done. }
  replace (o + S d)%nat with (S (o + d)) in * by lia.
  destruct (split_step_spec m fls (o + d) b rest [] t al Hinv Hi) as (m1 & Hs & Hinv1 & Hd1 & Hp1).
  { apply Hemp. lia. }
  set (fls1 := <[(o + d)%nat := _]> (<[S (o + d) := rest]> fls)) in *.
  assert (Hlt : (o + d < length (<[S (o + d) := rest]> fls))%nat).
  { rewrite length_insert. apply lookup_lt_Some in Hi. lia. }
  destruct (IH m1 fls1 o b [b + block_size (o + d)] t al Hinv1)
    as (m2 & fls2 & xs & Hl & Hinv2 & Hd2 & Hp2 & Ho & Hc).
  { unfold fls1. by rewrite list_lookup_insert_eq. }
  { intros j Hj. unfold fls1. rewrite !list_lookup_insert_ne by lia. apply Hemp. lia. }
  exists m2, fls2, xs. split; [|split; [done|split; [congruence|split; [by rewrite Hp2|split; [done|]]]]].
  - rewrite seq_S, rev_unit. cbn [for_each]. unmonad. rewrite Hs. done.
  - intros Hcr. apply Hc. unfold fls1. rewrite list_insert_insert_eq.
    apply coalesced_insert; [done|]. intros b' ->%list_elem_of_singleton.
    rewrite list_elem_of_singleton. apply buddy_of_ne.
    by apply (aligned_half fls m (o + d) b rest).
Qed.

Definition exhausted (fls : list (list Z)) (o : nat) : Prop :=
  ∀ j, (o ≤ j ≤ MAX_ORDER)%nat → fls !! j = Some [].

(** What a successful allocation of [2^o] pages returns and leaves behind. *)
Definition alloc_post (m : memory) (fls : list (list Z)) (o : nat) (p : Z)
    (m' : memory) (fls' : list (list Z)) : Prop :=
  pool_inv m' fls' ∧ dom m' = dom m ∧ (block_size o | p) ∧
  pages fls ≡ₚ block_pages o p ++ pages fls' ∧
  (coalesced fls → coalesced fls').

Lemma alloc_scan_spec k : ∀ m fls o i0 t al,
  pool_inv m fls → (i0 + k = S MAX_ORDER)%nat → (o ≤ i0)%nat →
  (∀ j, (o ≤ j < i0)%nat → fls !! j = Some []) →
  (exhausted fls o ∧ alloc_scan o (seq i0 k) (mkBuddy m t al) = Panic Unreachable) ∨
  (¬ exhausted fls o ∧ ∃ p m' fls',
    alloc_scan o (seq i0 k) (mkBuddy m t al) =
      Ret (p, mkBuddy m' t (wrap64 (al + 2 ^ Z.of_nat o))) ∧
    alloc_post m fls o p m' fls').
Proof.
  induction k as [|k IH]; intros m fls o i0 t al Hinv Hk Ho Hemp.
  { left. split; [|done]. intros j Hj. apply Hemp. lia. }
  destruct (lookup_lt_is_Some_2 fls i0) as [xs Hxs].
  { rewrite (pi_length _ _ Hinv). lia. }
  cbn [seq alloc_scan]. unmonad.
  rewrite (list_empty_spec m fls Hinv i0 xs t al Hxs).
  destruct xs as [|b rest].
  - rewrite bool_decide_eq_true_2 by done. cbn [negb].
    apply IH; [done|lia|lia|]. intros j Hj.
    destruct (decide (j = i0)) as [->|]; [done|]. apply Hemp. lia.
  - right. rewrite bool_decide_eq_false_2 by done. cbn [negb].
    split; [intros He; specialize (He i0); rewrite Hxs in He; naive_solver lia|].
    destruct (split_loop_spec (i0 - o) m fls o b rest t al Hinv)
      as (m1 & fls1 & xs & Hl & Hinv1 & Hd1 & Hp1 & Ho1 & Hc1).
    { by replace (o + (i0 - o))%nat with i0 by lia. }
    { intros j Hj. apply Hemp. lia. }
    replace (o + (i0 - o))%nat with i0 in Hc1 by lia.
    unfold mbind, M_bind in Hl. rewrite Hl. cbn.
    destruct (pop_block_spec m1 fls1 Hinv1 o b xs t (wrap64 (al + 2 ^ Z.of_nat o)) Ho1)
      as (m2 & Hpop & Hinv2 & Hd2).
    rewrite Z.shiftl_1_l, Hpop. exists b, m2, (<[o := xs]> fls1).
    split; [done|]. split; [done|]. split; [congruence|]. split; [|split].
    + apply (pi_aligned _ _ Hinv1 _ _ b Ho1). left.
    + rewrite <- Hp1. by apply pages_uncons.
    + intros Hc. apply Hc1. apply (coalesced_sub _ _ (b :: rest)); [done..|by right].
Qed.

Lemma order_of_small n : n ≤ 2 ^ 63 → Z.of_nat (order_of n) = Z.log2_up n.
Proof.
  intros. unfold order_of. rewrite trailing_zeros_next_power_of_two by done.
  rewrite Z2Nat.id; [done|apply Z.log2_up_nonneg].
Qed.

(** [2^order] pages are enough for [n], and no smaller power of two is. *)
Lemma order_of_spec n : 0 ≤ n ≤ 2 ^ 63 →
  n ≤ 2 ^ Z.of_nat (order_of n) ∧ (1 < n → 2 ^ Z.of_nat (order_of n) < 2 * n).
Proof.
  intros Hn. rewrite order_of_small by lia. split.
  - destruct (decide (n ≤ 1)); [rewrite Z.log2_up_eqn0 by lia; cbn; lia|].
    apply Z.log2_up_spec. lia.
  - intros H1. pose proof (Z.log2_up_spec n H1) as [Hlo _].
    pose proof (Z.log2_up_pos n H1).
    rewrite <- (Z.succ_pred (Z.log2_up n)), Z.pow_succ_r by lia. lia.
Qed.

Lemma order_of_le n : n ≤ 256 → (order_of n ≤ MAX_ORDER)%nat.
Proof.
  intros Hn. enough (Z.log2_up n ≤ 8).
  { pose proof (order_of_small n). unfold MAX_ORDER. lia. }
  apply Z.log2_up_le_mono in Hn. done.
Qed.

(** *** Deallocation *)

(** A buddy found in the list is unlinked, the block itself is popped, and the
    two become one block an order up. *)
Lemma merge_step_spec m fls k p pre post t al :
  pool_inv m fls → (k < MAX_ORDER)%nat →
  fls !! k = Some (p :: pre ++ buddy_of p k :: post) →
  ∃ nd m1 m2 m3 zs,
    let l := base + 8 * Z.of_nat k in
    let q := Z.min p (buddy_of p k) in
    let fls' := <[S k := q :: zs]> (<[k := pre ++ post]> fls) in
    find l (λ nd, bool_decide (node_value nd = buddy_of p k)) m = Ret (Some nd, m) ∧
    node_pop nd m = Ret (buddy_of p k, m1) ∧
    pop_block k (mkBuddy m1 t al) = Ret (Some p, mkBuddy m2 t al) ∧
    push_block (S k) q (mkBuddy m2 t al) = Ret ((), mkBuddy m3 t al) ∧
    pool_inv m3 fls' ∧ dom m3 = dom m ∧ pages fls' ≡ₚ pages fls ∧
    fls !! S k = Some zs.
Proof.
  intros Hinv Hk Hfk.
  pose proof (pi_aligned _ _ Hinv k _ p Hfk ltac:(left)) as Hal.
  pose proof (pi_lists _ _ Hinv _ _ Hfk) as Hl.
  pose proof (lookup_lt_Some _ _ _ Hfk) as Hlt.
  destruct (find_pop_spec m _ (p :: pre) (buddy_of p k) post Hl)
    as (nd & m1 & Hfind & Hnpop & Hl1 & Hf1 & Hd1).
  pose proof (pages_remove fls k (p :: pre) (buddy_of p k) post Hfk) as Hp1.
  assert (Hinv1 : pool_inv m1 (<[k := p :: pre ++ post]> fls)).
  { eapply (pool_inv_shrink m fls); [done|done|done|done|done| |exact Hp1].
    set_solver. }
  destruct (pop_block_spec m1 _ Hinv1 k p (pre ++ post) t al) as (m2 & Hpop & Hinv2 & Hd2).
  { by apply list_lookup_insert_eq. }
  rewrite list_insert_insert_eq in Hinv2.
  destruct (lookup_lt_is_Some_2 fls (S k)) as [zs Hzs].
  { rewrite (pi_length _ _ Hinv). lia. }
  assert (Hp2 : pages fls ≡ₚ block_pages (S k) (Z.min p (buddy_of p k)) ++
                  pages (<[k := pre ++ post]> fls)).
  { rewrite (buddy_merge p k Hal), Hp1. cbn [app]. rewrite (pages_cons fls k) by done.
    rewrite !(assoc_L (++)). apply Permutation_app_tail, Permutation_app_comm. }
  destruct (push_block_spec m2 _ Hinv2 (S k) (Z.min p (buddy_of p k)) zs t al)
    as (m3 & Hpush & Hinv3 & Hd3 & Hp3).
  { by rewrite list_lookup_insert_ne by lia. }
  { eapply (block_ok_taken m m2 fls _ _ _ []); [done|congruence|by apply buddy_min_aligned|done]. }
  exists nd, m1, m2, m3, zs. cbn zeta.
  repeat (split; [done|]). split; [congruence|]. split; [|done].
  by rewrite Hp3, Hp2.
Qed.

Lemma merge_loop_spec fuel : ∀ m fls k p ys t al,
  pool_inv m fls → (k ≤ MAX_ORDER)%nat → (MAX_ORDER < k + fuel)%nat →
  fls !! k = Some (p :: ys) →
  ∃ m' fls',
    merge_loop fuel p k (mkBuddy m t al) = Ret ((), mkBuddy m' t al) ∧
    pool_inv m' fls' ∧ dom m' = dom m ∧ pages fls' ≡ₚ pages fls ∧
    (coalesced (<[k := ys]> fls) → coalesced fls').
Proof.
  induction fuel as [|fuel IH]; intros m fls k p ys t al Hinv Hk Hfuel Hfk; [lia|].
  pose proof (lookup_lt_Some _ _ _ Hfk) as Hlt.
  cbn [merge_loop]. destruct (decide (k < MAX_ORDER)%nat) as [Hk8|Hk8].
  2:{ rewrite bool_decide_eq_false_2 by done. exists m, fls. repeat (split; [done|]).
      intros Hc j xs b Hj Hx. apply (Hc j); [done|].
      rewrite list_lookup_insert_ne; [done|lia]. }
  rewrite bool_decide_eq_true_2 by done. unmonad. rewrite free_list_spec by done.
  destruct (decide (buddy_of p k ∈ ys)) as [Hin|Hnin].
  - apply list_elem_of_split in Hin as (pre & post & ->).
    destruct (merge_step_spec m fls k p pre post t al Hinv Hk8 Hfk)
      as (nd & m1 & m2 & m3 & zs & Hfind & Hnpop & Hpop & Hpush & Hinv3 & Hd3 & Hp3 & Hzs).
    unfold on_mem. cbn [ba_mem total allocated]. rewrite Hfind. cbn [ba_mem total allocated].
    rewrite Hnpop. cbn [ba_mem total allocated]. rewrite Hpop, Hpush.
    edestruct (IH m3 _ (S k) (Z.min p (buddy_of p k)) zs t al Hinv3)
      as (m4 & fls4 & Hm & Hinv4 & Hd4 & Hp4 & Hc4); [lia|lia| |].
    { rewrite list_lookup_insert_eq; [done|].
      rewrite length_insert, (pi_length _ _ Hinv). lia. }
    exists m4, fls4. unfold mbind, M_bind in Hm. rewrite Hm.
    split; [done|]. split; [done|]. split; [congruence|].
    split; [by rewrite Hp4|]. intros Hc. apply Hc4.
    rewrite list_insert_insert_eq, list_insert_id by (by rewrite list_lookup_insert_ne by lia).
    replace (<[k := pre ++ post]> fls)
      with (<[k := pre ++ post]> (<[k := pre ++ buddy_of p k :: post]> fls))
      by (by rewrite list_insert_insert_eq).
    eapply coalesced_sub; [exact Hc|by apply list_lookup_insert_eq|set_solver].
  - unfold on_mem. cbn [ba_mem total allocated].
    pose proof (pi_aligned _ _ Hinv k _ p Hfk ltac:(left)) as Hal.
    pose proof (buddy_of_ne p k Hal) as Hbne.
    rewrite (find_none_spec m _ (p :: ys)); [|by apply (pi_lists _ _ Hinv)|set_solver].
    exists m, fls. repeat (split; [done|]). intros Hc.
    replace fls with (<[k := p :: ys]> (<[k := ys]> fls))
      by (by rewrite list_insert_insert_eq, list_insert_id).
    apply coalesced_insert; [done|].
    intros b [->|Hb]%elem_of_cons [He|Hin]%elem_of_cons; [done|done| |].
    + apply Hnin. by rewrite <- He, buddy_of_involutive.
    + eapply (Hc k ys b); [done|by apply list_lookup_insert_eq|done|done].
Qed.

Definition dealloc_post (m : memory) (fls : list (list Z)) (o : nat) (p : Z)
    (m' : memory) (fls' : list (list Z)) : Prop :=
  pool_inv m' fls' ∧ dom m' = dom m ∧
  pages fls' ≡ₚ block_pages o p ++ pages fls ∧ (coalesced fls → coalesced fls').

Lemma dealloc_spec m fls n p t al :
  pool_inv m fls → n ≤ 256 → block_ok m fls (order_of n) p →
  ∃ m' fls',
    dealloc p n (mkBuddy m t al) =
      Ret ((), mkBuddy m' t (wrap64 (al - 2 ^ Z.of_nat (order_of n)))) ∧
    dealloc_post m fls (order_of n) p m' fls'.
Proof.
  intros Hinv Hn Hok. pose proof (order_of_le n Hn) as Ho.
  destruct (lookup_lt_is_Some_2 fls (order_of n)) as [xs Hxs].
  { rewrite (pi_length _ _ Hinv). lia. }
  destruct (push_block_spec m fls Hinv _ p xs t al Hxs Hok) as (m1 & Hpush & Hinv1 & Hd1 & Hp1).
  edestruct (merge_loop_spec (S MAX_ORDER) m1 _ (order_of n) p xs t al Hinv1)
    as (m2 & fls2 & Hm & Hinv2 & Hd2 & Hp2 & Hc); [lia|lia| |].
  { apply list_lookup_insert_eq. by eapply lookup_lt_Some. }
  exists m2, fls2. unfold dealloc, mbind, M_bind. rewrite Hpush, Hm.
  cbn. rewrite Z.shiftl_1_l. split; [done|].
  split; [done|]. split; [congruence|]. split; [by rewrite Hp2|].
  intros Hcf. apply Hc. by rewrite list_insert_insert_eq, list_insert_id.
Qed.

Lemma alloc_spec m fls n t al :
  pool_inv m fls → 0 ≤ n ≤ 256 →
  (exhausted fls (order_of n) ∧ alloc n (mkBuddy m t al) = Panic Unreachable) ∨
  (¬ exhausted fls (order_of n) ∧ ∃ p m' fls',
    alloc n (mkBuddy m t al) =
      Ret (p, mkBuddy m' t (wrap64 (al + 2 ^ Z.of_nat (order_of n)))) ∧
    alloc_post m fls (order_of n) p m' fls').
Proof.
  intros Hinv Hn. pose proof (order_of_le n ltac:(lia)) as Ho.
  unfold alloc. change (Z.shiftl 1 (Z.of_nat MAX_ORDER)) with 256. unmonad.
  rewrite bool_decide_eq_true_2 by lia. cbn [assert_].
  apply (alloc_scan_spec (S MAX_ORDER - order_of n)); [done|lia|lia|intros; lia].
Qed.

(** *** Taking a segment into the allocator *)

Lemma trailing_zeros_lt n k : 0 < n < 2 ^ k → 0 ≤ k → trailing_zeros n < k.
Proof.
  intros [Hn Hlt] Hk.
  pose proof (Z.divide_pos_le _ _ Hn (trailing_zeros_divide n Hn)).
  apply (Z.pow_lt_mono_r_iff 2); [lia..|]. lia.
Qed.

(** The block chosen for the next iteration is aligned, fits, is not too
    large, and is as large as alignment and the end of the segment allow. *)
Lemma order_at_spec cur end_ :
  0 < cur → (PG_SIZE | cur) → cur + PG_SIZE ≤ end_ < 2 ^ 64 →
  let o := order_at cur end_ in
  (o ≤ MAX_ORDER)%nat ∧ (block_size o | cur) ∧ cur + block_size o ≤ end_ ∧
  ((o < MAX_ORDER)%nat → (block_size (S o) | cur) → end_ < cur + block_size (S o)).
Proof.
  intros Hpos Hal Hend.
  rewrite PG_SIZE_pow2 in Hend.
  pose proof (trailing_zeros_lt cur 64 ltac:(lia) ltac:(lia)) as Htz.
  assert (Htz12 : 12 ≤ trailing_zeros cur).
  { apply trailing_zeros_ge; [done|lia|]. by rewrite <- PG_SIZE_pow2. }
  set (d := end_ - cur). assert (Hd : 2 ^ 12 ≤ d) by lia.
  pose proof (Z.log2_spec d ltac:(lia)) as [Hlo Hhi].
  assert (Hlg : 12 ≤ Z.log2 d) by (apply Z.log2_le_pow2; lia).
  assert (Hlg64 : Z.log2 d < 64) by (apply Z.log2_lt_pow2; lia).
  assert (Hord : Z.of_nat (order_at cur end_) =
                 Z.min (Z.min (trailing_zeros cur) (Z.log2 d) - 12) 8).
  { unfold order_at. cbn zeta. fold d.
    rewrite (wrap_small 6) by (unfold in_range; lia).
    rewrite Z.shiftl_1_l, (wrap_small 64 (2 ^ _)).
    2:{ unfold in_range. split; [apply Z.pow_nonneg; lia|].
        apply Z.pow_lt_mono_r; lia. }
    rewrite (wrap_small 64 d), prev_power_of_two_spec by (unfold in_range; lia).
    replace (Z.min (2 ^ trailing_zeros cur) (2 ^ Z.log2 d))
      with (2 ^ Z.min (trailing_zeros cur) (Z.log2 d)).
    2:{ destruct (Z.le_ge_cases (trailing_zeros cur) (Z.log2 d)) as [Hc|Hc];
          pose proof (Z.pow_le_mono_r 2 _ _ ltac:(lia) Hc);
          [rewrite !Z.min_l by lia|rewrite !Z.min_r by lia]; done. }
    rewrite trailing_zeros_pow2 by lia. unfold PG_SHIFT.
    rewrite wrap_small by (unfold in_range; lia). unfold MAX_ORDER. lia. }
  cbn zeta. set (o := order_at cur end_) in *.
  assert (Hdiv : (block_size o | cur)).
  { etrans; [|apply (trailing_zeros_divide cur); lia]. rewrite block_size_pow2.
    exists (2 ^ (trailing_zeros cur - (Z.of_nat o + 12))).
    rewrite <- Z.pow_add_r by lia. f_equal. lia. }
  split; [unfold MAX_ORDER; lia|]. split; [done|]. split.
  - enough (block_size o ≤ d) by lia. etrans; [|exact Hlo].
    rewrite block_size_pow2. apply Z.pow_le_mono_r; lia.
  - intros Ho Hup. rewrite block_size_pow2 in *. unfold MAX_ORDER in Ho.
    apply trailing_zeros_ge in Hup; [|lia|lia].
    enough (d < 2 ^ (Z.of_nat (S o) + 12)) by lia.
    eapply Z.lt_le_trans; [exact Hhi|]. apply Z.pow_le_mono_r; lia.
Qed.

(** The pages a segment brings along. *)
Record region_ok (m : memory) (region : list Z) : Prop := {
  ro_nodup : NoDup region;
  ro_mapped : ∀ a, a ∈ region → page_mapped m a;
  ro_heads : ∀ h a, h ∈ head_words → a ∈ region → ¬ (a ≤ h < a + PG_SIZE);
  ro_range : ∀ a, a ∈ region → 0 < a ∧ a + PG_SIZE ≤ 2 ^ 64;
}.

(** Blocks inserted so far lie below [cur], and none of them could have been
    twice as large. *)
Definition greedy (fls : list (list Z)) (cur end_ : Z) : Prop :=
  coalesced fls ∧
  ∀ i xs b, (i < MAX_ORDER)%nat → fls !! i = Some xs → b ∈ xs →
    b < cur ∧ ((block_size (S i) | b) → end_ < b + block_size (S i)).

Lemma greedy_step fls cur end_ o xs :
  greedy fls cur end_ → fls !! o = Some xs → (block_size o | cur) →
  cur + block_size o ≤ end_ →
  ((o < MAX_ORDER)%nat → (block_size (S o) | cur) → end_ < cur + block_size (S o)) →
  greedy (<[o := cur :: xs]> fls) (cur + block_size o) end_.
Proof.
  intros [Hc Hg] Ho Hal Hfit Hmax. pose proof (block_size_pos o) as Hbs. split.
  - intros i ys b Hi Hys Hb. destruct (decide (o = i)) as [->|Hne].
    2:{ rewrite list_lookup_insert_ne in Hys by done. eauto. }
    apply list_lookup_insert_Some in Hys as [(_ & <- & _)|(? & _)]; [|done].
    assert (Hno : buddy_of cur i ∉ xs).
    { intros Hin. destruct (Hg i xs _ Hi Ho Hin) as [Hlt Hup].
      rewrite block_size_S in Hup.
      destruct (buddy_of_cases cur i Hal) as [[E _]|[E Hdiv]]; rewrite E in *; [lia|].
      rewrite block_size_S in Hdiv. specialize (Hup Hdiv). lia. }
    apply elem_of_cons in Hb as [->|Hb]; intros [He|Hin]%elem_of_cons.
    + by apply (buddy_of_ne cur i Hal).
    + done.
    + apply Hno. by rewrite <- He, buddy_of_involutive.
    + by apply (Hc i xs b).
  - intros i ys b Hi Hys Hb. destruct (decide (o = i)) as [->|Hne].
    + apply list_lookup_insert_Some in Hys as [(_ & <- & _)|(? & _)]; [|done].
      apply elem_of_cons in Hb as [->|Hb]; [split; [lia|auto]|].
      destruct (Hg i xs b Hi Ho Hb). split; [lia|done].
    + rewrite list_lookup_insert_ne in Hys by done.
      destruct (Hg i ys b Hi Hys Hb). split; [lia|done].
Qed.

Lemma insert_loop_spec fuel : ∀ m fls cur cnt t al,
  let end_ := cur + cnt * PG_SIZE in
  pool_inv m fls → 0 < cur → (PG_SIZE | cur) → 0 ≤ cnt → end_ < 2 ^ 64 →
  cnt < Z.of_nat fuel →
  region_ok m (page_range cur cnt ++ pages fls) →
  ∃ m' fls',
    insert_loop fuel cur end_ (mkBuddy m t al) = Ret ((), mkBuddy m' t al) ∧
    pool_inv m' fls' ∧ dom m' = dom m ∧
    pages fls' ≡ₚ page_range cur cnt ++ pages fls ∧
    (greedy fls cur end_ → coalesced fls').
Proof.
  induction fuel as [|fuel IH]; intros m fls cur cnt t al end_ Hinv Hpos Hal Hcnt Hend Hfuel Hreg;
    [lia|].
  pose proof PG_SIZE_pow2 as HPG. cbn [insert_loop].
  destruct (decide (cnt = 0)) as [->|Hne].
  { rewrite bool_decide_eq_false_2 by (unfold end_; lia).
    exists m, fls. rewrite page_range_nil by lia. unfold greedy. naive_solver. }
  rewrite bool_decide_eq_true_2 by (unfold end_; lia). unmonad.
  destruct (order_at_spec cur end_ Hpos Hal) as (Ho & Hdiv & Hfit & Hmax);
    [unfold end_ in *; lia|].
  set (o := order_at cur end_) in *.
  assert (Hbs : block_size o = 2 ^ Z.of_nat o * PG_SIZE) by done.
  pose proof (pow2_pos (Z.of_nat o) ltac:(lia)) as H2o.
  assert (Hcnt' : 2 ^ Z.of_nat o ≤ cnt) by (unfold end_ in Hfit; nia).
  assert (Hsplit : page_range cur cnt =
    block_pages o cur ++ page_range (cur + block_size o) (cnt - 2 ^ Z.of_nat o)).
  { rewrite Hbs. unfold block_pages. rewrite <- page_range_app by lia. f_equal. lia. }
  destruct (lookup_lt_is_Some_2 fls o) as [xs Hxs].
  { rewrite (pi_length _ _ Hinv). lia. }
  assert (Hperm : page_range cur cnt ++ pages fls ≡ₚ
    page_range (cur + block_size o) (cnt - 2 ^ Z.of_nat o) ++ block_pages o cur ++ pages fls).
  { rewrite Hsplit, (assoc_L (++)). apply Permutation_app_tail, Permutation_app_comm. }
  destruct Hreg as [Hnd Hmap Hh Hr].
  destruct (push_block_spec m fls Hinv o cur xs t al Hxs) as (m1 & Hpush & Hinv1 & Hd1 & Hp1).
  { assert (Hin : ∀ a, a ∈ block_pages o cur → a ∈ page_range cur cnt ++ pages fls).
    { intros a Ha. rewrite Hperm, !elem_of_app. auto. }
    split; [|eauto|eauto|done|eauto].
    rewrite Hperm in Hnd. by apply NoDup_app in Hnd as (_ & _ & ?). }
  rewrite Hpush.
  assert (Hnext : wrap64 (cur + Z.shiftl 1 (Z.of_nat o) * PG_SIZE) = cur + block_size o).
  { rewrite Z.shiftl_1_l. fold (block_size o). apply wrap_small. unfold in_range. lia. }
  rewrite Hnext.
  destruct (IH m1 _ (cur + block_size o) (cnt - 2 ^ Z.of_nat o) t al Hinv1)
    as (m2 & fls2 & Hl & Hinv2 & Hd2 & Hp2 & Hg2).
  - lia.
  - apply Z.divide_add_r; [done|]. rewrite Hbs. apply Z.divide_factor_r.
  - lia.
  - unfold end_ in *. lia.
  - lia.
  - assert (Hin : ∀ a, a ∈ page_range (cur + block_size o) (cnt - 2 ^ Z.of_nat o) ++
        pages (<[o:=cur :: xs]> fls) → a ∈ page_range cur cnt ++ pages fls).
    { intros a. by rewrite Hp1, Hperm. }
    split; [by rewrite Hp1, <- Hperm| |eauto|eauto].
    intros a Ha. eapply page_mapped_dom; [done|]. auto.
  - assert (He : cur + block_size o + (cnt - 2 ^ Z.of_nat o) * PG_SIZE = end_)
      by (unfold end_; lia).
    rewrite He in Hl, Hg2. exists m2, fls2. unfold mbind, M_bind in Hl.
    split; [exact Hl|]. split; [done|]. split; [congruence|]. split.
    + by rewrite Hp2, Hp1, Hperm.
    + intros Hg. apply Hg2. by apply greedy_step.
Qed.
End palloc.
