(* ===== verification/PallocClients.v ===== *)
(** * Clients of the page allocator

    The guarantees of [Palloc.v] put together: the invariant of an allocator
    state, a client that allocates, frees and writes in the pages it holds (the
    kernel as [Palloc::alloc], [Palloc::dealloc] and [UserPool] see it), and the
    properties of the page allocator.  The client is a step relation; its
    invariant is that every page of the segment given to [insert_range] is free
    or held by exactly one request. *)

From S2P Require Import Prelude Utils InMemList Blocks Palloc.

Section clients.
Context (base : Z).
#[local] Abbreviation alloc := (Palloc.alloc base).
#[local] Abbreviation dealloc := (Palloc.dealloc base).
#[local] Abbreviation insert_range := (Palloc.insert_range base).
#[local] Abbreviation pool_inv := (Palloc.pool_inv base).
#[local] Abbreviation block_ok := (Palloc.block_ok base).
#[local] Abbreviation region_ok := (Palloc.region_ok base).
#[local] Abbreviation head_words := (Palloc.head_words base).
#[local] Abbreviation alloc_post := (Palloc.alloc_post base).
#[local] Abbreviation dealloc_post := (Palloc.dealloc_post base).

(** ** The state invariant and the clients of the allocator *)

(** The counters agree with the lists: [total] bytes are [allocated] pages plus
    the free ones. *)
Record buddy_inv (s : BuddyAllocator) (fls : list (list Z)) : Prop := {
  bi_pool : pool_inv (ba_mem s) fls;
  bi_coalesced : coalesced fls;
  bi_count : total s = (allocated s + Z.of_nat (length (pages fls))) * PG_SIZE;
  bi_allocated : 0 ≤ allocated s;
  bi_total : total s < 2 ^ 64;
}.

Lemma alloc_inv s fls n :
  buddy_inv s fls → 0 ≤ n ≤ 256 →
  (exhausted fls (order_of n) ∧ alloc n s = Panic Unreachable) ∨
  (¬ exhausted fls (order_of n) ∧ ∃ p s' fls',
    alloc n s = Ret (p, s') ∧ buddy_inv s' fls' ∧
    total s' = total s ∧ allocated s' = allocated s + 2 ^ Z.of_nat (order_of n) ∧
    alloc_post (ba_mem s) fls (order_of n) p (ba_mem s') fls').
Proof.
  intros [Hp Hc Hcnt Hal Ht] Hn. destruct s as [m t al]. cbn in *.
  destruct (alloc_spec base m fls n t al Hp Hn) as [?|(Hne & p & m' & fls' & Ha & Hpost)];
    [by left|right]. split; [done|].
  pose proof Hpost as (Hinv' & Hd & Hdiv & Hpg & Hco).
  pose proof (f_equal Z.of_nat (Permutation_length Hpg)) as Hlen.
  rewrite length_app, Nat2Z.inj_add, length_block_pages in Hlen.
  pose proof (pow2_pos (Z.of_nat (order_of n)) ltac:(lia)). rewrite PG_SIZE_pow2 in *.
  rewrite wrap_small in Ha by (unfold in_range; lia).
  eexists p, _, fls'. split; [exact Ha|]. cbn.
  split; [split; cbn; [done|auto|rewrite PG_SIZE_pow2; lia|lia|lia]|].
  done.
Qed.

Lemma dealloc_inv s fls n p :
  buddy_inv s fls → n ≤ 256 → block_ok (ba_mem s) fls (order_of n) p →
  2 ^ Z.of_nat (order_of n) ≤ allocated s →
  ∃ s' fls',
    dealloc p n s = Ret ((), s') ∧ buddy_inv s' fls' ∧
    total s' = total s ∧ allocated s' = allocated s - 2 ^ Z.of_nat (order_of n) ∧
    dealloc_post (ba_mem s) fls (order_of n) p (ba_mem s') fls'.
Proof.
  intros [Hp Hc Hcnt Hal Ht] Hn Hok Hle. destruct s as [m t al]. cbn in *.
  destruct (dealloc_spec base m fls n p t al Hp Hn Hok) as (m' & fls' & Ha & Hpost).
  pose proof Hpost as (Hinv' & Hd & Hpg & Hco).
  pose proof (f_equal Z.of_nat (Permutation_length Hpg)) as Hlen.
  rewrite length_app, Nat2Z.inj_add, length_block_pages in Hlen.
  pose proof (pow2_pos (Z.of_nat (order_of n)) ltac:(lia)). rewrite PG_SIZE_pow2 in *.
  rewrite wrap_small in Ha by (unfold in_range; lia).
  eexists _, fls'. split; [exact Ha|]. cbn.
  split; [split; cbn; [done|auto|rewrite PG_SIZE_pow2; lia|lia|lia]|].
  done.
Qed.

(** Cells that are neither head words nor free nodes do not matter. *)
Lemma pool_inv_frame (m m' : memory) fls :
  pool_inv m fls → dom m' = dom m →
  (∀ a, a ∈ head_words ++ pages fls → m' !! a = m !! a) → pool_inv m' fls.
Proof.
  intros Hinv Hd Hf. destruct Hinv as [Hlen Hls Hnd Hmap Hh Hal Hr]. split; try done.
  - intros i xs Hi. apply (list_at_frame m); [|auto].
    intros a [->|Ha]%elem_of_cons; apply Hf; apply elem_of_app.
    + left. apply elem_of_head_words. apply lookup_lt_Some in Hi. lia.
    + right. by eapply pages_heads.
  - intros a Ha. eapply page_mapped_dom; [done|]. auto.
Qed.

(** The requests a client has outstanding, as pointers with page counts. *)
Definition out_pages (outs : list (Z * Z)) : list Z :=
  outs ≫= λ '(p, n), block_pages (order_of n) p.

(** A client allocates, frees what it holds, and writes words of the pages it
    holds. *)
Inductive client_step : BuddyAllocator * list (Z * Z) → BuddyAllocator * list (Z * Z) → Prop :=
  | client_alloc n p s s' outs :
      0 ≤ n ≤ 256 → alloc n s = Ret (p, s') →
      client_step (s, outs) (s', (p, n) :: outs)
  | client_dealloc n p s s' outs outs' :
      outs ≡ₚ (p, n) :: outs' → dealloc p n s = Ret ((), s') →
      client_step (s, outs) (s', outs')
  | client_write pg k v s outs :
      pg ∈ out_pages outs → 0 ≤ k < 512 →
      client_step (s, outs)
        (mkBuddy (<[pg + 8 * k := v]> (ba_mem s)) (total s) (allocated s), outs).

(** The pages of [region] are either free or held by the client. *)
Record client_inv (region : list Z) (s : BuddyAllocator) (outs : list (Z * Z)) : Prop := {
  ci_fls : ∃ fls, buddy_inv s fls ∧ region ≡ₚ out_pages outs ++ pages fls;
  ci_region : region_ok (ba_mem s) region;
  ci_aligned : ∀ p n, (p, n) ∈ outs → 0 ≤ n ≤ 256 ∧ (block_size (order_of n) | p);
  ci_allocated : allocated s = Z.of_nat (length (out_pages outs));
  ci_pg : ∀ a, a ∈ region → (PG_SIZE | a);
}.

Lemma region_ok_dom (m m' : memory) region :
  dom m' = dom m → region_ok m region → region_ok m' region.
Proof.
  intros Hd [? Hm ? ?]. split; try done. intros a Ha. eapply page_mapped_dom; eauto.
Qed.

Lemma out_pages_cons p n outs :
  out_pages ((p, n) :: outs) = block_pages (order_of n) p ++ out_pages outs.
Proof. done. Qed.

#[export] Instance out_pages_proper : Proper ((≡ₚ) ==> (≡ₚ)) out_pages.
Proof. intros x y H. unfold out_pages. by rewrite H. Qed.

Lemma length_out_cons p n outs :
  Z.of_nat (length (out_pages ((p, n) :: outs))) =
    2 ^ Z.of_nat (order_of n) + Z.of_nat (length (out_pages outs)).
Proof. rewrite out_pages_cons, length_app, Nat2Z.inj_add, length_block_pages. done. Qed.

Lemma client_alloc_inv region n p s s' outs :
  client_inv region s outs → 0 ≤ n ≤ 256 → alloc n s = Ret (p, s') →
  client_inv region s' ((p, n) :: outs).
Proof.
  intros [(fls & Hb & Hreg) Hok Hal Hcnt Hpg] Hn Ha.
  destruct (alloc_inv s fls n Hb Hn)
    as [(_ & Hx)|(_ & p' & s1 & fls' & Hx & Hb' & _ & Hall & Hpost)]; [congruence|].
  rewrite Ha in Hx. simplify_eq. destruct Hpost as (_ & Hd & Hdiv & Hpgs & _).
  split.
  - exists fls'. split; [done|]. rewrite Hreg, Hpgs, out_pages_cons.
    rewrite !(assoc_L (++)). apply Permutation_app_tail, Permutation_app_comm.
  - by eapply region_ok_dom.
  - intros q k [[= -> ->]|Hq]%elem_of_cons; auto.
  - rewrite length_out_cons. lia.
  - done.
Qed.

(** What the client holds is exactly what [dealloc] asks for. *)
Lemma client_block_ok region s outs outs' p n fls :
  client_inv region s outs → outs ≡ₚ (p, n) :: outs' →
  region ≡ₚ out_pages outs ++ pages fls → block_ok (ba_mem s) fls (order_of n) p.
Proof.
  intros [_ [Hnd Hm Hh Hr] Hal _ _] Ho Hreg. rewrite Ho, out_pages_cons in Hreg.
  assert (Hin : ∀ a, a ∈ block_pages (order_of n) p → a ∈ region).
  { intros a Ha. rewrite Hreg, !elem_of_app. auto. }
  split; [|eauto|eauto| |eauto].
  - rewrite Hreg, <- (assoc_L (++)), (Permutation_app_swap_app) in Hnd.
    by apply NoDup_app in Hnd as (_ & _ & ?).
  - apply (Hal p n). rewrite Ho. left.
Qed.

Lemma client_dealloc_total region n p s outs outs' :
  client_inv region s outs → outs ≡ₚ (p, n) :: outs' →
  ∃ s', dealloc p n s = Ret ((), s') ∧ client_inv region s' outs'.
Proof.
  intros Hci Ho. pose proof Hci as [(fls & Hb & Hreg) Hok Hal Hcnt Hpg].
  pose proof (client_block_ok _ _ _ _ _ _ _ Hci Ho Hreg) as Hbo.
  assert (Hin : (p, n) ∈ outs) by (rewrite Ho; left).
  assert (Hlen : Z.of_nat (length (out_pages outs)) =
                 2 ^ Z.of_nat (order_of n) + Z.of_nat (length (out_pages outs'))).
  { rewrite <- (length_out_cons p). f_equal. apply Permutation_length. by rewrite Ho. }
  destruct (dealloc_inv s fls n p Hb ltac:(apply Hal in Hin; lia) Hbo ltac:(lia))
    as (s' & fls' & Hd & Hb' & _ & Hall & _ & Hdom & Hpgs & _).
  exists s'. split; [done|]. split.
  - exists fls'. split; [done|]. rewrite Hreg, Hpgs, Ho, out_pages_cons.
    rewrite !(assoc_L (++)). apply Permutation_app_tail, Permutation_app_comm.
  - by eapply region_ok_dom.
  - intros q k Hq. apply Hal. rewrite Ho. by right.
  - lia.
  - done.
Qed.

(** Page-aligned addresses of different pages are a page apart. *)
Lemma page_disjoint a b k :
  (PG_SIZE | a) → (PG_SIZE | b) → 0 ≤ k < 512 → a + 8 * k = b → a = b.
Proof. rewrite PG_SIZE_pow2. intros [x ->] [y ->] ? ?. lia. Qed.

Lemma client_write_inv region pg k v s outs :
  client_inv region s outs → pg ∈ out_pages outs → 0 ≤ k < 512 →
  client_inv region (mkBuddy (<[pg + 8 * k := v]> (ba_mem s)) (total s) (allocated s)) outs.
Proof.
  intros [(fls & Hb & Hreg) Hok Hal Hcnt Hpg] Hin Hk.
  assert (Hr : pg ∈ region) by (rewrite Hreg; apply elem_of_app; by left).
  assert (Hd : dom (<[pg + 8 * k := v]> (ba_mem s)) = dom (ba_mem s)).
  { apply dom_insert_lookup_L. by apply (ro_mapped _ _ _ Hok). }
  split; cbn; try done; [|by eapply region_ok_dom].
  exists fls. split; [|done]. destruct Hb. split; try done. cbn.
  eapply pool_inv_frame; [done|done|]. intros a Ha.
  rewrite lookup_insert_ne; [done|]. intros <-. apply elem_of_app in Ha as [Ha|Ha].
  - apply (ro_heads _ _ _ Hok _ _ Ha Hr). rewrite PG_SIZE_pow2. lia.
  - assert (Har : pg + 8 * k ∈ region) by (rewrite Hreg; apply elem_of_app; by right).
    pose proof (page_disjoint _ _ k (Hpg _ Hr) (Hpg _ Har) Hk eq_refl) as E.
    pose proof (ro_nodup _ _ _ Hok) as Hnd. rewrite Hreg in Hnd.
    apply NoDup_app in Hnd as (_ & Hdj & _). apply (Hdj pg Hin). by rewrite E.
Qed.

Lemma client_step_inv region c c' :
  client_inv region c.1 c.2 → client_step c c' → client_inv region c'.1 c'.2.
Proof.
  intros Hci Hs. revert Hci.
  destruct Hs as [n p s s' outs Hn Ha|n p s s' outs outs' Ho Hd|pg k v s outs Hin Hk];
    cbn; intros Hci.
  - by apply (client_alloc_inv region n p s).
  - destruct (client_dealloc_total region n p s outs outs' Hci Ho) as (s1 & Hd' & ?).
    rewrite Hd in Hd'. by simplify_eq.
  - by apply client_write_inv.
Qed.

Lemma client_steps_inv region c c' :
  rtc client_step c c' → client_inv region c.1 c.2 → client_inv region c'.1 c'.2.
Proof. induction 1; eauto using client_step_inv. Qed.

(** ** Coalescing makes allocation complete *)

(** A multiple of [d * e] at or below [b + d], for a multiple [b] of [d * e],
    is at or below [b]. *)
Lemma aligned_nested i j b c :
  (j ≤ i)%nat → (block_size j | b) → (block_size i | c) → c ≤ b < c + block_size i →
  b + block_size j ≤ c + block_size i.
Proof.
  intros Hij [x ->] [y ->] Hb.
  assert (E : block_size i = 2 ^ Z.of_nat (i - j) * block_size j).
  { rewrite !block_size_pow2, <- Z.pow_add_r by lia. f_equal. lia. }
  rewrite E in *. pose proof (block_size_pos j).
  enough (x + 1 ≤ y * 2 ^ Z.of_nat (i - j) + 2 ^ Z.of_nat (i - j)) by nia. nia.
Qed.

(** In a coalesced allocator every aligned run of free pages lies in one free
    block. *)
Lemma free_run_in_block m fls o : ∀ b,
  pool_inv m fls → coalesced fls → (o ≤ MAX_ORDER)%nat → (block_size o | b) →
  (∀ a, a ∈ block_pages o b → a ∈ pages fls) →
  ∃ i xs c, (o ≤ i)%nat ∧ fls !! i = Some xs ∧ c ∈ xs ∧
    c ≤ b ∧ b + block_size o ≤ c + block_size i.
Proof.
  induction o as [|o IH]; intros b Hinv Hco Ho Hal Hfree.
  - destruct (proj1 (elem_of_pages fls b)) as (i & xs & c & Hi & Hc & (k & Hk & ->)%elem_of_block_pages).
    { apply Hfree, block_pages_head. }
    exists i, xs, c. unfold block_size. rewrite PG_SIZE_pow2. cbn [Z.of_nat]. split_and!; nia || done || lia.
  - pose proof (block_size_pos o) as Hbs. rewrite block_size_S in *.
    assert (Hal1 : (block_size o | b)) by (etrans; [apply Z.divide_factor_r|exact Hal]).
    rewrite block_pages_split in Hfree.
    destruct (IH b Hinv Hco ltac:(lia) Hal1) as (i & xs & c & Hi & Hxs & Hc & Hlo & Hhi).
    { intros a Ha. apply Hfree, elem_of_app. by left. }
    pose proof (pi_aligned _ _ _ Hinv _ _ _ Hxs Hc) as Hac.
    destruct (decide (i = o)) as [->|Hne].
    2:{ exists i, xs, c. split; [lia|]. do 3 (split; [done|]).
        rewrite <- block_size_S. apply aligned_nested; [lia|by rewrite block_size_S|done|lia]. }
    assert (c = b) as -> by lia.
    destruct (IH (b + block_size o) Hinv Hco ltac:(lia)) as (j & ys & d & Hj & Hys & Hd & Hlo2 & Hhi2).
    { apply Z.divide_add_r; [done|apply Z.divide_refl]. }
    { intros a Ha. apply Hfree, elem_of_app. by right. }
    pose proof (pi_aligned _ _ _ Hinv _ _ _ Hys Hd) as Had.
    destruct (decide (j = o)) as [->|Hnej].
    + exfalso. assert (d = b + block_size o) as -> by lia. simplify_eq.
      apply (Hco o xs b ltac:(lia) Hxs Hc).
      destruct (buddy_of_cases b o Hal1) as [[-> _]|[_ Hdiv]]; [done|].
      exfalso. rewrite block_size_S in Hdiv. destruct Hal as [x ->], Hdiv as [y Hy]. assert (2 * x - 1 = 2 * y) by nia. lia.
    + exists j, ys, d. split; [lia|]. do 2 (split; [done|]).
      assert (Hdiv : (2 * block_size o | d)).
      { rewrite <- block_size_S. etrans; [|exact Had]. rewrite !block_size_pow2.
        exists (2 ^ (Z.of_nat j - Z.of_nat (S o))). rewrite <- Z.pow_add_r by lia. f_equal. lia. }
      destruct Hal as [x ->], Hdiv as [y ->]. assert (y ≤ x) by nia. split; [nia|lia].
Qed.

(** ** Starting from a fresh memory *)

(** The memory of the [static]s before [init]: null heads. *)
Definition fresh (m : memory) : Prop :=
  ∀ i, (i ≤ MAX_ORDER)%nat → m !! (base + 8 * Z.of_nat i) = Some 0.

Definition no_blocks : list (list Z) := replicate (S MAX_ORDER) [].

Lemma no_blocks_inv m : fresh m → pool_inv m no_blocks.
Proof.
  intros Hf. assert (Hp : pages no_blocks = []) by apply pages_empty.
  split; rewrite ?Hp; [done| |constructor|set_solver|set_solver| |set_solver].
  - intros i xs [-> Hi]%lookup_replicate. split; [apply NoDup_singleton|].
    exists 0. split; [apply Hf; lia|done].
  - intros i xs b [-> _]%lookup_replicate. set_solver.
Qed.

Lemma no_blocks_greedy lo hi : greedy no_blocks lo hi.
Proof.
  split; intros i xs b _ [-> _]%lookup_replicate; set_solver.
Qed.

(** The page-aligned part of the segment. *)
Definition seg_start (start : Z) : Z := (start + PG_SIZE - 1) / PG_SIZE * PG_SIZE.
Definition seg_end (end_ : Z) : Z := end_ / PG_SIZE * PG_SIZE.
Definition seg_pages (start end_ : Z) : list Z :=
  page_range (seg_start start) ((seg_end end_ - seg_start start) / PG_SIZE).

Lemma insert_range_client m start end_ :
  fresh m → 0 < start → start + PG_SIZE ≤ 2 ^ 64 → seg_start start ≤ seg_end end_ →
  is_usize end_ → region_ok m (seg_pages start end_) →
  ∃ s, insert_range start end_ (empty m) = Ret ((), s) ∧
    client_inv (seg_pages start end_) s [] ∧
    total s = seg_end end_ - seg_start start ∧ allocated s = 0.
Proof.
  intros Hf Hpos Hov Hle Hend Hreg. pose proof PG_SIZE_pow2 as HPG.
  pose proof (no_blocks_inv m Hf) as Hinv.
  assert (Hp0 : pages no_blocks = []) by apply pages_empty.
  assert (Hcnt : seg_end end_ = seg_start start +
                 (seg_end end_ - seg_start start) / PG_SIZE * PG_SIZE).
  { unfold seg_end, seg_start. rewrite <- Z.mul_sub_distr_r, Z.div_mul by lia. lia. }
  assert (Hlo : start ≤ seg_start start) by (apply (ceil_div_bounds start PG_SIZE); lia).
  assert (Hhi : seg_end end_ ≤ end_).
  { unfold seg_end. rewrite Z.mul_comm. apply Z.mul_div_le. lia. }
  unfold seg_pages in *. set (cnt := (seg_end end_ - seg_start start) / PG_SIZE) in *.
  assert (0 ≤ cnt) by (apply Z.div_pos; lia).
  unfold in_range in Hend.
  assert (Hup : round_up start PG_SIZE = Ret (seg_start start)).
  { unfold seg_start. rewrite HPG, round_up_pow2 by lia. done. }
  assert (Hdown : round_down end_ PG_SIZE = Ret (seg_end end_)).
  { unfold seg_end. rewrite HPG, round_down_pow2 by (done || lia). f_equal.
    pose proof (Z.div_mod end_ (2 ^ 12)). lia. }
  unfold Palloc.insert_range, mbind, M_bind, lift. rewrite Hup, Hdown.
  unfold add_total, modify, empty. cbn [ba_mem total allocated]. fold cnt.
  rewrite Z.add_0_l, wrap_small by (unfold in_range; lia).
  destruct (insert_loop_spec base (S (Z.to_nat cnt)) m no_blocks (seg_start start) cnt
              (seg_end end_ - seg_start start) 0 Hinv)
    as (m' & fls' & Hl & Hinv' & Hd & Hp & Hg); [lia|apply Z.divide_factor_r|lia|lia|lia| |].
  { by rewrite Hp0, app_nil_r. }
  rewrite <- Hcnt in Hl, Hg. rewrite Hp0, app_nil_r in Hp. rewrite Hl.
  eexists. split; [done|]. cbn. split; [|done].
  assert (Hlen : Z.of_nat (length (pages fls')) = cnt)
    by (rewrite Hp; by apply length_page_range).
  split; cbn.
  - exists fls'. split; [|by rewrite Hp]. split; cbn; [done|apply Hg, no_blocks_greedy|lia..].
  - by eapply region_ok_dom.
  - set_solver.
  - done.
  - intros a (k & _ & ->)%elem_of_page_range.
    apply Z.divide_add_r; [apply Z.divide_factor_r|apply Z.divide_factor_r].
Qed.
End clients.

(** ** A concrete boot memory, for the witnesses *)

(** A memory in which the given words are mapped and null. *)
Definition zeroed (ws : list Z) : memory := list_to_map ((λ a, (a, 0)) <$> ws).

Lemma zeroed_lookup ws a : a ∈ ws → zeroed ws !! a = Some 0.
Proof.
  induction ws as [|w ws IH]; [set_solver|]. intros Ha. unfold zeroed. cbn.
  destruct (decide (w = a)) as [->|]; [by rewrite lookup_insert_eq|].
  rewrite lookup_insert_ne by done. apply IH. set_solver.
Qed.

Definition page_words (pg : Z) : list Z := (λ k, pg + 8 * k) <$> seqZ 0 512.

(** A memory with null heads at [base] and the given pages. *)
Definition boot_memory (base : Z) (pgs : list Z) : memory :=
  zeroed (head_words base ++ (pgs ≫= page_words)).

Lemma boot_fresh base pgs : fresh base (boot_memory base pgs).
Proof.
  intros i Hi. apply zeroed_lookup, elem_of_app. left. by apply elem_of_head_words.
Qed.

Lemma boot_region_ok base pgs :
  NoDup pgs →
  Forall (λ a, (0 < a ∧ a + PG_SIZE ≤ 2 ^ 64) ∧ (a + PG_SIZE ≤ base ∨ base + 72 ≤ a)) pgs →
  region_ok base (boot_memory base pgs) pgs.
Proof.
  intros Hnd Hall. rewrite Forall_forall in Hall. split.
  - done.
  - intros a Ha k Hk. exists 0. apply zeroed_lookup, elem_of_app. right.
    apply list_elem_of_bind. exists a. split; [|done].
    apply list_elem_of_fmap. exists k. split; [done|]. apply elem_of_seqZ. lia.
  - intros h a (i & -> & Hi%elem_of_seqZ)%list_elem_of_fmap Ha.
    destruct (Hall a Ha). lia.
  - intros a Ha. by apply Hall.
Qed.

(** A segment of seven pages, as a running example. *)
Definition demo_base : Z := VM_BASE + 0x100000.
Definition demo_start : Z := VM_BASE + 0x1000.
Definition demo_end : Z := VM_BASE + 0x8000.
Definition demo_region : list Z := seg_pages demo_start demo_end.
Definition demo_memory : memory := boot_memory demo_base demo_region.

Lemma demo_region_eq : demo_region = (λ k, VM_BASE + 0x1000 * k) <$> [1; 2; 3; 4; 5; 6; 7].
Proof. vm_compute. reflexivity. Qed.

Lemma demo_region_ok : region_ok demo_base demo_memory demo_region.
Proof.
  apply boot_region_ok; [apply NoDup_page_range|].
  rewrite demo_region_eq, PG_SIZE_pow2. unfold demo_base, VM_BASE. cbn. repeat constructor; lia.
Qed.

Lemma demo_args : 0 < demo_start ∧ demo_start + PG_SIZE ≤ 2 ^ 64 ∧
  seg_start demo_start ≤ seg_end demo_end ∧ is_usize demo_end.
Proof. by vm_compute. Qed.

Lemma demo_client : ∃ s,
  insert_range demo_base demo_start demo_end (empty demo_memory) = Ret ((), s) ∧
  client_inv demo_base demo_region s [].
Proof.
  destruct (insert_range_client demo_base demo_memory demo_start demo_end) as (s & Hs & Hci & _).
  - apply boot_fresh.
  - apply demo_args.
  - apply demo_args.
  - apply demo_args.
  - apply demo_args.
  - apply demo_region_ok.
  - eauto.
Qed.

Lemma demo_alloc : ∃ s p s',
  insert_range demo_base demo_start demo_end (empty demo_memory) = Ret ((), s) ∧
  client_inv demo_base demo_region s [] ∧ alloc demo_base 2 s = Ret (p, s') ∧
  client_inv demo_base demo_region s' [(p, 2)].
Proof.
  destruct demo_client as (s & Hs & Hci).
  assert (Hv : match insert_range demo_base demo_start demo_end (empty demo_memory) with
               | Ret (_, s) => match alloc demo_base 2 s with Ret _ => true | _ => false end
               | _ => false end = true) by (vm_compute; reflexivity).
  rewrite Hs in Hv. destruct (alloc demo_base 2 s) as [[p s']|] eqn:Ha; [|done].
  exists s, p, s'. split; [done|]. split; [done|]. split; [done|].
  apply (client_alloc_inv demo_base demo_region 2 p s s' []); [done|lia|done].
Qed.

(** ** Properties of the page allocator *)

(** [Palloc::init].  Over a fresh memory, [insert_range] terminates, takes
    exactly the whole pages of the segment, and establishes the invariant of the
    allocator: aligned, disjoint, coalesced free blocks and agreeing counters. *)
Theorem palloc_init_correct (base : Z) (m : memory) (start end_ : Z) :
  fresh base m → 0 < start → start + PG_SIZE ≤ 2 ^ 64 →
  seg_start start ≤ seg_end end_ → is_usize end_ →
  region_ok base m (seg_pages start end_) →
  ∃ s, insert_range base start end_ (empty m) = Ret ((), s) ∧
    client_inv base (seg_pages start end_) s [] ∧
    total s = seg_end end_ - seg_start start ∧ allocated s = 0.
Proof. apply insert_range_client. Qed.

Lemma palloc_init_correct_witness : ∃ s,
  insert_range demo_base demo_start demo_end (empty demo_memory) = Ret ((), s) ∧
  client_inv demo_base demo_region s [] ∧ total s = 0x7000 ∧ allocated s = 0.
Proof.
  apply (palloc_init_correct demo_base demo_memory demo_start demo_end).
  - apply boot_fresh.
  - apply demo_args.
  - apply demo_args.
  - apply demo_args.
  - apply demo_args.
  - apply demo_region_ok.
Defined.

(** C2: [BuddyAllocator::alloc].  A request for more than 256 pages panics.  Any
    other request either returns a block of the least power of two of pages that
    covers it, aligned to its size, inside the segment and disjoint from every
    outstanding block, and counts it; or it panics, and then the segment holds no
    aligned free run of that size at all. *)
Theorem alloc_correct (base : Z) (region : list Z) (s : BuddyAllocator)
    (outs : list (Z * Z)) (n : Z) :
  client_inv base region s outs → 0 ≤ n →
  (256 < n → alloc base n s = Panic AssertFailed) ∧
  (n ≤ 256 →
    let o := order_of n in
    (∃ p s', alloc base n s = Ret (p, s') ∧
      n ≤ 2 ^ Z.of_nat o ∧ (1 < n → 2 ^ Z.of_nat o < 2 * n) ∧
      (block_size o | p) ∧
      (∀ a, a ∈ block_pages o p → a ∈ region ∧ a ∉ out_pages outs) ∧
      total s' = total s ∧ allocated s' = allocated s + 2 ^ Z.of_nat o ∧
      client_inv base region s' ((p, n) :: outs)) ∨
    (alloc base n s = Panic Unreachable ∧
      ∀ b, (block_size o | b) → (∀ a, a ∈ block_pages o b → a ∈ region) →
        ∃ a, a ∈ block_pages o b ∧ a ∈ out_pages outs)).
Proof.
  intros Hci Hn. split.
  { intros Hbig. unfold alloc. change (Z.shiftl 1 (Z.of_nat MAX_ORDER)) with 256.
    rewrite bool_decide_eq_false_2 by lia. done. }
  intros Hle. cbn zeta. destruct (ci_fls _ _ _ _ Hci) as (fls & Hb & Hreg).
  destruct (alloc_inv base s fls n Hb ltac:(lia))
    as [(Hex & Ha)|(_ & p & s' & fls' & Ha & _ & Ht & Hal & Hpost)]; [right|left].
  - split; [done|]. intros b Hbal Hbr.
    destruct (decide (Exists (λ a, a ∈ out_pages outs) (block_pages (order_of n) b)))
      as [Hx|Hx]; [by apply Exists_exists in Hx|exfalso].
    destruct (free_run_in_block base (ba_mem s) fls (order_of n) b)
      as (i & xs & c & Hi & Hxs & Hc & _).
    + apply Hb.
    + apply Hb.
    + apply order_of_le. lia.
    + done.
    + intros a Ha'. specialize (Hbr a Ha'). rewrite Hreg in Hbr.
      apply elem_of_app in Hbr as [|]; [|done]. destruct Hx. apply Exists_exists. eauto.
    + rewrite (Hex i) in Hxs; [simplify_eq; set_solver|].
      pose proof (pool_index _ _ _ (bi_pool _ _ _ Hb) _ _ Hxs). lia.
  - destruct Hpost as (_ & _ & Hdiv & Hpg & _).
    exists p, s'. split; [done|]. pose proof (order_of_spec n ltac:(lia)) as [? ?].
    do 3 (split; [done|]). split; [|split; [done|split; [done|]]].
    + pose proof (ro_nodup _ _ _ (ci_region _ _ _ _ Hci)) as Hnd.
      rewrite Hreg, Hpg in Hnd. intros a Ha'. rewrite Hreg, Hpg, !elem_of_app. split; [auto|].
      intros Hin. apply NoDup_app in Hnd as (_ & Hd & _).
      apply (Hd a Hin), elem_of_app. by left.
    + by apply (client_alloc_inv base region n p s).
Qed.

Lemma alloc_correct_witness : ∃ s,
  client_inv demo_base demo_region s [] ∧
  ((∃ p s', alloc demo_base 2 s = Ret (p, s') ∧ client_inv demo_base demo_region s' [(p, 2)]) ∨
   alloc demo_base 2 s = Panic Unreachable).
Proof.
  destruct demo_client as (s & Hs & Hci). exists s. split; [done|].
  destruct (alloc_correct demo_base _ s [] 2 Hci ltac:(lia)) as [_ Hc].
  destruct (Hc ltac:(lia)) as [(p & s' & Ha & _ & _ & _ & _ & _ & _ & Hci')|[Hp _]].
  - left. exists p, s'. split; [exact Ha|exact Hci'].
  - right. exact Hp.
Defined.

(** C3: [BuddyAllocator::dealloc].  Freeing an outstanding block never panics,
    gives exactly its pages back, takes it off the count, and keeps the
    invariant: after the merging no two free buddies are left. *)
Theorem dealloc_correct (base : Z) (region : list Z) (s : BuddyAllocator)
    (outs outs' : list (Z * Z)) (p n : Z) :
  client_inv base region s outs → outs ≡ₚ (p, n) :: outs' →
  ∃ s', dealloc base p n s = Ret ((), s') ∧ client_inv base region s' outs' ∧
    allocated s' = allocated s - 2 ^ Z.of_nat (order_of n).
Proof.
  intros Hci Ho. destruct (client_dealloc_total base region n p s outs outs' Hci Ho)
    as (s' & Hd & Hci').
  exists s'. split; [done|]. split; [done|].
  rewrite (ci_allocated _ _ _ _ Hci), (ci_allocated _ _ _ _ Hci').
  rewrite (Permutation_length (out_pages_proper _ _ Ho)), length_out_cons. lia.
Qed.

Lemma dealloc_correct_witness : ∃ s p s',
  alloc demo_base 2 s = Ret (p, s') ∧
  ∃ s'', dealloc demo_base p 2 s' = Ret ((), s'') ∧ client_inv demo_base demo_region s'' [] ∧
    allocated s'' = allocated s' - 2 ^ Z.of_nat (order_of 2).
Proof.
  destruct demo_alloc as (s & p & s' & _ & _ & Ha & Hci). exists s, p, s'. split; [done|].
  exact (dealloc_correct demo_base demo_region s' [(p, 2)] [] p 2 Hci (Permutation_refl _)).
Defined.

(** C1: safety of every history of the page allocator.  From [Palloc::init] on,
    whatever a client allocates, frees or writes in its own pages, the blocks it
    holds are disjoint, lie in the segment and are aligned, the counter
    [allocated] is the number of pages held, and freeing any of them succeeds. *)
Theorem palloc_reachable_safe (base : Z) (m : memory) (start end_ : Z) (s0 : BuddyAllocator)
    (s : BuddyAllocator) (outs : list (Z * Z)) :
  fresh base m → 0 < start → start + PG_SIZE ≤ 2 ^ 64 →
  seg_start start ≤ seg_end end_ → is_usize end_ →
  region_ok base m (seg_pages start end_) →
  insert_range base start end_ (empty m) = Ret ((), s0) →
  rtc (client_step base) (s0, []) (s, outs) →
  NoDup (out_pages outs) ∧
  (∀ a, a ∈ out_pages outs → a ∈ seg_pages start end_) ∧
  (∀ p n, (p, n) ∈ outs → (block_size (order_of n) | p)) ∧
  allocated s = Z.of_nat (length (out_pages outs)) ∧
  (∀ p n, (p, n) ∈ outs → ∃ s', dealloc base p n s = Ret ((), s')).
Proof.
  intros Hf Hpos Hov Hle Hu Hreg Hi Hsteps.
  destruct (insert_range_client base m start end_ Hf Hpos Hov Hle Hu Hreg)
    as (s1 & Hi' & Hci & _).
  rewrite Hi in Hi'. simplify_eq.
  assert (Hinv : client_inv base (seg_pages start end_) s outs).
  { by apply (client_steps_inv base _ _ _ Hsteps). }
  pose proof Hinv as [(fls & _ & Hp) Hok Hal Hcnt _].
  pose proof (ro_nodup _ _ _ Hok) as Hnd. rewrite Hp in Hnd.
  split; [by apply NoDup_app in Hnd as [? _]|]. split.
  { intros a Ha. rewrite Hp. apply elem_of_app. by left. }
  split; [intros p n Hpn; by apply Hal in Hpn as [_ ?]|]. split; [done|].
  intros p n Hpn. apply elem_of_Permutation in Hpn as [outs' Ho].
  destruct (client_dealloc_total base _ n p s outs outs' Hinv Ho) as (s' & ? & _). eauto.
Qed.

Lemma palloc_reachable_safe_witness : ∃ s p s',
  insert_range demo_base demo_start demo_end (empty demo_memory) = Ret ((), s) ∧
  alloc demo_base 2 s = Ret (p, s') ∧
  NoDup (out_pages [(p, 2)]) ∧ (∀ a, a ∈ out_pages [(p, 2)] → a ∈ demo_region).
Proof.
  destruct demo_alloc as (s & p & s' & Hs & _ & Ha & _). exists s, p, s'.
  split; [exact Hs|]. split; [exact Ha|].
  destruct (palloc_reachable_safe demo_base demo_memory demo_start demo_end s s' [(p, 2)])
    as (Hnd & Hin & _).
  - apply boot_fresh.
  - apply demo_args.
  - apply demo_args.
  - apply demo_args.
  - apply demo_args.
  - apply demo_region_ok.
  - exact Hs.
  - apply rtc_once. apply client_alloc; [lia|exact Ha].
  - split; [exact Hnd|exact Hin].
Defined.
