(* ===== verification/PallocFrame.v ===== *)
(** * Locality of the page allocator

    The operations of the free list and of the buddy allocator only touch the
    cells they reach: what they do on a memory they do unchanged on any larger
    one, leaving the rest of it alone ([local], the frame property of
    separation logic).  Hence [alloc] and [dealloc] write only in head words and
    in free pages, which is what the heap, the page tables and the second pool
    rely on. *)

From S2P Require Import Prelude Utils InMemList Blocks Palloc PallocClients.

(** A run on [m] maps no new cell, and is the same on [m ∪ f], keeping [f]. *)
Definition local {A} (c : M memory A) : Prop :=
  ∀ m f a m', m ##ₘ f → c m = Ret (a, m') → dom m' = dom m ∧ c (m ∪ f) = Ret (a, m' ∪ f).

Definition local_buddy {A} (c : M BuddyAllocator A) : Prop :=
  ∀ m f t al a s', m ##ₘ f → c (mkBuddy m t al) = Ret (a, s') →
    dom (ba_mem s') = dom m ∧
    c (mkBuddy (m ∪ f) t al) = Ret (a, mkBuddy (ba_mem s' ∪ f) (total s') (allocated s')).

Create HintDb local.

Lemma disjoint_dom (m m' f : memory) : dom m' = dom m → m ##ₘ f → m' ##ₘ f.
Proof. rewrite !map_disjoint_dom. by intros ->. Qed.

Section local_ops.
Context {A B : Type}.

Lemma local_ret (a : A) : local (mret a).
Proof. intros m f a' m' Hd [= <- <-]. done. Qed.

Lemma local_fail p : local (fail p : M memory A).
Proof. intros m f a' m' _ [=]. Qed.

Lemma local_bind (c : M memory A) (k : A → M memory B) :
  local c → (∀ a, local (k a)) → local (mbind k c).
Proof.
  intros Hc Hk m f b m' Hd. unmonad. destruct (c m) as [[a m1]|] eqn:E; [|done]. intros E2.
  destruct (Hc m f a m1 Hd E) as [Hd1 ->].
  destruct (Hk a m1 f b m' (disjoint_dom _ _ _ Hd1 Hd) E2) as [? ->]. split; [congruence|done].
Qed.

Lemma local_buddy_ret (a : A) : local_buddy (mret a).
Proof. intros m f t al a' s' Hd [= <- <-]. done. Qed.

Lemma local_buddy_fail p : local_buddy (fail p : M BuddyAllocator A).
Proof. intros m f t al a' s' _ [=]. Qed.

Lemma local_buddy_bind (c : M BuddyAllocator A) (k : A → M BuddyAllocator B) :
  local_buddy c → (∀ a, local_buddy (k a)) → local_buddy (mbind k c).
Proof.
  intros Hc Hk m f t al b s' Hd. unmonad.
  destruct (c (mkBuddy m t al)) as [[a [m1 t1 al1]]|] eqn:E; [|done]. intros E2.
  destruct (Hc m f t al a _ Hd E) as [Hd1 ->]. cbn in *.
  destruct (Hk a m1 f t1 al1 b s' (disjoint_dom _ _ _ Hd1 Hd) E2) as [? ->].
  split; [congruence|done].
Qed.

Lemma local_on_mem (c : M memory A) : local c → local_buddy (on_mem c).
Proof.
  intros Hc m f t al a s' Hd. unfold on_mem. cbn.
  destruct (c m) as [[a1 m1]|] eqn:E; [|done]. intros [= -> <-].
  destruct (Hc m f a m1 Hd E) as [Hd1 ->]. done.
Qed.
End local_ops.

Lemma local_read p : local (read p).
Proof.
  intros m f a m' Hd. unfold read. destruct (m !! p) as [v|] eqn:E; [|done].
  intros [= -> <-]. by rewrite (lookup_union_Some_l _ _ _ _ E).
Qed.

Lemma local_write p v : local (write p v).
Proof.
  intros m f a m' Hd. unfold write. destruct (m !! p) as [w|] eqn:E; [|done].
  intros [=]; subst m'. rewrite (lookup_union_Some_l _ _ _ _ E). split.
  - apply dom_insert_lookup_L. by eexists.
  - destruct a. by rewrite insert_union_l.
Qed.

Lemma local_for_each {A} (l : list A) (g : A → M BuddyAllocator unit) :
  (∀ x, local_buddy (g x)) → local_buddy (for_each l g).
Proof.
  intros Hg. induction l as [|x l IH]; [apply local_buddy_ret|].
  apply local_buddy_bind; [done|]. by intros _.
Qed.


(** Follows the structure of a computation; the operations already shown local
    are hints. *)
Ltac local_tac := repeat first
  [ progress intros
  | solve [auto 1 with local nocore]
  | apply local_bind | apply local_ret | apply local_fail | apply local_read
  | apply local_write | apply local_buddy_bind | apply local_buddy_ret
  | apply local_buddy_fail | apply local_on_mem | apply local_for_each
  | progress case_match ].

Lemma local_is_empty l : local (is_empty l).
Proof. unfold is_empty. local_tac. Qed.
#[local] Hint Resolve local_is_empty : local.
Lemma local_push l x : local (push l x).
Proof. unfold push. local_tac. Qed.
#[local] Hint Resolve local_push : local.
Lemma local_pop l : local (pop l).
Proof. unfold pop. local_tac. Qed.
#[local] Hint Resolve local_pop : local.
Lemma local_node_pop nd : local (node_pop nd).
Proof. unfold node_pop. local_tac. Qed.
#[local] Hint Resolve local_node_pop : local.
Lemma local_iter_next it : local (iter_next it).
Proof. unfold iter_next. local_tac. Qed.
#[local] Hint Resolve local_iter_next : local.

Lemma local_iter_find n P : ∀ it, local (iter_find n P it).
Proof.
  induction n as [|n IH]; intros it; [apply local_fail|]. cbn [iter_find]. local_tac.
Qed.

(** More fuel does not change a search that ends. *)
Lemma iter_find_fuel n k P : ∀ it m r, iter_find n P it m = Ret r →
  iter_find (n + k) P it m = Ret r.
Proof.
  induction n as [|n IH]; intros it m r; [done|]. cbn [Nat.add iter_find]. unmonad.
  destruct (iter_next it m) as [[[nd it'] m1]|]; [|done].
  destruct nd; [|done]. destruct (P l); [done|]. apply IH.
Qed.

Lemma local_find l P : local (find l P).
Proof.
  intros m f r m' Hd. unfold find. unmonad.
  destruct (iter_mut l m) as [[it m1]|] eqn:E; [|done]. intros E2.
  assert (Hi : local (iter_mut l)) by (unfold iter_mut; local_tac).
  destruct (Hi m f it m1 Hd E) as [Hd1 ->].
  destruct (local_iter_find _ _ _ m1 f r m' (disjoint_dom _ _ _ Hd1 Hd) E2) as [? E3].
  split; [congruence|].
  assert (size m ≤ size (m ∪ f))%nat as Hsz.
  { rewrite <- !size_dom. apply subseteq_size. rewrite dom_union_L. set_solver. }
  replace (S (size (m ∪ f))) with (S (size m) + (size (m ∪ f) - size m))%nat by lia.
  by apply iter_find_fuel.
Qed.

#[local] Hint Resolve local_find : local.

Section alloc_local.
Context (base : Z).

Lemma local_free_list i : local_buddy (free_list base i).
Proof. unfold free_list. local_tac. Qed.
#[local] Hint Resolve local_free_list : local.

Lemma local_lift {A} (o : outcome A) : local_buddy (lift o).
Proof. intros m f t al a s' Hd. unfold lift. destruct o; [|done]. by intros [= <- <-]. Qed.

Lemma local_add_allocated d : local_buddy (add_allocated d).
Proof. intros m f t al a s' Hd [= <- <-]. done. Qed.

Lemma local_unwrap {A} (o : option A) : local_buddy (unwrap o).
Proof. destruct o; [apply local_buddy_ret|apply local_buddy_fail]. Qed.

#[local] Hint Resolve local_lift local_add_allocated local_unwrap : local.

Lemma local_push_block i b : local_buddy (push_block base i b).
Proof. unfold push_block. local_tac. Qed.
#[local] Hint Resolve local_push_block : local.
Lemma local_pop_block i : local_buddy (pop_block base i).
Proof. unfold pop_block. local_tac. Qed.
#[local] Hint Resolve local_pop_block : local.
Lemma local_list_empty i : local_buddy (list_empty base i).
Proof. unfold list_empty. local_tac. Qed.
#[local] Hint Resolve local_list_empty : local.

Lemma local_split_step j : local_buddy (split_step base j).
Proof. unfold split_step. local_tac. Qed.
#[local] Hint Resolve local_split_step : local.

Lemma local_alloc_scan o l : local_buddy (alloc_scan base o l).
Proof.
  induction l as [|i l IH]; [apply local_buddy_fail|]. cbn [alloc_scan].
  apply local_buddy_bind; [apply local_list_empty|]. intros e. destruct (negb e); [|done].
  local_tac.
Qed.

Lemma local_alloc n : local_buddy (alloc base n).
Proof. unfold alloc. apply local_buddy_bind; [apply local_lift|]. intros. apply local_alloc_scan. Qed.

Lemma local_merge_loop n : ∀ p o, local_buddy (merge_loop base n p o).
Proof.
  induction n as [|n IH]; intros p o; [apply local_buddy_fail|]. cbn [merge_loop]. cbn zeta.
  local_tac.
Qed.
#[local] Hint Resolve local_merge_loop : local.

Lemma local_dealloc p n : local_buddy (dealloc base p n).
Proof.
  unfold dealloc. local_tac.
Qed.

Lemma local_add_total d : local_buddy (add_total d).
Proof. intros m f t al a s' Hd [= <- <-]. done. Qed.
#[local] Hint Resolve local_add_total : local.

Lemma local_insert_loop n : ∀ a b, local_buddy (insert_loop base n a b).
Proof.
  induction n as [|n IH]; intros a b; [apply local_buddy_fail|]. cbn [insert_loop].
  destruct (bool_decide _); [|apply local_buddy_ret]. cbn zeta. local_tac.
Qed.
#[local] Hint Resolve local_insert_loop : local.

Lemma local_insert_range a b : local_buddy (insert_range base a b).
Proof. unfold insert_range. local_tac. Qed.

(** ** What the allocator may touch *)

(** [a] is a word the allocator owns: a head word, or in a page of [pgs]. *)
Definition pool_word (pgs : list Z) (a : Z) : Prop :=
  a ∈ head_words base ∨ ∃ pg, pg ∈ pgs ∧ pg ≤ a < pg + PG_SIZE.

#[export] Instance pool_word_dec pgs a : Decision (pool_word pgs a).
Proof.
  apply or_dec; [apply _|].
  destruct (decide (Exists (λ pg, pg ≤ a < pg + PG_SIZE) pgs)) as [H|H].
  - left. by apply Exists_exists in H.
  - right. intros Hx. by apply H, Exists_exists.
Defined.

Definition own (pgs : list Z) (m : memory) : memory := filter (λ kv, pool_word pgs kv.1) m.
Definition rest (pgs : list Z) (m : memory) : memory := filter (λ kv, ¬ pool_word pgs kv.1) m.

Lemma own_rest pgs m : own pgs m ##ₘ rest pgs m ∧ own pgs m ∪ rest pgs m = m.
Proof. split; [apply map_disjoint_filter_complement|apply map_filter_union_complement]. Qed.

Lemma own_lookup pgs m a : pool_word pgs a → own pgs m !! a = m !! a.
Proof.
  intros Ha. destruct (m !! a) as [v|] eqn:E.
  - by apply map_lookup_filter_Some.
  - apply map_lookup_filter_None. by left.
Qed.

Lemma page_word pgs pg k : pg ∈ pgs → 0 ≤ k < 512 → pool_word pgs (pg + 8 * k).
Proof. intros. right. exists pg. rewrite PG_SIZE_pow2. split; [done|lia]. Qed.

Lemma page_mapped_own pgs m pg : pg ∈ pgs → page_mapped m pg → page_mapped (own pgs m) pg.
Proof. intros Hpg Hm k Hk. rewrite own_lookup by (by apply page_word). by apply Hm. Qed.

Lemma pool_inv_own pgs m fls : (∀ a, a ∈ pages fls → a ∈ pgs) → pool_inv base m fls →
  pool_inv base (own pgs m) fls.
Proof.
  intros Hsub Hinv. pose proof Hinv as [Hlen Hls Hnd Hmap Hh Hal Hr]. split; try done.
  - intros i xs Hi. apply (list_at_frame m); [|auto]. intros a Ha. apply own_lookup.
    apply elem_of_cons in Ha as [->|Ha].
    + left. apply elem_of_head_words. by apply (pool_index base m fls Hinv i xs).
    + pose proof (pages_heads _ _ _ _ Hi Ha) as Hpg.
      specialize (page_word pgs a 0 (Hsub _ Hpg) ltac:(lia)). by rewrite Z.add_0_r.
  - intros a Ha. apply page_mapped_own; auto.
Qed.

(** A local run that succeeds on the cells the allocator owns leaves all other
    cells alone. *)
Lemma local_frame {A} (c : M BuddyAllocator A) pgs m t al a s' a' s'' :
  local_buddy c →
  c (mkBuddy (own pgs m) t al) = Ret (a', s'') →
  c (mkBuddy m t al) = Ret (a, s') →
  ∀ x, ¬ pool_word pgs x → ba_mem s' !! x = m !! x.
Proof.
  intros Hl E E' x Hx. destruct (own_rest pgs m) as [Hdj Hun].
  destruct (Hl _ _ _ _ _ _ Hdj E) as [Hd E2]. rewrite Hun, E' in E2. simplify_eq.
  cbn. rewrite lookup_union_r.
  - destruct (m !! x) as [v|] eqn:Ex.
    + by apply map_lookup_filter_Some.
    + apply map_lookup_filter_None. by left.
  - apply not_elem_of_dom. rewrite Hd. apply not_elem_of_dom, map_lookup_filter_None. by right.
Qed.

Lemma alloc_frame m fls n t al p s' :
  pool_inv base m fls → 0 ≤ n ≤ 256 → alloc base n (mkBuddy m t al) = Ret (p, s') →
  ∀ x, ¬ pool_word (pages fls) x → ba_mem s' !! x = m !! x.
Proof.
  intros Hinv Hn E x Hx. pose proof (pool_inv_own (pages fls) m fls (λ _ H, H) Hinv) as Hinv'.
  destruct (alloc_spec base _ _ n t al Hinv' Hn) as [[Hex _]|(_ & p' & m' & fls' & E' & Hp)].
  - destruct (alloc_spec base m fls n t al Hinv Hn) as [[_ E2]|[Hne _]]; [congruence|done].
  - eapply local_frame; [apply local_alloc|exact E'|exact E|done].
Qed.

Lemma dealloc_frame m fls n p t al s' :
  pool_inv base m fls → n ≤ 256 → block_ok base m fls (order_of n) p →
  dealloc base p n (mkBuddy m t al) = Ret ((), s') →
  ∀ x, ¬ pool_word (block_pages (order_of n) p ++ pages fls) x → ba_mem s' !! x = m !! x.
Proof.
  intros Hinv Hn [B1 B2 B3 B4 B5] E x Hx. set (pgs := _ ++ _) in *.
  assert (Hinv' : pool_inv base (own pgs m) fls).
  { apply pool_inv_own; [|done]. intros a Ha. apply elem_of_app. by right. }
  destruct (dealloc_spec base (own pgs m) fls n p t al Hinv' Hn) as (m' & fls' & E' & Hp).
  { split; try done. intros a Ha. apply page_mapped_own; [|auto]. apply elem_of_app. by left. }
  eapply local_frame; [apply local_dealloc|exact E'|exact E|done].
Qed.

Lemma region_ok_own m pgs : region_ok base m pgs → region_ok base (own pgs m) pgs.
Proof.
  intros [Hnd Hm Hh Hr]. split; try done. intros a Ha. apply page_mapped_own; auto.
Qed.

Lemma insert_range_frame m start end_ s :
  fresh base m → 0 < start → start + PG_SIZE ≤ 2 ^ 64 → seg_start start ≤ seg_end end_ →
  is_usize end_ → region_ok base m (seg_pages start end_) →
  insert_range base start end_ (empty m) = Ret ((), s) →
  ∀ x, ¬ pool_word (seg_pages start end_) x → ba_mem s !! x = m !! x.
Proof.
  intros Hf Hs Hov Hle He Hreg E x Hx.
  destruct (insert_range_client base (own (seg_pages start end_) m) start end_)
    as (s' & E' & _); try done.
  - intros i Hi. rewrite own_lookup by (left; by apply elem_of_head_words). by apply Hf.
  - by apply region_ok_own.
  - eapply local_frame; [apply local_insert_range|exact E'|exact E|done].
Qed.
End alloc_local.
