(* ===== verification/Malloc.v ===== *)
(** * The kernel heap

    [mem/malloc.rs]: eight descriptors of power-of-two blocks carved out of
    one-page arenas, and requests above [MAX_BLKSIZE] that go to the page
    allocator.  Arena headers and free lists are in the memory of
    [InMemList.v]; the scalar fields of the descriptors are in the state.  The
    invariant [heap_inv] says which blocks of which arena are free and which are
    live; the theorems say that [alloc] hands out aligned blocks that are
    disjoint from every live one and that any history keeps the invariant. *)

From S2P Require Import Prelude Utils InMemList Blocks Palloc PallocClients PallocFrame.

Definition ARENA_MAGIC : Z := 0x9a548eed.
Definition MAX_BLKSIZE : Z := PG_SIZE / 4.

(** [struct Desc]; the head word of [free_list] is in memory. *)
Record Desc : Type := mkDesc {
  bsize : Z;
  blocks_per_arena : Z;
  d_allocated : Z;
  d_free : Z;
  d_total : Z;
}.

(** [struct Heap] and the page allocator it takes its pages from. *)
Record Heap : Type := mkHeap {
  hp_pool : BuddyAllocator;
  descs : list Desc;
  spilled_alloc : Z;
  spilled_total : Z;
}.

(** Where the compiler put the statics: the array of free lists of [PALLOC], and
    each descriptor of [HEAP] with the [free_list] field in it. *)
Class HeapLayout := {
  pool_at : Z;
  desc_at : nat → Z;
  head_at : nat → Z;
}.

(** [size_of::<Arena>()] and [size_of::<Desc>()]. *)
Definition arena_bytes : Z := 16.
Definition desc_bytes : Z := 48.

(** [Desc::new] *)
Definition desc_new (block_size : Z) : outcome Desc :=
  r ← round_up desc_bytes block_size ;
  mret (mkDesc block_size ((PG_SIZE - r) / block_size) 0 0 0).

(** The initial value of [HEAP]: block sizes 8 to 1024. *)
Fixpoint new_descs (idxs : list nat) : outcome (list Desc) :=
  match idxs with
  | [] => mret []
  | i :: idxs =>
      d ← desc_new (Z.shiftl 1 (Z.of_nat i + 3)) ;
      ds ← new_descs idxs ;
      mret (d :: ds)
  end.

Definition heap_new (pool : BuddyAllocator) : outcome Heap :=
  ds ← new_descs (seq 0 8) ; mret (mkHeap pool ds 0 0).

Section malloc.
Context `{HeapLayout}.

Definition on_pool {A} (c : M BuddyAllocator A) : M Heap A := λ h,
  match c (hp_pool h) with
  | Ret (a, b) => Ret (a, mkHeap b (descs h) (spilled_alloc h) (spilled_total h))
  | Panic p => Panic p
  end.

Definition on_words {A} (c : M memory A) : M Heap A := on_pool (on_mem c).

(** [self.descs[i]] and updates of a descriptor through [&mut self]. *)
Definition get_desc (i : nat) : M Heap Desc := λ h,
  match descs h !! i with Some d => Ret (d, h) | None => Panic IndexOutOfBounds end.
Definition update_desc (i : nat) (f : Desc → Desc) : M Heap unit :=
  d ← get_desc i ;
  modify (λ h, mkHeap (hp_pool h) (<[i := f d]> (descs h)) (spilled_alloc h) (spilled_total h)).

(** [ptr.as_ref().unwrap()] for a pointer to a descriptor. *)
Definition deref_desc (ptr : Z) : M Heap Desc :=
  if bool_decide (ptr = 0) then fail UnwrapNone
  else match list_find (λ i, desc_at i = ptr) (seq 0 8) with
       | Some (i, _) => get_desc i
       | None => fail MemFault
       end.

(** The [#[repr(C)]] header: [magic] is the low half of the first word,
    [free_cnt] the high half, [desc] the second word. *)
Definition arena_magic (a : Z) : M memory Z := w ← read a ; mret (wrap32 w).
Definition arena_free_cnt (a : Z) : M memory Z := w ← read a ; mret (Z.shiftr w 32).
Definition set_arena_magic (a v : Z) : M memory unit :=
  c ← arena_free_cnt a ; write a (v + Z.shiftl c 32).
Definition set_arena_free_cnt (a v : Z) : M memory unit :=
  g ← arena_magic a ; write a (g + Z.shiftl v 32).
Definition arena_desc (a : Z) : M memory Z := read (a + 8).
Definition set_arena_desc (a v : Z) : M memory unit := write (a + 8) v.

(** [Arena::from_block] *)
Definition from_block (blk : Z) : M Heap Z :=
  let arena := Z.land blk (bnot 64 PG_MASK) in
  (if bool_decide (arena = 0) then fail UnwrapNone else mret ()) ;;
  g ← on_words (arena_magic arena) ;
  lift (assert_ (bool_decide (g = ARENA_MAGIC))) ;;
  dp ← on_words (arena_desc arena) ;
  lift (assert_ (bool_decide (dp ≠ 0))) ;;
  d ← deref_desc dp ;
  lift (assert_ (bool_decide (blk mod bsize d = 0))) ;;
  mret arena.

(** [Arena::get_block] *)
Definition get_block (arena idx : Z) : M Heap Z :=
  g ← on_words (arena_magic arena) ;
  lift (assert_ (bool_decide (g = ARENA_MAGIC))) ;;
  dp ← on_words (arena_desc arena) ;
  d ← deref_desc dp ;
  lift (assert_ (bool_decide (idx < blocks_per_arena d))) ;;
  lift (assert_ (bool_decide (arena mod PG_SIZE = 0))) ;;
  offset ← lift (round_up arena_bytes (bsize d)) ;
  mret (wrap64 (arena + offset + idx * bsize d)).

(** The refill branch of [Desc::alloc]: a new arena whose blocks are all free. *)
Definition refill (i : nat) : M Heap unit :=
  arena ← on_pool (alloc pool_at 1) ;
  on_words (set_arena_magic arena ARENA_MAGIC) ;;
  on_words (set_arena_desc arena (desc_at i)) ;;
  d ← get_desc i ;
  on_words (set_arena_free_cnt arena (wrap32 (blocks_per_arena d))) ;;
  for_each (seqZ 0 (blocks_per_arena d)) (λ j,
    block ← get_block arena j ;
    on_words (push (head_at i) block)) ;;
  update_desc i (λ d, mkDesc (bsize d) (blocks_per_arena d) (d_allocated d)
    (wrap64 (d_free d + bsize d * blocks_per_arena d)) (wrap64 (d_total d + PG_SIZE))).

(** The rest of [Desc::alloc], where the free list has a block. *)
Definition take_block (i : nat) : M Heap Z :=
  update_desc i (λ d, mkDesc (bsize d) (blocks_per_arena d)
    (wrap64 (d_allocated d + bsize d)) (wrap64 (d_free d - bsize d)) (d_total d)) ;;
  b ← on_words (pop (head_at i)) ;
  block ← unwrap b ;
  arena ← from_block block ;
  c ← on_words (arena_free_cnt arena) ;
  on_words (set_arena_free_cnt arena (wrap32 (c - 1))) ;;
  mret block.

(** [Desc::alloc] *)
Definition desc_alloc (i : nat) : M Heap Z :=
  e ← on_words (is_empty (head_at i)) ;
  (if (e : bool) then refill i else mret ()) ;;
  take_block i.

(** [Desc::dealloc] *)
Definition desc_dealloc (i : nat) (ptr : Z) : M Heap unit :=
  on_words (push (head_at i) ptr) ;;
  update_desc i (λ d, mkDesc (bsize d) (blocks_per_arena d)
    (wrap64 (d_allocated d - bsize d)) (wrap64 (d_free d + bsize d)) (d_total d)) ;;
  arena ← from_block ptr ;
  c ← on_words (arena_free_cnt arena) ;
  on_words (set_arena_free_cnt arena (wrap32 (c + 1))).

Definition add_spilled (size pages : Z) : M Heap unit :=
  modify (λ h, mkHeap (hp_pool h) (descs h)
    (wrap64 (spilled_alloc h + size)) (wrap64 (spilled_total h + pages))).

(** [max(layout.size().next_power_of_two(), layout.align())] and the index of
    the descriptor for it. *)
Definition class_size (size align : Z) : Z := Z.max (next_power_of_two size) align.
Definition class_of (size : Z) : nat := Z.to_nat (saturating_sub (trailing_zeros size) 3).

(** [lock] on a descriptor checks the index of the array access. *)
Definition check_index (i : nat) : M Heap unit := get_desc i ;; mret ().

(** [Heap::alloc] *)
Definition heap_alloc (lsize lalign : Z) : M Heap Z :=
  if bool_decide (lsize = 0) then mret 1 (* NonNull::dangling *)
  else
    lift (assert_ (is_power_of_two lalign)) ;;
    lift (assert_ (bool_decide (lalign ≤ PG_SIZE))) ;;
    let size := class_size lsize lalign in
    if bool_decide (size ≤ MAX_BLKSIZE) then
      check_index (class_of size) ;; desc_alloc (class_of size)
    else
      let pages := wrap64 (lsize + PG_SIZE - 1) / PG_SIZE in
      add_spilled size pages ;;
      on_pool (alloc pool_at pages).

(** [Heap::dealloc] *)
Definition heap_dealloc (ptr lsize lalign : Z) : M Heap unit :=
  if bool_decide (ptr = 0) then mret ()
  else
    let size := class_size lsize lalign in
    if bool_decide (size ≤ MAX_BLKSIZE) then
      check_index (class_of size) ;; desc_dealloc (class_of size) ptr
    else
      let pages := wrap64 (lsize + PG_SIZE - 1) / PG_SIZE in
      add_spilled (- size) (- pages) ;;
      lift (assert_ (bool_decide (ptr mod PG_SIZE = 0))) ;;
      on_pool (dealloc pool_at ptr pages).

(** [Heap::free], [Heap::allocated] and [Heap::total]. *)
Definition heap_free (h : Heap) : Z :=
  foldl (λ free d, wrap64 (free + d_free d)) 0 (descs h).
Definition heap_allocated (h : Heap) : Z :=
  wrap64 (foldl (λ al d, wrap64 (al + d_allocated d)) 0 (descs h) + spilled_alloc h).
Definition heap_total (h : Heap) : Z :=
  wrap64 (foldl (λ t d, wrap64 (t + d_total d)) 0 (descs h) + spilled_total h * PG_SIZE).

(** [Layout::from_size_align(size, align).unwrap()] *)
Definition layout_ok (size align : Z) : outcome unit :=
  if is_power_of_two align && bool_decide (size ≤ 2 ^ 63 - align) then Ret ()
  else Panic UnwrapNone.

Definition kalloc (size align : Z) : M Heap Z :=
  lift (layout_ok size align) ;; heap_alloc size align.
Definition kfree (ptr size align : Z) : M Heap unit :=
  lift (layout_ok size align) ;; heap_dealloc ptr size align.

(** ** Size classes *)

(** Class [i] serves blocks of [2^(i+3)] bytes; in an arena the blocks start at
    [cls_off i] and there are [cls_cnt i] of them. *)
Definition cls_size (i : nat) : Z := 2 ^ (Z.of_nat i + 3).
Definition cls_off (i : nat) : Z := (arena_bytes + cls_size i - 1) / cls_size i * cls_size i.
Definition cls_cnt (i : nat) : Z :=
  (PG_SIZE - (desc_bytes + cls_size i - 1) / cls_size i * cls_size i) / cls_size i.

Lemma class_cases (i : nat) (P : nat → Prop) : (i < 8)%nat →
  P 0%nat → P 1%nat → P 2%nat → P 3%nat → P 4%nat → P 5%nat → P 6%nat → P 7%nat → P i.
Proof. intros Hi. intros. do 8 (destruct i as [|i]; [assumption|]). lia. Qed.

Lemma class_facts i : (i < 8)%nat →
  (cls_size i | PG_SIZE) ∧ (cls_size i | cls_off i) ∧ (8 | cls_size i) ∧
  8 ≤ cls_size i ∧ 16 ≤ cls_off i ∧
  1 ≤ cls_cnt i ∧ cls_off i + cls_cnt i * cls_size i ≤ PG_SIZE ∧
  round_up arena_bytes (cls_size i) = Ret (cls_off i).
Proof.
  intros Hi. pattern i. apply class_cases; [done|..]; cbv beta;
    (split_and!; first [by vm_compute | apply Z.mod_divide; by vm_compute]).
Qed.

Lemma new_descs_eq : new_descs (seq 0 8) = Ret ((λ i, mkDesc (cls_size i) (cls_cnt i) 0 0 0) <$> seq 0 8).
Proof. by vm_compute. Qed.

(** Block [j] of the arena at [a], and all its blocks. *)
Definition arena_block (i : nat) (a j : Z) : Z := a + cls_off i + j * cls_size i.
Definition arena_blocks (i : nat) (a : Z) : list Z := arena_block i a <$> seqZ 0 (cls_cnt i).
Definition class_blocks (i : nat) (arenas : list Z) : list Z := arenas ≫= arena_blocks i.

Lemma elem_of_arena_blocks i a b :
  b ∈ arena_blocks i a ↔ ∃ j, 0 ≤ j < cls_cnt i ∧ b = arena_block i a j.
Proof.
  unfold arena_blocks. rewrite list_elem_of_fmap. split.
  - intros (j & -> & Hj%elem_of_seqZ). exists j. split; [lia|done].
  - intros (j & Hj & ->). exists j. split; [done|]. apply elem_of_seqZ. lia.
Qed.

Lemma elem_of_class_blocks i arenas b :
  b ∈ class_blocks i arenas ↔ ∃ a, a ∈ arenas ∧ b ∈ arena_blocks i a.
Proof. unfold class_blocks. rewrite list_elem_of_bind. naive_solver. Qed.

(** A block is made of whole words of its arena, past the header. *)
Lemma arena_block_words i a b k : (i < 8)%nat → b ∈ arena_blocks i a →
  0 ≤ k → 8 * k < cls_size i → ∃ n, 2 ≤ n < 512 ∧ b + 8 * k = a + 8 * n.
Proof.
  intros Hi (j & Hj & ->)%elem_of_arena_blocks Hk Hlt.
  destruct (class_facts i Hi) as (_ & [o Ho] & [s Hs] & Hs8 & Ho16 & _ & Htop & _).
  unfold arena_block. rewrite PG_SIZE_pow2 in Htop. rewrite Ho, Hs in *.
  exists ((o + j) * s + k). split; [|nia]. split; nia.
Qed.

Lemma arena_block_word i a b : (i < 8)%nat → b ∈ arena_blocks i a →
  ∃ n, 2 ≤ n < 512 ∧ b = a + 8 * n.
Proof.
  intros Hi Hb. destruct (class_facts i Hi) as (_ & _ & _ & ? & _).
  destruct (arena_block_words i a b 0 Hi Hb) as (n & ? & ?); [lia|lia|]. exists n. split; lia.
Qed.

Lemma arena_block_aligned i a b : (i < 8)%nat → (PG_SIZE | a) → b ∈ arena_blocks i a →
  (cls_size i | b).
Proof.
  intros Hi Ha (j & _ & ->)%elem_of_arena_blocks.
  destruct (class_facts i Hi) as (Hp & Ho & _). unfold arena_block.
  apply Z.divide_add_r; [apply Z.divide_add_r; [exact (Z.divide_trans _ _ _ Hp Ha)|done]|apply Z.divide_factor_r].
Qed.

(** [blk & !PG_MASK] is the arena of a block. *)
Lemma block_arena i a b : (i < 8)%nat → (PG_SIZE | a) → 0 ≤ a → a + PG_SIZE ≤ 2 ^ 64 →
  b ∈ arena_blocks i a → Z.land b (bnot 64 PG_MASK) = a.
Proof.
  intros Hi [q ->] Ha Hr Hb. destruct (arena_block_word i _ b Hi Hb) as (n & Hn & ->).
  rewrite PG_SIZE_pow2 in *.
  change (bnot 64 PG_MASK) with (bnot 64 (wrap64 (2 ^ 12 - 1))).
  rewrite land_bnot_low by (unfold in_range; lia).
  rewrite Z.add_comm, Z_mod_plus_full, Z.mod_small by lia. lia.
Qed.

Lemma NoDup_arena_blocks i a : (i < 8)%nat → NoDup (arena_blocks i a).
Proof.
  intros Hi. destruct (class_facts i Hi) as (_ & _ & _ & ? & _). unfold arena_blocks.
  apply NoDup_fmap_2_strong; [|apply NoDup_seqZ]. unfold arena_block. intros x y _ _ ?. nia.
Qed.

Lemma arenas_disjoint i i' a a' b : (i < 8)%nat → (i' < 8)%nat →
  (PG_SIZE | a) → (PG_SIZE | a') → b ∈ arena_blocks i a → b ∈ arena_blocks i' a' → a = a'.
Proof.
  intros Hi Hi' [q ->] [q' ->] Hb Hb'.
  destruct (arena_block_word i _ b Hi Hb) as (n & Hn & ->).
  destruct (arena_block_word i' _ _ Hi' Hb') as (n' & Hn' & E).
  rewrite PG_SIZE_pow2 in *. f_equal. lia.
Qed.

Lemma NoDup_class_blocks i arenas : (i < 8)%nat → NoDup arenas →
  (∀ a, a ∈ arenas → (PG_SIZE | a)) → NoDup (class_blocks i arenas).
Proof.
  intros Hi. induction 1 as [|a arenas Ha Hnd IH]; intros Hal; [constructor|].
  change (class_blocks i (a :: arenas)) with (arena_blocks i a ++ class_blocks i arenas).
  apply NoDup_app. split; [by apply NoDup_arena_blocks|]. split.
  - intros b Hb (a' & Ha' & Hb')%elem_of_class_blocks.
    rewrite (arenas_disjoint i i a a' b) in Ha; try done; apply Hal; set_solver.
  - apply IH. intros. apply Hal. by right.
Qed.

(** ** The invariant of the heap *)

(** What descriptor [i] holds: its arenas and its free and live blocks. *)
Record ClassView : Type := mkView { arenas : list Z; free : list Z; live : list Z }.

Definition free_in (v : ClassView) (a : Z) : Z :=
  Z.of_nat (length (filter (λ b, a ≤ b < a + PG_SIZE) (free v))).
Definition header (v : ClassView) (a : Z) : Z :=
  ARENA_MAGIC + Z.shiftl (wrap32 (free_in v a)) 32.

(** The words of class [i]: its list is in memory and so are the headers. *)
Record class_words (m : memory) (i : nat) (v : ClassView) : Prop := {
  cw_list : list_at m (head_at i) (free v);
  cw_header : ∀ a, a ∈ arenas v → m !! a = Some (header v a);
  cw_desc : ∀ a, a ∈ arenas v → m !! (a + 8) = Some (desc_at i);
}.

Definition class_desc (i : nat) (v : ClassView) : Desc :=
  mkDesc (cls_size i) (cls_cnt i)
    (wrap64 (cls_size i * Z.of_nat (length (live v))))
    (wrap64 (cls_size i * Z.of_nat (length (free v))))
    (wrap64 (PG_SIZE * Z.of_nat (length (arenas v)))).

Definition view_blocks (i : nat) (v : ClassView) : Prop :=
  free v ++ live v ≡ₚ class_blocks i (arenas v).

Definition all_arenas (vs : list ClassView) : list Z := vs ≫= arenas.
Definition arena_outs (vs : list ClassView) : list (Z * Z) := (λ a, (a, 1)) <$> all_arenas vs.

(** The statics of the heap are apart from each other and from the pool. *)
Record statics_ok (region : list Z) : Prop := {
  so_desc : ∀ i j, (i < 8)%nat → (j < 8)%nat → desc_at i = desc_at j → i = j;
  so_desc0 : ∀ i, (i < 8)%nat → desc_at i ≠ 0;
  so_head : ∀ i j, (i < 8)%nat → (j < 8)%nat → head_at i = head_at j → i = j;
  so_pool : ∀ i, (i < 8)%nat → head_at i ∉ head_words pool_at;
  so_region : ∀ i a, (i < 8)%nat → a ∈ region → ¬ (a ≤ head_at i < a + PG_SIZE);
}.

Record heap_inv (region : list Z) (h : Heap) (vs : list ClassView) (outs : list (Z * Z)) : Prop := {
  hi_statics : statics_ok region;
  hi_client : client_inv pool_at region (hp_pool h) (arena_outs vs ++ outs);
  hi_length : length vs = 8%nat;
  hi_descs : descs h = imap class_desc vs;
  hi_words : ∀ i v, vs !! i = Some v → class_words (ba_mem (hp_pool h)) i v;
  hi_blocks : ∀ i v, vs !! i = Some v → view_blocks i v;
}.

(** ** Running on the words of the heap *)

Definition with_mem (h : Heap) (m : memory) : Heap :=
  mkHeap (mkBuddy m (total (hp_pool h)) (allocated (hp_pool h)))
    (descs h) (spilled_alloc h) (spilled_total h).
Abbreviation mem_of h := (ba_mem (hp_pool h)).

Lemma on_words_ret {A} (c : M memory A) h a m' :
  c (mem_of h) = Ret (a, m') → on_words c h = Ret (a, with_mem h m').
Proof. intros E. unfold on_words, on_pool, on_mem. by rewrite E. Qed.

Lemma with_mem_id h : with_mem h (mem_of h) = h.
Proof. by destruct h as [[] ???]. Qed.

(** The header of the arena at [a], of class [i], with free count [c]. *)
Record header_ok (m : memory) (i : nat) (a c : Z) : Prop := {
  ho_word : m !! a = Some (ARENA_MAGIC + Z.shiftl c 32);
  ho_cnt : is_u32 c;
  ho_desc : m !! (a + 8) = Some (desc_at i);
}.

Lemma header_low c : wrap32 (ARENA_MAGIC + Z.shiftl c 32) = ARENA_MAGIC.
Proof. unfold wrap. rewrite Z.shiftl_mul_pow2, Z_mod_plus_full by lia. done. Qed.

Lemma header_high c : Z.shiftr (ARENA_MAGIC + Z.shiftl c 32) 32 = c.
Proof.
  rewrite Z.shiftl_mul_pow2, Z.shiftr_div_pow2, Z.div_add by lia. done.
Qed.

Lemma get_desc_spec i d h : descs h !! i = Some d → get_desc i h = Ret (d, h).
Proof. intros E. unfold get_desc. by rewrite E. Qed.

Lemma deref_desc_spec region i d h : statics_ok region → (i < 8)%nat → descs h !! i = Some d →
  deref_desc (desc_at i) h = Ret (d, h).
Proof.
  intros Hs Hi Hd. unfold deref_desc. rewrite bool_decide_eq_false_2 by (by apply (so_desc0 _ Hs)).
  assert (E : list_find (λ j, desc_at j = desc_at i) (seq 0 8) = Some (i, i)).
  { apply list_find_Some. split_and!; [by apply lookup_seq_lt|done|].
    intros j y Hj Hlt E. apply lookup_seq in Hj as [-> Hj].
    apply (so_desc _ Hs) in E; lia. }
  rewrite E. by apply get_desc_spec.
Qed.

Section one_class.
Context (region : list Z) (Hst : statics_ok region).
Context (i : nat) (Hi : (i < 8)%nat) (h : Heap) (d : Desc).
Context (Hd : descs h !! i = Some d) (Hbs : bsize d = cls_size i).

Lemma from_block_spec a c b :
  header_ok (mem_of h) i a c → (PG_SIZE | a) → 0 < a → a + PG_SIZE ≤ 2 ^ 64 →
  b ∈ arena_blocks i a → from_block b h = Ret (a, h).
Proof using Hst Hi Hd Hbs.
  intros [Hw Hc Hdp] Hal Ha0 Har Hb. unfold from_block.
  rewrite (block_arena i a b) by (done || lia). unmonad.
  rewrite bool_decide_eq_false_2 by lia.
  rewrite (on_words_ret _ h ARENA_MAGIC (mem_of h)); last first.
  { unfold arena_magic, read. unmonad. rewrite Hw. by rewrite header_low. }
  rewrite with_mem_id, bool_decide_eq_true_2 by done. cbn [assert_].
  rewrite (on_words_ret _ h (desc_at i) (mem_of h)); last first.
  { unfold arena_desc, read. by rewrite Hdp. }
  rewrite with_mem_id, bool_decide_eq_true_2 by (by apply (so_desc0 _ Hst)). cbn [assert_].
  rewrite (deref_desc_spec region i d h) by done.
  rewrite Hbs, bool_decide_eq_true_2; [done|].
  destruct (class_facts i Hi) as (_ & _ & _ & ? & _).
  apply Z.mod_divide; [lia|]. by eapply arena_block_aligned.
Qed.

Lemma get_block_spec a c j :
  blocks_per_arena d = cls_cnt i →
  header_ok (mem_of h) i a c → (PG_SIZE | a) → 0 < a → a + PG_SIZE ≤ 2 ^ 64 →
  0 ≤ j < cls_cnt i → get_block a j h = Ret (arena_block i a j, h).
Proof using Hst Hi Hd Hbs.
  intros Hbpa [Hw Hc Hdp] Hal Ha0 Har Hj. unfold get_block. unmonad.
  rewrite (on_words_ret _ h ARENA_MAGIC (mem_of h)); last first.
  { unfold arena_magic, read. unmonad. rewrite Hw. by rewrite header_low. }
  rewrite with_mem_id, bool_decide_eq_true_2 by done. cbn [assert_].
  rewrite (on_words_ret _ h (desc_at i) (mem_of h)); last first.
  { unfold arena_desc, read. by rewrite Hdp. }
  rewrite with_mem_id, (deref_desc_spec region i d h) by done.
  rewrite Hbpa, bool_decide_eq_true_2 by lia. cbn [assert_].
  rewrite bool_decide_eq_true_2 by (by apply Z.mod_divide). cbn [assert_].
  destruct (class_facts i Hi) as (_ & _ & _ & ? & ? & _ & Htop & Hoff).
  rewrite Hbs, Hoff. do 2 f_equal. unfold arena_block. apply wrap_small. unfold in_range.
  rewrite PG_SIZE_pow2 in *. nia.
Qed.
End one_class.

(** Pushing the blocks [j .. j + n] of a fresh arena. *)
Lemma push_blocks_spec region i a c n : ∀ j h d xs,
  statics_ok region → (i < 8)%nat →
  descs h !! i = Some d → bsize d = cls_size i → blocks_per_arena d = cls_cnt i →
  header_ok (mem_of h) i a c → (PG_SIZE | a) → 0 < a → a + PG_SIZE ≤ 2 ^ 64 →
  page_mapped (mem_of h) a → ¬ (a ≤ head_at i < a + PG_SIZE) →
  0 ≤ j → j + Z.of_nat n ≤ cls_cnt i →
  list_at (mem_of h) (head_at i) xs →
  (∀ k, j ≤ k → arena_block i a k ∉ xs) →
  ∃ m', for_each (seqZ j (Z.of_nat n)) (λ j,
           block ← get_block a j ; on_words (push (head_at i) block)) h
        = Ret ((), with_mem h m') ∧
    list_at m' (head_at i) (rev (arena_block i a <$> seqZ j (Z.of_nat n)) ++ xs) ∧
    dom m' = dom (mem_of h) ∧
    (∀ x, x ≠ head_at i → (∀ k, 2 ≤ k < 512 → x ≠ a + 8 * k) → m' !! x = mem_of h !! x).
Proof.
  induction n as [|n IH]; intros j h d xs Hst Hi Hd Hbs Hbpa Hho Hal Ha0 Har Hmap Hhd Hj Hn Hl Hfr.
  { exists (mem_of h). cbn. unmonad. rewrite with_mem_id. done. }
  rewrite seqZ_cons by lia. replace (Z.pred (Z.of_nat (S n))) with (Z.of_nat n) by lia.
  cbn [for_each]. unmonad.
  rewrite (get_block_spec region Hst i Hi h d Hd Hbs a c j) by (done || lia).
  assert (Hb : arena_block i a j ∈ arena_blocks i a).
  { apply elem_of_arena_blocks. exists j. split; [lia|done]. }
  destruct (arena_block_word i a _ Hi Hb) as (k & Hk & Ek).
  destruct (push_spec (mem_of h) (head_at i) (arena_block i a j) xs Hl)
    as (m1 & Hp & Hl1 & Hf1 & Hd1).
  { rewrite Ek. apply Hmap. lia. }
  { lia. }
  { apply not_elem_of_cons. split; [rewrite PG_SIZE_pow2 in *; lia|apply Hfr; lia]. }
  rewrite (on_words_ret _ _ _ _ Hp).
  edestruct (IH (Z.succ j) (with_mem h m1) d (arena_block i a j :: xs))
    as (m' & E & Hl' & Hd' & Hf'); try done; try lia.
  - cbn. destruct Hho as [Hw Hc Hdp].
    split; [rewrite Hf1; [done|..]|done|rewrite Hf1; [done|..]]; rewrite PG_SIZE_pow2 in *; lia.
  - cbn. by apply (page_mapped_dom (mem_of h)).
  - intros x Hx. apply not_elem_of_cons. split; [|apply Hfr; lia].
    destruct (class_facts i Hi) as (_ & _ & _ & ? & _). unfold arena_block. nia.
  - exists m'. split; [exact E|]. split; [|split; [cbn in Hd'; congruence|]].
    + cbn [fmap list_fmap rev]. by rewrite <- (assoc_L (++)).
    + intros x Hx Hx2. rewrite Hf' by done. apply Hf1; [done|]. rewrite Ek. by apply Hx2; lia.
Qed.

(** ** Changing memory under the invariants *)

Lemma client_inv_perm base region s outs outs' :
  outs ≡ₚ outs' → client_inv base region s outs → client_inv base region s outs'.
Proof.
  intros Ho [(fls & Hb & Hreg) Hok Hal Hcnt Hpg]. split; try done.
  - exists fls. split; [done|]. by rewrite Hreg, Ho.
  - intros p n Hp. apply Hal. by rewrite Ho.
  - rewrite Hcnt. f_equal. apply Permutation_length. by rewrite Ho.
Qed.

(** A held page shares no word with the pool. *)
Lemma held_not_pool base region s outs fls a x :
  client_inv base region s outs → region ≡ₚ out_pages outs ++ pages fls →
  a ∈ out_pages outs → a ≤ x < a + PG_SIZE → ¬ pool_word base (pages fls) x.
Proof.
  intros [_ [Hnd Hm Hh Hr] _ _ Hpg] Hreg Ha Hx.
  assert (Har : a ∈ region) by (rewrite Hreg; apply elem_of_app; by left).
  intros [Hhd|(pg & Hin & Hpx)].
  - by apply (Hh x a Hhd Har).
  - assert (Hpr : pg ∈ region) by (rewrite Hreg; apply elem_of_app; by right).
    destruct (Hpg _ Har) as [q ->], (Hpg _ Hpr) as [q' ->]. rewrite PG_SIZE_pow2 in *.
    assert (q = q') as <- by lia. rewrite Hreg in Hnd.
    apply NoDup_app in Hnd as (_ & Hdj & _). by apply (Hdj _ Ha).
Qed.

Lemma client_inv_frame base region s outs m' :
  client_inv base region s outs → dom m' = dom (ba_mem s) →
  (∀ fls, region ≡ₚ out_pages outs ++ pages fls →
     ∀ x, pool_word base (pages fls) x → m' !! x = ba_mem s !! x) →
  client_inv base region (mkBuddy m' (total s) (allocated s)) outs.
Proof.
  intros [(fls & Hb & Hreg) Hok Hal Hcnt Hpg] Hd Hf. split; cbn; try done.
  - exists fls. split; [|done]. destruct Hb. split; try done. cbn.
    eapply pool_inv_frame; [done|done|]. intros a Ha. apply (Hf fls Hreg).
    apply elem_of_app in Ha as [Ha|Ha]; [by left|right]. exists a. rewrite PG_SIZE_pow2. split; [done|lia].
  - by eapply region_ok_dom.
Qed.

Lemma block_pages_one a : block_pages (order_of 1) a = [a].
Proof.
  change (order_of 1) with 0%nat. unfold block_pages, page_range.
  change (seqZ 0 (2 ^ Z.of_nat 0)) with [0]. unfold fmap, list_fmap. by rewrite Z.mul_0_l, Z.add_0_r.
Qed.

Lemma elem_of_out_pages_one a outs : (a, 1) ∈ outs → a ∈ out_pages outs.
Proof.
  intros Hin. apply list_elem_of_bind. exists (a, 1). split; [|done].
  apply (block_pages_head (order_of 1) a).
Qed.

Lemma out_pages_arenas vs : out_pages (arena_outs vs) = all_arenas vs.
Proof.
  unfold arena_outs. induction (all_arenas vs) as [|a l IH]; [done|].
  by rewrite fmap_cons, out_pages_cons, block_pages_one, IH.
Qed.

Lemma elem_of_all_arenas vs i v a : vs !! i = Some v → a ∈ arenas v → a ∈ all_arenas vs.
Proof.
  intros Hi Ha. apply list_elem_of_bind. exists v. split; [done|by eapply list_elem_of_lookup_2].
Qed.

Lemma all_arenas_insert vs i v v' : vs !! i = Some v →
  arenas v' = arenas v → all_arenas (<[i := v']> vs) = all_arenas vs.
Proof.
  intros Hi E. unfold all_arenas. revert i Hi. induction vs as [|w vs IH]; intros [|i] Hi; [done..| |].
  - cbn in *. simplify_eq. by rewrite E.
  - cbn in *. f_equal. by apply IH.
Qed.

Lemma all_arenas_insert_cons vs i v v' a : vs !! i = Some v →
  arenas v' = a :: arenas v → all_arenas (<[i := v']> vs) ≡ₚ a :: all_arenas vs.
Proof.
  intros Hi E. unfold all_arenas. revert i Hi. induction vs as [|w vs IH]; intros [|i] Hi; [done..| |].
  - cbn in *. simplify_eq. by rewrite E.
  - cbn in *. rewrite (IH i Hi). by rewrite Permutation_middle.
Qed.

(** The words class [i] depends on: its head word and its arenas. *)
Definition class_word (i : nat) (v : ClassView) (x : Z) : Prop :=
  x = head_at i ∨ ∃ a, a ∈ arenas v ∧ a ≤ x < a + PG_SIZE.

Lemma view_block_in i v b : view_blocks i v → b ∈ free v ++ live v →
  ∃ a, a ∈ arenas v ∧ b ∈ arena_blocks i a.
Proof. intros Hv. rewrite Hv. apply elem_of_class_blocks. Qed.

Lemma block_in_page i a b : (i < 8)%nat → b ∈ arena_blocks i a → a + 16 ≤ b < a + PG_SIZE.
Proof.
  intros Hi Hb. destruct (arena_block_word i a b Hi Hb) as (n & Hn & ->).
  rewrite PG_SIZE_pow2. lia.
Qed.

(** The words of class [i] that clients must not write. *)
Definition private (i : nat) (v : ClassView) (x : Z) : Prop :=
  x = head_at i ∨ x ∈ free v ∨ ∃ a, a ∈ arenas v ∧ (x = a ∨ x = a + 8).

Lemma private_class_word i v x : (i < 8)%nat → view_blocks i v → private i v x → class_word i v x.
Proof.
  intros Hi Hv [->|[Hx|(a & Ha & Hx)]]; [by left|right..].
  - destruct (view_block_in i v x Hv) as (a & Ha & Hb); [apply elem_of_app; by left|].
    exists a. split; [done|]. pose proof (block_in_page i a x Hi Hb). lia.
  - exists a. split; [done|]. rewrite PG_SIZE_pow2. lia.
Qed.

Lemma class_words_frame (m m' : memory) i v :
  (∀ x, private i v x → m' !! x = m !! x) → class_words m i v → class_words m' i v.
Proof.
  intros Hf [Hl Hh Hd]. split.
  - apply (list_at_frame m); [|done]. intros x Hx. apply Hf.
    apply elem_of_cons in Hx as [->|Hx]; [by left|by right; left].
  - intros a Ha. rewrite Hf; [auto|]. right. right. eauto.
  - intros a Ha. rewrite Hf; [auto|]. right. right. eauto.
Qed.

Lemma bind_apart (vs : list ClassView) : ∀ i j v w a,
  NoDup (all_arenas vs) → vs !! i = Some v → vs !! j = Some w →
  a ∈ arenas v → a ∈ arenas w → i = j.
Proof.
  unfold all_arenas. induction vs as [|u vs IH]; intros i j v w a Hnd Hi Hj Hv Hw; [done|].
  cbn in Hnd. apply NoDup_app in Hnd as (_ & Hdj & Hnd).
  destruct i as [|i], j as [|j]; cbn in Hi, Hj; simplify_eq; [done|exfalso..|].
  - apply (Hdj a Hv). by eapply elem_of_all_arenas.
  - apply (Hdj a Hw). by eapply elem_of_all_arenas.
  - f_equal. by apply (IH i j v w a).
Qed.

Section views.
Context (region : list Z) (Hst : statics_ok region).
Context (s : BuddyAllocator) (vs : list ClassView) (outs : list (Z * Z)).
Context (Hci : client_inv pool_at region s (arena_outs vs ++ outs)).

Lemma arena_in_region i v a : vs !! i = Some v → a ∈ arenas v →
  a ∈ region ∧ a ∈ out_pages (arena_outs vs ++ outs).
Proof using Hci.
  intros Hi Ha. assert (Hin : a ∈ out_pages (arena_outs vs ++ outs)).
  { apply elem_of_out_pages_one, elem_of_app. left. unfold arena_outs.
    apply list_elem_of_fmap. exists a. split; [done|]. by eapply elem_of_all_arenas. }
  split; [|done]. destruct Hci as [(fls & _ & Hreg) _ _ _ _].
  rewrite Hreg. apply elem_of_app. by left.
Qed.

Lemma NoDup_arenas : NoDup (all_arenas vs).
Proof using Hci.
  destruct Hci as [(fls & _ & Hreg) [Hnd _ _ _] _ _ _]. rewrite Hreg in Hnd.
  unfold out_pages in Hnd. rewrite bind_app, <- (assoc_L (++)) in Hnd.
  apply NoDup_app in Hnd as (Hnd & _). fold (out_pages (arena_outs vs)) in Hnd.
  by rewrite out_pages_arenas in Hnd.
Qed.

Lemma class_word_apart i j v w x : (i < 8)%nat → (j < 8)%nat → i ≠ j →
  vs !! i = Some v → vs !! j = Some w → class_word i v x → class_word j w x → False.
Proof using Hst Hci.
  intros Hi Hj Hne Hv Hw Hx Hy. destruct Hx as [->|(a & Ha & Hx)], Hy as [E|(b & Hb & Hy)].
  - apply (so_head _ Hst) in E; lia.
  - by apply (so_region _ Hst i b Hi (proj1 (arena_in_region _ _ _ Hw Hb))).
  - subst x. by apply (so_region _ Hst j a Hj (proj1 (arena_in_region _ _ _ Hv Ha))).
  - apply Hne, (bind_apart vs i j v w a NoDup_arenas Hv Hw Ha).
    destruct (ci_pg _ _ _ _ Hci _ (proj1 (arena_in_region _ _ _ Hv Ha))) as [q Eq].
    destruct (ci_pg _ _ _ _ Hci _ (proj1 (arena_in_region _ _ _ Hw Hb))) as [q' Eq'].
    rewrite PG_SIZE_pow2 in *. assert (q = q') as <- by lia. by rewrite Eq, <- Eq'.
Qed.

Lemma class_word_not_pool fls i v x : (i < 8)%nat → vs !! i = Some v →
  region ≡ₚ out_pages (arena_outs vs ++ outs) ++ pages fls →
  class_word i v x → ¬ pool_word pool_at (pages fls) x.
Proof using Hst Hci.
  intros Hi Hv Hreg [->|(a & Ha & Hx)].
  - intros [Hh|(pg & Hpg & Hr)]; [by apply (so_pool _ Hst i Hi)|].
    apply (so_region _ Hst i pg Hi); [|done]. rewrite Hreg. apply elem_of_app. by right.
  - eapply held_not_pool; [exact Hci|done|by eapply arena_in_region|done].
Qed.
End views.

Lemma imap_insert_desc vs i v' : (i < length vs)%nat →
  <[i := class_desc i v']> (imap class_desc vs) = imap class_desc (<[i := v']> vs).
Proof.
  intros Hi. apply list_eq. intros k. rewrite list_lookup_imap.
  destruct (decide (k = i)) as [->|Hk].
  - rewrite !list_lookup_insert_eq; [done|done|by rewrite length_imap].
  - by rewrite !list_lookup_insert_ne, list_lookup_imap by done.
Qed.

(** Changing class [i]: the words it depends on change, nothing else does. *)
Lemma heap_update region h vs outs outs' i v v' m' sa st :
  heap_inv region h vs outs → vs !! i = Some v →
  arena_outs (<[i := v']> vs) ++ outs' ≡ₚ arena_outs vs ++ outs →
  dom m' = dom (mem_of h) → (∀ x, ¬ class_word i v' x → m' !! x = mem_of h !! x) →
  class_words m' i v' → view_blocks i v' →
  heap_inv region
    (mkHeap (mkBuddy m' (total (hp_pool h)) (allocated (hp_pool h)))
       (<[i := class_desc i v']> (descs h)) sa st)
    (<[i := v']> vs) outs'.
Proof.
  intros [Hst Hci Hlen Hds Hw Hb] Hi Hp Hd Hf Hcw Hvb.
  assert (Hi8 : (i < 8)%nat) by (apply lookup_lt_Some in Hi; lia).
  assert (Hlt : (i < length vs)%nat) by lia.
  assert (Hii : <[i := v']> vs !! i = Some v') by (by apply list_lookup_insert_eq).
  apply (client_inv_perm _ _ _ _ (arena_outs (<[i := v']> vs) ++ outs')) in Hci as Hci'; [|done].
  assert (Hvb' : ∀ j w, <[i := v']> vs !! j = Some w → view_blocks j w).
  { intros j w Hj. destruct (decide (i = j)) as [<-|Hne]; [rewrite Hii in Hj; by simplify_eq|].
    rewrite list_lookup_insert_ne in Hj by done. eauto. }
  split; cbn; [done| |by rewrite length_insert|by rewrite Hds, imap_insert_desc| |exact Hvb'].
  - apply client_inv_frame; [done|done|]. intros fls Hreg x Hx. apply Hf. intros Hcx.
    by eapply (class_word_not_pool region Hst (hp_pool h) (<[i := v']> vs) outs' Hci' fls i v').
  - intros j w Hj. destruct (decide (i = j)) as [<-|Hne].
    { rewrite Hii in Hj. by simplify_eq. }
    assert (Hj8 : (j < 8)%nat) by (apply lookup_lt_Some in Hj; rewrite length_insert in Hj; lia).
    apply (class_words_frame (mem_of h)).
    + intros x Hx. apply Hf. intros Hcx.
      apply private_class_word in Hx; [|done|by apply Hvb'].
      by eapply (class_word_apart region Hst (hp_pool h) (<[i := v']> vs) outs' Hci' i j v' w x).
    + rewrite list_lookup_insert_ne in Hj by done. eauto.
Qed.

(** ** Requests that go to the page allocator *)

(** Every word of the pages in [pgs] is the same in both memories. *)
Definition same_pages (pgs : list Z) (m m' : memory) : Prop :=
  ∀ a x, a ∈ pgs → a ≤ x < a + PG_SIZE → m' !! x = m !! x.

Lemma heap_pool_change region h vs outs outs' b :
  heap_inv region h vs outs →
  client_inv pool_at region b (arena_outs vs ++ outs') →
  (∀ i v x, vs !! i = Some v → private i v x → ba_mem b !! x = mem_of h !! x) →
  ∀ sa st, heap_inv region (mkHeap b (descs h) sa st) vs outs'.
Proof.
  intros [Hst Hci Hlen Hds Hw Hb] Hci' Hf sa st. split; cbn; try done.
  intros i v Hi. apply (class_words_frame (mem_of h)); eauto.
Qed.

Lemma pool_alloc_spec region h vs outs n :
  heap_inv region h vs outs → 0 ≤ n ≤ 256 →
  alloc pool_at n (hp_pool h) = Panic Unreachable ∨
  ∃ p b, alloc pool_at n (hp_pool h) = Ret (p, b) ∧
    (∀ sa st, heap_inv region (mkHeap b (descs h) sa st) vs ((p, n) :: outs)) ∧
    (block_size (order_of n) | p) ∧
    same_pages (out_pages (arena_outs vs ++ outs)) (mem_of h) (ba_mem b).
Proof.
  intros Hh Hn. pose proof Hh as [Hst Hci Hlen Hds Hw Hb].
  pose proof Hci as [(fls & Hbi & Hreg) _ _ _ _].
  destruct (alloc_inv pool_at (hp_pool h) fls n Hbi Hn)
    as [[_ E]|(_ & p & b & fls' & E & _ & _ & _ & (_ & _ & Hdiv & _))]; [by left|right].
  exists p, b. split; [done|].
  pose proof (client_alloc_inv pool_at region n p _ b _ Hci Hn E) as Hci'.
  assert (Hfr : ∀ x, ¬ pool_word pool_at (pages fls) x → ba_mem b !! x = mem_of h !! x).
  { destruct (hp_pool h) as [m t al]. cbn in *.
    apply (alloc_frame pool_at m fls n t al p b (bi_pool _ _ _ Hbi) Hn E). }
  split_and!; [|done|].
  - intros sa st. eapply heap_pool_change; [done| |].
    + eapply client_inv_perm; [|exact Hci']. by rewrite Permutation_middle.
    + intros i v x Hi Hx. apply Hfr.
      assert (Hi8 : (i < 8)%nat) by (apply lookup_lt_Some in Hi; lia).
      eapply (class_word_not_pool region Hst _ vs outs Hci fls i v); try done.
      apply private_class_word; eauto.
  - intros a x Ha Hx. apply Hfr. by apply (held_not_pool _ _ _ _ _ a x Hci Hreg).
Qed.

Lemma pool_dealloc_spec region h vs outs outs' p n :
  heap_inv region h vs outs → outs ≡ₚ (p, n) :: outs' →
  ∃ b, dealloc pool_at p n (hp_pool h) = Ret ((), b) ∧
    (∀ sa st, heap_inv region (mkHeap b (descs h) sa st) vs outs') ∧
    same_pages (out_pages (arena_outs vs ++ outs')) (mem_of h) (ba_mem b).
Proof.
  intros Hh Ho. pose proof Hh as [Hst Hci Hlen Hds Hw Hb].
  assert (Hp : arena_outs vs ++ outs ≡ₚ (p, n) :: (arena_outs vs ++ outs')).
  { rewrite Ho. by rewrite <- Permutation_middle. }
  pose proof (client_inv_perm _ _ _ _ _ Hp Hci) as Hci1.
  pose proof Hci1 as [(fls & Hbi & Hreg) _ Hal _ _].
  destruct (client_dealloc_total pool_at region n p _ _ (arena_outs vs ++ outs') Hci1 ltac:(done))
    as (b & E & Hci').
  exists b. split; [done|].
  assert (Hfr : ∀ x, ¬ pool_word pool_at (block_pages (order_of n) p ++ pages fls) x →
                     ba_mem b !! x = mem_of h !! x).
  { pose proof (client_block_ok _ _ _ _ _ p n fls Hci1 ltac:(done) Hreg) as Hbo.
    destruct (Hal p n) as [Hn _]; [left|]. destruct (hp_pool h) as [m t al]. cbn in *.
    apply (dealloc_frame pool_at m fls n p t al b (bi_pool _ _ _ Hbi) ltac:(lia) Hbo E). }
  rewrite out_pages_cons in Hreg.
  assert (Hheld : ∀ a x, a ∈ out_pages (arena_outs vs ++ outs') → a ≤ x < a + PG_SIZE →
    ba_mem b !! x = mem_of h !! x).
  { intros a x Ha Hx. apply Hfr. pose proof Hci1 as [_ [Hnd _ Hhd _] _ _ Hpg].
    rewrite Hreg in Hnd.
    assert (Har : a ∈ region) by (rewrite Hreg, !elem_of_app; auto).
    intros [Hh1|(pg & Hin & Hpx)]; [by apply (Hhd x a)|].
    assert (Hpr : pg ∈ region).
    { rewrite Hreg, !elem_of_app. apply elem_of_app in Hin. naive_solver. }
    destruct (Hpg _ Har) as [q ->], (Hpg _ Hpr) as [q' ->]. rewrite PG_SIZE_pow2 in *.
    assert (q = q') as <- by lia.
    apply NoDup_app in Hnd as (Hnd & Hdj & _). apply NoDup_app in Hnd as (_ & Hdj1 & _).
    apply elem_of_app in Hin as [Hin|Hin]; [by apply (Hdj1 _ Hin)|].
    apply (Hdj (q * 2 ^ 12)); [apply elem_of_app; by right|done]. }
  split; [|done]. intros sa st. eapply heap_pool_change; [done|done|].
  intros i v x Hi Hx. assert (Hi8 : (i < 8)%nat) by (apply lookup_lt_Some in Hi; lia).
  destruct (private_class_word i v x Hi8 (Hb i v Hi) Hx) as [->|(a & Ha & Hxa)].
  - apply Hfr. intros [Hh1|(pg & Hin & Hpx)]; [by apply (so_pool _ Hst i Hi8)|].
    apply (so_region _ Hst i pg Hi8); [rewrite Hreg, !elem_of_app; rewrite elem_of_app in Hin; naive_solver|done].
  - apply (Hheld a); [|done]. apply elem_of_out_pages_one, elem_of_app. left.
    apply list_elem_of_fmap. exists a. split; [done|by eapply elem_of_all_arenas].
Qed.

(** ** The operations of a descriptor *)

Lemma wrap_add_l w x y : wrap w (wrap w x + y) = wrap w (x + y).
Proof. apply Zplus_mod_idemp_l. Qed.
Lemma wrap_sub_l w x y : wrap w (wrap w x - y) = wrap w (x - y).
Proof. apply Zminus_mod_idemp_l. Qed.

Lemma arena_free_cnt_spec (m : memory) i a c : header_ok m i a c → arena_free_cnt a m = Ret (c, m).
Proof. intros [Hw _ _]. unfold arena_free_cnt, read. unmonad. by rewrite Hw, header_high. Qed.

Lemma set_arena_free_cnt_spec (m : memory) i a c c' : header_ok m i a c →
  set_arena_free_cnt a c' m = Ret ((), <[a := ARENA_MAGIC + Z.shiftl c' 32]> m).
Proof.
  intros [Hw _ _]. unfold set_arena_free_cnt, arena_magic, read, write. unmonad.
  by rewrite Hw, header_low, Hw.
Qed.

Lemma on_words_descs {A} (c : M memory A) h a h' : on_words c h = Ret (a, h') → descs h' = descs h.
Proof.
  unfold on_words, on_pool. destruct (on_mem c (hp_pool h)) as [[? ?]|]; [|done]. by intros [= _ <-].
Qed.

Section one_view.
Context (region : list Z) (h : Heap) (vs : list ClassView) (outs : list (Z * Z)).
Context (Hh : heap_inv region h vs outs) (i : nat) (v : ClassView) (Hv : vs !! i = Some v).

Lemma view_index : (i < 8)%nat.
Proof using Hh Hv. apply lookup_lt_Some in Hv. rewrite (hi_length _ _ _ _ Hh) in Hv. done. Qed.

Lemma view_desc : descs h !! i = Some (class_desc i v).
Proof using Hh Hv. by rewrite (hi_descs _ _ _ _ Hh), list_lookup_imap, Hv. Qed.

Lemma view_arena a : a ∈ arenas v →
  (PG_SIZE | a) ∧ 0 < a ∧ a + PG_SIZE ≤ 2 ^ 64 ∧ page_mapped (mem_of h) a ∧
  ¬ (a ≤ head_at i < a + PG_SIZE).
Proof using Hh Hv.
  intros Ha. pose proof Hh as [Hst Hci _ _ _ _].
  destruct (arena_in_region _ _ _ _ Hci i v a Hv Ha) as [Hr _].
  pose proof (ci_region _ _ _ _ Hci) as [_ Hm _ Hrg]. destruct (Hrg a Hr).
  split_and!; [by apply (ci_pg _ _ _ _ Hci)|done|done|by apply Hm|].
  apply (so_region _ Hst i a view_index Hr).
Qed.

Lemma view_header a : a ∈ arenas v → header_ok (mem_of h) i a (wrap32 (free_in v a)).
Proof using Hh Hv.
  intros Ha. pose proof (hi_words _ _ _ _ Hh i v Hv) as [_ Hw Hd].
  split; [by apply Hw|by apply wrap_in_range|by apply Hd].
Qed.

(** A free block and its arena. *)
Lemma view_block b : b ∈ free v ++ live v → ∃ a, a ∈ arenas v ∧ b ∈ arena_blocks i a.
Proof using Hh Hv. apply view_block_in, (hi_blocks _ _ _ _ Hh i v Hv). Qed.

Lemma view_NoDup : NoDup (free v ++ live v).
Proof using Hh Hv.
  rewrite (hi_blocks _ _ _ _ Hh i v Hv). apply NoDup_class_blocks; [apply view_index| |].
  - pose proof (NoDup_arenas _ _ _ _ (hi_client _ _ _ _ Hh)) as Hnd. unfold all_arenas in Hnd.
    apply list_elem_of_split_length in Hv as (l1 & l2 & -> & _).
    rewrite bind_app in Hnd. apply NoDup_app in Hnd as (_ & _ & Hnd).
    by apply NoDup_app in Hnd as (Hnd & _).
  - intros a Ha. by apply view_arena.
Qed.

(** The free count of an arena follows the free list. *)
Lemma free_in_cons a b fr : a ∈ arenas v → b ∈ arena_blocks i a →
  ∀ lv lv' a', a' ∈ arenas v →
  free_in (mkView (arenas v) (b :: fr) lv) a' =
    free_in (mkView (arenas v) fr lv') a' + (if bool_decide (a' = a) then 1 else 0).
Proof using Hh Hv.
  intros Ha Hb lv lv' a' Ha'. unfold free_in. cbn [free].
  pose proof (block_in_page i a b view_index Hb) as Hr.
  destruct (decide (a' = a)) as [->|Hne].
  - rewrite bool_decide_eq_true_2, filter_cons_True by (done || lia). cbn [length]. lia.
  - rewrite bool_decide_eq_false_2, filter_cons_False; [lia| |done].
    destruct (view_arena a Ha) as ([q ->] & _), (view_arena a' Ha') as ([q' ->] & _).
    rewrite PG_SIZE_pow2 in *. intros Hr'. apply Hne. f_equal. lia.
Qed.

(** A word that holds no header of class [i] keeps the headers. *)
Lemma block_not_header b a : b ∈ free v ++ live v → a ∈ arenas v → b ≠ a ∧ b ≠ a + 8.
Proof using Hh Hv.
  intros Hb Ha. destruct (view_block b Hb) as (a' & Ha' & Hb').
  pose proof (block_in_page i a' b view_index Hb') as Hr.
  destruct (view_arena a Ha) as ([q ->] & _), (view_arena a' Ha') as ([q' ->] & _).
  rewrite PG_SIZE_pow2 in *. lia.
Qed.

(** Writing the new free count of arena [a] after its free list has changed. *)
Lemma recount (m1 : memory) v' a : a ∈ arenas v → arenas v' = arenas v →
  (∀ x, x ∈ free v' → x ∈ free v ++ live v) → list_at m1 (head_at i) (free v') →
  (∀ a', a' ∈ arenas v → m1 !! a' = mem_of h !! a' ∧ m1 !! (a' + 8) = mem_of h !! (a' + 8)) →
  (∀ a', a' ∈ arenas v → a' ≠ a → free_in v' a' = free_in v a') →
  class_words (<[a := header v' a]> m1) i v'.
Proof using Hh Hv.
  intros Ha Hav Hsub Hl Hkeep Hcnt. pose proof (hi_words _ _ _ _ Hh i v Hv) as [_ Hw Hd].
  destruct (view_arena a Ha) as ([q Eq] & _ & _ & _ & Hhd). pose proof PG_SIZE_pow2 as HPG. split.
  - apply (list_at_frame m1); [|done]. intros x [->|Hx]%elem_of_cons; (rewrite lookup_insert_ne; [done|]).
    + lia.
    + intros <-. by destruct (block_not_header a a (Hsub _ Hx) Ha).
  - rewrite Hav. intros a' Ha'. destruct (decide (a' = a)) as [->|Hne]; [apply lookup_insert_eq|].
    rewrite lookup_insert_ne, (proj1 (Hkeep a' Ha')), (Hw a' Ha') by done.
    unfold header. by rewrite Hcnt.
  - rewrite Hav. intros a' Ha'. destruct (view_arena a' Ha') as ([q' Eq'] & _).
    rewrite lookup_insert_ne by lia. rewrite (proj2 (Hkeep a' Ha')). by apply Hd.
Qed.

(** [take_block] pops a free block and makes it live. *)
Lemma take_block_spec b fr : free v = b :: fr →
  ∃ h', take_block i h = Ret (b, h') ∧
    heap_inv region h' (<[i := mkView (arenas v) fr (b :: live v)]> vs) outs ∧
    ∀ x, x ≠ head_at i → x ∉ arenas v → mem_of h' !! x = mem_of h !! x.
Proof using Hh Hv.
  intros Hfree. pose proof view_index as Hi. pose proof (hi_words _ _ _ _ Hh i v Hv) as Hcw.
  destruct (view_block b) as (a & Ha & Hb); [rewrite Hfree; left|].
  destruct (view_arena a Ha) as (Hal & Ha0 & Har & Hmap & Hhd).
  pose proof (block_in_page i a b Hi Hb) as Hpg. pose proof PG_SIZE_pow2 as HPG.
  pose proof (cw_list _ _ _ Hcw) as Hl. rewrite Hfree in Hl.
  destruct (pop_spec _ _ _ _ Hl) as (m1 & Hpop & Hl1 & Hf1 & Hd1).
  pose proof (view_header a Ha) as Hho.
  assert (Hho1 : header_ok m1 i a (wrap32 (free_in v a))).
  { destruct Hho. split; rewrite ?Hf1; (done || lia). }
  unfold take_block, update_desc. unmonad. rewrite (get_desc_spec i _ h view_desc). cbn beta iota zeta.
  set (d' := mkDesc _ _ _ _ _).
  set (h1 := mkHeap (hp_pool h) (<[i := d']> (descs h)) (spilled_alloc h) (spilled_total h)).
  rewrite (on_words_ret (pop (head_at i)) h1 (Some b) m1 Hpop). cbn [unwrap]. unmonad.
  rewrite (from_block_spec region (hi_statics _ _ _ _ Hh) i Hi _ d') with (a := a) (c := wrap32 (free_in v a));
    try done; last first.
  { cbn. apply list_lookup_insert_eq. eapply lookup_lt_Some, view_desc. }
  rewrite (on_words_ret (arena_free_cnt a) (with_mem h1 m1) _ m1 (arena_free_cnt_spec _ _ _ _ Hho1)).
  rewrite (on_words_ret (set_arena_free_cnt a _) (with_mem (with_mem h1 m1) m1) _ _ (set_arena_free_cnt_spec _ _ _ _ _ Hho1)).
  eexists. split; [done|]. rewrite wrap_sub_l. split.
  2:{ cbn. intros x Hx Hxa. rewrite lookup_insert_ne by set_solver. by apply Hf1. }
  pose proof view_NoDup as Hnd. rewrite Hfree in Hnd. cbn [app] in Hnd.
  pose proof (hi_blocks _ _ _ _ Hh i v Hv) as Hvb. unfold view_blocks in Hvb.
  rewrite Hfree in Hvb. cbn [app] in Hvb.
  set (v' := mkView (arenas v) fr (b :: live v)).
  assert (Hc : ∀ a', a' ∈ arenas v →
    free_in v a' = free_in v' a' + (if bool_decide (a' = a) then 1 else 0)).
  { intros a' Ha'. unfold v'. rewrite <- (free_in_cons a b fr Ha Hb (live v) (b :: live v) a' Ha'), <- Hfree. by destruct v. }
  assert (Ed : d' = class_desc i v').
  { unfold d', class_desc. cbn. rewrite Hfree. cbn. rewrite wrap_add_l, wrap_sub_l.
    repeat f_equal; lia. }
  unfold with_mem, h1. cbn [hp_pool descs spilled_alloc spilled_total total allocated ba_mem]. rewrite Ed.
  eapply heap_update; [exact Hh|exact Hv| | | | |].
  - unfold arena_outs. by rewrite (all_arenas_insert vs i v v').
  - rewrite dom_insert_lookup_L; [done|]. exists (ARENA_MAGIC + Z.shiftl (wrap32 (free_in v a)) 32).
    apply Hho1.
  - intros x Hx. rewrite lookup_insert_ne.
    + apply Hf1. intros ->. apply Hx. by left.
    + intros <-. apply Hx. right. exists a. split; [done|lia].
  - replace (wrap32 (free_in v a - 1)) with (wrap32 (free_in v' a)) by (rewrite (Hc a Ha), bool_decide_eq_true_2 by done; f_equal; lia).
    apply recount; try done.
    + intros x Hx. rewrite Hfree. set_solver.
    + intros a' Ha'. destruct (view_arena a' Ha') as (_ & _ & _ & _ & Hx).
      split; apply Hf1; lia.
    + intros a' Ha' Hne. rewrite (Hc a' Ha'), bool_decide_eq_false_2 by done. lia.
  - unfold view_blocks. cbn. rewrite <- Hvb. by rewrite Permutation_middle.
Qed.

(** [desc_dealloc] makes a live block free again. *)
Lemma desc_dealloc_spec b lv : live v ≡ₚ b :: lv →
  ∃ h', desc_dealloc i b h = Ret ((), h') ∧
    heap_inv region h' (<[i := mkView (arenas v) (b :: free v) lv]> vs) outs ∧
    ∀ x, x ≠ head_at i → x ≠ b → x ∉ arenas v → mem_of h' !! x = mem_of h !! x.
Proof using Hh Hv.
  intros Hlive. pose proof view_index as Hi. pose proof (hi_words _ _ _ _ Hh i v Hv) as Hcw.
  assert (Hbv : b ∈ free v ++ live v) by (rewrite Hlive, elem_of_app; right; left).
  destruct (view_block b Hbv) as (a & Ha & Hb).
  destruct (view_arena a Ha) as (Hal & Ha0 & Har & Hmap & Hhd).
  pose proof (block_in_page i a b Hi Hb) as Hpg. pose proof PG_SIZE_pow2 as HPG.
  pose proof view_NoDup as Hnd. rewrite Hlive in Hnd.
  destruct (push_spec _ _ b _ (cw_list _ _ _ Hcw)) as (m1 & Hpush & Hl1 & Hf1 & Hd1).
  { destruct (arena_block_word i a b Hi Hb) as (n & Hn & ->). apply Hmap. lia. }
  { lia. }
  { apply not_elem_of_cons. split; [lia|]. intros Hin. apply NoDup_app in Hnd as (_ & Hdj & _).
    apply (Hdj b Hin). left. }
  assert (Hkeep : ∀ a', a' ∈ arenas v →
    m1 !! a' = mem_of h !! a' ∧ m1 !! (a' + 8) = mem_of h !! (a' + 8)).
  { intros a' Ha'. destruct (view_arena a' Ha') as (_ & _ & _ & _ & Hx).
    destruct (block_not_header b a' Hbv Ha'). split; apply Hf1; (done || lia). }
  pose proof (view_header a Ha) as Hho.
  assert (Hho1 : header_ok m1 i a (wrap32 (free_in v a))).
  { destruct Hho, (Hkeep a Ha) as [E1 E2]. split; [by rewrite E1|done|by rewrite E2]. }
  unfold desc_dealloc, update_desc. unmonad. rewrite (on_words_ret (push (head_at i) b) h () m1 Hpush).
  rewrite (get_desc_spec i (class_desc i v)) by apply view_desc. cbn beta iota zeta.
  set (d' := mkDesc _ _ _ _ _).
  set (h1 := mkHeap (hp_pool (with_mem h m1)) (<[i := d']> (descs (with_mem h m1)))
    (spilled_alloc (with_mem h m1)) (spilled_total (with_mem h m1))).
  rewrite (from_block_spec region (hi_statics _ _ _ _ Hh) i Hi h1 d') with (a := a) (c := wrap32 (free_in v a));
    try done; last first.
  { cbn. apply list_lookup_insert_eq. eapply lookup_lt_Some, view_desc. }
  rewrite (on_words_ret (arena_free_cnt a) h1 _ m1 (arena_free_cnt_spec _ _ _ _ Hho1)).
  rewrite (on_words_ret (set_arena_free_cnt a _) (with_mem h1 m1) _ _ (set_arena_free_cnt_spec _ _ _ _ _ Hho1)).
  eexists. split; [done|]. rewrite wrap_add_l. split.
  2:{ cbn. intros x Hx Hxb Hxa. rewrite lookup_insert_ne by set_solver. by apply Hf1. }
  set (v' := mkView (arenas v) (b :: free v) lv).
  assert (Hc : ∀ a', a' ∈ arenas v →
    free_in v' a' = free_in v a' + (if bool_decide (a' = a) then 1 else 0)).
  { intros a' Ha'. unfold v'. rewrite (free_in_cons a b (free v) Ha Hb lv (live v) a' Ha'). by destruct v. }
  assert (Ed : d' = class_desc i v').
  { unfold d', class_desc. cbn. rewrite (Permutation_length Hlive). cbn. rewrite wrap_add_l, wrap_sub_l.
    repeat f_equal; lia. }
  unfold with_mem, h1. cbn [hp_pool descs spilled_alloc spilled_total total allocated ba_mem with_mem].
  rewrite Ed. eapply heap_update; [exact Hh|exact Hv| | | | |].
  - unfold arena_outs. by rewrite (all_arenas_insert vs i v v').
  - rewrite dom_insert_lookup_L; [done|]. eexists. apply Hho1.
  - intros x Hx. rewrite lookup_insert_ne.
    + apply Hf1; intros ->; apply Hx; [by left|right]. exists a. split; [done|lia].
    + intros <-. apply Hx. right. exists a. split; [done|lia].
  - replace (wrap32 (free_in v a + 1)) with (wrap32 (free_in v' a)) by (by rewrite (Hc a Ha), bool_decide_eq_true_2).
    apply recount; try done.
    + intros x [->|Hx]%elem_of_cons; [done|]. apply elem_of_app. by left.
    + intros a' Ha' Hne. rewrite (Hc a' Ha'), bool_decide_eq_false_2 by done. lia.
  - pose proof (hi_blocks _ _ _ _ Hh i v Hv) as Hvb. unfold view_blocks in *. cbn.
    rewrite <- Hvb, Hlive. by rewrite Permutation_middle.
Qed.

(** Initialising the header of a fresh page. *)
Lemma init_header_spec (m : memory) h1 d a c : page_mapped m a → descs h1 !! i = Some d →
  ∃ m', (on_words (set_arena_magic a ARENA_MAGIC) ;;
         on_words (set_arena_desc a (desc_at i)) ;;
         d ← get_desc i ;
         on_words (set_arena_free_cnt a (c d))) (with_mem h1 m) = Ret ((), with_mem h1 m') ∧
    (is_u32 (c d) → header_ok m' i a (c d)) ∧ dom m' = dom m ∧
    (∀ x, x ≠ a → x ≠ a + 8 → m' !! x = m !! x).
Proof.
  intros Hm Hd. destruct (Hm 0) as [w Hw]; [lia|]. rewrite Z.add_0_r in Hw.
  destruct (Hm 1) as [w2 Hw2]; [lia|]. rewrite Z.mul_1_r in Hw2. clear Hm.
  eexists. split; [|split; [|split]].
  - unmonad. rewrite (on_words_ret (set_arena_magic a ARENA_MAGIC) (with_mem h1 m) ()
      (<[a := ARENA_MAGIC + Z.shiftl (Z.shiftr w 32) 32]> m)); last first.
    { cbn. unfold set_arena_magic, arena_free_cnt, read, write. unmonad. by rewrite !Hw. }
    rewrite (on_words_ret (set_arena_desc a (desc_at i)) _ () (<[a + 8 := desc_at i]>
      (<[a := ARENA_MAGIC + Z.shiftl (Z.shiftr w 32) 32]> m))); last first.
    { cbn. unfold set_arena_desc, write. by rewrite lookup_insert_ne, Hw2 by lia. }
    rewrite (get_desc_spec i d) by done.
    erewrite on_words_ret; last first.
    { cbn. unfold set_arena_free_cnt, arena_magic, read, write. unmonad.
      rewrite lookup_insert_ne, lookup_insert_eq, header_low by lia.
      by rewrite lookup_insert_ne, lookup_insert_eq by lia. }
    done.
  - intros Hc. split; [by rewrite lookup_insert_eq|done|].
    by rewrite lookup_insert_ne, lookup_insert_eq by lia.
  - rewrite !dom_insert_lookup_L; [done|..]; rewrite ?lookup_insert_ne, ?lookup_insert_eq by lia; eauto.
  - intros x ??. by rewrite !lookup_insert_ne by done.
Qed.

(** [refill] carves a fresh page into free blocks. *)
Lemma refill_spec : free v = [] →
  refill i h = Panic Unreachable ∨
  ∃ h' a, refill i h = Ret ((), h') ∧
    heap_inv region h' (<[i := mkView (a :: arenas v) (rev (arena_blocks i a)) (live v)]> vs) outs ∧
    same_pages (out_pages (arena_outs vs ++ outs)) (mem_of h) (mem_of h') ∧
    a ∉ out_pages (arena_outs vs ++ outs).
Proof using Hh Hv.
  intros Hfree. pose proof view_index as Hi. pose proof PG_SIZE_pow2 as HPG.
  destruct (pool_alloc_spec region h vs outs 1 Hh ltac:(lia)) as [E|(a & b & E & Hh1 & _ & Hsame)].
  { left. unfold refill, on_pool. unmonad. by rewrite E. }
  right. set (h1 := mkHeap b (descs h) (spilled_alloc h) (spilled_total h)).
  specialize (Hh1 (spilled_alloc h) (spilled_total h)). fold h1 in Hh1.
  pose proof Hh1 as [Hst Hci _ _ Hw1 Hb1].
  assert (Hpo : arena_outs vs ++ (a, 1) :: outs ≡ₚ (a, 1) :: (arena_outs vs ++ outs)).
  { by rewrite Permutation_middle. }
  pose proof Hci as [(fls & _ & Hreg) [Hnd Hmap _ Hrg] _ _ Hpgs].
  rewrite Hpo, out_pages_cons, block_pages_one in Hreg.
  assert (Har : a ∈ region) by (rewrite Hreg; left).
  assert (Hfresh : a ∉ out_pages (arena_outs vs ++ outs)).
  { rewrite Hreg in Hnd. cbn in Hnd. apply NoDup_cons in Hnd as [Hnd _].
    intros Hin. apply Hnd, elem_of_app. by left. }
  destruct (Hrg a Har) as [Ha0 Hatop]. pose proof (so_region _ Hst i a Hi Har) as Hhd.
  assert (Hd : descs h1 !! i = Some (class_desc i v)) by apply view_desc.
  destruct (init_header_spec (mem_of h1) h1 (class_desc i v) a (λ d, wrap32 (blocks_per_arena d)))
    as (m3 & Einit & Hho & Hd3 & Hf3); [by apply Hmap|done|].
  specialize (Hho (wrap_in_range 32 _ ltac:(lia))). rewrite with_mem_id in Einit.
  destruct (class_facts i Hi) as (_ & _ & _ & _ & _ & Hcnt & _).
  edestruct (push_blocks_spec region i a (wrap32 (cls_cnt i)) (Z.to_nat (cls_cnt i)) 0 (with_mem h1 m3) (class_desc i v) [])
    as (m' & Eloop & Hl' & Hd' & Hf'); try done.
  { by apply Hpgs. } { eapply page_mapped_dom; [exact Hd3|by apply Hmap]. } { lia. }
  { cbn. apply (list_at_frame (mem_of h1)); [|rewrite <- Hfree; by apply cw_list, Hw1].
    intros x ->%list_elem_of_singleton. apply Hf3; lia. }
  { intros k _. apply not_elem_of_nil. }
  rewrite Z2Nat.id in Eloop, Hl' by lia. rewrite app_nil_r in Hl'.
  assert (Hout : ∀ x, x ≠ head_at i → ¬ (a ≤ x < a + PG_SIZE) → m' !! x = mem_of h1 !! x).
  { intros x Hx Hp. rewrite Hf'; [cbn; apply Hf3; lia|done|intros; lia]. }
  assert (Hsep : ∀ a', a' ∈ out_pages (arena_outs vs ++ outs) →
    a' ∈ region ∧ ∀ x, a' ≤ x < a' + PG_SIZE → ¬ (a ≤ x < a + PG_SIZE)).
  { intros a' Ha'. assert (Hr : a' ∈ region) by (rewrite Hreg, !elem_of_app; auto).
    split; [done|]. intros x Hx Hx'. apply Hfresh.
    destruct (Hpgs _ Hr) as [q' ->], (Hpgs _ Har) as [q ->]. rewrite HPG in *.
    by assert (q = q') as <- by lia. }
  assert (Hold : ∀ a', a' ∈ arenas v → a' ≠ a ∧ a' ≠ head_at i ∧ ¬ (a ≤ a' < a + PG_SIZE) ∧
    ∀ x, a' ≤ x < a' + PG_SIZE → ¬ (a ≤ x < a + PG_SIZE)).
  { intros a' Ha'. destruct (arena_in_region _ _ _ _ (hi_client _ _ _ _ Hh) i v a' Hv Ha') as [_ Hp].
    destruct (Hsep a' Hp) as [Hr Hfar]. split_and!; [by intros ->| |apply Hfar; lia|done].
    intros ->. apply (so_region _ Hst i (head_at i) Hi Hr). lia. }
  set (v' := mkView (a :: arenas v) (rev (arena_blocks i a)) (live v)).
  exists (mkHeap (mkBuddy m' (total b) (allocated b)) (<[i := class_desc i v']> (descs h))
    (spilled_alloc h) (spilled_total h)), a. split_and!; [| | |done].
  - unfold refill. unmonad. unfold on_pool at 1. rewrite E. fold h1.
    unmonad. revert Einit. unmonad. unfold update_desc.
    destruct (on_words (set_arena_magic a ARENA_MAGIC) h1) as [[[] h2]|] eqn:E2; [|done].
    destruct (on_words (set_arena_desc a (desc_at i)) h2) as [[[] h4]|] eqn:E4; [|done].
    rewrite (get_desc_spec i (class_desc i v)); last first.
    { by rewrite (on_words_descs _ _ _ _ E4), (on_words_descs _ _ _ _ E2). }
    intros ->. cbn [blocks_per_arena class_desc]. revert Eloop. unfold mbind, M_bind. intros ->.
    rewrite (get_desc_spec i (class_desc i v)) by done. unfold modify. cbn.
    do 3 f_equal. unfold class_desc. cbn. rewrite length_rev. unfold arena_blocks.
    rewrite length_fmap, length_seqZ, Z2Nat.id, Hfree, !wrap_add_l by lia. cbn. f_equal; f_equal; f_equal; lia.
  - apply (heap_update region h1 vs ((a, 1) :: outs) outs i v v' m'); [done|done| | | | |].
    + unfold arena_outs. rewrite (all_arenas_insert_cons vs i v v' a) by done.
      cbn. by rewrite Permutation_middle.
    + cbn in Hd'. congruence.
    + intros x Hx. apply Hout; [intros ->; apply Hx; by left|].
      intros Hp. apply Hx. right. exists a. split; [left|done].
    + split; cbn.
      * exact Hl'.
      * intros a' [->|Ha']%elem_of_cons.
        -- rewrite Hf'; [|lia|intros; lia]. cbn. rewrite (ho_word _ _ _ _ Hho).
           unfold header, free_in. cbn. rewrite filter_all; last first.
           { apply Forall_forall. intros x. rewrite <- Permutation_rev. intros Hx.
             pose proof (block_in_page i a x Hi Hx). lia. }
           rewrite length_rev. unfold arena_blocks. by rewrite length_fmap, length_seqZ, Z2Nat.id by lia.
        -- destruct (Hold a' Ha') as (Hne & Hn1 & Hn2 & Hfar). rewrite (Hout a' Hn1 Hn2).
           rewrite (cw_header _ _ _ (Hw1 i v Hv) a' Ha'). unfold header, free_in. cbn. rewrite Hfree.
           rewrite filter_nil, filter_none; [done|]. apply Forall_forall. intros x. rewrite <- Permutation_rev. intros Hx Hr.
           pose proof (block_in_page i a x Hi Hx). apply (Hfar x); lia.
      * intros a' [->|Ha']%elem_of_cons; [rewrite Hf'; [apply (ho_desc _ _ _ _ Hho)|lia|intros; lia]|].
        destruct (Hold a' Ha') as (Hne & Hn1 & Hn2 & Hfar). rewrite Hout; [| |].
        { by apply (cw_desc _ _ _ (Hw1 i v Hv)). }
        { intros E8. destruct (Hsep a') as [Hr _]; [by eapply arena_in_region; [apply (hi_client _ _ _ _ Hh)|..]|].
          apply (so_region _ Hst i a' Hi Hr). lia. }
        apply Hfar. lia.
    + unfold view_blocks. cbn. rewrite <- (Hb1 i v Hv : _ ≡ₚ class_blocks i (arenas v)), Hfree. cbn.
      by rewrite <- Permutation_rev.
  - intros a' x Ha' Hx. cbn. rewrite Hout; [by apply (Hsame a')| |].
    + intros ->. destruct Hsep with a' as [Hr _]; [done|]. by apply (so_region _ Hst i a' Hi Hr).
    + destruct Hsep with a' as [_ Hfar]; [done|]. by apply Hfar.
Qed.
End one_view.

(** ** Requests and live objects *)

(** A live object: its address and the layout it was requested with. *)
Record Obj : Type := mkObj { o_ptr : Z; o_size : Z; o_align : Z }.

#[export] Instance Obj_eq_dec : EqDecision Obj.
Proof. solve_decision. Defined.

(** A layout the heap takes: not empty, and aligned to a power of two up to a
    page. *)
Definition req_ok (lsize lalign : Z) : Prop :=
  0 < lsize ≤ 2 ^ 62 ∧ ∃ j, 0 ≤ j ≤ 12 ∧ lalign = 2 ^ j.

(** The descriptor that serves a layout, or the number of pages. *)
Definition is_small (o : Obj) : bool := bool_decide (class_size (o_size o) (o_align o) ≤ MAX_BLKSIZE).
Definition o_class (o : Obj) : nat := class_of (class_size (o_size o) (o_align o)).
Definition o_pages (o : Obj) : Z := (o_size o + PG_SIZE - 1) / PG_SIZE.

Definition small_of (i : nat) (o : Obj) : option Z :=
  if is_small o && bool_decide (o_class o = i) then Some (o_ptr o) else None.
Definition big_of (o : Obj) : option (Z * Z) :=
  if is_small o then None else Some (o_ptr o, o_pages o).

(** The objects [objs] are exactly what the heap holds as live. *)
Record objs_inv (region : list Z) (h : Heap) (objs : list Obj) : Prop := {
  oi_ok : ∀ o, o ∈ objs → req_ok (o_size o) (o_align o);
  oi_heap : ∃ vs outs, heap_inv region h vs outs ∧ outs ≡ₚ omap big_of objs ∧
    ∀ i v, vs !! i = Some v → live v ≡ₚ omap (small_of i) objs;
}.

Lemma class_size_pow2 lsize lalign : req_ok lsize lalign →
  ∃ k, 0 ≤ k ≤ 63 ∧ class_size lsize lalign = 2 ^ k ∧ lsize ≤ 2 ^ k ∧ (lalign | 2 ^ k).
Proof.
  intros [Hs (j & Hj & ->)]. unfold class_size.
  rewrite next_power_of_two_small by lia.
  assert (Hup : lsize ≤ 2 ^ Z.log2_up lsize).
  { destruct (decide (lsize = 1)) as [->|]; [done|]. apply Z.log2_up_spec. lia. }
  pose proof (Z.log2_up_le_mono lsize (2 ^ 62) ltac:(lia)) as Hl.
  change (Z.log2_up (2 ^ 62)) with 62 in Hl.
  pose proof (Z.log2_up_nonneg lsize).
  assert (Hd : ∀ a b, 0 ≤ a ≤ b → (2 ^ a | 2 ^ b)).
  { intros a b ?. exists (2 ^ (b - a)). rewrite <- Z.pow_add_r by lia. f_equal. lia. }
  destruct (Z.max_spec (2 ^ Z.log2_up lsize) (2 ^ j)) as [[Hlt ->]|[Hle ->]].
  - exists j. split_and!; [lia|lia|done|lia|apply Hd; lia].
  - exists (Z.log2_up lsize). split_and!; [lia|lia|done|lia|].
    apply Hd. split; [lia|]. apply (Z.pow_le_mono_r_iff 2); lia.
Qed.

Lemma class_of_spec lsize lalign : req_ok lsize lalign →
  class_size lsize lalign ≤ MAX_BLKSIZE →
  let i := class_of (class_size lsize lalign) in
  (i < 8)%nat ∧ lsize ≤ cls_size i ∧ (lalign | cls_size i).
Proof.
  intros Hr Hle. destruct (class_size_pow2 _ _ Hr) as (k & Hk & E & Hs & Ha).
  rewrite E in *. assert (k ≤ 10).
  { apply (Z.pow_le_mono_r_iff 2); [lia..|]. exact Hle. }
  cbn zeta. unfold class_of, saturating_sub, cls_size. rewrite trailing_zeros_pow2 by lia.
  split; [lia|]. rewrite Z2Nat.id by lia.
  assert (Hmon : (2 ^ k | 2 ^ (Z.max 0 (k - 3) + 3))).
  { exists (2 ^ (Z.max 0 (k - 3) + 3 - k)). rewrite <- Z.pow_add_r by lia. f_equal. lia. }
  split; [|by etrans]. apply Z.divide_pos_le in Hmon; [lia|]. apply pow2_pos. lia.
Qed.

Lemma pages_small lsize : 0 < lsize ≤ 2 ^ 62 →
  wrap64 (lsize + PG_SIZE - 1) / PG_SIZE = (lsize + PG_SIZE - 1) / PG_SIZE ∧
  lsize ≤ (lsize + PG_SIZE - 1) / PG_SIZE * PG_SIZE ∧ 1 ≤ (lsize + PG_SIZE - 1) / PG_SIZE.
Proof.
  intros Hs. rewrite PG_SIZE_pow2. split; [|split].
  - rewrite wrap_small; [done|]. unfold in_range. lia.
  - apply (ceil_div_bounds lsize (2 ^ 12)). lia.
  - apply Z.div_le_lower_bound; lia.
Qed.

(** Where an object may lie: its block, or its pages. *)
Definition extent (o : Obj) (x : Z) : Prop := o_ptr o ≤ x < o_ptr o + o_size o.

Section objs.
Context (region : list Z) (h : Heap) (vs : list ClassView) (outs : list (Z * Z)).
Context (Hh : heap_inv region h vs outs).

Lemma NoDup_held : NoDup (all_arenas vs ++ out_pages outs).
Proof using Hh.
  destruct (hi_client _ _ _ _ Hh) as [(fls & _ & Hreg) [Hnd _ _ _] _ _ _].
  rewrite Hreg in Hnd. apply NoDup_app in Hnd as (Hnd & _).
  unfold out_pages in Hnd. rewrite bind_app in Hnd. fold (out_pages (arena_outs vs)) in Hnd.
  by rewrite out_pages_arenas in Hnd.
Qed.

Lemma held_in_region a : a ∈ all_arenas vs ++ out_pages outs → a ∈ region ∧ (PG_SIZE | a).
Proof using Hh.
  intros Ha. pose proof (hi_client _ _ _ _ Hh) as [(fls & _ & Hreg) _ _ _ Hpg].
  assert (Hr : a ∈ region); [|auto]. rewrite Hreg. apply elem_of_app. left.
  unfold out_pages at 1. rewrite bind_app. fold (out_pages (arena_outs vs)).
  by rewrite out_pages_arenas.
Qed.

Lemma same_page a b x : a ∈ all_arenas vs ++ out_pages outs → b ∈ all_arenas vs ++ out_pages outs →
  a ≤ x < a + PG_SIZE → b ≤ x < b + PG_SIZE → a = b.
Proof using Hh.
  intros [_ [q ->]]%held_in_region [_ [q' ->]]%held_in_region. rewrite PG_SIZE_pow2. intros.
  f_equal. lia.
Qed.

(** A word of a live block is in an arena of its class. *)
Lemma live_page i v b x : vs !! i = Some v → b ∈ live v → b ≤ x < b + cls_size i →
  ∃ a, a ∈ arenas v ∧ a + 16 ≤ x < a + PG_SIZE.
Proof using Hh.
  intros Hv Hb Hx. assert (Hi : (i < 8)%nat) by (eapply view_index; [exact Hh|exact Hv]).
  destruct (view_block region h vs outs Hh i v Hv b) as (a & Ha & Hba).
  { apply elem_of_app. by right. }
  exists a. split; [done|]. apply elem_of_arena_blocks in Hba as (j & Hj & ->).
  destruct (class_facts i Hi) as (_ & _ & _ & ? & ? & _ & ? & _). unfold arena_block in *. nia.
Qed.

Lemma out_page p n x : 0 ≤ n ≤ 2 ^ 63 → (p, n) ∈ outs → p ≤ x < p + n * PG_SIZE →
  ∃ pg, pg ∈ block_pages (order_of n) p ∧ pg ≤ x < pg + PG_SIZE.
Proof using Hh.
  intros Hn Hp Hx. destruct (order_of_spec n Hn) as [Hle _].
  exists (p + (x - p) / PG_SIZE * PG_SIZE). rewrite PG_SIZE_pow2 in *.
  assert (0 ≤ (x - p) / 2 ^ 12 < n).
  { split; [apply Z.div_pos; lia|]. apply Z.div_lt_upper_bound; lia. }
  split; [|pose proof (Z.div_mod (x - p) (2 ^ 12)); pose proof (Z.mod_pos_bound (x - p) (2 ^ 12)); lia].
  apply elem_of_block_pages. exists ((x - p) / 2 ^ 12). split; [lia|]. by rewrite PG_SIZE_pow2.
Qed.
End objs.

(** The words clients may use: live blocks and pages handed out directly. *)
Definition client_word (vs : list ClassView) (outs : list (Z * Z)) (x : Z) : Prop :=
  (∃ i v b, vs !! i = Some v ∧ b ∈ live v ∧ b ≤ x < b + cls_size i) ∨
  (∃ a, a ∈ out_pages outs ∧ a ≤ x < a + PG_SIZE).

Section objs2.
Context (region : list Z) (h : Heap) (vs : list ClassView) (outs : list (Z * Z)).
Context (Hh : heap_inv region h vs outs).

Lemma client_word_page x : client_word vs outs x →
  ∃ c, c ∈ all_arenas vs ++ out_pages outs ∧ c ≤ x < c + PG_SIZE ∧ (c ∈ all_arenas vs → c + 16 ≤ x).
Proof using Hh.
  intros [(j & w & b & Hw & Hb & Hx)|(c & Hc & Hx)].
  - destruct (live_page region h vs outs Hh j w b x Hw Hb Hx) as (c & Hc & Hr).
    exists c. split; [|split; lia]. apply elem_of_app. left. by apply (elem_of_all_arenas vs j w).
  - exists c. split; [apply elem_of_app; by right|]. split; [done|]. intros Hc'.
    pose proof (NoDup_held region h vs outs Hh) as Hnd. apply NoDup_app in Hnd as (_ & Hd & _).
    by destruct (Hd c Hc').
Qed.

(** Heads, headers and free blocks are not client words. *)
Lemma client_word_not_head x i v : client_word vs outs x → vs !! i = Some v → x ≠ head_at i.
Proof using Hh.
  intros Hx Hv ->. destruct (client_word_page _ Hx) as (c & Hc & Hr & _).
  assert (Hi : (i < 8)%nat) by (eapply view_index; [exact Hh|exact Hv]).
  apply (so_region _ (hi_statics _ _ _ _ Hh) i c Hi); [|done]. by eapply held_in_region.
Qed.

Lemma client_word_not_header x i v a : client_word vs outs x → vs !! i = Some v → a ∈ arenas v →
  ¬ (a ≤ x < a + 16).
Proof using Hh.
  intros Hx Hv Ha Hlt. destruct (client_word_page _ Hx) as (c & Hc & Hr & Hne).
  assert (Ha' : a ∈ all_arenas vs) by (by apply (elem_of_all_arenas vs i v)).
  assert (c = a) as ->; [|specialize (Hne Ha'); lia].
  eapply (same_page region h vs outs Hh _ _ x); [done|apply elem_of_app; by left|done|].
  rewrite PG_SIZE_pow2. lia.
Qed.

Lemma client_word_not_free x i v : client_word vs outs x → vs !! i = Some v → x ∉ free v.
Proof using Hh.
  intros Hx Hv Hfree. assert (Hi : (i < 8)%nat) by (eapply view_index; [exact Hh|exact Hv]).
  destruct (view_block region h vs outs Hh i v Hv x) as (a & Ha & Hba); [apply elem_of_app; by left|].
  pose proof (block_in_page i a x Hi Hba) as Hr.
  assert (Ha' : a ∈ all_arenas vs) by (by apply (elem_of_all_arenas vs i v)).
  destruct Hx as [(j & w & b & Hw & Hb & Hx)|(c & Hc & Hx)].
  - destruct (live_page region h vs outs Hh j w b x Hw Hb Hx) as (c & Hc & Hrc).
    assert (Hc' : c ∈ all_arenas vs) by (by apply (elem_of_all_arenas vs j w)).
    assert (a = c) as <-.
    { eapply (same_page region h vs outs Hh _ _ x); try (apply elem_of_app; by left); lia. }
    pose proof (NoDup_held region h vs outs Hh) as Hnd. apply NoDup_app in Hnd as (Hnd & _).
    assert (i = j) as <- by (by apply (bind_apart vs i j v w a)). simplify_eq.
    pose proof (view_NoDup region h vs outs Hh i w Hw) as Hndv.
    apply NoDup_app in Hndv as (_ & Hdj & _). apply (Hdj x Hfree).
    destruct (view_block region h vs outs Hh i w Hw b) as (a' & Ha'' & Hba'); [apply elem_of_app; by right|].
    destruct (class_facts i Hi) as (_ & _ & _ & Hsz & _).
    destruct (arena_block_aligned i a x Hi) as [q Eq]; [by apply (view_arena region h vs outs Hh i w Hw)|done|].
    destruct (arena_block_aligned i a' b Hi) as [q' Eq']; [by apply (view_arena region h vs outs Hh i w Hw)|done|].
    assert (q = q') as -> by nia. congruence.
  - pose proof (NoDup_held region h vs outs Hh) as Hnd. apply NoDup_app in Hnd as (_ & Hd & _).
    apply (Hd a Ha'). enough (a = c) as -> by done.
    eapply (same_page region h vs outs Hh _ _ x); [apply elem_of_app; by left|apply elem_of_app; by right|lia|done].
Qed.

Lemma client_word_private x i v a : client_word vs outs x → vs !! i = Some v →
  x ≠ head_at i ∧ (a ∈ arenas v → x ≠ a).
Proof using Hh.
  intros Hx Hv. split; [by apply (client_word_not_head x i v)|].
  intros Ha ->. apply (client_word_not_header a i v a Hx Hv Ha). lia.
Qed.

Lemma desc_alloc_spec i v : vs !! i = Some v →
  desc_alloc i h = Panic Unreachable ∨
  ∃ b h' v', desc_alloc i h = Ret (b, h') ∧ heap_inv region h' (<[i := v']> vs) outs ∧
    live v' = b :: live v ∧
    ∀ x, client_word vs outs x → mem_of h' !! x = mem_of h !! x.
Proof using Hh.
  intros Hv. pose proof (hi_words _ _ _ _ Hh i v Hv) as Hcw.
  unfold desc_alloc. unmonad.
  rewrite (on_words_ret (is_empty (head_at i)) h _ _ (is_empty_spec _ _ _ (cw_list _ _ _ Hcw))).
  rewrite with_mem_id. destruct (free v) as [|b fr] eqn:Hfree.
  - rewrite bool_decide_eq_true_2 by done.
    destruct (refill_spec region h vs outs Hh i v Hv Hfree) as [->|(h1 & a & -> & Hh1 & Hsame & Hnew)];
      [by left|right].
    set (v1 := mkView _ _ _) in Hh1. set (vs1 := <[i := v1]> vs) in Hh1.
    assert (Hv1 : vs1 !! i = Some v1) by (apply list_lookup_insert_eq; by eapply lookup_lt_Some).
    assert (Hi : (i < 8)%nat) by (eapply view_index; [exact Hh|exact Hv]).
    destruct (class_facts i Hi) as (_ & _ & _ & _ & _ & Hcnt & _).
    destruct (rev (arena_blocks i a)) as [|b fr] eqn:Er.
    { apply (f_equal length) in Er. rewrite length_rev in Er. unfold arena_blocks in Er.
      rewrite length_fmap, length_seqZ in Er. cbn in Er. lia. }
    destruct (take_block_spec region h1 vs1 outs Hh1 i v1 Hv1 b fr) as (h' & -> & Hh' & Hf); [done|].
    exists b, h', (mkView (arenas v1) fr (b :: live v)). split; [done|]. split.
    { unfold vs1 in Hh'. by rewrite list_insert_insert_eq in Hh'. }
    split; [done|]. intros x Hx. destruct (client_word_private x i v a Hx Hv) as [Hx1 _].
    assert (Hheld : ∃ c, c ∈ out_pages (arena_outs vs ++ outs) ∧ c ≤ x < c + PG_SIZE).
    { destruct Hx as [(j & w & b' & Hw & Hb' & Hx)|(c & Hc & Hx)].
      - destruct (live_page region h vs outs Hh j w b' x Hw Hb' Hx) as (c & Hc & Hr).
        exists c. split; [|lia]. by apply (arena_in_region _ _ _ _ (hi_client _ _ _ _ Hh) j w).
      - exists c. split; [|done]. unfold out_pages at 1. rewrite bind_app. apply elem_of_app. by right. }
    destruct Hheld as (c & Hc & Hr).
    rewrite Hf; [by apply (Hsame c)|done|]. cbn. intros Hin.
    apply elem_of_cons in Hin as [->|Hin]; [|by apply (client_word_private x i v x)].
    apply Hnew. enough (c = a) as -> by done.
    destruct (ci_pg _ _ _ _ (hi_client _ _ _ _ Hh) c) as [q Eq].
    { destruct (hi_client _ _ _ _ Hh) as [(fls & _ & Hreg) _ _ _ _]. rewrite Hreg, elem_of_app. by left. }
    destruct (view_arena region h1 vs1 outs Hh1 i v1 Hv1 a) as ([q' Eq'] & _); [left|].
    rewrite PG_SIZE_pow2 in *. subst. f_equal. lia.
  - rewrite bool_decide_eq_false_2 by done. right.
    destruct (take_block_spec region h vs outs Hh i v Hv b fr Hfree) as (h' & -> & Hh' & Hf).
    eexists b, h', _. split; [done|]. split; [exact Hh'|]. split; [done|].
    intros x Hx. destruct (client_word_private x i v x Hx Hv). apply Hf; [done|naive_solver].
Qed.
End objs2.

(** ** The heap and its clients *)

Lemma omap_perm_cons {A B} (f : A → option B) (l l' : list A) x :
  l ≡ₚ x :: l' → omap f l ≡ₚ omap f (x :: l').
Proof. by intros ->. Qed.

Section heap_objs.
Context (region : list Z) (h : Heap) (objs : list Obj).
Context (vs : list ClassView) (outs : list (Z * Z)).
Context (Hok : ∀ o, o ∈ objs → req_ok (o_size o) (o_align o)).
Context (Hh : heap_inv region h vs outs) (Hb : outs ≡ₚ omap big_of objs).
Context (Hs : ∀ i v, vs !! i = Some v → live v ≡ₚ omap (small_of i) objs).

(** A small object lies in a live block of its class, hence in an arena. *)
Lemma small_place o x : o ∈ objs → is_small o = true → extent o x → ∃ v a,
  (o_class o < 8)%nat ∧ vs !! o_class o = Some v ∧ o_ptr o ∈ live v ∧
  o_ptr o ≤ x < o_ptr o + cls_size (o_class o) ∧
  a ∈ arenas v ∧ a ∈ all_arenas vs ∧ a ≤ x < a + PG_SIZE.
Proof using Hok Hh Hs.
  intros Ho Es Hx. destruct (class_of_spec _ _ (Hok o Ho)) as (Hi & Hsz & _).
  { unfold is_small in Es. by apply bool_decide_eq_true in Es. }
  fold (o_class o) in *. unfold extent in Hx.
  destruct (lookup_lt_is_Some_2 vs (o_class o)) as [v Hv]; [by rewrite (hi_length _ _ _ _ Hh)|].
  assert (Hl : o_ptr o ∈ live v).
  { rewrite (Hs _ _ Hv). apply list_elem_of_omap. exists o. split; [done|].
    unfold small_of. by rewrite Es, bool_decide_eq_true_2. }
  destruct (live_page region h vs outs Hh _ v (o_ptr o) x Hv Hl) as (a & Ha & Hr); [lia|].
  exists v, a. split_and!; try (done || lia). by apply (elem_of_all_arenas vs (o_class o) v).
Qed.

(** A big object lies in the pages of its request. *)
Lemma big_place o x : o ∈ objs → is_small o = false → extent o x →
  ∃ pg, pg ∈ block_pages (order_of (o_pages o)) (o_ptr o) ∧ pg ∈ out_pages outs ∧
    pg ≤ x < pg + PG_SIZE.
Proof using Hok Hh Hb.
  intros Ho Es Hx. destruct (Hok o Ho) as [Hsz _].
  destruct (pages_small _ Hsz) as (_ & Hle & _).
  assert (Hin : (o_ptr o, o_pages o) ∈ outs).
  { rewrite Hb. apply list_elem_of_omap. exists o. split; [done|]. unfold big_of. by rewrite Es. }
  unfold extent in Hx.
  destruct (out_page region h vs outs Hh (o_ptr o) (o_pages o) x) as (pg & Hpg & Hr);
    [|done|unfold o_pages; lia|].
  - unfold o_pages. split; [apply Z.div_pos; rewrite PG_SIZE_pow2; lia|].
    apply Z.div_le_upper_bound; rewrite PG_SIZE_pow2; lia.
  - exists pg. split_and!; [done| |lia|lia]. apply list_elem_of_bind. by exists (o_ptr o, o_pages o).
Qed.

Lemma extent_client_word o x : o ∈ objs → extent o x → client_word vs outs x.
Proof using Hok Hh Hb Hs.
  intros Ho Hx. destruct (is_small o) eqn:Es.
  - destruct (small_place o x Ho Es Hx) as (v & a & _ & Hv & Hl & Hr & _). left. eauto 10.
  - destruct (big_place o x Ho Es Hx) as (pg & _ & Hpg & Hr). right. eauto.
Qed.

(** No word is both in an arena and in a page handed out directly. *)
Lemma arena_not_out a pg x : a ∈ all_arenas vs → pg ∈ out_pages outs →
  a ≤ x < a + PG_SIZE → pg ≤ x < pg + PG_SIZE → False.
Proof using Hh.
  intros Ha Hpg Hxa Hxp. pose proof (NoDup_held region h vs outs Hh) as Hnd.
  assert (a = pg) as ->.
  { eapply (same_page region h vs outs Hh _ _ x);
      [apply elem_of_app; by left|apply elem_of_app; by right|done|done]. }
  apply NoDup_app in Hnd as (_ & Hd & _). by apply (Hd pg).
Qed.

(** Two small objects of one class are different, aligned blocks. *)
Lemma small_disjoint o1 o2 rest x : objs ≡ₚ o1 :: o2 :: rest →
  is_small o1 = true → is_small o2 = true → extent o1 x → extent o2 x → False.
Proof using Hok Hh Hs.
  intros Hp E1 E2 Hx1 Hx2. pose proof (NoDup_held region h vs outs Hh) as Hnd.
  destruct (small_place o1 x) as (v1 & a1 & Hi & Hv1 & Hl1 & Hr1 & Ha1 & Hall1 & Hp1);
    [rewrite Hp; left|done|done|].
  destruct (small_place o2 x) as (v2 & a2 & _ & Hv2 & Hl2 & Hr2 & Ha2 & Hall2 & Hp2);
    [rewrite Hp; right; left|done|done|].
  assert (a1 = a2) as ->.
  { eapply (same_page region h vs outs Hh _ _ x); try done; apply elem_of_app; by left. }
  assert (Ec : o_class o1 = o_class o2).
  { apply NoDup_app in Hnd as (Hnd & _). by apply (bind_apart vs _ _ v1 v2 a2). }
  rewrite Ec in *. rewrite Hv1 in Hv2. injection Hv2 as <-.
  pose proof (view_NoDup region h vs outs Hh _ v1 Hv1) as Hndv.
  apply NoDup_app in Hndv as (_ & _ & Hndl).
  rewrite (Hs _ _ Hv1), (omap_perm_cons _ _ _ _ Hp) in Hndl. cbn in Hndl.
  unfold small_of in Hndl. rewrite E1, E2, Ec, bool_decide_eq_true_2 in Hndl by done. cbn in Hndl.
  apply NoDup_cons in Hndl as [Hne _].
  assert (Hal : ∀ b, b ∈ live v1 → (cls_size (o_class o2) | b)).
  { intros b Hbl. destruct (view_block region h vs outs Hh _ v1 Hv1 b) as (a & Ha & Hba).
    { apply elem_of_app. by right. }
    apply (arena_block_aligned _ a b Hi); [|done]. by apply (view_arena region h vs outs Hh _ v1 Hv1). }
  destruct (Hal _ Hl1) as [q1 Q1], (Hal _ Hl2) as [q2 Q2].
  apply Hne. rewrite Q1, Q2 in *. assert (q1 = q2) as ->; [nia|]. left.
Qed.

(** Any two live objects are disjoint. *)
Lemma live_disjoint o1 o2 rest x : objs ≡ₚ o1 :: o2 :: rest → extent o1 x → ¬ extent o2 x.
Proof using Hok Hh Hb Hs.
  intros Hp Hx1 Hx2.
  assert (Hin1 : o1 ∈ objs) by (rewrite Hp; left).
  assert (Hin2 : o2 ∈ objs) by (rewrite Hp; right; left).
  destruct (is_small o1) eqn:E1, (is_small o2) eqn:E2.
  - by apply (small_disjoint o1 o2 rest x).
  - destruct (small_place o1 x) as (v1 & a1 & _ & _ & _ & _ & _ & Hall & Hp1); [done..|].
    destruct (big_place o2 x) as (pg & _ & Hpg & Hr); [done..|]. by apply (arena_not_out a1 pg x).
  - destruct (small_place o2 x) as (v1 & a1 & _ & _ & _ & _ & _ & Hall & Hp1); [done..|].
    destruct (big_place o1 x) as (pg & _ & Hpg & Hr); [done..|]. by apply (arena_not_out a1 pg x).
  - destruct (big_place o1 x) as (pg1 & Hp1 & Hpo1 & Hr1); [done..|].
    destruct (big_place o2 x) as (pg2 & Hp2 & Hpo2 & Hr2); [done..|].
    assert (pg1 = pg2) as ->.
    { eapply (same_page region h vs outs Hh _ _ x); try done; apply elem_of_app; by right. }
    pose proof (NoDup_held region h vs outs Hh) as Hnd.
    apply NoDup_app in Hnd as (_ & _ & Hnd). rewrite Hb, (omap_perm_cons _ _ _ _ Hp) in Hnd.
    cbn in Hnd. unfold big_of in Hnd. rewrite E1, E2 in Hnd. cbn in Hnd.
    apply NoDup_app in Hnd as (_ & Hd & _). apply (Hd pg2); [done|].
    apply elem_of_app. by left.
Qed.
End heap_objs.

(** ** Allocation and deallocation of objects *)

(** Every word of the objects [objs] is the same in both heaps. *)
Definition keeps (objs : list Obj) (h h' : Heap) : Prop :=
  ∀ o x, o ∈ objs → extent o x → mem_of h' !! x = mem_of h !! x.

Lemma req_lookup_desc region h vs outs i : heap_inv region h vs outs → (i < 8)%nat →
  ∃ v, vs !! i = Some v ∧ check_index i h = Ret ((), h).
Proof.
  intros Hh Hi. destruct (lookup_lt_is_Some_2 vs i) as [v Hv]; [by rewrite (hi_length _ _ _ _ Hh)|].
  exists v. split; [done|]. unfold check_index. unmonad.
  by rewrite (get_desc_spec i _ h (view_desc region h vs outs Hh i v Hv)).
Qed.

Lemma small_of_ne (o : Obj) i : is_small o = true → i ≠ o_class o → small_of i o = None.
Proof. intros Es Hne. unfold small_of. by rewrite Es, bool_decide_eq_false_2. Qed.
Lemma small_of_eq (o : Obj) : is_small o = true → small_of (o_class o) o = Some (o_ptr o).
Proof. intros Es. unfold small_of. by rewrite Es, bool_decide_eq_true_2. Qed.
Lemma small_of_big (o : Obj) i : is_small o = false → small_of i o = None.
Proof. intros Es. unfold small_of. by rewrite Es. Qed.

(** The views after one class has changed. *)
Lemma views_insert (vs : list ClassView) i v' objs o :
  (i < length vs)%nat → is_small o = true → o_class o = i →
  (∀ j v, vs !! j = Some v → live v ≡ₚ omap (small_of j) objs) →
  live v' ≡ₚ o_ptr o :: omap (small_of i) objs →
  ∀ j v, <[i := v']> vs !! j = Some v → live v ≡ₚ omap (small_of j) (o :: objs).
Proof.
  intros Hi Es <- Hs Hl j v. cbn. destruct (decide (o_class o = j)) as [<-|Hne].
  - rewrite list_lookup_insert_eq by done. intros [= <-]. by rewrite small_of_eq.
  - rewrite list_lookup_insert_ne by done. rewrite small_of_ne by done. apply Hs.
Qed.

Lemma views_delete (vs : list ClassView) i v' objs o :
  (i < length vs)%nat → is_small o = true → o_class o = i →
  (∀ j v, vs !! j = Some v → live v ≡ₚ omap (small_of j) (o :: objs)) →
  live v' ≡ₚ omap (small_of i) objs →
  ∀ j v, <[i := v']> vs !! j = Some v → live v ≡ₚ omap (small_of j) objs.
Proof.
  intros Hi Es <- Hs Hl j v. destruct (decide (o_class o = j)) as [<-|Hne].
  - rewrite list_lookup_insert_eq by done. by intros [= <-].
  - rewrite list_lookup_insert_ne by done. intros Hv. rewrite (Hs j v Hv). cbn.
    by rewrite small_of_ne.
Qed.

(** The outcome of an allocation request. *)
Lemma heap_alloc_spec region h objs lsize lalign :
  objs_inv region h objs → req_ok lsize lalign →
  (heap_alloc lsize lalign h = Panic Unreachable ∨
   (256 * PG_SIZE < lsize ∧ heap_alloc lsize lalign h = Panic AssertFailed)) ∨
  ∃ p h', heap_alloc lsize lalign h = Ret (p, h') ∧ (lalign | p) ∧
    objs_inv region h' (mkObj p lsize lalign :: objs) ∧ keeps objs h h'.
Proof.
  intros [Hok (vs & outs & Hh & Hb & Hs)] Hr. pose proof Hr as [Hsz (k & Hk & Hal)].
  assert (Hok' : ∀ p o, o ∈ mkObj p lsize lalign :: objs → req_ok (o_size o) (o_align o)).
  { intros p o [->|Ho]%elem_of_cons; [done|auto]. }
  unfold heap_alloc. rewrite bool_decide_eq_false_2 by lia. unmonad.
  rewrite Hal, is_power_of_two_pow2 by lia. cbn [assert_].
  assert (Hk12 : 2 ^ k ≤ PG_SIZE) by (rewrite PG_SIZE_pow2; apply Z.pow_le_mono_r; lia).
  rewrite bool_decide_eq_true_2 by done. cbn [assert_]. rewrite <- Hal.
  destruct (decide (class_size lsize lalign ≤ MAX_BLKSIZE)) as [Hle|Hgt].
  - rewrite bool_decide_eq_true_2 by done.
    destruct (class_of_spec _ _ Hr Hle) as (Hi & _ & Hdiv). set (i := class_of _) in *.
    destruct (req_lookup_desc _ _ _ _ i Hh Hi) as (v & Hv & ->).
    destruct (desc_alloc_spec region h vs outs Hh i v Hv) as [->|(p & h' & v' & -> & Hh' & Hl & Hkeep)];
      [left; by left|right].
    assert (Es : is_small (mkObj p lsize lalign) = true) by (by apply bool_decide_eq_true_2).
    exists p, h'. split; [done|]. split; [|split].
    + etrans; [exact Hdiv|].
      assert (Hv' : <[i := v']> vs !! i = Some v') by (apply list_lookup_insert_eq; by eapply lookup_lt_Some).
      destruct (view_block region h' _ outs Hh' i v' Hv' p) as (a & Ha & Hba).
      { apply elem_of_app. right. rewrite Hl. left. }
      apply (arena_block_aligned i a p Hi); [|done].
      by apply (view_arena region h' _ outs Hh' i v' Hv').
    + split; [apply Hok'|]. exists (<[i := v']> vs), outs. split; [done|]. split.
      { cbn. unfold big_of at 1. by rewrite Es. }
      apply views_insert; [rewrite (hi_length _ _ _ _ Hh); exact Hi|done|done|done|].
      by rewrite Hl, (Hs i v Hv).
    + intros o x Ho Hx. apply Hkeep. by eapply extent_client_word.
  - rewrite bool_decide_eq_false_2 by done. unfold add_spilled, modify. cbn.
    destruct (pages_small _ Hsz) as (-> & Hle & H1).
    set (n := (lsize + PG_SIZE - 1) / PG_SIZE) in *. unfold on_pool. cbn [hp_pool descs spilled_alloc spilled_total].
    destruct (decide (n ≤ 256)) as [Hn|Hn]; last first.
    { left. right. split.
      - assert (256 < n) by lia. unfold n in *.
        enough (256 * PG_SIZE + PG_SIZE ≤ lsize + PG_SIZE - 1) by lia.
        transitivity ((lsize + PG_SIZE - 1) / PG_SIZE * PG_SIZE); [rewrite PG_SIZE_pow2 in *; lia|].
        rewrite Z.mul_comm. apply Z.mul_div_le. rewrite PG_SIZE_pow2. lia.
      - unfold alloc. change (Z.shiftl 1 (Z.of_nat MAX_ORDER)) with 256. unmonad.
        by rewrite bool_decide_eq_false_2 by lia. }
    destruct (pool_alloc_spec region h vs outs n Hh ltac:(lia)) as [->|(p & b & -> & Hh' & Hdiv & Hsame)];
      [left; by left|right].
    assert (Es : is_small (mkObj p lsize lalign) = false) by (by apply bool_decide_eq_false_2).
    eexists p, _. split; [done|]. split; [|split].
    + etrans; [|exact Hdiv]. unfold block_size. rewrite Hal, PG_SIZE_pow2.
      exists (2 ^ Z.of_nat (order_of n) * 2 ^ (12 - k)).
      rewrite <- Z.mul_assoc, <- (Z.pow_add_r 2 (12 - k) k) by lia. by replace (12 - k + k) with 12 by lia.
    + split; [apply Hok'|]. exists vs, ((p, n) :: outs). split; [apply Hh'|]. split.
      { cbn. unfold big_of at 1. rewrite Es. cbn. by rewrite Hb. }
      intros j v Hv. cbn. rewrite small_of_big by done. by apply Hs.
    + intros o x Ho Hx. cbn.
      destruct (extent_client_word region h objs vs outs Hok Hh Hb Hs o x Ho Hx)
        as [(j & w & c & Hw & Hc & Hxc)|(a & Ha & Hxa)].
      * destruct (live_page region h vs outs Hh j w c x Hw Hc Hxc) as (a & Ha & Hxa).
        apply (Hsame a); [|lia]. by apply (arena_in_region _ _ _ _ (hi_client _ _ _ _ Hh) j w).
      * apply (Hsame a); [|done]. unfold out_pages. rewrite bind_app. apply elem_of_app. by right.
Qed.

(** Giving a live object back never fails. *)
Lemma heap_dealloc_spec region h objs o objs' :
  objs_inv region h objs → objs ≡ₚ o :: objs' →
  ∃ h', heap_dealloc (o_ptr o) (o_size o) (o_align o) h = Ret ((), h') ∧
    objs_inv region h' objs' ∧ keeps objs' h h'.
Proof.
  intros [Hok (vs & outs & Hh & Hb & Hs)] Hp.
  assert (Ho : o ∈ objs) by (rewrite Hp; left).
  assert (Hok' : ∀ o', o' ∈ objs' → req_ok (o_size o') (o_align o')).
  { intros o' Ho'. apply Hok. rewrite Hp. by right. }
  assert (Hin : ∀ o', o' ∈ objs' → o' ∈ objs) by (intros o' Ho'; rewrite Hp; by right).
  assert (Hs' : ∀ j v, vs !! j = Some v → live v ≡ₚ omap (small_of j) (o :: objs')).
  { intros j v Hv. rewrite (Hs j v Hv). by apply omap_perm_cons. }
  assert (Hfirst : ∃ x, extent o x ∧ x = o_ptr o).
  { exists (o_ptr o). destruct (Hok o Ho). unfold extent. split; [lia|done]. }
  destruct Hfirst as (x0 & Hx0 & Ex0).
  pose proof (Hok o Ho) as Hr. pose proof Hr as [Hsz _].
  unfold heap_dealloc. unmonad. destruct (is_small o) eqn:Es.
  - destruct (small_place region h objs vs outs Hok Hh Hs o x0 Ho Es Hx0)
      as (v & a & Hi & Hv & Hl & _ & Ha & _ & Hax).
    destruct (view_arena region h vs outs Hh _ v Hv a Ha) as (_ & Ha0 & _).
    rewrite bool_decide_eq_false_2 by lia.
    pose proof Es as Hle. apply bool_decide_eq_true in Hle. rewrite bool_decide_eq_true_2 by done.
    fold (o_class o) in *. destruct (req_lookup_desc _ _ _ _ _ Hh Hi) as (v0 & _ & ->).
    destruct (desc_dealloc_spec region h vs outs Hh _ v Hv (o_ptr o) (omap (small_of (o_class o)) objs'))
      as (h' & -> & Hh' & Hf).
    { rewrite (Hs' _ v Hv). cbn. by rewrite small_of_eq. }
    exists h'. split; [done|]. split.
    + split; [done|]. eexists _, outs. split; [exact Hh'|]. split.
      { rewrite Hb, (omap_perm_cons _ _ _ _ Hp). cbn. unfold big_of at 1. by rewrite Es. }
      apply (views_delete vs (o_class o) _ objs' o); try done. rewrite (hi_length _ _ _ _ Hh). exact Hi.
    + intros o' x Ho' Hx.
      pose proof (extent_client_word region h objs vs outs Hok Hh Hb Hs o' x (Hin _ Ho') Hx) as Hcw.
      destruct (client_word_private region h vs outs Hh x _ v x Hcw Hv) as [Hx1 Hx2].
      apply Hf; [done| |naive_solver]. intros ->. apply list_elem_of_split in Ho' as (l1 & l2 & ->).
      apply (live_disjoint region h objs vs outs Hok Hh Hb Hs o o' (l1 ++ l2) (o_ptr o)); [|by subst x0|done].
      rewrite Hp. by rewrite <- Permutation_middle.
  - destruct (big_place region h objs vs outs Hok Hh Hb o x0 Ho Es Hx0) as (pg & Hpg & Hpo & Hpx).
    assert (Hinr : ∀ a, a ∈ out_pages outs → a ∈ region).
    { intros a Ha. by apply (held_in_region region h vs outs Hh), elem_of_app; right. }
    pose proof (ci_region _ _ _ _ (hi_client _ _ _ _ Hh)) as Hro.
    destruct (ro_range _ _ _ Hro pg (Hinr _ Hpo)) as [Hpg0 _].
    rewrite bool_decide_eq_false_2 by lia.
    pose proof Es as Hgt. apply bool_decide_eq_false in Hgt. rewrite bool_decide_eq_false_2 by done.
    destruct (pages_small _ Hsz) as (-> & _ & _). fold (o_pages o).
    assert (Hob : outs ≡ₚ (o_ptr o, o_pages o) :: omap big_of objs').
    { rewrite Hb, (omap_perm_cons _ _ _ _ Hp). cbn. unfold big_of at 1. by rewrite Es. }
    destruct (pool_dealloc_spec region h vs outs _ _ _ Hh Hob) as (b & E & Hh' & Hsame).
    unfold add_spilled, modify. cbn.
    rewrite bool_decide_eq_true_2; last first.
    { apply Z.mod_divide; [rewrite PG_SIZE_pow2; lia|].
      destruct (ci_aligned _ _ _ _ (hi_client _ _ _ _ Hh) (o_ptr o) (o_pages o)) as [_ Hdiv].
      { apply elem_of_app. right. rewrite Hob. left. }
      etrans; [|exact Hdiv]. apply Z.divide_factor_r. }
    cbn. unfold on_pool. cbn [hp_pool descs spilled_alloc spilled_total]. rewrite E.
    eexists. split; [done|]. split.
    + split; [done|]. exists vs, (omap big_of objs'). split; [apply Hh'|]. split; [done|].
      intros j v Hv. rewrite (Hs' j v Hv). cbn. by rewrite small_of_big.
    + intros o' x Ho' Hx. cbn.
      destruct (is_small o') eqn:Es'.
      * destruct (small_place region h objs vs outs Hok Hh Hs o' x (Hin _ Ho') Es' Hx)
          as (w & a & _ & Hw & _ & _ & Ha & Hall & Hxa). apply (Hsame a); [|done].
        unfold out_pages. rewrite bind_app. apply elem_of_app. left.
        fold (out_pages (arena_outs vs)). by rewrite out_pages_arenas.
      * destruct (big_place region h objs vs outs Hok Hh Hb o' x (Hin _ Ho') Es' Hx) as (pg' & Hpg' & _ & Hxa).
        apply (Hsame pg'); [|done]. unfold out_pages. rewrite bind_app. apply elem_of_app. right.
        apply list_elem_of_bind. exists (o_ptr o', o_pages o'). split; [done|].
        apply list_elem_of_omap. exists o'. split; [done|]. unfold big_of. by rewrite Es'.
Qed.

(** A client allocates, frees what it holds, and writes in it. *)
Inductive heap_step : Heap * list Obj → Heap * list Obj → Prop :=
  | heap_step_alloc lsize lalign p h h' objs :
      req_ok lsize lalign → heap_alloc lsize lalign h = Ret (p, h') →
      heap_step (h, objs) (h', mkObj p lsize lalign :: objs)
  | heap_step_dealloc o h h' objs objs' :
      objs ≡ₚ o :: objs' → heap_dealloc (o_ptr o) (o_size o) (o_align o) h = Ret ((), h') →
      heap_step (h, objs) (h', objs')
  | heap_step_write o x w h objs :
      o ∈ objs → extent o x → is_Some (mem_of h !! x) →
      heap_step (h, objs) (with_mem h (<[x := w]> (mem_of h)), objs).

Lemma heap_write_inv region h objs o x w :
  objs_inv region h objs → o ∈ objs → extent o x → is_Some (mem_of h !! x) →
  objs_inv region (with_mem h (<[x := w]> (mem_of h))) objs.
Proof.
  intros [Hok (vs & outs & Hh & Hb & Hs)] Ho Hx Hm. split; [done|]. exists vs, outs. split; [|done].
  pose proof (extent_client_word region h objs vs outs Hok Hh Hb Hs o x Ho Hx) as Hcw.
  apply heap_pool_change with (outs := outs) (h := h); [done| |].
  - apply client_inv_frame; [apply (hi_client _ _ _ _ Hh)|by apply dom_insert_lookup_L|].
    intros fls Hreg y Hy. rewrite lookup_insert_ne; [done|]. intros <-.
    assert (Hpl : ∃ a, a ∈ out_pages (arena_outs vs ++ outs) ∧ a ≤ x < a + PG_SIZE).
    { destruct Hcw as [(j & v & c & Hv & Hc & Hxc)|(a & Ha & Hxa)].
      - destruct (live_page region h vs outs Hh j v c x Hv Hc Hxc) as (a & Ha & Hxa).
        exists a. split; [|lia]. by apply (arena_in_region _ _ _ _ (hi_client _ _ _ _ Hh) j v).
      - exists a. split; [|done]. unfold out_pages. rewrite bind_app. apply elem_of_app. by right. }
    destruct Hpl as (a & Ha & Hxa).
    by apply (held_not_pool _ _ _ _ fls a x (hi_client _ _ _ _ Hh) Hreg Ha Hxa).
  - intros i v y Hv. cbn. intros Hy. rewrite lookup_insert_ne; [done|]. intros <-.
    destruct (client_word_private region h vs outs Hh x i v x Hcw Hv) as [Hx1 Hx2].
    destruct Hy as [->|[Hy|(a & Ha & [E|E])]]; [done| |subst x; by apply (client_word_private region h vs outs Hh a i v a Hcw Hv)|subst x].
    + by apply (client_word_not_free region h vs outs Hh x i v).
    + apply (client_word_not_header region h vs outs Hh (a + 8) i v a Hcw Hv Ha). lia.
Qed.

Lemma heap_step_inv region c c' :
  objs_inv region c.1 c.2 → heap_step c c' → objs_inv region c'.1 c'.2.
Proof.
  intros Hi Hs. revert Hi.
  destruct Hs as [s a p h h' objs Hr E|o h h' objs objs' Hp E|o x w h objs Ho Hx Hm]; cbn; intros Hi.
  - destruct (heap_alloc_spec region h objs s a Hi Hr) as [[E'|[_ E']]|(p' & h1 & E' & _ & Hi' & _)];
      rewrite E in E'; by simplify_eq.
  - destruct (heap_dealloc_spec region h objs o objs' Hi Hp) as (h1 & E' & Hi' & _).
    rewrite E in E'. by simplify_eq.
  - by apply (heap_write_inv region h objs o).
Qed.

Lemma heap_steps_inv region c c' :
  rtc heap_step c c' → objs_inv region c.1 c.2 → objs_inv region c'.1 c'.2.
Proof. induction 1; eauto using heap_step_inv. Qed.

(** The heap before its first use: a page allocator nobody has used, and null
    free lists. *)
Record heap_start (region : list Z) (s : BuddyAllocator) : Prop := {
  hs_pool : client_inv pool_at region s [];
  hs_statics : statics_ok region;
  hs_heads : ∀ i, (i < 8)%nat → ba_mem s !! head_at i = Some 0;
}.

Lemma heap_new_inv region s : heap_start region s →
  ∃ h, heap_new s = Ret h ∧ objs_inv region h [] ∧
    heap_free h = 0 ∧ heap_allocated h = 0 ∧ heap_total h = 0.
Proof.
  intros [Hp Hst Hhd]. unfold heap_new. rewrite new_descs_eq. eexists. split; [reflexivity|].
  split; [|by vm_compute].
  split; [intros o Ho; by apply elem_of_nil in Ho|].
  exists (replicate 8 (mkView [] [] [])), []. split; [|split; [done|]].
  - split; cbn; [done|done|done|by vm_compute| |].
    + intros i v [-> Hi]%(lookup_replicate 8 (mkView [] [] [])). split; cbn.
      * split; [apply NoDup_singleton|]. exists 0. split; [by apply Hhd|done].
      * intros a Ha. by apply elem_of_nil in Ha.
      * intros a Ha. by apply elem_of_nil in Ha.
    + intros i v [-> Hi]%(lookup_replicate 8 (mkView [] [] [])). by unfold view_blocks.
  - intros i v [-> Hi]%(lookup_replicate 8 (mkView [] [] [])). done.
Qed.

(** C9: along every history of the kernel heap from its first use on, in which
    clients allocate, free what they hold and write in what they hold, any two
    live objects are disjoint and every live object can be freed without a
    panic.  An allocation either returns an address aligned as requested, leaving
    all live objects as they were, or panics because the pages are exhausted or
    the request is over the 256 pages the page allocator serves. *)
Theorem heap_reachable_safe (region : list Z) (s : BuddyAllocator) (h0 h : Heap) (objs : list Obj) :
  heap_start region s → heap_new s = Ret h0 → rtc heap_step (h0, []) (h, objs) →
  (∀ o1 o2 rest x, objs ≡ₚ o1 :: o2 :: rest → extent o1 x → ¬ extent o2 x) ∧
  (∀ o objs', objs ≡ₚ o :: objs' → ∃ h',
     heap_dealloc (o_ptr o) (o_size o) (o_align o) h = Ret ((), h') ∧ keeps objs' h h') ∧
  (∀ lsize lalign, req_ok lsize lalign →
     (heap_alloc lsize lalign h = Panic Unreachable ∨
      (256 * PG_SIZE < lsize ∧ heap_alloc lsize lalign h = Panic AssertFailed)) ∨
     ∃ p h', heap_alloc lsize lalign h = Ret (p, h') ∧ (lalign | p) ∧ keeps objs h h').
Proof.
  intros Hstart E0 Hsteps. destruct (heap_new_inv region s Hstart) as (h1 & E1 & Hi & _).
  rewrite E0 in E1. simplify_eq. apply (heap_steps_inv region) in Hsteps; [|done]. cbn in Hsteps.
  split_and!.
  - intros o1 o2 rest x. destruct Hsteps as [Hok (vs & outs & Hh & Hb & Hs)].
    by apply (live_disjoint region h objs vs outs).
  - intros o objs' Hp. destruct (heap_dealloc_spec region h objs o objs' Hsteps Hp) as (h' & ? & _ & ?). eauto.
  - intros lsize lalign Hr.
    destruct (heap_alloc_spec region h objs lsize lalign Hsteps Hr) as [?|(p & h' & ? & ? & _ & ?)]; eauto 6.
Qed.

(** [kalloc] of a layout and [kfree] of what it returned: the free lists
    hold the object's block again, so that the heap's invariant holds with the
    objects there were before, and none of them has changed.  A size-zero request
    gives the address 1 and changes nothing. *)
Theorem kalloc_kfree_correct (region : list Z) (h : Heap) (objs : list Obj) (lsize lalign : Z) :
  objs_inv region h objs → req_ok lsize lalign →
  kalloc 0 lalign h = Ret (1, h) ∧
  ((∃ p, kalloc lsize lalign h = Panic p) ∨
   ∃ p h' h'', kalloc lsize lalign h = Ret (p, h') ∧ kfree p lsize lalign h' = Ret ((), h'') ∧
     objs_inv region h'' objs ∧ keeps objs h h'').
Proof.
  intros Hi Hr. pose proof Hr as [Hs (j & Hj & Ej)].
  assert (Hlay : ∀ n, n ≤ 2 ^ 62 → layout_ok n lalign = Ret ()).
  { intros n Hn. unfold layout_ok. rewrite Ej, is_power_of_two_pow2 by lia.
    assert (2 ^ j ≤ 2 ^ 12) by (apply Z.pow_le_mono_r; lia).
    rewrite bool_decide_eq_true_2 by lia. done. }
  split; [unfold kalloc, heap_alloc; unmonad; by rewrite Hlay by lia|].
  unfold kalloc, kfree. unmonad. rewrite Hlay by lia.
  destruct (heap_alloc_spec region h objs lsize lalign Hi Hr) as [[E|[_ E]]|(p & h' & E & _ & Hi' & Hk)].
  1,2: left; rewrite E; eauto.
  right. destruct (heap_dealloc_spec region h' _ (mkObj p lsize lalign) objs Hi' ltac:(done))
    as (h'' & E' & Hi'' & Hk').
  exists p, h', h''. split_and!; [by rewrite E|done|done|].
  intros o x Ho Hx. rewrite (Hk' o x Ho Hx). by apply (Hk o).
Qed.
End malloc.

(** ** A concrete heap *)

(** Seven pages, with the statics of the heap above them. *)
#[export] Instance demo_layout : HeapLayout := {
  pool_at := demo_base;
  desc_at i := VM_BASE + 0x300000 + desc_bytes * Z.of_nat i;
  head_at i := VM_BASE + 0x200000 + 8 * Z.of_nat i;
}.

Definition demo_heads : list Z := (λ i, VM_BASE + 0x200000 + 8 * Z.of_nat i) <$> seq 0 8.
Definition heap_memory : memory := demo_memory ∪ zeroed demo_heads.

Definition demo_requests : outcome (Z * Z * Z) :=
  r ← insert_range demo_base demo_start demo_end (empty heap_memory) ;
  h0 ← heap_new r.2 ;
  a ← heap_alloc 24 8 h0 ;
  b ← heap_alloc 5000 4096 a.2 ;
  c ← heap_alloc 20 32 b.2 ;
  mret (a.1, b.1, c.1).

Lemma heap_memory_demo a v : demo_memory !! a = Some v → heap_memory !! a = Some v.
Proof. apply lookup_union_Some_l. Qed.

Lemma demo_heads_apart i : (i < 8)%nat →
  demo_memory !! (VM_BASE + 0x200000 + 8 * Z.of_nat i) = None ∧
  ¬ pool_word demo_base demo_region (VM_BASE + 0x200000 + 8 * Z.of_nat i) ∧
  heap_memory !! (VM_BASE + 0x200000 + 8 * Z.of_nat i) = Some 0.
Proof.
  intros Hi. pattern i. apply class_cases; [done|..]; cbv beta;
    (split_and!; [by vm_compute| |by vm_compute]);
    (intros [(k & E & Hk%elem_of_seqZ)%list_elem_of_fmap|(pg & Hpg & Hr)];
     [unfold demo_base in E; lia|]);
    rewrite demo_region_eq in Hpg; apply list_elem_of_fmap in Hpg as (q & -> & Hq);
    rewrite !elem_of_cons, elem_of_nil in Hq; rewrite PG_SIZE_pow2 in Hr; lia.
Qed.

Lemma demo_statics : statics_ok demo_region.
Proof.
  split; cbn.
  - unfold desc_bytes. intros; lia.
  - unfold desc_bytes, VM_BASE. intros; lia.
  - intros; lia.
  - intros i Hi Hin. destruct (demo_heads_apart i Hi) as (_ & Hn & _). apply Hn. by left.
  - intros i a Hi Ha Hr. destruct (demo_heads_apart i Hi) as (_ & Hn & _). apply Hn. right. eauto.
Qed.

Lemma demo_heap_start : ∃ s, insert_range demo_base demo_start demo_end (empty heap_memory) = Ret ((), s) ∧
  heap_start demo_region s.
Proof.
  assert (Hf : fresh demo_base heap_memory).
  { intros i Hi. apply heap_memory_demo. by apply boot_fresh. }
  assert (Hr : region_ok demo_base heap_memory demo_region).
  { destruct demo_region_ok as [Hnd Hm Hh Hr]. split; [exact Hnd| |exact Hh|exact Hr].
    intros a Ha k Hk. destruct (Hm a Ha k Hk) as [v Hv]. exists v. by apply heap_memory_demo. }
  destruct demo_args as (H0 & Hb & Hs & Hu).
  destruct (insert_range_client demo_base heap_memory demo_start demo_end) as (s & E & Hci & _);
    [exact Hf|exact H0|exact Hb|exact Hs|exact Hu|exact Hr|].
  exists s. split; [done|]. split; [done|apply demo_statics|]. intros i Hi. cbn.
  destruct (demo_heads_apart i Hi) as (_ & Hn & Hm).
  rewrite (insert_range_frame demo_base heap_memory demo_start demo_end s Hf H0 Hb Hs Hu Hr E); done.
Qed.

Definition demo_objs : list Obj :=
  [mkObj (VM_BASE + 8096) 20 32; mkObj (VM_BASE + 8192) 5000 4096; mkObj (VM_BASE + 8128) 24 8].

(** Two blocks of one arena and two pages. *)
Lemma demo_history : ∃ s h0 h, heap_start demo_region s ∧ heap_new s = Ret h0 ∧
  rtc heap_step (h0, []) (h, demo_objs).
Proof.
  destruct demo_heap_start as (s & E & Hs).
  assert (Ed : demo_requests = Ret ((VM_BASE + 8128), VM_BASE + 8192, (VM_BASE + 8096))) by (by vm_compute).
  unfold demo_requests in Ed. rewrite E in Ed. revert Ed. unfold mbind, outcome_bind. cbn [snd].
  destruct (heap_new s) as [h0|] eqn:E0; [|done].
  destruct (heap_alloc 24 8 h0) as [[a h1]|] eqn:E1; [|done]. cbn [snd].
  destruct (heap_alloc 5000 4096 h1) as [[b h2]|] eqn:E2; [|done]. cbn [snd].
  destruct (heap_alloc 20 32 h2) as [[c h3]|] eqn:E3; [|done]. intros [= -> -> ->].
  assert (Hrq : ∀ n k, 0 < n ≤ 2 ^ 62 → 0 ≤ k ≤ 12 → req_ok n (2 ^ k)) by (split; eauto).
  exists s, h0, h3. split; [done|]. split; [done|]. unfold demo_objs.
  eapply rtc_l; [apply heap_step_alloc; [apply (Hrq 24 3); lia|exact E1]|].
  eapply rtc_l; [apply heap_step_alloc; [apply (Hrq 5000 12); lia|exact E2]|].
  eapply rtc_l; [apply heap_step_alloc; [apply (Hrq 20 5); lia|exact E3]|]. apply rtc_refl.
Qed.

(** The two small blocks do not overlap, and the pages can be freed. *)
Lemma heap_reachable_safe_witness : ∃ s h0 h, heap_start demo_region s ∧ heap_new s = Ret h0 ∧
  rtc heap_step (h0, []) (h, demo_objs) ∧
  (∀ x, extent (mkObj (VM_BASE + 8096) 20 32) x → ¬ extent (mkObj (VM_BASE + 8192) 5000 4096) x) ∧
  ∃ h', heap_dealloc (VM_BASE + 8096) 20 32 h = Ret ((), h').
Proof.
  destruct demo_history as (s & h0 & h & Hs & E & Hst). exists s, h0, h.
  destruct (heap_reachable_safe demo_region s h0 h demo_objs Hs E Hst) as (H1 & H2 & _).
  split; [done|]. split; [done|]. split; [done|]. split.
  - intros x. by apply (H1 _ _ [mkObj (VM_BASE + 8128) 24 8] x).
  - destruct (H2 (mkObj (VM_BASE + 8096) 20 32) (tail demo_objs)) as (h' & E' & _); [done|]. by exists h'.
Defined.

Lemma kalloc_kfree_correct_witness : ∃ h, kalloc 0 64 h = Ret (1, h) ∧
  ((∃ p, kalloc 100 64 h = Panic p) ∨
   ∃ p h' h'', kalloc 100 64 h = Ret (p, h') ∧ kfree p 100 64 h' = Ret ((), h'') ∧
     objs_inv demo_region h'' [] ∧ keeps [] h h'').
Proof.
  destruct demo_heap_start as (s & _ & Hs). destruct (heap_new_inv demo_region s Hs) as (h & _ & Hi & _).
  exists h. apply (kalloc_kfree_correct demo_region h [] 100 64); [done|].
  split; [lia|]. by exists 6.
Defined.
