(* ===== verification/PageTable.v ===== *)
(** * Page tables

    [mem/pagetable.rs], [mem/pagetable/entry.rs] and the address translation of
    [mem.rs].  Tables are pages of the word memory; a table is known by the
    address of its first entry, and entries are words.  Pages come from the
    kernel heap through the interface [PageSource], so that the theorems here
    need only what [kalloc] and [kfree] of one page promise ([PageSourceLaws],
    discharged by [Malloc.v] at the end).  [PTEFlags] is a type of the [bitflags]
    crate and stays a parameter with the crate's documented operations. *)

From S2P Require Import Prelude Utils InMemList Palloc PallocClients Malloc.

(** ** The interfaces *)

(** The operations of a [bitflags!] type whose declared flags are the low eight
    bits. *)
Class Bitflags (F : Type) := {
  bits : F → Z;
  from_bits_truncate : Z → F;
  contains : F → F → bool;
  intersects : F → F → bool;
  fl_union : F → F → F;
  fl_set : F → F → bool → F;
}.

Class BitflagsLaws (F : Type) `{Bitflags F} := {
  bits_range f : 0 ≤ bits f < 256;
  bits_truncate n : bits (from_bits_truncate n) = Z.land n 255;
  contains_spec f g : contains f g = bool_decide (Z.land (bits f) (bits g) = bits g);
  intersects_spec f g : intersects f g = bool_decide (Z.land (bits f) (bits g) ≠ 0);
  bits_union f g : bits (fl_union f g) = Z.lor (bits f) (bits g);
  bits_set f g (b : bool) :
    bits (fl_set f g b) = (if b then Z.lor (bits f) (bits g) else Z.land (bits f) (Z.lnot (bits g)));
}.

(** Where page tables take their pages from, and the memory these are in. *)
Class PageSource (K : Type) := {
  ps_mem : K → memory;
  ps_set : memory → K → K;
  kalloc_page : M K Z; (* kalloc(PG_SIZE, PG_SIZE) *)
  kfree_page : Z → M K unit; (* kfree(page, PG_SIZE, PG_SIZE) *)
}.

(** [ps_held s T]: the state is sound and the pages [T] are the client's. *)
Class PageSourceLaws (K : Type) `{PageSource K} := {
  ps_held : K → gset Z → Prop;
  ps_mem_set m s : ps_mem (ps_set m s) = m;
  ps_set_set m m' s : ps_set m (ps_set m' s) = ps_set m s;
  ps_set_mem s : ps_set (ps_mem s) s = s;
  ps_page s T a : ps_held s T → a ∈ T →
    (PG_SIZE | a) ∧ VM_OFFSET ≤ a ∧ a + PG_SIZE ≤ 2 ^ 64 ∧ page_mapped (ps_mem s) a;
  ps_alloc s T : ps_held s T →
    (∃ p, kalloc_page s = Panic p ∧ p ≠ OutOfFuel) ∨
    ∃ a s', kalloc_page s = Ret (a, s') ∧ (a ∉ T) ∧ ps_held s' ({[a]} ∪ T) ∧
      ∀ b x, b ∈ T → b ≤ x < b + PG_SIZE → ps_mem s' !! x = ps_mem s !! x;
  ps_free s T a : ps_held s T → a ∈ T →
    ∃ s', kfree_page a s = Ret ((), s') ∧ ps_held s' (T ∖ {[a]}) ∧
      ∀ b x, b ∈ T → b ≠ a → b ≤ x < b + PG_SIZE → ps_mem s' !! x = ps_mem s !! x;
  ps_write s T a k v : ps_held s T → a ∈ T → 0 ≤ k < 512 →
    ps_held (ps_set (<[a + 8 * k := v]> (ps_mem s)) s) T;
}.

(** ** Entries *)

Definition PPN_MASK : Z := Z.shiftl 1 44 - 1.
Definition FLAG_SHIFT : Z := 10.
Definition NENTRY : Z := 512.
Definition PX_MASK : Z := NENTRY - 1.
Definition SV39_MODE : Z := Z.shiftl 8 60.

Section entry.
Context {F : Type} `{Bitflags F}.

Definition flag_V : F := from_bits_truncate 1.
Definition flag_R : F := from_bits_truncate 2.
Definition flag_W : F := from_bits_truncate 4.
Definition flag_X : F := from_bits_truncate 8.
Definition flag_U : F := from_bits_truncate 16.
Definition flag_G : F := from_bits_truncate 32.
Definition flag_A : F := from_bits_truncate 64.
Definition flag_D : F := from_bits_truncate 128.

(** [Entry::new]: at most 44 + 10 bits, so the shift drops nothing. *)
Definition entry_new (pa : PhysAddr) (flags : F) : Z :=
  Z.lor (Z.shiftl (Z.land (Z.shiftr (pa_value pa) PG_SHIFT) PPN_MASK) FLAG_SHIFT) (bits flags).
Definition entry_flag (e : Z) : F := from_bits_truncate e.
Definition entry_ppn (e : Z) : Z := Z.land (Z.shiftr e FLAG_SHIFT) PPN_MASK.
Definition entry_pa (e : Z) : PhysAddr := from_pa (Z.shiftl (entry_ppn e) PG_SHIFT).
Definition is_valid (e : Z) : bool := contains (entry_flag e) flag_V.
Definition is_global (e : Z) : bool := contains (entry_flag e) flag_G.
Definition is_rwable (e : Z) : bool := contains (entry_flag e) (fl_union flag_R flag_W).
Definition is_user (e : Z) : bool := contains (entry_flag e) flag_U.
Definition is_dirty (e : Z) : bool := contains (entry_flag e) flag_D.
Definition is_executable (e : Z) : bool := contains (entry_flag e) flag_X.
Definition is_accessed (e : Z) : bool := contains (entry_flag e) flag_A.
Definition set_invalid (e : Z) : Z := Z.land e (bnot 64 (bits flag_V)).
Definition set_unaccessed (e : Z) : Z := Z.land e (bnot 64 (bits flag_A)).
Definition is_leaf (e : Z) : bool :=
  intersects (entry_flag e) (fl_union (fl_union flag_R flag_W) flag_X).
End entry.

(** ** Tables *)

Section pagetable.
Context {K : Type} `{PageSource K} (F : Type) `{Bitflags F}.

Definition ps_read (a : Z) : M K Z := λ s,
  match ps_mem s !! a with Some v => Ret (v, s) | None => Panic MemFault end.
Definition ps_store (a v : Z) : M K unit := λ s,
  match ps_mem s !! a with
  | Some _ => Ret ((), ps_set (<[a := v]> (ps_mem s)) s)
  | None => Panic MemFault
  end.

(** [self.entries[index]], with the bounds check of the index. *)
Definition entry_at (pt index : Z) : M K Z :=
  if bool_decide (index < NENTRY) then ps_read (pt + 8 * index) else fail IndexOutOfBounds.
Definition set_entry (pt index e : Z) : M K unit :=
  if bool_decide (index < NENTRY) then ps_store (pt + 8 * index) e else fail IndexOutOfBounds.

(** [PageTable::from_raw] *)
Definition from_raw (entries : Z) : M K Z :=
  lift (assert_ (is_aligned entries)) ;; mret entries.

(** [PageTable::new] *)
Definition pt_new : M K Z :=
  page ← kalloc_page ;
  for_each (seqZ 0 512) (λ k, ps_store (page + 8 * k) 0) ;;
  from_raw page.

Definition px (level va : Z) : Z := Z.land (Z.shiftr va (PG_SHIFT + 9 * level)) PX_MASK.

(** [entries.get(index).filter(is_valid).map(from_raw)] *)
Definition walk (pt index : Z) : M K (option Z) :=
  if bool_decide (index < NENTRY) then
    e ← ps_read (pt + 8 * index) ;
    if is_valid (F := F) e then
      t ← from_raw (into_va (entry_pa e)) ; mret (Some t)
    else mret None
  else mret None.

Definition walk_or_create (pt index : Z) (is_global : bool) : M K Z :=
  let flag := fl_set flag_V flag_G is_global in
  t ← walk pt index ;
  match t with
  | Some table => mret table
  | None =>
      table ← pt_new ;
      pa ← lift (from_va table) ;
      set_entry pt index (entry_new (F := F) pa flag) ;;
      mret table
  end.

(** One page of [map]. *)
Definition map_page (root pa va : Z) (flag : F) : M K unit :=
  l1_table ← walk_or_create root (px 2 va) (contains flag flag_G) ;
  l0_table ← walk_or_create l1_table (px 1 va) (contains flag flag_G) ;
  set_entry l0_table (px 0 va) (entry_new (from_pa pa) flag).

Fixpoint map_loop (fuel : nat) (root pa va pa_end : Z) (flag : F) : M K unit :=
  match fuel with
  | O => fail OutOfFuel
  | S fuel =>
      if bool_decide (pa < pa_end) then
        map_page root pa va flag ;;
        map_loop fuel root (wrap64 (pa + PG_SIZE)) (wrap64 (va + PG_SIZE)) pa_end flag
      else mret ()
  end.

(** Every iteration advances [pa] by a page. *)
Definition map_fuel (size : Z) : nat := S (Z.to_nat ((size + PG_SIZE - 1) / PG_SIZE)).

(** [PageTable::map] *)
Definition map (root : Z) (pa : PhysAddr) (va size : Z) (flag : F) : M K unit :=
  lift (assert_ (is_aligned pa && is_aligned va)) ;;
  let pa_end := wrap64 (pa_value pa + size) in
  map_loop (map_fuel size) root (pa_value pa) va pa_end flag.

(** [PageTable::get_pte] *)
Definition get_pte (root va : Z) : M K (option Z) :=
  t1 ← walk root (px 2 va) ;
  match t1 with
  | None => mret None
  | Some l1_table =>
      t0 ← walk l1_table (px 1 va) ;
      match t0 with
      | None => mret None
      | Some l0_table => e ← entry_at l0_table (px 0 va) ; mret (Some e)
      end
  end.

(** The value [activate] writes to [satp], and [effective_pagetable] back. *)
Definition satp_of (root : Z) : outcome Z :=
  pa ← from_va root ; mret (Z.lor (pa_ppn pa) SV39_MODE).
Definition effective_pagetable (satp : Z) : M K Z :=
  let ppn := Z.land satp PPN_MASK in
  from_raw (into_va (from_pa (Z.shiftl ppn PG_SHIFT))).

(** [copy_from_slice] between two tables, and [KernelPgTable::clone]. *)
Definition copy_entries (src dst : Z) : M K unit :=
  for_each (seqZ 0 NENTRY) (λ k, e ← ps_read (src + 8 * k) ; ps_store (dst + 8 * k) e).
Definition pt_clone (kernel : Z) : M K Z :=
  other ← pt_new ; copy_entries kernel other ;; mret other.

(** [KernelPgTable::init_inner]; [etext] is the linker's symbol. *)
Definition init_inner (etext ram_size : Z) : M K Z :=
  root ← pt_new ;
  let rx := fl_union (fl_union (fl_union flag_R flag_X) flag_G) flag_V in
  let rw := fl_union (fl_union (fl_union flag_R flag_W) flag_G) flag_V in
  let kr_base := wrap64 (KERN_BASE + VM_OFFSET) in
  let kr_end := wrap64 (VM_BASE + ram_size) in
  map root (from_pa KERN_BASE) kr_base (wrap64 (etext - kr_base)) rx ;;
  epa ← lift (from_va etext) ;
  map root epa etext (wrap64 (kr_end - etext)) rw ;;
  plic ← lift (from_va PLIC_BASE) ;
  map root plic PLIC_BASE 0x400000 rw ;;
  mmio ← lift (from_va MMIO_BASE) ;
  map root mmio MMIO_BASE PG_SIZE rw ;;
  lift (satp_of root) ;;
  mret root.

(** [mem::translate], for the table of the current thread. *)
Definition in_same_page (va1 va2 : Z) : bool := bool_decide (va1 / PG_SIZE = va2 / PG_SIZE).
Definition translate (root va len : Z) : M K (option Z) :=
  if in_kernel_space va then mret (Some va)
  else if negb (in_same_page va (wrap64 (wrap64 (va + len) - 1))) then mret None
  else
    let pageoff := Z.land va 0xFFF in
    pte ← get_pte root va ;
    match pte with
    | None => mret None
    | Some e => mret (Some (Z.lor (into_va (entry_pa e)) pageoff))
    end.
End pagetable.

(** ** Bits of entries *)

Section entry_lemmas.
Context {F : Type} `{BitflagsLaws F}.
Implicit Types (f : F).

Lemma entry_new_val pa f :
  entry_new pa f = pa_value pa / 2 ^ 12 mod 2 ^ 44 * 2 ^ 10 + bits f.
Proof.
  unfold entry_new, FLAG_SHIFT. pose proof (bits_range f).
  rewrite lor_shiftl_small by lia. do 2 f_equal.
  change PPN_MASK with (Z.ones 44). rewrite Z.land_ones by lia.
  by rewrite Z.shiftr_div_pow2.
Qed.

Lemma entry_ppn_val q b : 0 ≤ b < 2 ^ 10 → 0 ≤ q < 2 ^ 44 → entry_ppn (q * 2 ^ 10 + b) = q.
Proof.
  intros Hb Hq. unfold entry_ppn. change PPN_MASK with (Z.ones 44). rewrite Z.land_ones by lia.
  unfold FLAG_SHIFT. rewrite Z.shiftr_div_pow2, Z.div_add_l, Z.div_small, Z.add_0_r by lia.
  by apply Z.mod_small.
Qed.

Lemma entry_pa_new pa f : 0 ≤ pa_value pa < 2 ^ 56 →
  pa_value (entry_pa (entry_new pa f)) = pa_value pa / 2 ^ 12 * 2 ^ 12.
Proof.
  intros Hp. pose proof (bits_range f). rewrite entry_new_val.
  assert (0 ≤ pa_value pa / 2 ^ 12 < 2 ^ 44).
  { split; [apply Z.div_pos; lia|]. apply Z.div_lt_upper_bound; lia. }
  unfold entry_pa. rewrite (Z.mod_small _ (2 ^ 44)), entry_ppn_val by lia. cbn [pa_value from_pa].
  by rewrite Z.shiftl_mul_pow2.
Qed.

Lemma entry_flag_new pa f : bits (entry_flag (F := F) (entry_new pa f)) = bits f.
Proof.
  unfold entry_flag. rewrite bits_truncate. change 255 with (Z.ones 8). rewrite Z.land_ones by lia.
  pose proof (bits_range f). rewrite entry_new_val.
  replace (pa_value pa / 2 ^ 12 mod 2 ^ 44 * 2 ^ 10) with (pa_value pa / 2 ^ 12 mod 2 ^ 44 * 4 * 2 ^ 8) by lia.
  rewrite Z.add_comm, Z_mod_plus_full. by apply Z.mod_small.
Qed.

(** A one-bit flag is a bit of the entry. *)
Lemma contains_bit e k : 0 ≤ k < 8 →
  contains (entry_flag (F := F) e) (from_bits_truncate (2 ^ k)) = Z.testbit e k.
Proof.
  intros Hk. rewrite contains_spec. unfold entry_flag. rewrite !bits_truncate.
  assert (E : Z.land (2 ^ k) 255 = 2 ^ k).
  { change 255 with (Z.ones 8). rewrite Z.land_ones by lia. apply Z.mod_small.
    split; [lia|]. apply Z.pow_lt_mono_r; lia. }
  rewrite E. destruct (Z.testbit e k) eqn:Eb.
  - apply bool_decide_eq_true_2. apply Z.bits_inj'. intros j Hj.
    rewrite !Z.land_spec, Z.pow2_bits_eqb by lia. destruct (Z.eqb_spec k j) as [<-|]; [|apply andb_false_r].
    rewrite Eb. change 255 with (Z.ones 8). by rewrite Z.ones_spec_low by lia.
  - apply bool_decide_eq_false_2. intros Hx.
    assert (Ht : Z.testbit (Z.land (Z.land e 255) (2 ^ k)) k = true).
    { rewrite Hx, Z.pow2_bits_eqb by lia. by apply Z.eqb_refl. }
    by rewrite !Z.land_spec, Eb in Ht.
Qed.

Lemma contains_union f g h : contains f (fl_union g h) = contains f g && contains f h.
Proof.
  rewrite !contains_spec, bits_union. apply eq_bool_prop_intro. rewrite andb_True, !bool_decide_spec.
  assert (E : ∀ x y, Z.land x y = y ↔ ∀ n, 0 ≤ n → Z.testbit y n = true → Z.testbit x n = true).
  { intros x y. split.
    - intros <- n Hn. rewrite Z.land_spec. by intros [? ?]%andb_true_iff.
    - intros Hxy. apply Z.bits_inj'. intros n Hn. rewrite Z.land_spec.
      destruct (Z.testbit y n) eqn:Ey; [by rewrite Hxy|apply andb_false_r]. }
  rewrite !E. setoid_rewrite Z.lor_spec. setoid_rewrite orb_true_iff. naive_solver.
Qed.

Lemma intersects_union f g h : intersects f (fl_union g h) = intersects f g || intersects f h.
Proof.
  rewrite !intersects_spec, bits_union, Z.land_lor_distr_r.
  apply eq_bool_prop_intro. rewrite orb_True, !bool_decide_spec, Z.lor_eq_0_iff.
  destruct (decide (Z.land (bits f) (bits g) = 0)); tauto.
Qed.

Lemma intersects_bit e k : 0 ≤ k < 8 →
  intersects (entry_flag (F := F) e) (from_bits_truncate (2 ^ k)) = Z.testbit e k.
Proof.
  intros Hk. rewrite <- (contains_bit e k Hk), contains_spec, intersects_spec.
  unfold entry_flag. rewrite !bits_truncate.
  assert (E : Z.land (2 ^ k) 255 = 2 ^ k).
  { change 255 with (Z.ones 8). rewrite Z.land_ones by lia. apply Z.mod_small.
    split; [lia|]. apply Z.pow_lt_mono_r; lia. }
  rewrite E. apply bool_decide_ext.
  assert (D : ∀ x, Z.land x (2 ^ k) = if Z.testbit x k then 2 ^ k else 0).
  { intros x. apply Z.bits_inj'. intros n Hn. rewrite Z.land_spec, Z.pow2_bits_eqb by lia.
    destruct (Z.eqb_spec k n) as [<-|Hne].
    - destruct (Z.testbit x k); [by rewrite Z.pow2_bits_true by lia|by rewrite Z.bits_0].
    - rewrite andb_false_r. destruct (Z.testbit x k); [|by rewrite Z.bits_0].
      rewrite Z.pow2_bits_false; done. }
  rewrite D. pose proof (pow2_pos k). destruct (Z.testbit (Z.land e 255) k); lia.
Qed.

(** Clearing the flag of bit [k] of an entry. *)
Lemma clear_bit_spec e k j : 0 ≤ k < 8 → 0 ≤ j < 64 →
  Z.testbit (Z.land e (bnot 64 (bits (from_bits_truncate (F := F) (2 ^ k))))) j =
    Z.testbit e j && negb (j =? k).
Proof.
  intros Hk Hj. rewrite bits_truncate. change 255 with (Z.ones 8).
  rewrite (Z.land_ones (2 ^ k)) by lia.
  rewrite (Z.mod_small (2 ^ k)) by (split; [lia|apply Z.pow_lt_mono_r; lia]).
  unfold bnot, wrap. rewrite Z.land_spec, Z.mod_pow2_bits_low, Z.lnot_spec, Z.pow2_bits_eqb by lia.
  by rewrite Z.eqb_sym.
Qed.

Lemma entry_pa_clear e k : 0 ≤ k < 8 →
  entry_pa (Z.land e (bnot 64 (bits (from_bits_truncate (F := F) (2 ^ k))))) = entry_pa e.
Proof.
  intros Hk. unfold entry_pa. f_equal. f_equal. unfold entry_ppn, FLAG_SHIFT.
  change PPN_MASK with (Z.ones 44). apply Z.bits_inj'. intros n Hn.
  rewrite !Z.land_spec, !Z.shiftr_spec by lia. destruct (decide (n < 44)).
  - rewrite clear_bit_spec by lia. destruct (Z.eqb_spec (n + 10) k); [lia|]. by rewrite andb_true_r.
  - rewrite Z.ones_spec_high by lia. by rewrite !andb_false_r.
Qed.

Lemma is_valid_bit e : is_valid (F := F) e = Z.testbit e 0.
Proof. apply (contains_bit e 0). lia. Qed.
Lemma is_global_bit e : is_global (F := F) e = Z.testbit e 5.
Proof. apply (contains_bit e 5). lia. Qed.

Lemma is_valid_new pa f : is_valid (F := F) (entry_new pa f) = Z.testbit (bits f) 0.
Proof.
  rewrite is_valid_bit, <- (entry_flag_new pa f). unfold entry_flag. rewrite bits_truncate, Z.land_spec.
  by rewrite andb_true_r.
Qed.

Lemma is_valid_0 : is_valid (F := F) 0 = false.
Proof. rewrite is_valid_bit. apply Z.bits_0. Qed.

(** The flags of an intermediate entry make it valid. *)
Lemma table_flag_valid (g : bool) : Z.testbit (bits (fl_set (F := F) flag_V flag_G g)) 0 = true.
Proof.
  rewrite bits_set. unfold flag_V, flag_G. rewrite !bits_truncate.
  destruct g; by vm_compute.
Qed.

(** The tests of a new entry read its flags. *)
Lemma is_global_new pa f : is_global (F := F) (entry_new pa f) = Z.testbit (bits f) 5.
Proof.
  etrans; [apply (contains_bit _ 5); lia|]. rewrite <-(entry_flag_new pa f).
  unfold entry_flag. rewrite bits_truncate, Z.land_spec. by rewrite andb_true_r.
Qed.

Lemma is_leaf_new pa f : is_leaf (F := F) (entry_new pa f) =
  Z.testbit (bits f) 1 || Z.testbit (bits f) 2 || Z.testbit (bits f) 3.
Proof.
  unfold is_leaf. rewrite !intersects_union.
  rewrite (intersects_bit _ 1 ltac:(lia) : intersects _ flag_R = _),
    (intersects_bit _ 2 ltac:(lia) : intersects _ flag_W = _),
    (intersects_bit _ 3 ltac:(lia) : intersects _ flag_X = _).
  rewrite <-(entry_flag_new pa f). unfold entry_flag. by rewrite bits_truncate, !Z.land_spec, !andb_true_r.
Qed.

Lemma contains_G f : contains f flag_G = Z.testbit (bits f) 5.
Proof.
  rewrite contains_spec. assert (Eg : bits (F := F) flag_G = 2 ^ 5) by (unfold flag_G; by rewrite bits_truncate).
  rewrite Eg.
  destruct (Z.testbit (bits f) 5) eqn:Eb.
  - apply bool_decide_eq_true_2, Z.bits_inj'. intros j Hj. rewrite Z.land_spec, Z.pow2_bits_eqb by lia.
    destruct (Z.eqb_spec 5 j) as [<-|]; [by rewrite Eb|apply andb_false_r].
  - apply bool_decide_eq_false_2. intros Hx. apply (f_equal (λ x, Z.testbit x 5)) in Hx.
    by rewrite Z.land_spec, Eb in Hx.
Qed.

(** An intermediate entry is no leaf, and global when asked to be. *)
Lemma table_flag_tests pa (g : bool) :
  is_leaf (F := F) (entry_new pa (fl_set (F := F) flag_V flag_G g)) = false ∧
  is_global (F := F) (entry_new pa (fl_set (F := F) flag_V flag_G g)) = g.
Proof.
  rewrite is_leaf_new, is_global_new, bits_set. unfold flag_V, flag_G. rewrite !bits_truncate.
  destruct g; by vm_compute.
Qed.
End entry_lemmas.

(** ** Page numbers *)

(** The three indices of a virtual address. *)
Definition vpn (va : Z) : Z := va / 2 ^ 12 mod 2 ^ 27.

Lemma px_div level va : 0 ≤ level → px level va = va / 2 ^ (12 + 9 * level) mod 2 ^ 9.
Proof.
  intros. unfold px, PG_SHIFT. change PX_MASK with (Z.ones 9).
  by rewrite Z.land_ones, Z.shiftr_div_pow2 by lia.
Qed.

Lemma px_range level va : 0 ≤ level → 0 ≤ px level va < 512.
Proof. intros. rewrite px_div by done. apply (Z.mod_pos_bound _ (2 ^ 9)). lia. Qed.

Lemma vpn_px va : vpn va = px 2 va * 2 ^ 18 + px 1 va * 2 ^ 9 + px 0 va.
Proof.
  rewrite !px_div by lia. unfold vpn.
  change (12 + 9 * 2) with (12 + 18). change (12 + 9 * 1) with (12 + 9). change (12 + 9 * 0) with 12.
  rewrite !Z.pow_add_r, <- !Z.div_div by lia. set (q := va / 2 ^ 12).
  replace (2 ^ 27) with (2 ^ 9 * (2 ^ 9 * 2 ^ 9)) by done.
  rewrite Z.rem_mul_r by lia. rewrite (Z.rem_mul_r (q / 2 ^ 9)) by lia.
  rewrite Z.div_div by lia. change (2 ^ 9 * 2 ^ 9) with (2 ^ 18). lia.
Qed.

Lemma vpn_inj va va' :
  vpn va = vpn va' ↔ px 2 va = px 2 va' ∧ px 1 va = px 1 va' ∧ px 0 va = px 0 va'.
Proof.
  rewrite !vpn_px.
  pose proof (px_range 0 va). pose proof (px_range 0 va'). pose proof (px_range 1 va).
  pose proof (px_range 1 va'). pose proof (px_range 2 va). pose proof (px_range 2 va'). lia.
Qed.

(** ** The tree of tables *)

Section tree.
Context {K : Type} `{PageSourceLaws K} {F : Type} `{BitflagsLaws F}.
Implicit Types (s : K) (f : F).

(** [T] maps the paths of the tree below [root] (lists of at most two indices)
    to the addresses of their tables. *)
Record pt_tree (m : memory) (T : gmap (list Z) Z) (root : Z) : Prop := {
  pt_root : T !! [] = Some root;
  pt_inj : ∀ p q a, T !! p = Some a → T !! q = Some a → p = q;
  pt_parent : ∀ p i b, T !! (p ++ [i]) = Some b → is_Some (T !! p);
  pt_child : ∀ p a i, T !! p = Some a → (length p < 2)%nat → 0 ≤ i < 512 →
    ∃ e, m !! (a + 8 * i) = Some e ∧
      T !! (p ++ [i]) = if is_valid (F := F) e then Some (into_va (entry_pa e)) else None;
  pt_depth : ∀ p a, T !! p = Some a → (length p ≤ 2)%nat ∧ Forall (λ i, 0 ≤ i < 512) p;
}.

(** Its tables are pages the kernel holds for it, among others. *)
Record pt_inv (s : K) (T : gmap (list Z) Z) (root : Z) (held : gset Z) : Prop := {
  pi_held : ps_held s held;
  pi_tree : pt_tree (ps_mem s) T root;
  pi_tables : ∀ p a, T !! p = Some a → a ∈ held;
}.

(** The entry for [va], read off the tree. *)
Definition leaf (s : K) (T : gmap (list Z) Z) (va : Z) : option Z :=
  l0 ← T !! [px 2 va; px 1 va] ; ps_mem s !! (l0 + 8 * px 0 va).

Lemma ps_read_spec s held a k : ps_held s held → a ∈ held → 0 ≤ k < 512 →
  ∃ e, ps_mem s !! (a + 8 * k) = Some e ∧ ps_read (a + 8 * k) s = Ret (e, s).
Proof.
  intros Hh Ha Hk. destruct (ps_page s held a Hh Ha) as (_ & _ & _ & Hm).
  destruct (Hm k Hk) as [e He]. exists e. unfold ps_read. by rewrite He.
Qed.

Lemma ps_store_spec s held a k v : ps_held s held → a ∈ held → 0 ≤ k < 512 →
  ps_store (a + 8 * k) v s = Ret ((), ps_set (<[a + 8 * k := v]> (ps_mem s)) s).
Proof.
  intros Hh Ha Hk. destruct (ps_page s held a Hh Ha) as (_ & _ & _ & Hm).
  destruct (Hm k Hk) as [e He]. unfold ps_store. by rewrite He.
Qed.

(** Slots of different pages, or different slots, are different words. *)
Lemma slot_inj s held a b i j : ps_held s held → a ∈ held → b ∈ held →
  0 ≤ i < 512 → 0 ≤ j < 512 → a + 8 * i = b + 8 * j → a = b ∧ i = j.
Proof.
  intros Hh Ha Hb Hi Hj E.
  destruct (ps_page s held a Hh Ha) as ([q ->] & _), (ps_page s held b Hh Hb) as ([q' ->] & _).
  rewrite PG_SIZE_pow2 in *. assert (q = q') as -> by lia. lia.
Qed.

Lemma from_raw_spec s (a : Z) : (PG_SIZE | a) → from_raw (K := K) a s = Ret (a, s).
Proof.
  intros Ha. unfold from_raw. unmonad.
  assert (E : is_aligned a = true) by (apply is_aligned_usize, Z.mod_divide; [by rewrite PG_SIZE_pow2|done]).
  by rewrite E.
Qed.

Lemma walk_spec s T root held p a i :
  pt_inv s T root held → T !! p = Some a → (length p < 2)%nat → 0 ≤ i < 512 →
  walk F a i s = Ret (T !! (p ++ [i]), s).
Proof.
  intros [Hh Ht Hin] Hp Hl Hi. unfold walk. rewrite bool_decide_eq_true_2 by (unfold NENTRY; lia).
  destruct (pt_child _ _ _ Ht p a i Hp Hl Hi) as (e & He & Hc).
  destruct (ps_read_spec s held a i Hh (Hin _ _ Hp) Hi) as (e' & He' & Er).
  rewrite He in He'. simplify_eq. unmonad. rewrite Er.
  destruct (is_valid (F := F) e') eqn:Ev; [|by rewrite Hc].
  destruct (ps_page s held _ Hh (Hin _ _ Hc)) as (Hal & _).
  rewrite from_raw_spec by done. by rewrite Hc.
Qed.

Lemma get_pte_spec s T root held va :
  pt_inv s T root held → get_pte F root va s = Ret (leaf s T va, s).
Proof.
  intros Hpt. unfold get_pte, leaf. unmonad.
  rewrite (walk_spec s T root held [] root) by (done || apply (pt_root _ _ _ (pi_tree _ _ _ _ Hpt)) || (cbn; lia) || by apply px_range).
  cbn [app]. destruct (T !! [px 2 va]) as [l1|] eqn:E1.
  2:{ destruct (T !! [px 2 va; px 1 va]) eqn:E0; [|done].
      destruct (pt_parent _ _ _ (pi_tree _ _ _ _ Hpt) [px 2 va] (px 1 va) z E0) as [? ?]. congruence. }
  rewrite (walk_spec s T root held [px 2 va] l1) by (done || (cbn; lia) || by apply px_range).
  cbn [app]. destruct (T !! [px 2 va; px 1 va]) as [l0|] eqn:E0; [|done].
  unfold entry_at. pose proof (px_range 0 va ltac:(lia)).
  rewrite bool_decide_eq_true_2 by (unfold NENTRY; lia).
  destruct (ps_read_spec s held l0 (px 0 va) (pi_held _ _ _ _ Hpt) (pi_tables _ _ _ _ Hpt _ _ E0))
    as (e & He & ->); [done|]. unfold mbind, option_bind. by rewrite He.
Qed.

(** The entry for [va] if it is valid. *)
Definition vleaf (s : K) (T : gmap (list Z) Z) (va : Z) : option Z :=
  e ← leaf s T va ; if is_valid (F := F) e then Some e else None.

(** [s'] keeps the words of the pages [held], except those [P] allows. *)
Definition keeps_words (s s' : K) (held : gset Z) (P : Z → Z → Prop) : Prop :=
  ∀ a k, a ∈ held → 0 ≤ k < 512 → ¬ P a k → ps_mem s' !! (a + 8 * k) = ps_mem s !! (a + 8 * k).

Lemma from_va_page s held a : ps_held s held → a ∈ held →
  from_va a = Ret (mkPhysAddr (a - VM_OFFSET)) ∧ 0 ≤ a - VM_OFFSET < 2 ^ 38 ∧
  (2 ^ 12 | a - VM_OFFSET).
Proof.
  intros Hh Ha. destruct (ps_page s held a Hh Ha) as (Hal & Hlo & Hhi & _).
  rewrite VM_OFFSET_mask, PG_SIZE_pow2 in *.
  assert (Hr : is_usize a) by (unfold in_range; lia).
  split; [|split; [lia|]].
  - unfold from_va. rewrite (proj2 (in_kernel_space_iff a Hr)) by (rewrite VM_OFFSET_mask; lia).
    unmonad. cbn. rewrite VM_OFFSET_mask. rewrite wrap_small; [done|]. unfold in_range. lia.
  - apply Z.divide_sub_r; [done|]. by exists (2 ^ 52 - 2 ^ 26).
Qed.

(** An entry made for a table page leads back to it. *)
Lemma entry_of_page s held a f : ps_held s held → a ∈ held →
  into_va (entry_pa (entry_new (F := F) (mkPhysAddr (a - VM_OFFSET)) f)) = a.
Proof.
  intros Hh Ha. destruct (from_va_page s held a Hh Ha) as (_ & Hr & [q Hq]).
  destruct (ps_page s held a Hh Ha) as (_ & _ & Hhi & _). rewrite PG_SIZE_pow2 in Hhi.
  unfold into_va. rewrite entry_pa_new by (cbn [pa_value]; lia). cbn [pa_value].
  rewrite Hq, Z.div_mul by lia. rewrite <- Hq. rewrite wrap_small by (unfold in_range; rewrite VM_OFFSET_mask in *; lia).
  lia.
Qed.

Lemma zero_loop_spec a n : ∀ s held j, ps_held s held → a ∈ held → 0 ≤ j → j + Z.of_nat n ≤ 512 →
  ∃ s', for_each (seqZ j (Z.of_nat n)) (λ k, ps_store (a + 8 * k) 0) s = Ret ((), s') ∧
    ps_held s' held ∧ (∀ k, j ≤ k < j + Z.of_nat n → ps_mem s' !! (a + 8 * k) = Some 0) ∧
    (∀ x, (∀ k, j ≤ k < j + Z.of_nat n → x ≠ a + 8 * k) → ps_mem s' !! x = ps_mem s !! x).
Proof.
  induction n as [|n IH]; intros s held j Hh Ha Hj Hn.
  { exists s. split_and!; [done|done|intros; lia|done]. }
  rewrite seqZ_cons by lia. replace (Z.pred (Z.of_nat (S n))) with (Z.of_nat n) by lia.
  cbn [for_each]. unmonad. rewrite (ps_store_spec s held a j) by (done || lia).
  set (s1 := ps_set _ _). destruct (IH s1 held (Z.succ j)) as (s' & E & Hh' & Hz & Hf);
    [by apply ps_write; try lia|done|lia|lia|].
  exists s'. split; [exact E|]. split; [done|]. split.
  - intros k Hk. destruct (decide (k = j)) as [->|]; [|apply Hz; lia].
    rewrite Hf by (intros; lia). unfold s1. by rewrite ps_mem_set, lookup_insert_eq.
  - intros x Hx. rewrite Hf by (intros; apply Hx; lia). unfold s1.
    rewrite ps_mem_set, lookup_insert_ne; [done|]. apply not_eq_sym, Hx. lia.
Qed.

Lemma pt_new_spec s held : ps_held s held →
  (∃ p, pt_new s = Panic p ∧ p ≠ OutOfFuel) ∨
  ∃ a s', pt_new s = Ret (a, s') ∧ (a ∉ held) ∧ ps_held s' ({[a]} ∪ held) ∧
    (∀ k, 0 ≤ k < 512 → ps_mem s' !! (a + 8 * k) = Some 0) ∧
    keeps_words s s' held (λ _ _, False).
Proof.
  intros Hh. unfold pt_new. unmonad.
  destruct (ps_alloc s held Hh) as [(p & -> & Hpn)|(a & s1 & -> & Ha & Hh1 & Hk)]; [left; eauto|right].
  assert (Hin : a ∈ {[a]} ∪ held) by set_solver.
  destruct (zero_loop_spec a 512 s1 _ 0 Hh1 Hin) as (s2 & E & Hh2 & Hz & Hf); [lia|lia|].
  change (Z.of_nat 512) with 512 in *. unfold mbind, M_bind in E. rewrite E.
  rewrite from_raw_spec by (by apply (ps_page s2 _ a Hh2)).
  exists a, s2. split_and!; [done|done|done|intros; apply Hz; lia|].
  intros b k Hb Hkr _. rewrite Hf.
  - apply (Hk b); [done|]. rewrite PG_SIZE_pow2. lia.
  - intros j Hj E'. destruct (slot_inj s2 ({[a]} ∪ held) a b j k) as [-> _];
      [exact Hh2|exact Hin|apply elem_of_union; by right|lia|done|lia|done].
Qed.

Lemma snoc_inj {A} (p q : list A) i j : p ++ [i] = q ++ [j] → p = q ∧ i = j.
Proof. apply app_inj_tail. Qed.

(** The tree with a fresh table hung at slot [i] of the table at [p]. *)
Lemma tree_extend (m m' : memory) T root p a i b e :
  pt_tree m T root → T !! p = Some a → (length p < 2)%nat → 0 ≤ i < 512 →
  T !! (p ++ [i]) = None → (∀ q c, T !! q = Some c → c ≠ b) →
  m' !! (a + 8 * i) = Some e → is_valid (F := F) e = true → into_va (entry_pa e) = b →
  (∀ k, 0 ≤ k < 512 → m' !! (b + 8 * k) = Some 0) →
  (∀ q c k, T !! q = Some c → 0 ≤ k < 512 → (q ≠ p ∨ k ≠ i) → m' !! (c + 8 * k) = m !! (c + 8 * k)) →
  pt_tree m' (<[p ++ [i] := b]> T) root.
Proof.
  intros [Hr Hinj Hpar Hch Hdep] Hp Hl Hi Hnone Hb He Hv Hva Hz Hk. split.
  - rewrite lookup_insert_ne; [done|]. by destruct p.
  - intros q1 q2 c [[<- <-]|[Hn1 HT1]]%lookup_insert_Some [[<- E]|[Hn2 HT2]]%lookup_insert_Some; [done| | |].
    + by destruct (Hb q2 b).
    + subst c. by destruct (Hb q1 b).
    + eauto.
  - intros q j c [[E <-]|[Hn1 HT1]]%lookup_insert_Some.
    + apply snoc_inj in E as [<- <-]. rewrite lookup_insert_ne by (intros E; apply (f_equal length) in E; rewrite length_app in E; cbn in E; lia).
      eauto.
    + destruct (Hpar _ _ _ HT1) as [d Hd]. destruct (decide (p ++ [i] = q)) as [<-|];
        [by rewrite lookup_insert_eq|by rewrite lookup_insert_ne].
  - intros q c j [[<- <-]|[Hn1 HT1]]%lookup_insert_Some Hlq Hj.
    + exists 0. split; [by apply Hz|]. rewrite is_valid_0.
      rewrite lookup_insert_ne by (intros E; apply (f_equal length) in E; rewrite !length_app in E; cbn in E; lia).
      destruct (T !! ((p ++ [i]) ++ [j])) eqn:E; [|done]. destruct (Hpar _ _ _ E). congruence.
    + destruct (decide (q = p ∧ j = i)) as [[-> ->]|Hne].
      * rewrite Hp in HT1. simplify_eq. exists e. by rewrite lookup_insert_eq, Hv.
      * rewrite lookup_insert_ne by (intros E; apply snoc_inj in E as [-> ->]; by apply Hne).
        rewrite (Hk q c j HT1 Hj); [by apply Hch|]. destruct (decide (q = p)) as [->|]; [right; naive_solver|by left].
  - intros q c [[<- _]|[_ HT1]]%lookup_insert_Some; [|eauto].
    destruct (Hdep p a Hp) as [_ Hall]. split; [rewrite length_app; cbn; lia|].
    apply Forall_app. split; [done|]. by apply Forall_singleton.
Qed.

Lemma pt_slot_ne s T root held p a q c i k :
  pt_inv s T root held → T !! p = Some a → T !! q = Some c → 0 ≤ i < 512 → 0 ≤ k < 512 →
  q ≠ p ∨ k ≠ i → a + 8 * i ≠ c + 8 * k.
Proof.
  intros [Hh Ht Hin] Hp Hq Hi Hk Hne E.
  destruct (slot_inj s held a c i k) as [-> ->]; eauto.
  destruct Hne as [Hne|Hne]; [|done]. apply Hne. by eapply (pt_inj _ _ _ Ht).
Qed.

(** Entries that lead to tables are no leaves, and global as [G] says for the
    index at the root. *)
Definition table_entries (G : Z → bool) s (T : gmap (list Z) Z) : Prop := ∀ p a i e k r,
  T !! p = Some a → (length p < 2)%nat → 0 ≤ i < 512 → p ++ [i] = k :: r →
  ps_mem s !! (a + 8 * i) = Some e → is_valid (F := F) e = true →
  is_leaf (F := F) e = false ∧ is_global (F := F) e = G k.

(** The pages of [held'] are those of [held] and tables. *)
Definition only_tables (T' : gmap (list Z) Z) (held held' : gset Z) : Prop :=
  ∀ x, x ∈ held' → x ∈ held ∨ ∃ q, T' !! q = Some x.

Lemma only_tables_trans T1 T2 h0 h1 h2 :
  T1 ⊆ T2 → only_tables T1 h0 h1 → only_tables T2 h1 h2 → only_tables T2 h0 h2.
Proof.
  intros HT H01 H12 x [Hx|?]%H12; [|by right]. destruct (H01 x Hx) as [?|[q Hq]]; [by left|right].
  exists q. by apply (lookup_weaken T1 T2).
Qed.

(** [walk_or_create] only adds to the tree, and changes no mapping. *)
Lemma walk_or_create_spec s T root held p a i g :
  pt_inv s T root held → T !! p = Some a → (length p < 2)%nat → 0 ≤ i < 512 →
  (∃ pn, walk_or_create F a i g s = Panic pn ∧ pn ≠ OutOfFuel) ∨
  ∃ b s' T' held', walk_or_create F a i g s = Ret (b, s') ∧ pt_inv s' T' root held' ∧
    T ⊆ T' ∧ T' !! (p ++ [i]) = Some b ∧ held ⊆ held' ∧
    (∀ va, vleaf s' T' va = vleaf s T va) ∧
    keeps_words s s' held (λ c k, T !! (p ++ [i]) = None ∧ c = a ∧ k = i) ∧
    (∀ q c, T' !! q = Some c → T !! q = None → (c ∉ held) ∧ q = p ++ [i]) ∧
    only_tables T' held held' ∧
    (∀ G, table_entries G s T → (∀ k r, p ++ [i] = k :: r → g = G k) → table_entries G s' T').
Proof.
  intros Hpt Hp Hl Hi. pose proof Hpt as [Hh Ht Hin]. unfold walk_or_create. unmonad.
  rewrite (walk_spec s T root held p a i Hpt Hp Hl Hi).
  destruct (T !! (p ++ [i])) as [b|] eqn:Eb.
  { right. exists b, s, T, held. split_and!; try done; [intros; congruence|by left]. }
  destruct (pt_new_spec s held Hh) as [(pn & -> & Hpn)|(b & s1 & -> & Hb & Hh1 & Hz & Hk)]; [left; eauto|right].
  assert (Hbin : b ∈ {[b]} ∪ held) by (apply elem_of_union; left; by apply elem_of_singleton).
  assert (Hain : a ∈ {[b]} ∪ held) by (apply elem_of_union; right; eauto).
  assert (Hab : a ≠ b) by (intros ->; eauto).
  destruct (from_va_page s1 _ b Hh1 Hbin) as (-> & _).
  set (e := entry_new (mkPhysAddr (b - VM_OFFSET)) (fl_set flag_V flag_G g)).
  unfold set_entry. rewrite bool_decide_eq_true_2 by (unfold NENTRY; lia).
  rewrite (ps_store_spec s1 _ a i e Hh1 Hain Hi).
  set (s2 := ps_set _ _).
  assert (Hm2 : ∀ c k, c ∈ {[b]} ∪ held → 0 ≤ k < 512 → c ≠ a ∨ k ≠ i →
    ps_mem s2 !! (c + 8 * k) = ps_mem s1 !! (c + 8 * k)).
  { intros c k Hc Hkr Hne. unfold s2. rewrite ps_mem_set, lookup_insert_ne; [done|].
    intros E. destruct (slot_inj s1 ({[b]} ∪ held) a c i k) as [-> ->]; try done. by destruct Hne. }
  assert (Hold : ∀ c k, c ∈ held → 0 ≤ k < 512 → c ≠ a ∨ k ≠ i →
    ps_mem s2 !! (c + 8 * k) = ps_mem s !! (c + 8 * k)).
  { intros c k Hc Hkr Hne. rewrite Hm2; [|apply elem_of_union; by right|done|done].
    apply Hk; [done|done|by intros []]. }
  assert (He : ps_mem s2 !! (a + 8 * i) = Some e) by (unfold s2; by rewrite ps_mem_set, lookup_insert_eq).
  exists b, s2, (<[p ++ [i] := b]> T), ({[b]} ∪ held).
  assert (Hsub : T ⊆ <[p ++ [i] := b]> T) by (by apply insert_subseteq).
  split_and!; [done| |done|by rewrite lookup_insert_eq|apply union_subseteq_r| | | | |].
  - split; [by apply ps_write| |].
    + apply (tree_extend (ps_mem s) _ T root p a i b e); try done.
      * intros q c Hq ->. eauto.
      * unfold e. by rewrite is_valid_new, table_flag_valid.
      * unfold e. by apply (entry_of_page s1 ({[b]} ∪ held)).
      * intros k Hkr. rewrite Hm2; [by apply Hz|done|done|left; congruence].
      * intros q c k Hq Hkr Hne. apply Hold; [eauto|done|].
        destruct (decide (c = a)) as [->|]; [|by left]. right.
        destruct Hne as [Hne|]; [|done]. exfalso. apply Hne. by eapply (pt_inj _ _ _ Ht).
    + intros q c [[_ <-]|[_ Hq]]%lookup_insert_Some; [done|]. apply elem_of_union. right. eauto.
  - intros va. unfold vleaf, leaf. destruct (decide (p ++ [i] = [px 2 va; px 1 va])) as [E|E].
    + rewrite <- E, lookup_insert_eq, Eb. cbn.
      rewrite Hm2 by (done || (by apply px_range) || (left; congruence)).
      rewrite Hz by (by apply px_range). cbn. by rewrite is_valid_0.
    + rewrite lookup_insert_ne by done. destruct (T !! [px 2 va; px 1 va]) as [c|] eqn:Ec; [|done]. cbn.
      rewrite Hold; [done|eauto|by apply px_range|]. left. intros ->.
      assert (E' : [px 2 va; px 1 va] = p) by (by eapply (pt_inj _ _ _ Ht)). subst p. cbn in Hl. lia.
  - intros c k Hc Hkr Hne. apply Hold; [done|done|].
    destruct (decide (c = a)); [|by left]. right. intros ->. by apply Hne.
  - intros q c [[<- <-]|[_ Hq]]%lookup_insert_Some Hn; [done|congruence].
  - intros x [->%elem_of_singleton|Hx]%elem_of_union; [right|by left].
    exists (p ++ [i]). by rewrite lookup_insert_eq.
  - intros G HG Hg q c j e' k r [[<- <-]|[Hne Hq]]%lookup_insert_Some Hlq Hj Eq He' Hv.
    + rewrite Hm2, Hz in He' by (done || (left; congruence)). injection He' as <-. by rewrite is_valid_0 in Hv.
    + destruct (decide (c = a ∧ j = i)) as [[-> ->]|Hne'].
      * assert (Eqp : q = p) by (by eapply (pt_inj _ _ _ Ht)). subst q.
        rewrite He in He'. injection He' as <-. rewrite <-(Hg k r Eq). apply table_flag_tests.
      * rewrite Hold in He' by (eauto || tauto || (destruct (decide (c = a)); [right; naive_solver|by left])).
        by eapply HG.
Qed.

(** The tables a walk for [va] goes through. *)
Definition on_path (T : gmap (list Z) Z) (va : Z) (c k : Z) : Prop :=
  ∃ q, T !! q = Some c ∧ q `prefix_of` [px 2 va; px 1 va].

Lemma get_insert (T T' : gmap (list Z) Z) p a : T ⊆ T' → T !! p = Some a → T' !! p = Some a.
Proof. intros Hs Hp. by apply (lookup_weaken T T'). Qed.

Lemma leaf_write s T root held l0 va va' e :
  pt_inv s T root held → T !! [px 2 va; px 1 va] = Some l0 →
  let s' := ps_set (<[l0 + 8 * px 0 va := e]> (ps_mem s)) s in
  pt_inv s' T root held ∧
  leaf s' T va' = if bool_decide (vpn va' = vpn va) then Some e else leaf s T va'.
Proof.
  intros Hpt Hl0 s'. pose proof Hpt as [Hh Ht Hin].
  pose proof (px_range 0 va ltac:(lia)) as Hr0.
  assert (Hm : ∀ q c k, T !! q = Some c → 0 ≤ k < 512 → q ≠ [px 2 va; px 1 va] ∨ k ≠ px 0 va →
    ps_mem s' !! (c + 8 * k) = ps_mem s !! (c + 8 * k)).
  { intros q c k Hq Hk Hne. unfold s'. rewrite ps_mem_set, lookup_insert_ne; [done|].
    by apply (pt_slot_ne s T root held [px 2 va; px 1 va] l0 q c). }
  split.
  - split; [apply ps_write; eauto| |done]. destruct Ht as [Hr Hinj Hpar Hch Hdep]. split; [done|done|done| |done].
    intros q c k Hq Hl Hk. rewrite (Hm q c k Hq Hk); [by apply Hch|]. left. intros ->. cbn in Hl. lia.
  - unfold leaf. case_bool_decide as E.
    + apply vpn_inj in E as (E2 & E1 & E0). rewrite E2, E1, E0, Hl0. cbn. unfold s'.
      by rewrite ps_mem_set, lookup_insert_eq.
    + destruct (T !! [px 2 va'; px 1 va']) as [c|] eqn:Ec; [|done]. cbn.
      apply (Hm _ _ _ Ec); [by apply px_range|].
      destruct (decide ([px 2 va'; px 1 va'] = [px 2 va; px 1 va])) as [Ep|]; [right|by left].
      intros E0. apply E, vpn_inj. by simplify_eq.
Qed.

Lemma map_page_spec s T root held pa va f :
  pt_inv s T root held →
  (∃ pn, map_page F root pa va f s = Panic pn ∧ pn ≠ OutOfFuel) ∨
  ∃ s' T' held', map_page F root pa va f s = Ret ((), s') ∧ pt_inv s' T' root held' ∧
    T ⊆ T' ∧ held ⊆ held' ∧
    (∀ va', vpn va' = vpn va → leaf s' T' va' = Some (entry_new (from_pa pa) f)) ∧
    (∀ va', vpn va' ≠ vpn va → vleaf s' T' va' = vleaf s T va') ∧
    keeps_words s s' held (on_path T va) ∧
    (∀ q c, T' !! q = Some c → T !! q = None → (c ∉ held) ∧ q `prefix_of` [px 2 va; px 1 va]) ∧
    only_tables T' held held' ∧
    (∀ G, table_entries G s T → contains f flag_G = G (px 2 va) → table_entries G s' T').
Proof.
  intros Hpt. unfold map_page. unmonad. set (g := contains f flag_G).
  pose proof (pt_root _ _ _ (pi_tree _ _ _ _ Hpt)) as Hroot.
  destruct (walk_or_create_spec s T root held [] root (px 2 va) g Hpt Hroot ltac:(cbn; lia) (px_range 2 va ltac:(lia)))
    as [(pn & -> & Hpn)|(l1 & s1 & T1 & held1 & -> & Hpt1 & HT1 & Hl1 & Hh1 & Hv1 & Hk1 & Hn1 & Ho1 & HG1)]; [left; eauto|].
  cbn [app] in *.
  destruct (walk_or_create_spec s1 T1 root held1 [px 2 va] l1 (px 1 va) g Hpt1 Hl1 ltac:(cbn; lia) (px_range 1 va ltac:(lia)))
    as [(pn & -> & Hpn)|(l0 & s2 & T2 & held2 & -> & Hpt2 & HT2 & Hl0 & Hh2 & Hv2 & Hk2 & Hn2 & Ho2 & HG2)]; [left; eauto|right].
  cbn [app] in *. pose proof (px_range 0 va ltac:(lia)) as Hr0.
  unfold set_entry. rewrite bool_decide_eq_true_2 by (unfold NENTRY; lia).
  rewrite (ps_store_spec s2 held2 l0) by (eauto using pi_held, pi_tables).
  set (e := entry_new (from_pa pa) f).
  pose proof (λ va', leaf_write s2 T2 root held2 l0 va va' e Hpt2 Hl0) as Hw. cbn zeta in Hw.
  set (s3 := ps_set _ _) in *.
  exists s3, T2, held2. split_and!; [done|by apply (Hw va)|by etrans|by etrans| | | | | |].
  - intros va' E. rewrite (proj2 (Hw va')). by rewrite bool_decide_eq_true_2.
  - intros va' E. rewrite <- Hv1, <- Hv2. unfold vleaf. rewrite (proj2 (Hw va')).
    by rewrite bool_decide_eq_false_2.
  - intros c k Hc Hk Hne.
    assert (Hc1 : c ∈ held1) by auto. assert (Hc2 : c ∈ held2) by auto.
    transitivity (ps_mem s2 !! (c + 8 * k)); [|transitivity (ps_mem s1 !! (c + 8 * k))].
    + unfold s3. rewrite ps_mem_set, lookup_insert_ne; [done|]. intros E.
      destruct (slot_inj s2 held2 l0 c (px 0 va) k) as [-> _]; eauto using pi_held, pi_tables.
      destruct (T !! [px 2 va; px 1 va]) as [c'|] eqn:Ec.
      * apply Hne. exists [px 2 va; px 1 va]. split; [|done]. rewrite Ec.
        rewrite <- Hl0. symmetry. apply (get_insert T T2); [by etrans|done].
      * destruct (T1 !! [px 2 va; px 1 va]) as [c'|] eqn:Ec1; [|by destruct (Hn2 _ _ Hl0 Ec1)].
        pose proof (get_insert T1 T2 _ _ HT2 Ec1) as Ec2. rewrite Hl0 in Ec2. injection Ec2 as <-.
        by destruct (Hn1 _ _ Ec1 Ec).
    + apply Hk2; [done|done|]. intros (Hno & -> & ->).
      destruct (T !! [px 2 va]) as [c'|] eqn:Ec.
      * apply Hne. exists [px 2 va]. split; [|by exists [px 1 va]].
        rewrite Ec. rewrite <- Hl1. symmetry. by apply (get_insert T T1).
      * by destruct (Hn1 _ _ Hl1 Ec).
    + apply Hk1; [done|done|]. intros (_ & -> & ->). apply Hne. exists [].
      split; [done|by exists [px 2 va; px 1 va]].
  - intros q c Hq Hno. destruct (T1 !! q) as [c'|] eqn:Eq.
    + pose proof (get_insert T1 T2 _ _ HT2 Eq) as E2. assert (c' = c) as -> by congruence.
      destruct (Hn1 q c Eq Hno) as [? ->]. split; [done|by exists [px 1 va]].
    + destruct (Hn2 q c Hq Eq) as [Hc ->]. split; [|done]. intros Hin. by apply Hc, Hh1.
  - by eapply only_tables_trans.
  - intros G HG Hg. assert (HG' : table_entries G s2 T2).
    { apply HG2; [apply HG1; [done|]|]; intros k r [= <- _]; done. }
    intros q c j e' k r Hq Hlq Hj Eq He' Hv. eapply HG'; [done..| |done].
    rewrite <-He'. unfold s3. rewrite ps_mem_set, lookup_insert_ne; [done|].
    apply (pt_slot_ne s2 T2 root held2 [px 2 va; px 1 va] l0 q c); try done. left. intros ->. cbn in Hlq. lia.
Qed.

Lemma vpn_add va k : 0 ≤ k → vpn va + k < 2 ^ 27 → vpn (va + PG_SIZE * k) = vpn va + k.
Proof.
  intros Hk Hv. unfold vpn in *. rewrite PG_SIZE_pow2, Z.mul_comm, Z.div_add by lia.
  pose proof (Z.mod_pos_bound (va / 2 ^ 12) (2 ^ 27) ltac:(lia)).
  rewrite <- Zplus_mod_idemp_l. apply Z.mod_small. lia.
Qed.

Definition in_run (va n va' : Z) : Prop := vpn va ≤ vpn va' < vpn va + n.

Lemma map_loop_spec n : ∀ s T root held pa va pa_end f fuel,
  pt_inv s T root held → Z.testbit (bits f) 0 = true →
  pa + PG_SIZE * (Z.of_nat n - 1) < pa_end ≤ pa + PG_SIZE * Z.of_nat n ∨ (n = 0%nat ∧ pa_end ≤ pa) →
  ((0 < n)%nat → 0 ≤ pa ∧ pa + PG_SIZE * Z.of_nat n < 2 ^ 64 ∧ 0 ≤ va ∧ va + PG_SIZE * Z.of_nat n ≤ 2 ^ 64 ∧
    vpn va + Z.of_nat n ≤ 2 ^ 27) →
  (n < fuel)%nat →
  (∃ pn, map_loop F fuel root pa va pa_end f s = Panic pn ∧ pn ≠ OutOfFuel) ∨
  ∃ s' T' held', map_loop F fuel root pa va pa_end f s = Ret ((), s') ∧ pt_inv s' T' root held' ∧
    T ⊆ T' ∧ held ⊆ held' ∧
    (∀ va', in_run va (Z.of_nat n) va' →
       vleaf s' T' va' = Some (entry_new (from_pa (pa + PG_SIZE * (vpn va' - vpn va))) f)) ∧
    (∀ va', ¬ in_run va (Z.of_nat n) va' → vleaf s' T' va' = vleaf s T va') ∧
    keeps_words s s' held (λ c k, ∃ va', in_run va (Z.of_nat n) va' ∧ on_path T va' c k) ∧
    (∀ q c, T' !! q = Some c → T !! q = None → (c ∉ held) ∧
       ∃ va', in_run va (Z.of_nat n) va' ∧ q `prefix_of` [px 2 va'; px 1 va']) ∧
    only_tables T' held held' ∧
    (∀ G, table_entries G s T → (∀ va', in_run va (Z.of_nat n) va' → contains f flag_G = G (px 2 va')) →
       table_entries G s' T').
Proof.
  induction n as [|n IH]; intros s T root held pa va pa_end f fuel Hpt Hf Hend Hov Hfuel;
    (destruct fuel as [|fuel]; [lia|]); cbn [map_loop].
  { right. rewrite bool_decide_eq_false_2 by (rewrite PG_SIZE_pow2 in *; lia).
    exists s, T, held. unfold in_run. split_and!; try done; try (intros; (lia || congruence)). by left. }
  destruct (Hov ltac:(lia)) as (Hpa & Hpa2 & Hva & Hva2 & Hvpn). clear Hov.
  destruct Hend as [Hend|[? _]]; [|done]. rewrite bool_decide_eq_true_2 by (rewrite PG_SIZE_pow2 in *; lia).
  unmonad. destruct (map_page_spec s T root held pa va f Hpt)
    as [(pn & -> & Hpn)|(s1 & T1 & held1 & -> & Hpt1 & HT1 & Hh1 & Hl1 & Hv1 & Hk1 & Hn1 & Ho1 & HG1)]; [left; eauto|].
  assert (Hpa' : wrap64 (pa + PG_SIZE) = pa + PG_SIZE).
  { apply wrap_small. unfold in_range. rewrite PG_SIZE_pow2 in *. lia. }
  rewrite Hpa'.
  assert (Hva' : (0 < n)%nat → wrap64 (va + PG_SIZE) = va + PG_SIZE ∧ vpn (va + PG_SIZE) = vpn va + 1).
  { intros Hn. split; [apply wrap_small; unfold in_range; rewrite PG_SIZE_pow2 in *; lia|].
    replace (va + PG_SIZE) with (va + PG_SIZE * 1) by lia. apply vpn_add; lia. }
  assert (Hrun : ∀ va', in_run va (Z.of_nat (S n)) va' ↔
    vpn va' = vpn va ∨ in_run (wrap64 (va + PG_SIZE)) (Z.of_nat n) va').
  { intros va'. unfold in_run. destruct (decide (0 < n)%nat) as [Hn|Hn]; [|lia].
    destruct (Hva' Hn) as [-> ->]. lia. }
  destruct (IH s1 T1 root held1 (pa + PG_SIZE) (wrap64 (va + PG_SIZE)) pa_end f fuel Hpt1 Hf)
    as [(pn & E & Hpn)|(s' & T' & held' & E & Hpt' & HT' & Hh' & Hin' & Hout' & Hk' & Hn' & Ho' & HG')].
  { destruct (decide (0 < n)%nat); [left|right]; rewrite PG_SIZE_pow2 in *; lia. }
  { intros Hn. destruct (Hva' Hn) as [-> ->]. rewrite PG_SIZE_pow2 in *. lia. }
  { lia. }
  { left. eauto. }
  right. exists s', T', held'. split_and!; [exact E|done|by etrans|by etrans| | | | | |].
  - intros va' [Hr|Hr]%Hrun.
    + rewrite Hout'.
      * unfold vleaf. rewrite (Hl1 va' Hr). cbn. rewrite is_valid_new, Hf.
        repeat f_equal. lia.
      * unfold in_run. destruct (decide (0 < n)%nat) as [Hn|Hn]; [|lia].
        destruct (Hva' Hn) as [-> ->]. lia.
    + rewrite (Hin' va' Hr). destruct (decide (0 < n)%nat) as [Hn|Hn]; [|unfold in_run in Hr; lia].
      destruct (Hva' Hn) as [-> ->]. do 3 f_equal. lia.
  - intros va' Hr. rewrite Hrun in Hr. rewrite Hout' by tauto. apply Hv1. tauto.
  - intros c k Hc Hk Hne. rewrite Hk'; [|by apply Hh1|done|].
    + apply Hk1; [done|done|]. intros Hp. apply Hne. exists va. split; [apply Hrun; by left|done].
    + intros (va' & Hr & q & Hq & Hpre). apply Hne. exists va'. split; [apply Hrun; by right|].
      exists q. split; [|done]. destruct (T !! q) as [c'|] eqn:Eq; [|by destruct (Hn1 q c Hq Eq)].
      pose proof (get_insert T T1 _ _ HT1 Eq) as E1. congruence.
  - intros q c Hq Hno. destruct (T1 !! q) as [c'|] eqn:Eq.
    + pose proof (get_insert T1 T' _ _ HT' Eq) as E1. assert (c' = c) as -> by congruence.
      destruct (Hn1 q c Eq Hno) as [? ?]. split; [done|]. exists va. split; [apply Hrun; by left|done].
    + destruct (Hn' q c Hq Eq) as [Hc (va' & Hr & Hp)]. split; [intros Hin; by apply Hc, Hh1|].
      exists va'. split; [apply Hrun; by right|done].
  - by eapply only_tables_trans.
  - intros G HG Hg. apply HG'; [apply HG1; [done|]|]; [|intros va' Hr]; apply Hg, Hrun; [by left|by right].
Qed.

(** ** What a page table maps *)

Definition pt_wf (s : K) (root : Z) : Prop := ∃ T held, pt_inv s T root held.

(** The valid entry for [va], as [get_pte] finds it. *)
Definition mapping (s : K) (root va : Z) : option Z :=
  match get_pte F root va s with
  | Ret (Some e, _) => if is_valid (F := F) e then Some e else None
  | _ => None
  end.

Lemma mapping_vleaf s T root held va : pt_inv s T root held → mapping s root va = vleaf s T va.
Proof.
  intros Hpt. unfold mapping, vleaf. rewrite (get_pte_spec s T root held) by done.
  by destruct (leaf s T va).
Qed.

Definition pages_of (size : Z) : Z := (size + PG_SIZE - 1) / PG_SIZE.

(** Arguments [map] is called with: whole pages that stay inside the physical
    and the virtual address space. *)
Record map_args (pa : PhysAddr) (va size : Z) (f : F) : Prop := {
  ma_pa : (PG_SIZE | pa_value pa);
  ma_va : (PG_SIZE | va);
  ma_pos : 0 ≤ pa_value pa ∧ 0 ≤ va ∧ 0 ≤ size;
  ma_pa_end : pa_value pa + PG_SIZE * pages_of size ≤ 2 ^ 56;
  ma_va_end : va + PG_SIZE * pages_of size ≤ 2 ^ 64;
  ma_vpn : vpn va + pages_of size ≤ 2 ^ 27;
  ma_valid : Z.testbit (bits f) 0 = true;
}.

Lemma pages_of_bounds size : 0 ≤ size →
  0 ≤ pages_of size ∧ size ≤ PG_SIZE * pages_of size < size + PG_SIZE.
Proof.
  intros. unfold pages_of. pose proof PG_SIZE_pow2.
  destruct (ceil_div_bounds size PG_SIZE ltac:(lia)) as [_ ?].
  split; [apply Z.div_pos; lia|lia].
Qed.

Lemma map_spec s T root held pa va size f :
  pt_inv s T root held → map_args pa va size f →
  (∃ pn, map F root pa va size f s = Panic pn ∧ pn ≠ OutOfFuel) ∨
  ∃ s' T' held', map F root pa va size f s = Ret ((), s') ∧ pt_inv s' T' root held' ∧
    T ⊆ T' ∧ held ⊆ held' ∧
    (∀ va', in_run va (pages_of size) va' →
       vleaf s' T' va' = Some (entry_new (from_pa (pa_value pa + PG_SIZE * (vpn va' - vpn va))) f)) ∧
    (∀ va', ¬ in_run va (pages_of size) va' → vleaf s' T' va' = vleaf s T va') ∧
    keeps_words s s' held (λ c k, ∃ va', in_run va (pages_of size) va' ∧ on_path T va' c k) ∧
    (∀ q c, T' !! q = Some c → T !! q = None → (c ∉ held) ∧
       ∃ va', in_run va (pages_of size) va' ∧ q `prefix_of` [px 2 va'; px 1 va']) ∧
    only_tables T' held held' ∧
    (∀ G, table_entries G s T → (∀ va', in_run va (pages_of size) va' → contains f flag_G = G (px 2 va')) →
       table_entries G s' T').
Proof.
  intros Hpt [Hpa Hva Hpos Hpae Hvae Hvpn Hf].
  pose proof (pages_of_bounds size ltac:(lia)) as [Hn0 Hn]. pose proof PG_SIZE_pow2 as HPG.
  unfold map. unmonad.
  assert (Ea : is_aligned pa && is_aligned va = true).
  { apply andb_true_iff. split.
    - destruct pa as [p]. cbn [pa_value] in *.
      assert (Ep : is_aligned p = true) by (apply is_aligned_usize, Z.mod_divide; [lia|done]).
      unfold is_aligned in *. apply bool_decide_eq_true in Ep. apply bool_decide_eq_true.
      cbn [floor PageAlign_PhysAddr pa_value]. by rewrite Ep.
    - apply is_aligned_usize, Z.mod_divide; [lia|done]. }
  rewrite Ea. cbn [assert_]. rewrite wrap_small by (unfold in_range; lia).
  rewrite <- (Z2Nat.id (pages_of size)) by done.
  apply map_loop_spec; [done|done| |intros; rewrite Z2Nat.id by done; lia|unfold map_fuel, pages_of in *; lia].
  rewrite Z2Nat.id by done.
  destruct (decide (pages_of size = 0)) as [E|E]; [right; rewrite E in *; split; [done|lia]|left; lia].
Qed.

(** ** Copying the kernel's table *)

Lemma pt_tree_words (m m' : memory) T root :
  pt_tree m T root →
  (∀ q c k, T !! q = Some c → 0 ≤ k < 512 → m' !! (c + 8 * k) = m !! (c + 8 * k)) →
  pt_tree m' T root.
Proof.
  intros [Hr Hinj Hpar Hch Hdep] Hm. split; [done|done|done| |done].
  intros q c k Hq Hl Hk. rewrite (Hm q c k Hq Hk). by apply Hch.
Qed.

Lemma leaf_words (s s' : K) T va :
  (∀ q c k, T !! q = Some c → 0 ≤ k < 512 → ps_mem s' !! (c + 8 * k) = ps_mem s !! (c + 8 * k)) →
  leaf s' T va = leaf s T va.
Proof.
  intros Hm. unfold leaf. destruct (T !! [px 2 va; px 1 va]) as [c|] eqn:E; [|done]. cbn.
  apply (Hm _ _ _ E), px_range. lia.
Qed.

Lemma copy_loop_spec src dst n : ∀ s held j, ps_held s held → src ∈ held → dst ∈ held → src ≠ dst →
  0 ≤ j → j + Z.of_nat n ≤ 512 →
  ∃ s', for_each (seqZ j (Z.of_nat n)) (λ k, e ← ps_read (src + 8 * k) ; ps_store (dst + 8 * k) e) s
      = Ret ((), s') ∧ ps_held s' held ∧
    (∀ k, j ≤ k < j + Z.of_nat n → ps_mem s' !! (dst + 8 * k) = ps_mem s !! (src + 8 * k)) ∧
    (∀ x, (∀ k, j ≤ k < j + Z.of_nat n → x ≠ dst + 8 * k) → ps_mem s' !! x = ps_mem s !! x).
Proof.
  induction n as [|n IH]; intros s held j Hh Hs Hd Hne Hj Hn.
  { exists s. split_and!; [done|done|intros; lia|done]. }
  rewrite seqZ_cons by lia. replace (Z.pred (Z.of_nat (S n))) with (Z.of_nat n) by lia.
  cbn [for_each]. unmonad.
  destruct (ps_read_spec s held src j Hh Hs) as (e & He & ->); [lia|].
  rewrite (ps_store_spec s held dst j) by (done || lia).
  set (s1 := ps_set _ _). destruct (IH s1 held (Z.succ j)) as (s' & E & Hh' & Hz & Hf);
    [by apply ps_write; try lia|done|done|done|lia|lia|].
  assert (Hsep : ∀ k i, 0 ≤ k < 512 → 0 ≤ i < 512 → src + 8 * k ≠ dst + 8 * i).
  { intros k i Hk Hi E'. by destruct (slot_inj s held src dst k i Hh Hs Hd Hk Hi E'). }
  exists s'. split; [exact E|]. split; [done|]. split.
  - intros k Hk. destruct (decide (k = j)) as [->|].
    + rewrite Hf by (intros; lia). unfold s1. by rewrite ps_mem_set, lookup_insert_eq.
    + rewrite Hz by lia. unfold s1. rewrite ps_mem_set, lookup_insert_ne; [done|].
      apply not_eq_sym, Hsep; lia.
  - intros x Hx. rewrite Hf by (intros; apply Hx; lia). unfold s1.
    rewrite ps_mem_set, lookup_insert_ne; [done|]. apply not_eq_sym, Hx. lia.
Qed.

(** The clone has a root of its own and shares every other table. *)
Lemma pt_clone_spec s T root held : pt_inv s T root held →
  (∃ pn, pt_clone root s = Panic pn ∧ pn ≠ OutOfFuel) ∨
  ∃ b s' held', pt_clone root s = Ret (b, s') ∧ held ⊆ held' ∧ (b ∉ held) ∧
    pt_inv s' T root held' ∧ pt_inv s' (<[[] := b]> T) b held' ∧
    keeps_words s s' held (λ _ _, False) ∧
    (∀ k, 0 ≤ k < 512 → ps_mem s' !! (b + 8 * k) = ps_mem s !! (root + 8 * k)) ∧ held' = {[b]} ∪ held.
Proof.
  intros [Hh Ht Hin]. unfold pt_clone. unmonad.
  destruct (pt_new_spec s held Hh) as [(pn & -> & Hpn)|(b & s1 & -> & Hb & Hh1 & _ & Hk)]; [left; eauto|right].
  pose proof (pt_root _ _ _ Ht) as Hroot.
  assert (Hbin : b ∈ {[b]} ∪ held) by (apply elem_of_union; left; by apply elem_of_singleton).
  assert (Hrin : root ∈ {[b]} ∪ held) by (apply elem_of_union; right; eauto).
  assert (Hne : root ≠ b) by (intros ->; eauto).
  destruct (copy_loop_spec root b 512 s1 _ 0 Hh1 Hrin Hbin Hne) as (s2 & E & Hh2 & Hcp & Hf); [lia|lia|].
  change (Z.of_nat 512) with 512 in *. unfold copy_entries, NENTRY. unfold mbind, M_bind in *. rewrite E.
  assert (Hold : keeps_words s s2 held (λ _ _, False)).
  { intros c k Hc Hkr _. rewrite Hf; [by apply Hk; auto|]. intros j Hj E'.
    destruct (slot_inj s1 ({[b]} ∪ held) c b k j) as [-> _];
      [exact Hh1|apply elem_of_union; by right|exact Hbin|done|lia|done|done]. }
  assert (Hold' : ∀ q c k, T !! q = Some c → 0 ≤ k < 512 →
    ps_mem s2 !! (c + 8 * k) = ps_mem s !! (c + 8 * k)).
  { intros q c k Hq Hkr. apply Hold; [eauto|done|by intros []]. }
  exists b, s2, ({[b]} ∪ held). split_and!; [done|apply union_subseteq_r|done| | |done| |done].
  3: { intros k Hkr. rewrite Hcp by lia. apply Hk; [eauto|done|by intros []]. }
  - split; [done|by apply (pt_tree_words (ps_mem s))|]. intros p a Hp. apply elem_of_union. right. eauto.
  - split; [done| |].
    + destruct Ht as [_ Hinj Hpar Hch Hdep]. split.
      * by rewrite lookup_insert_eq.
      * intros p q a [[<- <-]|[Hn1 Hq1]]%lookup_insert_Some [[<- Eb]|[Hn2 Hq2]]%lookup_insert_Some; [done| | |eauto].
        -- exfalso. eauto.
        -- subst a. exfalso. eauto.
      * intros p i c [[Ep _]|[_ Hq]]%lookup_insert_Some; [by destruct p|].
        destruct (decide (p = [])) as [->|]; [by rewrite lookup_insert_eq|].
        rewrite lookup_insert_ne by done. eauto.
      * intros p a i [[<- <-]|[Hn Hq]]%lookup_insert_Some Hl Hi.
        -- destruct (Hch [] root i Hroot Hl Hi) as (e & He & Hc). exists e.
           rewrite lookup_insert_ne by done. split; [|done].
           rewrite Hcp by lia. rewrite Hk by (eauto || done). done.
        -- destruct (Hch p a i Hq Hl Hi) as (e & He & Hc). exists e.
           rewrite lookup_insert_ne by (by destruct p). split; [|done]. by rewrite (Hold' p).
      * intros p a [[<- _]|[_ Hp]]%lookup_insert_Some; [split; [cbn; lia|constructor]|eauto].
    + intros p a [[_ <-]|[_ Hp]]%lookup_insert_Some; [done|]. apply elem_of_union. right. eauto.
Qed.

(** ** User tables and the kernel *)

(** A kernel table [kroot] and a table [root] cloned from it: the tables of the
    kernel are among the pages [Kh], and [root] has them only below the root
    slots of the upper half. *)
Record shares (s : K) (kroot root : Z) (T : gmap (list Z) Z) : Prop := {
  sh_inv : ∃ Tu held Kh, pt_inv s T kroot held ∧ pt_inv s Tu root held ∧ Kh ⊆ held ∧
    (∀ q c, T !! q = Some c → c ∈ Kh) ∧
    (∀ q c, Tu !! q = Some c → c ∈ Kh → ∃ i r, q = i :: r ∧ 256 ≤ i) ∧
    (∀ va, 256 ≤ px 2 va → vleaf s Tu va = vleaf s T va);
}.

(** [map] of a run in the lower half of the address space. *)
Record user_args (pa : PhysAddr) (va size : Z) (f : F) : Prop := {
  ua_args : map_args pa va size f;
  ua_low : va + PG_SIZE * pages_of size ≤ 2 ^ 38;
}.

Lemma user_run pa va size f va' : user_args pa va size f → in_run va (pages_of size) va' → px 2 va' < 256.
Proof.
  intros [[_ _ Hpos _ _ _ _] Hlow] Hr. unfold in_run in Hr. pose proof (vpn_px va') as E.
  pose proof (px_range 2 va'). pose proof (px_range 1 va'). pose proof (px_range 0 va').
  enough (vpn va + pages_of size ≤ 2 ^ 26) by lia.
  unfold vpn. rewrite PG_SIZE_pow2 in Hlow.
  pose proof (pages_of_bounds size ltac:(lia)) as [Hn _].
  rewrite Z.mod_small; pose proof (Z.div_mod va (2 ^ 12)); pose proof (Z.mod_pos_bound va (2 ^ 12)); lia.
Qed.

Lemma shares_map s kroot root T pa va size f s' :
  shares s kroot root T → user_args pa va size f → map F root pa va size f s = Ret ((), s') →
  shares s' kroot root T ∧ (∀ va', vleaf s' T va' = vleaf s T va').
Proof.
  intros [(Tu & held & Kh & HK & HU & Hsub & HTK & HTU & Hup)] Hu E.
  destruct (map_spec s Tu root held pa va size f HU (ua_args _ _ _ _ Hu))
    as [(pn & E' & _)|(s1 & Tu' & held' & E' & HU' & HT & Hh & _ & Hout & Hk & Hnew & _)]; [congruence|].
  rewrite E in E'. injection E' as <-.
  assert (Hkeep : ∀ q c k, T !! q = Some c → 0 ≤ k < 512 →
    ps_mem s' !! (c + 8 * k) = ps_mem s !! (c + 8 * k)).
  { intros q c k Hq Hkr. pose proof (HTK q c Hq) as Hc. apply Hk; [by apply Hsub|done|].
    intros (va' & Hr & p & Hp & Hpre). destruct (HTU p c Hp Hc) as (i & r & -> & Hi).
    apply prefix_cons_inv_1 in Hpre as ->. pose proof (user_run _ _ _ _ _ Hu Hr). lia. }
  assert (HleafK : ∀ va', vleaf s' T va' = vleaf s T va').
  { intros va'. unfold vleaf. by rewrite (leaf_words s s'). }
  split; [|exact HleafK]. split. exists Tu', held', Kh. split_and!.
  - destruct HK as [_ HtK HinK]. split; [apply HU'|by apply (pt_tree_words (ps_mem s))|].
    intros p a Hp. apply Hh. eauto.
  - done.
  - by etrans.
  - done.
  - intros q c Hq Hc. destruct (Tu !! q) as [c'|] eqn:Eq.
    + pose proof (get_insert Tu Tu' _ _ HT Eq) as E1. assert (c' = c) as -> by congruence. eauto.
    + destruct (Hnew q c Hq Eq) as [Hx _]. exfalso. by apply Hx, Hsub.
  - intros va' Hva. rewrite HleafK, <- (Hup va' Hva). apply Hout.
    intros Hr. pose proof (user_run _ _ _ _ _ Hu Hr). lia.
Qed.

(** ** The kernel's own table *)

(** In kernel space page numbers are addresses shifted. *)
Lemma vpn_kernel va : VM_OFFSET ≤ va < 2 ^ 64 → vpn va = va / 2 ^ 12 - (2 ^ 52 - 2 ^ 27).
Proof.
  rewrite VM_OFFSET_mask. intros Hva. unfold vpn.
  assert (2 ^ 52 - 2 ^ 26 ≤ va / 2 ^ 12 < 2 ^ 52).
  { split; [apply Z.div_le_lower_bound; lia|apply Z.div_lt_upper_bound; lia]. }
  symmetry. apply Z.mod_unique with (2 ^ 25 - 1); lia.
Qed.

(** All tables below the root serve the upper half of the address space, and the
    entries there are global. *)
Definition high (k : Z) : bool := bool_decide (256 ≤ k).
Definition upper (s : K) (T : gmap (list Z) Z) : Prop :=
  (∀ i r c, T !! (i :: r) = Some c → 256 ≤ i) ∧ table_entries high s T.

Definition kernel_table (s : K) (root : Z) : Prop := ∃ T held, pt_inv s T root held ∧ upper s T.

(** The index at the root of an address. *)
Lemma run_high va n va' : VM_OFFSET ≤ va < 2 ^ 64 → in_run va n va' → 256 ≤ px 2 va'.
Proof.
  intros Hva Hr. unfold in_run in Hr. rewrite (vpn_kernel va Hva) in Hr. rewrite (vpn_px va') in Hr.
  pose proof (px_range 2 va'). pose proof (px_range 1 va'). pose proof (px_range 0 va').
  rewrite VM_OFFSET_mask in Hva.
  assert (2 ^ 52 - 2 ^ 26 ≤ va / 2 ^ 12) by (apply Z.div_le_lower_bound; lia). lia.
Qed.

Lemma in_run_kernel va n va' : (PG_SIZE | va) → VM_OFFSET ≤ va < 2 ^ 64 → VM_OFFSET ≤ va' < 2 ^ 64 →
  in_run va n va' ↔ va ≤ va' < va + PG_SIZE * n.
Proof.
  rewrite PG_SIZE_pow2. intros [q Hq] Hva Hva'. unfold in_run. rewrite !vpn_kernel by done.
  rewrite Hq, Z.div_mul by lia.
  pose proof (Z.div_mod va' (2 ^ 12)). pose proof (Z.mod_pos_bound va' (2 ^ 12)). lia.
Qed.

(** The kernel maps its addresses to physical memory one to one. *)
Definition kentry (va : Z) (f : F) : Z := entry_new (from_pa (va / PG_SIZE * PG_SIZE - VM_OFFSET)) f.

Lemma kernel_map_spec s T root held pa va size f :
  pt_inv s T root held → upper s T → map_args pa va size f → VM_OFFSET ≤ va < 2 ^ 64 →
  pa_value pa = va - VM_OFFSET → contains f flag_G = true →
  (∃ pn, map F root pa va size f s = Panic pn ∧ pn ≠ OutOfFuel) ∨
  ∃ s' T' held', map F root pa va size f s = Ret ((), s') ∧ pt_inv s' T' root held' ∧ upper s' T' ∧
    ∀ va', VM_OFFSET ≤ va' < 2 ^ 64 → vleaf s' T' va' =
      if bool_decide (va ≤ va' < va + PG_SIZE * pages_of size) then Some (kentry va' f) else vleaf s T va'.
Proof.
  intros Hpt [Hup HG] Hargs Hva Epa Hg.
  destruct (map_spec s T root held pa va size f Hpt Hargs)
    as [?|(s' & T' & held' & E & Hpt' & _ & _ & Hin & Hout & _ & Hnew & _ & HG')]; [by left|right].
  pose proof (ma_va _ _ _ _ Hargs) as Hal.
  exists s', T', held'. split; [done|]. split; [done|]. split; [split|].
  - intros i r c Hc. destruct (T !! (i :: r)) as [c'|] eqn:Ec; [by apply (Hup i r c')|].
    destruct (Hnew _ _ Hc Ec) as (_ & va' & Hr & Hp). apply prefix_cons_inv_1 in Hp as ->.
    by eapply run_high.
  - apply HG'; [done|]. intros va' Hr. rewrite Hg. symmetry. by apply bool_decide_eq_true, (run_high va (pages_of size)).
  - intros va' Hva'. pose proof (in_run_kernel va (pages_of size) va' Hal Hva Hva') as Hrun.
    case_bool_decide as Hd.
    + rewrite (Hin va') by (by apply Hrun). unfold kentry. do 3 f_equal.
      rewrite Epa, !vpn_kernel, PG_SIZE_pow2 by done. destruct Hal as [q Hq]. rewrite PG_SIZE_pow2 in Hq.
      rewrite Hq, Z.div_mul by lia. lia.
    + apply Hout. by rewrite Hrun.
Qed.

Lemma new_table_spec s held : ps_held s held →
  (∃ pn, pt_new s = Panic pn ∧ pn ≠ OutOfFuel) ∨
  ∃ a s' T held', pt_new s = Ret (a, s') ∧ pt_inv s' T a held' ∧ upper s' T ∧ ∀ va, vleaf s' T va = None.
Proof.
  intros Hh. destruct (pt_new_spec s held Hh) as [?|(a & s' & E & Ha & Hh' & Hz & _)]; [by left|right].
  exists a, s', {[ [] := a ]}, ({[a]} ∪ held). split; [done|].
  assert (Hsing : ∀ i r, ({[ [] := a ]} : gmap (list Z) Z) !! (r ++ [i]) = None).
  { intros i r. apply lookup_singleton_ne. by destruct r. }
  split; [split; [done| |]|split].
  - split.
    + apply lookup_singleton_eq.
    + intros p q b [<- _]%lookup_singleton_Some [<- _]%lookup_singleton_Some. done.
    + intros p i b Hp. by rewrite Hsing in Hp.
    + intros p b i [<- <-]%lookup_singleton_Some _ Hi. exists 0. rewrite Hz, is_valid_0 by done.
      split; [done|]. apply (Hsing i []).
    + intros p b [<- _]%lookup_singleton_Some. split; [cbn; lia|constructor].
  - intros p b [_ <-]%lookup_singleton_Some. apply elem_of_union. left. by apply elem_of_singleton.
  - split; [by intros i r c [? _]%lookup_singleton_Some|].
    intros p b i e k r [<- <-]%lookup_singleton_Some _ Hi _ He Hv. rewrite Hz in He by done.
    injection He as <-. by rewrite is_valid_0 in Hv.
  - intros va. unfold vleaf, leaf. pose proof (Hsing (px 1 va) [px 2 va]) as E1. cbn [app] in E1. by rewrite E1.
Qed.
End tree.

(** ** Properties *)

Section properties.
Context {K : Type} `{PageSourceLaws K} {F : Type} `{BitflagsLaws F}.

(** Running [map] on a well-formed table gives one. *)
Lemma map_spec_wf (s : K) (root : Z) (pa : PhysAddr) (va size : Z) (f : F) :
  pt_wf (F := F) s root → map_args pa va size f →
  (∃ pn, map F root pa va size f s = Panic pn ∧ pn ≠ OutOfFuel) ∨
  ∃ s', map F root pa va size f s = Ret ((), s') ∧ pt_wf (F := F) s' root.
Proof.
  intros (T & held & Hpt) Hargs.
  destruct (map_spec s T root held pa va size f Hpt Hargs) as [?|(s' & T' & held' & E & Hpt' & _)];
    [by left|right]. exists s'. split; [done|]. by exists T', held'.
Qed.

(** What [map] does to the mappings. *)
Lemma map_mapping (s : K) (root : Z) (pa : PhysAddr) (va size : Z) (f : F) :
  pt_wf (F := F) s root → map_args pa va size f →
  (∃ pn, map F root pa va size f s = Panic pn ∧ pn ≠ OutOfFuel) ∨
  ∃ s', map F root pa va size f s = Ret ((), s') ∧ pt_wf (F := F) s' root ∧
    (∀ va', in_run va (pages_of size) va' → mapping (F := F) s' root va' =
       Some (entry_new (from_pa (pa_value pa + PG_SIZE * (vpn va' - vpn va))) f)) ∧
    (∀ va', ¬ in_run va (pages_of size) va' →
       mapping (F := F) s' root va' = mapping (F := F) s root va').
Proof.
  intros (T & held & Hpt) Hargs.
  destruct (map_spec s T root held pa va size f Hpt Hargs)
    as [?|(s' & T' & held' & E & Hpt' & _ & _ & Hin & Hout & _)]; [by left|right].
  exists s'. split; [done|]. split; [by exists T', held'|]. split.
  - intros va' Hr. rewrite (mapping_vleaf s' T' root held') by done. by apply Hin.
  - intros va' Hr. rewrite (mapping_vleaf s' T' root held'), (mapping_vleaf s T root held) by done.
    by apply Hout.
Qed.

(** Page table entries.  An entry made from a physical address below 2^56
    and flags gives back the page of that address and those flags; [is_valid],
    [is_global], [is_user] and the other single-flag tests read the bit of that
    flag, [is_leaf] is the disjunction of the permission bits; [set_invalid] and
    [set_unaccessed] clear their bit and keep the page. *)
Theorem entry_correct (pa : PhysAddr) (f : F) (e : Z) :
  0 ≤ pa_value pa < 2 ^ 56 → is_usize e →
  pa_value (entry_pa (entry_new pa f)) = pa_value pa - pa_value pa mod PG_SIZE ∧
  bits (entry_flag (F := F) (entry_new pa f)) = bits f ∧
  is_valid (F := F) e = Z.testbit e 0 ∧ is_user (F := F) e = Z.testbit e 4 ∧
  is_global (F := F) e = Z.testbit e 5 ∧ is_accessed (F := F) e = Z.testbit e 6 ∧
  is_dirty (F := F) e = Z.testbit e 7 ∧ is_executable (F := F) e = Z.testbit e 3 ∧
  is_rwable (F := F) e = Z.testbit e 1 && Z.testbit e 2 ∧
  is_leaf (F := F) e = Z.testbit e 1 || Z.testbit e 2 || Z.testbit e 3 ∧
  is_valid (F := F) (set_invalid (F := F) e) = false ∧
  is_accessed (F := F) (set_unaccessed (F := F) e) = false ∧
  entry_pa (set_invalid (F := F) e) = entry_pa e ∧
  entry_pa (set_unaccessed (F := F) e) = entry_pa e.
Proof.
  intros Hpa He. split.
  { rewrite entry_pa_new by done. rewrite PG_SIZE_pow2.
    pose proof (Z.div_mod (pa_value pa) (2 ^ 12)). lia. }
  split; [apply entry_flag_new|].
  split; [apply (contains_bit e 0); lia|]. split; [apply (contains_bit e 4); lia|].
  split; [apply (contains_bit e 5); lia|]. split; [apply (contains_bit e 6); lia|].
  split; [apply (contains_bit e 7); lia|]. split; [apply (contains_bit e 3); lia|].
  split_and!.
  - unfold is_rwable. rewrite contains_union. f_equal; [apply (contains_bit e 1)|apply (contains_bit e 2)]; lia.
  - unfold is_leaf. rewrite !intersects_union.
    f_equal; [f_equal; [apply (intersects_bit e 1)|apply (intersects_bit e 2)]|apply (intersects_bit e 3)]; lia.
  - rewrite is_valid_bit. etrans; [apply (clear_bit_spec e 0 0); lia|apply andb_false_r].
  - unfold is_accessed. etrans; [apply (contains_bit _ 6); lia|].
    etrans; [apply (clear_bit_spec e 6 6); lia|apply andb_false_r].
  - apply (entry_pa_clear e 0). lia.
  - apply (entry_pa_clear e 6). lia.
Qed.

(** C13: [map] of whole pages inside the address spaces terminates.  Unless the
    heap runs out of pages for tables, afterwards every page of the range maps to
    its physical page with the given flags, every other address maps to what it
    mapped to before, and lookups in the table never panic. *)
Theorem map_correct (s : K) (root : Z) (pa : PhysAddr) (va size : Z) (f : F) :
  pt_wf (F := F) s root → map_args pa va size f →
  (∃ pn, map F root pa va size f s = Panic pn ∧ pn ≠ OutOfFuel) ∨
  ∃ s', map F root pa va size f s = Ret ((), s') ∧ pt_wf (F := F) s' root ∧
    (∀ va', in_run va (pages_of size) va' → ∃ e, mapping (F := F) s' root va' = Some e ∧
       pa_value (entry_pa e) = pa_value pa + PG_SIZE * (vpn va' - vpn va) ∧
       bits (entry_flag (F := F) e) = bits f) ∧
    (∀ va', ¬ in_run va (pages_of size) va' →
       mapping (F := F) s' root va' = mapping (F := F) s root va') ∧
    (∀ va', ∃ r, get_pte F root va' s' = Ret (r, s')).
Proof.
  intros Hwf Hargs.
  destruct (map_mapping s root pa va size f Hwf Hargs) as [?|(s' & E & Hwf' & Hin & Hout)]; [by left|right].
  exists s'. split; [done|]. split; [done|]. split; [|split; [done|]].
  - intros va' Hr. rewrite (Hin va' Hr). eexists. split; [done|]. split; [|apply entry_flag_new].
    destruct Hargs as [[q Hq] _ ? Hpae _ _ _]. pose proof PG_SIZE_pow2. unfold in_run in Hr.
    rewrite entry_pa_new by (cbn [pa_value from_pa]; nia). cbn [pa_value from_pa].
    rewrite Hq. replace (q * PG_SIZE + PG_SIZE * (vpn va' - vpn va)) with ((q + (vpn va' - vpn va)) * 2 ^ 12) by lia.
    rewrite Z.div_mul by lia. lia.
  - intros va'. destruct Hwf' as (T' & held' & Hpt'). eexists. by apply (get_pte_spec s' T' root held').
Qed.

(** [translate].  Kernel addresses are returned as they are; an object that
    crosses a page is refused; a mapped user address gives the kernel address of
    its byte; without a last-level table the result is [None].  The code does not
    look at the valid bit, so an address without a mapping whose last-level table
    exists, with a zero entry, is translated to the kernel alias of physical page
    zero. *)
Theorem translate_correct (s : K) (root va len : Z) :
  pt_wf (F := F) s root → is_usize va → 0 < len ≤ PG_SIZE → 
  (in_kernel_space va = true → translate F root va len s = Ret (Some va, s)) ∧
  (in_kernel_space va = false →
    (va / PG_SIZE ≠ (va + len - 1) / PG_SIZE → translate F root va len s = Ret (None, s)) ∧
    (va / PG_SIZE = (va + len - 1) / PG_SIZE →
      (∀ e, mapping (F := F) s root va = Some e → pa_value (entry_pa e) < 2 ^ 38 →
         translate F root va len s = Ret (Some (pa_value (entry_pa e) + VM_OFFSET + va mod PG_SIZE), s)) ∧
      (get_pte F root va s = Ret (None, s) → translate F root va len s = Ret (None, s)) ∧
      (get_pte F root va s = Ret (Some 0, s) → mapping (F := F) s root va = None ∧
         translate F root va len s = Ret (Some (VM_OFFSET + va mod PG_SIZE), s)))).
Proof.
  intros (T & held & Hpt) Hva Hlen. pose proof PG_SIZE_pow2 as HPG.
  unfold translate. split; intros Hk; rewrite Hk; [done|].
  assert (Hlo : va < VM_OFFSET).
  { destruct (decide (VM_OFFSET ≤ va)) as [Hle|]; [|lia].
    rewrite (proj2 (in_kernel_space_iff va Hva) Hle) in Hk. done. }
  rewrite VM_OFFSET_mask in Hlo.
  assert (Ew : wrap64 (wrap64 (va + len) - 1) = va + len - 1).
  { rewrite (wrap_small 64 (va + len)) by (unfold in_range in *; lia).
    apply wrap_small. unfold in_range in *. lia. }
  rewrite Ew. unfold in_same_page.
  assert (Eo : Z.land va 0xFFF = va mod 2 ^ 12).
  { change 0xFFF with (Z.ones 12). by rewrite Z.land_ones by lia. }
  assert (Hor : ∀ q, 0 ≤ q → q * 2 ^ 12 < 2 ^ 38 →
    Z.lor (into_va (from_pa (q * 2 ^ 12))) (Z.land va 0xFFF) = q * 2 ^ 12 + VM_OFFSET + va mod PG_SIZE).
  { intros q Hq Hlt. rewrite Eo, HPG. unfold into_va. cbn [pa_value from_pa].
    rewrite wrap_small by (unfold in_range; rewrite VM_OFFSET_mask; lia).
    replace (q * 2 ^ 12 + VM_OFFSET) with (Z.shiftl (q + (2 ^ 52 - 2 ^ 26)) 12)
      by (rewrite Z.shiftl_mul_pow2, VM_OFFSET_mask by lia; lia).
    rewrite lor_shiftl_small by (try apply Z.mod_pos_bound; lia). by rewrite Z.shiftl_mul_pow2 by lia. }
  split; intros Hp.
  { by rewrite bool_decide_eq_false_2 by done. }
  rewrite bool_decide_eq_true_2 by done. cbn [negb]. unmonad.
  rewrite (get_pte_spec s T root held va Hpt). split_and!.
  - intros e He Hlt. rewrite (mapping_vleaf s T root held) in He by done. unfold vleaf in He.
    destruct (leaf s T va) as [e'|]; [|done]. cbn in He. destruct (is_valid e'); [|done].
    injection He as <-. unfold entry_pa in *. cbn [pa_value from_pa] in *.
    rewrite Z.shiftl_mul_pow2 in * by done.
    do 3 f_equal. apply Hor; [|done]. unfold entry_ppn. apply Z.land_nonneg. right. by vm_compute.
  - intros [= E]. by rewrite E.
  - intros [= E]. rewrite E. split.
    + rewrite (mapping_vleaf s T root held) by done. unfold vleaf. rewrite E. cbn. by rewrite is_valid_0.
    + do 3 f_equal. apply (Hor 0); lia.
Qed.


(** The permissions of the kernel's text and of its other memory. *)
Definition kernel_rx : F := fl_union (fl_union (fl_union flag_R flag_X) flag_G) flag_V.
Definition kernel_rw : F := fl_union (fl_union (fl_union flag_R flag_W) flag_G) flag_V.

(** What the kernel's table maps a kernel address to. *)
Definition kernel_map (etext ram_size va : Z) : option Z :=
  if bool_decide (MMIO_BASE ≤ va < MMIO_BASE + PG_SIZE) then Some (kentry va kernel_rw)
  else if bool_decide (PLIC_BASE ≤ va < PLIC_BASE + 0x400000) then Some (kentry va kernel_rw)
  else if bool_decide (etext ≤ va < etext + PG_SIZE * pages_of (VM_BASE + ram_size - etext))
  then Some (kentry va kernel_rw)
  else if bool_decide (KERN_BASE + VM_OFFSET ≤ va < etext) then Some (kentry va kernel_rx)
  else None.

Lemma kernel_flags_valid : (Z.testbit (bits kernel_rx) 0 = true ∧ Z.testbit (bits kernel_rw) 0 = true) ∧
  contains kernel_rx flag_G = true ∧ contains kernel_rw flag_G = true.
Proof.
  rewrite !contains_G. unfold kernel_rx, kernel_rw, flag_R, flag_X, flag_W, flag_G, flag_V.
  rewrite !bits_union, !bits_truncate. done.
Qed.

Lemma from_va_kernel va : VM_OFFSET ≤ va < 2 ^ 64 → from_va va = Ret (mkPhysAddr (va - VM_OFFSET)).
Proof.
  intros Hva. assert (Hr : is_usize va) by (unfold in_range; rewrite VM_OFFSET_mask in *; lia).
  unfold from_va. rewrite (proj2 (in_kernel_space_iff va Hr)) by lia. unmonad. cbn.
  rewrite wrap_small; [done|]. unfold in_range in *. rewrite VM_OFFSET_mask in *. lia.
Qed.

Lemma kernel_step s T root held va size f :
  pt_inv (F := F) s T root held → upper (F := F) s T → (PG_SIZE | va) → VM_OFFSET ≤ va →
  0 ≤ size ∧ va + size + PG_SIZE ≤ 2 ^ 64 → Z.testbit (bits f) 0 = true → contains f flag_G = true →
  (∃ pn, map F root (mkPhysAddr (va - VM_OFFSET)) va size f s = Panic pn ∧ pn ≠ OutOfFuel) ∨
  ∃ s' T' held', map F root (mkPhysAddr (va - VM_OFFSET)) va size f s = Ret ((), s') ∧
    pt_inv (F := F) s' T' root held' ∧ upper (F := F) s' T' ∧
    ∀ va', VM_OFFSET ≤ va' < 2 ^ 64 → vleaf (F := F) s' T' va' =
      if bool_decide (va ≤ va' < va + PG_SIZE * pages_of size) then Some (kentry va' f)
      else vleaf (F := F) s T va'.
Proof.
  intros Hpt Hup Hal Hlo Hsz Hf Hg. pose proof PG_SIZE_pow2 as HPG. pose proof VM_OFFSET_mask as HV.
  pose proof (pages_of_bounds size ltac:(lia)) as [Hn0 Hn].
  assert (Hva : VM_OFFSET ≤ va < 2 ^ 64) by lia.
  apply (kernel_map_spec s T root held); [done|done| |done|done|done].
  split; cbn [pa_value]; [|done|lia|lia|lia| |done].
  - apply Z.divide_sub_r; [done|]. rewrite HPG, HV. by exists (2 ^ 52 - 2 ^ 26).
  - rewrite vpn_kernel by done. destruct Hal as [q Hq]. rewrite HPG in *. rewrite Hq, Z.div_mul by lia. lia.
Qed.

Lemma satp_roundtrip s held root : ps_held s held → root ∈ held →
  ∃ satp, satp_of root = Ret satp ∧ effective_pagetable satp s = Ret (root, s).
Proof.
  intros Hh Hin. destruct (from_va_page s held root Hh Hin) as (E & Hr & [q Hq]).
  unfold satp_of. rewrite E. unmonad. eexists. split; [reflexivity|].
  unfold effective_pagetable, pa_ppn. cbn [pa_value].
  change PG_SHIFT with 12. rewrite Hq, Z.shiftr_div_pow2, Z.div_mul by lia.
  assert (Ep : Z.land (Z.lor q SV39_MODE) PPN_MASK = q).
  { change PPN_MASK with (Z.ones 44). rewrite Z.land_lor_distr_l, Z.land_ones by lia.
    rewrite Z.mod_small by lia. change (Z.land SV39_MODE (Z.ones 44)) with 0. apply Z.lor_0_r. }
  rewrite Ep. unfold into_va. cbn [pa_value from_pa]. rewrite Z.shiftl_mul_pow2, <- Hq by lia.
  pose proof (ps_page s held root Hh Hin) as (Hal & Hlo & Hhi & _). pose proof PG_SIZE_pow2. pose proof VM_OFFSET_mask.
  rewrite wrap_small by (unfold in_range; lia). replace (root - VM_OFFSET + VM_OFFSET) with root by lia.
  by apply from_raw_spec.
Qed.

(** The kernel's table.  Unless the heap is exhausted, [init_inner] builds a
    table that maps every kernel address one to one: the text read-only and
    executable, data and RAM up to [ram_size] writable and not executable, the PLIC
    and the virtio device writable, and nothing else; the address it loads into
    [satp] is found again by [effective_pagetable]. *)
Theorem init_inner_correct (s : K) (held : gset Z) (etext ram_size : Z) :
  ps_held s held → (PG_SIZE | etext) → KERN_BASE + VM_OFFSET ≤ etext ≤ VM_BASE + ram_size →
  0 ≤ ram_size ≤ 2 ^ 36 →
  (∃ pn, init_inner F etext ram_size s = Panic pn ∧ pn ≠ OutOfFuel) ∨
  ∃ root s', init_inner F etext ram_size s = Ret (root, s') ∧ kernel_table (F := F) s' root ∧
    (∀ va, VM_OFFSET ≤ va < 2 ^ 64 → mapping (F := F) s' root va = kernel_map etext ram_size va) ∧
    ∃ satp, satp_of root = Ret satp ∧ effective_pagetable satp s' = Ret (root, s').
Proof.
  intros Hh Hal Het Hram. pose proof PG_SIZE_pow2 as HPG. unfold init_inner. fold kernel_rx kernel_rw.
  change (wrap64 (KERN_BASE + VM_OFFSET)) with (KERN_BASE + VM_OFFSET).
  change (from_pa KERN_BASE) with (mkPhysAddr (KERN_BASE + VM_OFFSET - VM_OFFSET)).
  assert (Hc : VM_OFFSET = 2 ^ 64 - 2 ^ 38 ∧ VM_BASE = 2 ^ 64 - 2 ^ 38 + 2 ^ 31 ∧
    KERN_BASE + VM_OFFSET = 2 ^ 64 - 2 ^ 38 + 2 ^ 31 + 2 ^ 21 ∧ PLIC_BASE = 2 ^ 64 - 2 ^ 38 + 0xC000000 ∧
    MMIO_BASE = 2 ^ 64 - 2 ^ 38 + 0x10001000) by done.
  destruct Hc as (C1 & C2 & C3 & C4 & C5).
  cbn zeta. rewrite (wrap_small 64 (VM_BASE + ram_size)) by (unfold in_range; lia).
  rewrite (wrap_small 64 (VM_BASE + ram_size - etext)) by (unfold in_range; lia).
  rewrite (wrap_small 64 (etext - (KERN_BASE + VM_OFFSET))) by (unfold in_range; lia).
  unmonad. destruct (new_table_spec s held Hh)
    as [(pn & -> & Hpn)|(root & s1 & T1 & held1 & -> & Hp1 & Hu1 & Hl1)]; [left; eauto|].
  destruct (kernel_step s1 T1 root held1 (KERN_BASE + VM_OFFSET) (etext - (KERN_BASE + VM_OFFSET)) kernel_rx)
    as [(pn & -> & Hpn)|(s2 & T2 & held2 & -> & Hp2 & Hu2 & Hl2)];
    [done|done|by apply Z.mod_divide|lia|lia|apply kernel_flags_valid|apply kernel_flags_valid|left; eauto|].
  rewrite from_va_kernel by lia.
  destruct (kernel_step s2 T2 root held2 etext (VM_BASE + ram_size - etext) kernel_rw)
    as [(pn & -> & Hpn)|(s3 & T3 & held3 & -> & Hp3 & Hu3 & Hl3)];
    [done|done|done|lia|lia|apply kernel_flags_valid|apply kernel_flags_valid|left; eauto|].
  rewrite from_va_kernel by lia.
  destruct (kernel_step s3 T3 root held3 PLIC_BASE 0x400000 kernel_rw)
    as [(pn & -> & Hpn)|(s4 & T4 & held4 & -> & Hp4 & Hu4 & Hl4)];
    [done|done|by apply Z.mod_divide|lia|lia|apply kernel_flags_valid|apply kernel_flags_valid|left; eauto|].
  rewrite from_va_kernel by lia.
  destruct (kernel_step s4 T4 root held4 MMIO_BASE PG_SIZE kernel_rw)
    as [(pn & -> & Hpn)|(s5 & T5 & held5 & -> & Hp5 & Hu5 & Hl5)];
    [done|done|by apply Z.mod_divide|lia|lia|apply kernel_flags_valid|apply kernel_flags_valid|left; eauto|right].
  assert (Hroot : root ∈ held5) by (apply (pi_tables _ _ _ _ Hp5 []), (pt_root _ _ _ (pi_tree _ _ _ _ Hp5))).
  destruct (satp_roundtrip s5 held5 root (pi_held _ _ _ _ Hp5) Hroot) as (satp & Es & Ee).
  exists root, s5. rewrite Es. split; [done|]. split; [by exists T5, held5|]. split; [|eauto].
  intros va Hva. rewrite (mapping_vleaf s5 T5 root held5) by done.
  rewrite Hl5, Hl4, Hl3, Hl2, Hl1 by done. unfold kernel_map.
  replace (PG_SIZE * pages_of PG_SIZE) with PG_SIZE by done.
  replace (PG_SIZE * pages_of 0x400000) with 0x400000 by done.
  replace (KERN_BASE + VM_OFFSET + PG_SIZE * pages_of (etext - (KERN_BASE + VM_OFFSET))) with etext; [done|].
  destruct Hal as [q Hq]. rewrite HPG in Hq.
  replace (etext - (KERN_BASE + VM_OFFSET)) with ((q - (2 ^ 52 - 2 ^ 26 + 2 ^ 19 + 2 ^ 9)) * 2 ^ 12) by lia.
  unfold pages_of. rewrite HPG. rewrite <- Z.add_sub_assoc, Z.div_add_l by lia.
  change ((2 ^ 12 - 1) / 2 ^ 12) with 0. lia.
Qed.
End properties.

(** ** The kernel heap is a source of pages *)

Section heap_pages.
Abbreviation mem_of h := (ba_mem (hp_pool h)).
Context `{HeapLayout}.

#[export] Instance heap_source : PageSource Heap := {
  ps_mem h := mem_of h;
  ps_set m h := with_mem h m;
  kalloc_page := kalloc PG_SIZE PG_SIZE;
  kfree_page p := kfree p PG_SIZE PG_SIZE;
}.

Definition page_obj (a : Z) : Obj := mkObj a PG_SIZE PG_SIZE.

(** The pages are live objects of a heap that lies in kernel space. *)
Definition heap_held (h : Heap) (T : gset Z) : Prop :=
  ∃ region objs, objs_inv region h objs ∧ (∀ a, a ∈ region → VM_OFFSET ≤ a) ∧
    ∀ a, a ∈ T → page_obj a ∈ objs.

Lemma page_req : req_ok PG_SIZE PG_SIZE.
Proof. split; [by vm_compute|]. exists 12. by rewrite PG_SIZE_pow2. Qed.

Lemma page_layout : layout_ok PG_SIZE PG_SIZE = Ret ().
Proof. by vm_compute. Qed.

Lemma page_extent a k : 0 ≤ k < PG_SIZE → extent (page_obj a) (a + k).
Proof. unfold extent. cbn. lia. Qed.

Lemma page_extent0 a : extent (page_obj a) a.
Proof. rewrite <- (Z.add_0_r a) at 2. by apply page_extent. Qed.

Lemma heap_page_spec h T a : heap_held h T → a ∈ T →
  (PG_SIZE | a) ∧ VM_OFFSET ≤ a ∧ a + PG_SIZE ≤ 2 ^ 64 ∧ page_mapped (mem_of h) a.
Proof.
  intros (region & objs & [Hok (vs & outs & Hh & Hb & Hs)] & Hk & HT) Ha.
  destruct (big_place region h objs vs outs Hok Hh Hb (page_obj a) a) as (pg & Hpg & Hpo & _);
    [by apply HT|by vm_compute|apply page_extent0|].
  cbn [o_pages o_size o_ptr page_obj] in Hpg. change ((PG_SIZE + PG_SIZE - 1) / PG_SIZE) with 1 in Hpg.
  rewrite block_pages_one in Hpg. apply list_elem_of_singleton in Hpg as ->.
  destruct (held_in_region region h vs outs Hh a) as [Hr Hal]; [apply elem_of_app; by right|].
  pose proof (ci_region _ _ _ _ (hi_client _ _ _ _ Hh)) as [_ Hm _ Hrg].
  split_and!; [done|by apply Hk|by apply Hrg|by apply Hm].
Qed.

Lemma keeps_page objs h h' b x : keeps objs h h' → page_obj b ∈ objs → b ≤ x < b + PG_SIZE →
  mem_of h' !! x = mem_of h !! x.
Proof. intros Hk Hb Hx. by apply (Hk (page_obj b)). Qed.

#[export] Program Instance heap_source_laws : PageSourceLaws Heap := {
  ps_held := heap_held;
}.
Next Obligation. done. Qed.
Next Obligation. done. Qed.
Next Obligation. apply with_mem_id. Qed.
Next Obligation. intros h T a. apply heap_page_spec. Qed.
Next Obligation.
  intros h T (region & objs & Hi & Hk & HT). cbn. unfold kalloc. unmonad. rewrite page_layout.
  destruct (heap_alloc_spec region h objs PG_SIZE PG_SIZE Hi page_req)
    as [[E|[_ E]]|(a & h' & E & _ & Hi' & Hkeep)]; [left; rewrite E; eauto|left; rewrite E; eauto|right].
  exists a, h'. split; [done|]. split; [|split].
  - intros Ha. pose proof (HT a Ha) as Hin. apply list_elem_of_split in Hin as (l1 & l2 & ->).
    destruct Hi' as [Hok (vs & outs & Hh & Hb & Hs)].
    apply (live_disjoint region h' _ vs outs Hok Hh Hb Hs (page_obj a) (page_obj a) (l1 ++ l2) a);
      [by rewrite <- Permutation_middle|apply page_extent0..].
  - exists region, (page_obj a :: objs). split; [done|]. split; [done|].
    intros b [->%elem_of_singleton|Hb]%elem_of_union; [left|right; auto].
  - intros b x Hb Hx. apply (keeps_page objs h h' b x Hkeep); auto.
Qed.
Next Obligation.
  intros h T a (region & objs & Hi & Hk & HT) Ha. cbn. unfold kfree. unmonad. rewrite page_layout.
  pose proof (HT a Ha) as Hin. apply elem_of_Permutation in Hin as [objs' Hp].
  destruct (heap_dealloc_spec region h objs (page_obj a) objs' Hi Hp) as (h' & E & Hi' & Hkeep).
  assert (Hin' : ∀ b, b ∈ T → b ≠ a → page_obj b ∈ objs').
  { intros b Hb Hne. apply HT in Hb. rewrite Hp in Hb. apply elem_of_cons in Hb as [[= ->]|Hb]; done. }
  exists h'. split; [exact E|]. split.
  - exists region, objs'. split; [done|]. split; [done|].
    intros b [Hb Hne]%elem_of_difference. apply Hin'; [done|]. by apply not_elem_of_singleton in Hne.
  - intros b x Hb Hne Hx. apply (keeps_page objs' h h' b x Hkeep); auto.
Qed.
Next Obligation.
  intros h T a k v Hh Ha Hk. pose proof (heap_page_spec h T a Hh Ha) as (_ & _ & _ & Hm).
  destruct Hh as (region & objs & Hi & Hreg & HT). exists region, objs. split; [|done]. cbn.
  apply (heap_write_inv region h objs (page_obj a)); [done|auto| |by apply Hm].
  apply page_extent. rewrite PG_SIZE_pow2. lia.
Qed.
End heap_pages.

(** ** A concrete table *)

(** Flags as numbers, of which the low eight bits count. *)
Definition byte_flags : Type := Z.

#[export] Instance byte_bitflags : Bitflags byte_flags := {
  bits f := Z.land f 255;
  from_bits_truncate n := Z.land n 255;
  contains f g := bool_decide (Z.land (Z.land f 255) (Z.land g 255) = Z.land g 255);
  intersects f g := bool_decide (Z.land (Z.land f 255) (Z.land g 255) ≠ 0);
  fl_union := Z.lor;
  fl_set f g b := if b then Z.lor f g else Z.land f (Z.lnot g);
}.

#[export] Program Instance byte_bitflags_laws : BitflagsLaws byte_flags.
Next Obligation.
  intros f. cbn. change 255 with (Z.ones 8). rewrite Z.land_ones by lia. by apply Z.mod_pos_bound.
Qed.
Next Obligation. intros n. cbn. by rewrite <- Z.land_assoc. Qed.
Next Obligation. done. Qed.
Next Obligation. done. Qed.
Next Obligation. intros f g. cbn. apply Z.land_lor_distr_l. Qed.
Next Obligation.
  intros f g b. cbn. destruct b; [apply Z.land_lor_distr_l|].
  apply Z.bits_inj'. intros n Hn. rewrite !Z.land_spec, !Z.lnot_spec, Z.land_spec by done.
  by destruct (Z.testbit f n), (Z.testbit g n), (Z.testbit 255 n).
Qed.

(** A table with no entries on the heap of [Malloc.v], and one with the pages at
    0x10000 and 0x11000 mapped. *)
Definition demo_table : outcome (Z * Heap) :=
  r ← insert_range demo_base demo_start demo_end (empty heap_memory) ;
  h ← heap_new r.2 ;
  pt_new h.

Definition demo_pa : PhysAddr := mkPhysAddr 0x80300000.

Definition demo_mapped : outcome (Z * Heap) :=
  t ← demo_table ;
  m ← map byte_flags t.1 demo_pa 0x10000 0x1800 0x17 t.2 ;
  mret (t.1, m.2).

Lemma demo_held : ∃ s h, insert_range demo_base demo_start demo_end (empty heap_memory) = Ret ((), s) ∧
  heap_new s = Ret h ∧ ps_held h ∅.
Proof.
  destruct demo_heap_start as (s & E & Hs). destruct (heap_new_inv demo_region s Hs) as (h & E' & Hi & _).
  exists s, h. split; [done|]. split; [done|]. exists demo_region, []. split; [done|]. split; [|done].
  intros a Ha. rewrite demo_region_eq in Ha. apply list_elem_of_fmap in Ha as (k & -> & Hk).
  rewrite !elem_of_cons, elem_of_nil in Hk. unfold VM_OFFSET, VM_BASE, PM_BASE. lia.
Qed.

Definition returns {A} (o : outcome A) : bool := match o with Ret _ => true | Panic _ => false end.

Lemma demo_table_ok : ∃ root h, demo_table = Ret (root, h) ∧ kernel_table (F := byte_flags) h root ∧
  pt_wf (F := byte_flags) h root ∧ ∀ va, mapping (F := byte_flags) h root va = None.
Proof.
  assert (Hrun : returns demo_table = true) by (by vm_compute).
  destruct demo_held as (s & h & E & E' & Hh). revert Hrun. unfold demo_table.
  rewrite E. unfold mbind, outcome_bind. cbn [snd]. rewrite E'.
  destruct (new_table_spec (F := byte_flags) h ∅ Hh)
    as [(pn & -> & _)|(a & h' & T & held & -> & Hpt & Hup & Hl)]; [done|intros _].
  exists a, h'. split; [reflexivity|]. split; [exists T, held; split; [exact Hpt|exact Hup]|].
  split; [exists T, held; exact Hpt|].
  intros va. rewrite (mapping_vleaf h' T a held) by exact Hpt. apply Hl.
Qed.

Lemma demo_map_args : map_args (F := byte_flags) demo_pa 0x10000 0x1800 0x17.
Proof. split; [by apply Z.mod_divide|by apply Z.mod_divide|by vm_compute..]. Qed.

Lemma demo_runs : in_run 0x10000 (pages_of 0x1800) 0x11008 ∧ ¬ in_run 0x10000 (pages_of 0x1800) 0x12008 ∧
  pa_value demo_pa + PG_SIZE * (vpn 0x11008 - vpn 0x10000) = 0x80301000.
Proof. split; [by vm_compute|]. split; [|by vm_compute]. by intros [_ Hx]. Qed.

(** The two flags are kept and the address below a page is dropped. *)
Lemma entry_correct_witness :
  let e := entry_new (F := byte_flags) (mkPhysAddr 0x80301234) 0x17 in
  pa_value (entry_pa e) = 0x80301000 ∧ is_valid (F := byte_flags) e = true ∧
  is_valid (F := byte_flags) (set_invalid (F := byte_flags) e) = false.
Proof.
  intros e.
  destruct (entry_correct (F := byte_flags) (mkPhysAddr 0x80301234) 0x17 e)
    as (H1 & _ & H2 & _ & _ & _ & _ & _ & _ & _ & H3 & _); [cbn; lia|unfold e; clear; by vm_compute|].
  split; [etrans; [exact H1|by vm_compute]|]. split; [etrans; [exact H2|by vm_compute]|exact H3].
Defined.

Lemma map_correct_witness : ∃ root h h',
  map byte_flags root demo_pa 0x10000 0x1800 0x17 h = Ret ((), h') ∧
  (∃ e, mapping (F := byte_flags) h' root 0x11008 = Some e ∧ pa_value (entry_pa e) = 0x80301000) ∧
  mapping (F := byte_flags) h' root 0x12008 = None.
Proof.
  destruct demo_table_ok as (root & h & E & _ & Hwf & Hnone).
  assert (Hrun : returns demo_mapped = true) by (by vm_compute).
  unfold demo_mapped in Hrun. rewrite E in Hrun. unfold mbind, outcome_bind in Hrun. cbn [fst snd] in Hrun.
  destruct (map_correct (F := byte_flags) h root demo_pa 0x10000 0x1800 0x17 Hwf demo_map_args)
    as [(pn & Ep & _)|(h' & Em & _ & Hin & Hout & _)]; [by rewrite Ep in Hrun|].
  exists root, h, h'. split; [exact Em|]. split.
  - destruct (Hin 0x11008) as (e & He & Hpa & _); [apply demo_runs|]. exists e. split; [exact He|].
    etrans; [exact Hpa|apply demo_runs].
  - etrans; [apply Hout, demo_runs|apply Hnone].
Defined.

(** The page at 0x12000 has no mapping, and yet is translated. *)
Lemma translate_correct_witness : ∃ root h,
  mapping (F := byte_flags) h root 0x12008 = None ∧
  translate byte_flags root 0x12008 8 h = Ret (Some (VM_OFFSET + 8), h) ∧
  translate byte_flags root 0x12FFC 8 h = Ret (None, h).
Proof.
  destruct demo_table_ok as (root & h & E & _ & Hwf & _).
  assert (Hrun : match demo_mapped with
    | Ret (root, h) => match get_pte byte_flags root 0x12008 h with Ret (Some e, _) => bool_decide (e = 0) | _ => false end
    | _ => false end = true) by (by vm_compute).
  unfold demo_mapped in Hrun. rewrite E in Hrun. unfold mbind, outcome_bind in Hrun. cbn [fst snd] in Hrun.
  destruct (map_spec_wf (F := byte_flags) h root demo_pa 0x10000 0x1800 0x17 Hwf demo_map_args)
    as [(pn & Ep & _)|(h' & Em & Hwf')]; [by rewrite Ep in Hrun|]. rewrite Em in Hrun. cbn [fst snd mret outcome_ret] in Hrun.
  destruct Hwf' as (T & held & Hpt). clear E Em.
  assert (E0 : get_pte byte_flags root 0x12008 h' = Ret (Some 0, h')).
  { pose proof (get_pte_spec h' T root held 0x12008 Hpt) as G. rewrite G in Hrun. rewrite G.
    destruct (leaf h' T 0x12008) as [e|]; [|discriminate Hrun].
    apply bool_decide_eq_true in Hrun. subst e. reflexivity. }
  exists root, h'.
  assert (Hwf' : pt_wf (F := byte_flags) h' root) by (exists T, held; exact Hpt).
  destruct (translate_correct (F := byte_flags) h' root 0x12008 8 Hwf') as [_ Hu]; [by vm_compute|by vm_compute|].
  destruct (Hu eq_refl) as [_ Hu']. destruct (Hu' eq_refl) as (_ & _ & Hz). destruct (Hz E0) as [Hz1 Hz2].
  destruct (translate_correct (F := byte_flags) h' root 0x12FFC 8 Hwf') as [_ Hv]; [by vm_compute|by vm_compute|].
  destruct (Hv eq_refl) as [Hv' _]. split; [exact Hz1|]. split; [exact Hz2|].
  apply Hv'. by vm_compute.
Defined.


Lemma init_inner_correct_witness : ∃ h : Heap,
  (∃ pn, init_inner byte_flags (VM_BASE + 0x300000) 0x800000 h = Panic pn ∧ pn ≠ OutOfFuel) ∨
  ∃ root h', init_inner byte_flags (VM_BASE + 0x300000) 0x800000 h = Ret (root, h') ∧
    kernel_table (F := byte_flags) h' root ∧
    (∀ va, VM_OFFSET ≤ va < 2 ^ 64 →
       mapping (F := byte_flags) h' root va = kernel_map (VM_BASE + 0x300000) 0x800000 va) ∧
    ∃ satp, satp_of root = Ret satp ∧ effective_pagetable satp h' = Ret (root, h').
Proof.
  destruct demo_held as (s & h & _ & _ & Hh). exists h.
  apply (init_inner_correct (F := byte_flags) h ∅ (VM_BASE + 0x300000) 0x800000 Hh);
    [by apply Z.mod_divide|by vm_compute|by vm_compute].
Defined.
