(* ===== verification/Owned.v ===== *)
(** * What an address space owns

    A user page table shares the tables of the kernel and has its own for the
    lower half of the address space.  [owned_of] reads off a table what
    [PageTable::destroy] would free; [user_space] is the invariant of a table
    made by [KernelPgTable::clone] and [map]: its own tables and user pages are
    exactly what was allocated for it, no page is mapped twice, and [owned_of]
    finds each of them once. *)

From S2P Require Import Prelude Utils InMemList Palloc PallocClients Malloc PageTable.

Section Owned.
Context {F : Type} `{Bitflags F}.

(** What an entry leads to. *)
Definition entry_owned (sub : Z → option (list Z * list Z)) (last : bool) (e : Z) : option (list Z * list Z) :=
  if is_valid (F := F) e && negb (is_global (F := F) e) then
    if is_leaf (F := F) e then
      if last then Some ([], [into_va (entry_pa e)]) else None
    else if last then None else sub (into_va (entry_pa e))
  else Some ([], []).

(** The tables, from the root on, and the user pages below a table, in the order
    of [destroy]: what its entries that are valid and not global lead to.
    [None]: a leaf above the last level, a table below it, or a word that is not
    mapped. *)
Fixpoint owned_entries (sub : Z → option (list Z * list Z)) (last : bool) (m : memory)
    (pgt : Z) (ks : list Z) : option (list Z * list Z) :=
  match ks with
  | [] => Some ([], [])
  | k :: ks =>
      e ← m !! (pgt + 8 * k) ;
      r ← entry_owned sub last e ;
      rs ← owned_entries sub last m pgt ks ;
      Some (r.1 ++ rs.1, r.2 ++ rs.2)
  end.

Fixpoint owned_of (level : nat) (m : memory) (pgt : Z) : option (list Z * list Z) :=
  r ← owned_entries (match level with O => λ _, None | S l => owned_of l m end)
        (match level with O => true | _ => false end) m pgt (seqZ 0 NENTRY) ;
  Some (r.1 ++ [pgt], r.2).

(** A row of entries whose lists are disjoint; [Q k] and [R k] say what the tables
    and the pages of entry [k] are. *)
Lemma owned_entries_run sub last m pgt (Q R : Z → Z → Prop) ks : NoDup ks →
  (∀ k, k ∈ ks → ∃ e ts ps, m !! (pgt + 8 * k) = Some e ∧ entry_owned sub last e = Some (ts, ps) ∧
     NoDup ts ∧ NoDup ps ∧ (∀ x, x ∈ ts ↔ Q k x) ∧ (∀ x, x ∈ ps ↔ R k x)) →
  (∀ k k' x, Q k x → Q k' x → k = k') → (∀ k k' x, R k x → R k' x → k = k') →
  ∃ ts ps, owned_entries sub last m pgt ks = Some (ts, ps) ∧ NoDup ts ∧ NoDup ps ∧
    (∀ x, x ∈ ts ↔ ∃ k, k ∈ ks ∧ Q k x) ∧ (∀ x, x ∈ ps ↔ ∃ k, k ∈ ks ∧ R k x).
Proof.
  intros Hnd Hks HQ HR. induction ks as [|k ks IH]; cbn [owned_entries].
  { exists [], []. split; [done|]. split; [constructor|]. split; [constructor|].
    split; intros x; (split; [by intros ?%elem_of_nil|by intros (j & ?%elem_of_nil & _)]). }
  apply NoDup_cons in Hnd as [Hk Hnd].
  destruct (Hks k) as (e & ts & ps & He & Ho & Nt & Np & Et & Ep); [left|]. rewrite He. cbn [mbind option_bind].
  rewrite Ho. cbn [mbind option_bind].
  destruct IH as (ts' & ps' & -> & Nt' & Np' & Et' & Ep'); [done|intros j Hj; apply Hks; by right|].
  exists (ts ++ ts'), (ps ++ ps'). split; [done|]. split; [|split; [|split]].
  - apply NoDup_app. split; [done|]. split; [|done]. intros x Hx%Et (j & Hj & Hx')%Et'.
    by rewrite (HQ k j x) in Hk.
  - apply NoDup_app. split; [done|]. split; [|done]. intros x Hx%Ep (j & Hj & Hx')%Ep'.
    by rewrite (HR k j x) in Hk.
  - intros x. rewrite elem_of_app, Et, Et'. setoid_rewrite elem_of_cons. naive_solver.
  - intros x. rewrite elem_of_app, Ep, Ep'. setoid_rewrite elem_of_cons. naive_solver.
Qed.
End Owned.

(** ** User tables *)

Section UserSpace.
Context {K : Type} `{PageSourceLaws K} {F : Type} `{BitflagsLaws F}.
Implicit Types (T : gmap (list Z) Z).

(** Paths and addresses of the lower half. *)
Definition low (q : list Z) : Prop := ∀ i r, q = i :: r → i < 256.
Definition path3 (va : Z) : list Z := [px 2 va; px 1 va; px 0 va].

(** [pages] are the user pages mapped by [root], each once; of the tables of [root]
    those of the lower half, the root among them, are its own, and all the others
    are among the pages [held0], which are not its own. *)
Record user_space (s : K) (root : Z) (held0 pages : gset Z) (T : gmap (list Z) Z) (held : gset Z) : Prop := {
  us_inv : pt_inv (F := F) s T root held;
  us_entries : table_entries (F := F) high s T;
  us_held x : x ∈ held ↔ x ∈ held0 ∨ ∃ q, low q ∧ T !! q = Some x;
  us_own q x : low q → T !! q = Some x → x ∉ held0;
  us_leaf va e : px 2 va < 256 → vleaf (F := F) s T va = Some e →
    is_leaf (F := F) e = true ∧ is_global (F := F) e = false ∧ into_va (entry_pa e) ∈ pages;
  us_once va va' e e' : px 2 va < 256 → px 2 va' < 256 →
    vleaf (F := F) s T va = Some e → vleaf (F := F) s T va' = Some e' →
    into_va (entry_pa e) = into_va (entry_pa e') → vpn va = vpn va';
  us_mapped x : x ∈ pages → ∃ va e, px 2 va < 256 ∧ vleaf (F := F) s T va = Some e ∧ into_va (entry_pa e) = x
}.

(** The address with given indices. *)
Lemma px_of i j k : 0 ≤ i < 512 → 0 ≤ j < 512 → 0 ≤ k < 512 →
  let va := i * 2 ^ 30 + j * 2 ^ 21 + k * 2 ^ 12 in px 2 va = i ∧ px 1 va = j ∧ px 0 va = k.
Proof.
  intros Hi Hj Hk va. rewrite !px_div by lia. unfold va.
  change (2 ^ (12 + 9 * 2)) with (2 ^ 30). change (2 ^ (12 + 9 * 1)) with (2 ^ 21).
  change (2 ^ (12 + 9 * 0)) with (2 ^ 12). split_and!.
  - replace (_ / 2 ^ 30) with i; [apply Z.mod_small; lia|].
    apply Z.div_unique with (j * 2 ^ 21 + k * 2 ^ 12); lia.
  - replace (_ / 2 ^ 21) with (j + i * 2 ^ 9) by (apply Z.div_unique with (k * 2 ^ 12); lia).
    rewrite Z_mod_plus_full. apply Z.mod_small. lia.
  - replace (_ / 2 ^ 12) with (k + (j + i * 2 ^ 9) * 2 ^ 9) by (apply Z.div_unique with 0; lia).
    rewrite Z_mod_plus_full. apply Z.mod_small. lia.
Qed.

(** Prefixes of paths in the tree are in the tree. *)
Lemma tree_prefix s T root held p q : pt_inv (F := F) s T root held →
  is_Some (T !! (p ++ q)) → is_Some (T !! p).
Proof.
  intros Hpt. induction q as [|k q IH] using rev_ind; [by rewrite app_nil_r|].
  rewrite app_assoc. intros [x Hx]. apply IH. by eapply (pt_parent _ _ _ (pi_tree _ _ _ _ Hpt)).
Qed.

Section Tree.
Context (s : K) (root : Z) (held0 pages : gset Z) (T : gmap (list Z) Z) (held : gset Z).
Context (US : user_space s root held0 pages T held).

(** The tables and pages found below the path [p]. *)
Definition tables_at (p : list Z) (x : Z) : Prop := ∃ q, low (p ++ q) ∧ T !! (p ++ q) = Some x.
Definition pages_at (p : list Z) (x : Z) : Prop := ∃ va e, px 2 va < 256 ∧ p `prefix_of` path3 va ∧
  vleaf (F := F) s T va = Some e ∧ into_va (entry_pa e) = x.

Lemma tables_at_once p k k' x : tables_at (p ++ [k]) x → tables_at (p ++ [k']) x → k = k'.
Proof.
  intros (q & _ & Hq) (q' & _ & Hq').
  pose proof (pt_inj _ _ _ (pi_tree _ _ _ _ (us_inv _ _ _ _ _ _ US)) _ _ _ Hq Hq') as E.
  rewrite <-!app_assoc in E. apply app_inv_head in E. by injection E.
Qed.

Lemma pages_at_once p k k' x : pages_at (p ++ [k]) x → pages_at (p ++ [k']) x → k = k'.
Proof.
  intros (va & e & Hlo & [r Hp] & Hv & He) (va' & e' & Hlo' & [r' Hp'] & Hv' & He').
  assert (E : vpn va = vpn va') by (apply (us_once _ _ _ _ _ _ US va va' e e'); [done..|by rewrite He, He']).
  apply vpn_inj in E as (E2 & E1 & E0). assert (Ep : path3 va = path3 va') by (unfold path3; by rewrite E2, E1, E0).
  rewrite Hp, Hp', <-!app_assoc in Ep. apply app_inv_head in Ep. by injection Ep.
Qed.

Lemma low_app p q : p ≠ [] → low p → low (p ++ q).
Proof. intros Hne Hl i r E. destruct p as [|j p]; [done|]. injection E as <- <-. by apply (Hl j p). Qed.

Lemma low_prefix p q : low (p ++ q) → low p.
Proof. intros Hl i r ->. by apply (Hl i (r ++ q)). Qed.

(** Nothing is below an index that is not valid, or that is the kernel's. *)
Lemma nothing_at p k : T !! (p ++ [k]) = None → (length p < 2)%nat → ∀ x,
  ¬ tables_at (p ++ [k]) x ∧ ¬ pages_at (p ++ [k]) x.
Proof.
  intros Hn Hl x. pose proof (us_inv _ _ _ _ _ _ US) as Hpt. split.
  - intros (q & _ & Hq). destruct (tree_prefix s T root held (p ++ [k]) q Hpt) as [y Hy]; [by eexists|congruence].
  - intros (va & e & _ & [r Hr] & Hv & _).
    assert (Hs : is_Some (T !! [px 2 va; px 1 va])).
    { unfold vleaf, leaf in Hv. destruct (T !! [px 2 va; px 1 va]); [by eexists|done]. }
    unfold path3 in Hr. destruct p as [|i [|j p]]; cbn in Hr, Hl, Hn; [| |lia].
    + injection Hr as <- _. destruct (tree_prefix s T root held [px 2 va] [px 1 va] Hpt Hs). congruence.
    + injection Hr as <- <- _. destruct Hs. congruence.
Qed.

(** One entry of a table of the lower half; [below] is what the table it leads to
    owns. *)
Lemma entry_at_path p a k (sub : Z → option (list Z * list Z)) : (length p ≤ 2)%nat → low p → T !! p = Some a → 0 ≤ k < 512 →
  (∀ b, low (p ++ [k]) → T !! (p ++ [k]) = Some b → ∃ ts ps, sub b = Some (ts, ps) ∧ NoDup ts ∧ NoDup ps ∧
     (∀ x, x ∈ ts ↔ tables_at (p ++ [k]) x) ∧ (∀ x, x ∈ ps ↔ pages_at (p ++ [k]) x)) →
  ∃ e ts ps, ps_mem s !! (a + 8 * k) = Some e ∧
    entry_owned (F := F) sub (bool_decide (length p = 2%nat)) e = Some (ts, ps) ∧ NoDup ts ∧ NoDup ps ∧
    (∀ x, x ∈ ts ↔ tables_at (p ++ [k]) x) ∧ (∀ x, x ∈ ps ↔ pages_at (p ++ [k]) x).
Proof.
  intros Hl Hlow Hp Hk Hsub. pose proof (us_inv _ _ _ _ _ _ US) as Hpt.
  pose proof Hpt as [Hh Ht Hin].
  assert (Hnil : (∀ x, ¬ tables_at (p ++ [k]) x ∧ ¬ pages_at (p ++ [k]) x) →
    NoDup ([] : list Z) ∧ NoDup ([] : list Z) ∧ (∀ x, x ∈ [] ↔ tables_at (p ++ [k]) x) ∧ (∀ x, x ∈ [] ↔ pages_at (p ++ [k]) x)).
  { intros Hn. split; [constructor|]. split; [constructor|].
    split; intros x; (split; [by intros ?%elem_of_nil|intros Hx; by destruct (Hn x)]). }
  destruct (decide (length p = 2%nat)) as [E|E].
  - rewrite bool_decide_eq_true_2 by done.
    destruct (ps_read_spec s held a k Hh (Hin _ _ Hp) Hk) as (e & He & _). exists e.
    destruct p as [|i [|j [|]]]; try done.
    assert (Hlo : i < 256) by (by apply (Hlow i [j])).
    destruct (pt_depth _ _ _ Ht _ _ Hp) as [_ [Hi [Hj _]%Forall_cons]%Forall_cons].
    destruct (px_of i j k) as (E2 & E1 & E0); [done..|]. set (va := _ + k * 2 ^ 12) in *.
    assert (Hv : vleaf (F := F) s T va = if is_valid (F := F) e then Some e else None).
    { unfold vleaf, leaf. rewrite E2, E1, Hp. cbn [mbind option_bind]. by rewrite E0, He. }
    assert (HQ : ∀ x, ¬ tables_at ([i; j] ++ [k]) x).
    { intros x (q & _ & Hq). destruct (pt_depth _ _ _ Ht _ _ Hq) as [Hd _]. cbn in Hd. lia. }
    assert (HR : ∀ x, pages_at ([i; j] ++ [k]) x ↔ is_valid (F := F) e = true ∧ into_va (entry_pa e) = x).
    { intros x. split.
      - intros (va' & e' & _ & [r Hr] & Hv' & Hx). unfold path3 in Hr. injection Hr as R2 R1 R0 _.
        unfold vleaf, leaf in Hv'. rewrite R2, R1, Hp in Hv'. cbn [mbind option_bind] in Hv'.
        rewrite R0, He in Hv'. cbn [mbind option_bind] in Hv'. destruct (is_valid (F := F) e); [|done].
        by injection Hv' as <-.
      - intros [Hve Hx]. exists va, e. rewrite Hv, Hve, E2. split; [done|]. split; [|done].
        unfold path3. rewrite E2, E1, E0. by exists []. }
    unfold entry_owned. destruct (is_valid (F := F) e) eqn:Hve.
    + destruct (us_leaf _ _ _ _ _ _ US va e) as (Hlf & Hg & _); [lia|done|]. rewrite Hlf, Hg. cbn [andb negb].
      exists [], [into_va (entry_pa e)]. split; [done|]. split; [done|]. split; [constructor|].
      split; [apply NoDup_singleton|]. split; intros x.
      * split; [by intros ?%elem_of_nil|intros Hx; by destruct (HQ x)].
      * rewrite HR, list_elem_of_singleton. naive_solver.
    + exists [], []. split; [done|]. split; [done|]. apply Hnil. intros x. split; [apply HQ|].
      rewrite HR. by intros [? _].
  - rewrite bool_decide_eq_false_2 by done. assert (Hl2 : (length p < 2)%nat) by lia.
    destruct (pt_child _ _ _ Ht p a k Hp Hl2 Hk) as (e & He & Hc). exists e.
    unfold entry_owned. destruct (is_valid (F := F) e) eqn:Hve; cbn [andb].
    + assert (Hte : ∀ i r, p ++ [k] = i :: r → is_leaf (F := F) e = false ∧ is_global (F := F) e = high i).
      { intros i r Eq. by apply (us_entries _ _ _ _ _ _ US p a k e i r). }
      destruct (p ++ [k]) as [|i r] eqn:Eq; [by destruct p|].
      destruct (Hte i r eq_refl) as [-> ->]. unfold high. case_bool_decide as Hi; cbn [negb].
      * exists [], []. split; [done|]. split; [done|]. apply Hnil. intros x. split.
        -- intros (q & Hq & _). specialize (Hq i (r ++ q) eq_refl). lia.
        -- intros (va & e' & Hlo & [r' Hr] & _). unfold path3 in Hr. injection Hr as <- _. lia.
      * destruct (Hsub (into_va (entry_pa e))) as (ts & ps & Es & Hrest); [|done|].
        -- intros j r' [= <- <-]. lia.
        -- exists ts, ps. split; [done|]. split; [exact Es|exact Hrest].
    + exists [], []. split; [done|]. split; [done|]. apply Hnil. by apply nothing_at.
Qed.

(** The entries of a table, and the table. *)
Lemma owned_at_path p a (sub : Z → option (list Z * list Z)) (last : bool) : (length p ≤ 2)%nat → low p → T !! p = Some a →
  (∀ k, 0 ≤ k < 512 → ∃ e ts ps, ps_mem s !! (a + 8 * k) = Some e ∧ entry_owned (F := F) sub last e = Some (ts, ps) ∧
     NoDup ts ∧ NoDup ps ∧ (∀ x, x ∈ ts ↔ tables_at (p ++ [k]) x) ∧ (∀ x, x ∈ ps ↔ pages_at (p ++ [k]) x)) →
  ∃ ts' ps', (r ← owned_entries (F := F) sub last (ps_mem s) a (seqZ 0 NENTRY) ; Some (r.1 ++ [a], r.2)) = Some (ts', ps') ∧
    NoDup ts' ∧ NoDup ps' ∧ (∀ x, x ∈ ts' ↔ tables_at p x) ∧ (∀ x, x ∈ ps' ↔ pages_at p x).
Proof.
  intros Hl Hlow Hp Hks. pose proof (pi_tree _ _ _ _ (us_inv _ _ _ _ _ _ US)) as Ht.
  destruct (owned_entries_run (F := F) sub last (ps_mem s) a (λ k, tables_at (p ++ [k])) (λ k, pages_at (p ++ [k])) (seqZ 0 NENTRY))
    as (ts & ps & -> & Nt & Np & Et & Ep);
    [apply NoDup_seqZ|intros k Hk%elem_of_seqZ; apply Hks; unfold NENTRY in Hk; lia|apply tables_at_once|apply pages_at_once|].
  cbn [mbind option_bind fst snd].
  exists (ts ++ [a]), ps. split; [done|]. split; [|split; [done|split]].
  - apply NoDup_app. split; [done|]. split; [|apply NoDup_singleton].
    intros x (k & _ & q & _ & Hq)%Et ->%list_elem_of_singleton.
    pose proof (pt_inj _ _ _ Ht _ _ _ Hp Hq) as E. rewrite <-app_assoc in E.
    apply (f_equal length) in E. rewrite length_app in E. cbn in E. lia.
  - intros x. rewrite elem_of_app, Et, list_elem_of_singleton. split.
    + intros [(k & _ & q & Hq & Hx)| ->].
      * exists (k :: q). by rewrite <-(assoc_L (++)) in Hq, Hx.
      * exists []. by rewrite app_nil_r.
    + intros ([|k q] & Hq & Hx); [right; rewrite app_nil_r in Hx; congruence|left]. exists k. split.
      * destruct (pt_depth _ _ _ Ht _ _ Hx) as [_ [_ [Hk _]%Forall_cons]%Forall_app].
        apply elem_of_seqZ. unfold NENTRY. lia.
      * exists q. by rewrite <-(assoc_L (++)).
  - intros x. rewrite Ep. split.
    + intros (k & _ & va & e & Hva & Hpre & Hrest). exists va, e. split; [done|]. split; [|done].
      etrans; [|exact Hpre]. by eexists.
    + intros (va & e & Hva & [r Hr] & Hrest). destruct r as [|k r].
      { apply (f_equal length) in Hr. rewrite app_nil_r in Hr. cbn in Hr. lia. }
      exists k. split; [|exists va, e; split; [done|split; [|done]]; exists r; by rewrite <-(assoc_L (++))].
      apply elem_of_seqZ. unfold NENTRY.
      assert (Hk : k ∈ path3 va) by (rewrite Hr; apply elem_of_app; right; left).
      unfold path3 in Hk. rewrite !elem_of_cons, elem_of_nil in Hk.
      pose proof (px_range 0 va ltac:(lia)). pose proof (px_range 1 va ltac:(lia)). pose proof (px_range 2 va ltac:(lia)). lia.
Qed.

(** [owned_of] of a table of the lower half lists what is below its path. *)
Lemma owned_tree level : ∀ p a, (length p + level = 2)%nat → low p → T !! p = Some a →
  ∃ ts ps, owned_of (F := F) level (ps_mem s) a = Some (ts, ps) ∧ NoDup ts ∧ NoDup ps ∧
    (∀ x, x ∈ ts ↔ tables_at p x) ∧ (∀ x, x ∈ ps ↔ pages_at p x).
Proof.
  induction level as [|level IH]; intros p a Hl Hlow Hp; cbn [owned_of];
    (apply owned_at_path; [lia|done|done|]); intros k Hk.
  - replace true with (bool_decide (length p = 2%nat)) by (apply bool_decide_eq_true_2; lia).
    apply (entry_at_path p a k); [lia|done|done|done|].
    intros b _ Hb. exfalso. destruct (pt_depth _ _ _ (pi_tree _ _ _ _ (us_inv _ _ _ _ _ _ US)) _ _ Hb) as [Hd _].
    rewrite length_app in Hd. cbn in Hd. lia.
  - replace false with (bool_decide (length p = 2%nat)) by (apply bool_decide_eq_false_2; lia).
    apply (entry_at_path p a k); [lia|done|done|done|].
    intros b Hb1 Hb. apply IH; [rewrite length_app; cbn; lia|done|done].
Qed.

End Tree.

(** The whole table owns what was allocated for it. *)
Lemma user_space_owned s root held0 pages T held : user_space s root held0 pages T held →
  ∃ ts ps, owned_of (F := F) 2 (ps_mem s) root = Some (ts, ps) ∧ NoDup ts ∧ NoDup ps ∧
    (∀ x, x ∈ ts ↔ x ∈ held ∧ (x ∉ held0)) ∧ (∀ x, x ∈ ps ↔ x ∈ pages).
Proof.
  intros US. pose proof (pt_root _ _ _ (pi_tree _ _ _ _ (us_inv _ _ _ _ _ _ US))) as Hroot.
  destruct (owned_tree s root held0 pages T held US 2 [] root) as (ts & ps & E & Nt & Np & Et & Ep);
    [done|by intros i r [=]|done|].
  exists ts, ps. split_and!; [done..| |].
  - intros x. rewrite Et. unfold tables_at. cbn [app]. split.
    + intros (q & Hq & Hx). split; [apply (us_held _ _ _ _ _ _ US); right; eauto|by eapply (us_own _ _ _ _ _ _ US)].
    + intros [[?|Hq]%(us_held _ _ _ _ _ _ US) Hn]; done.
  - intros x. rewrite Ep. split.
    + intros (va & e & Hva & _ & Hv & <-). by apply (us_leaf _ _ _ _ _ _ US va e).
    + intros (va & e & Hva & Hv & He)%(us_mapped _ _ _ _ _ _ US). exists va, e.
      split; [done|]. split; [apply prefix_nil|done].
Qed.

(** [KernelPgTable::clone] makes a user table that owns only its root. *)
Lemma user_space_clone s kroot Tk held0 :
  pt_inv (F := F) s Tk kroot held0 → upper (F := F) s Tk →
  (∃ pn, pt_clone kroot s = Panic pn ∧ pn ≠ OutOfFuel) ∨
  ∃ root s', pt_clone kroot s = Ret (root, s') ∧
    user_space s' root held0 ∅ (<[[] := root]> Tk) ({[root]} ∪ held0) ∧
    (∀ va, mapping (F := F) s' root va = mapping (F := F) s kroot va) ∧
    (∀ b k, b ∈ held0 → 0 ≤ k < 512 → ps_mem s' !! (b + 8 * k) = ps_mem s !! (b + 8 * k)).
Proof.
  intros Hpt [Hup HG]. pose proof (pi_tables _ _ _ _ Hpt) as Hin.
  destruct (pt_clone_spec s Tk kroot held0 Hpt)
    as [?|(root & s' & held' & E & Hsub & Hn & _ & Hpt' & Hk & Hcp & ->)]; [by left|right].
  assert (Hw : ∀ b k, b ∈ held0 → 0 ≤ k < 512 → ps_mem s' !! (b + 8 * k) = ps_mem s !! (b + 8 * k)).
  { intros b k Hb Hkr. apply Hk; [done|done|by intros []]. }
  assert (Hnone : ∀ va, px 2 va < 256 → vleaf (F := F) s' (<[[] := root]> Tk) va = None).
  { intros va Hva. unfold vleaf, leaf. rewrite lookup_insert_ne by done.
    destruct (Tk !! [px 2 va; px 1 va]) eqn:Et; [|done]. apply Hup in Et. lia. }
  exists root, s'. split; [done|]. split; [|split; [|done]].
  - split; [done| | | | | |].
    + intros p a i e k r [[<- <-]|[Hne Hp]]%lookup_insert_Some Hl Hi Eq He Hv.
      * rewrite Hcp in He by done.
        by apply (HG [] kroot i e k r); [apply (pt_root _ _ _ (pi_tree _ _ _ _ Hpt))|..].
      * rewrite Hw in He by eauto. by apply (HG p a i e k r).
    + intros x. rewrite elem_of_union, elem_of_singleton. split.
      * intros [-> |?]; [right|by left]. exists []. split; [by intros i r [=]|by rewrite lookup_insert_eq].
      * intros [?|(q & _ & [[_ <-]|[_ Hq]]%lookup_insert_Some)]; [by right|by left|right; eauto].
    + intros q x Hq [[_ <-]|[Hne Hx]]%lookup_insert_Some; [done|]. destruct q as [|i r]; [done|].
      apply Hup in Hx. specialize (Hq i r eq_refl). lia.
    + intros va e Hva Hv. by rewrite Hnone in Hv.
    + intros va va' e e' Hva _ Hv. by rewrite Hnone in Hv.
    + intros x Hx. by apply elem_of_empty in Hx.
  - intros va. rewrite (mapping_vleaf s' _ root _ va Hpt'), (mapping_vleaf s _ kroot _ va Hpt).
    unfold vleaf, leaf. rewrite lookup_insert_ne by done.
    destruct (Tk !! [px 2 va; px 1 va]) as [c|] eqn:Et; [|done]. cbn [mbind option_bind].
    rewrite Hw; [done|eauto|by apply px_range].
Qed.

(** Only the words of the pages held count. *)
Lemma user_space_words s s' root held0 pages T held :
  user_space s root held0 pages T held → ps_held s' held →
  (∀ b k, b ∈ held → 0 ≤ k < 512 → ps_mem s' !! (b + 8 * k) = ps_mem s !! (b + 8 * k)) →
  user_space s' root held0 pages T held.
Proof.
  intros US Hh Hw. pose proof (us_inv _ _ _ _ _ _ US) as [_ Ht Hin].
  assert (HwT : ∀ q c k, T !! q = Some c → 0 ≤ k < 512 → ps_mem s' !! (c + 8 * k) = ps_mem s !! (c + 8 * k)) by eauto.
  assert (Hl : ∀ va, vleaf (F := F) s' T va = vleaf (F := F) s T va).
  { intros va. unfold vleaf. by rewrite (leaf_words s s'). }
  split.
  - split; [done|by apply (pt_tree_words (ps_mem s))|done].
  - intros p a i e k r Hp Hlen Hi Eq He. rewrite (HwT p) in He by done. by eapply (us_entries _ _ _ _ _ _ US).
  - apply US.
  - apply US.
  - intros va e. rewrite Hl. apply US.
  - intros va va' e e'. rewrite !Hl. apply US.
  - intros x Hx. setoid_rewrite Hl. by apply (us_mapped _ _ _ _ _ _ US).
Qed.

(** A page of kernel memory and an entry for it. *)
Lemma entry_of_kernel_page a f : (PG_SIZE | a) → VM_OFFSET ≤ a → a + PG_SIZE ≤ 2 ^ 64 →
  into_va (entry_pa (entry_new (F := F) (from_pa (a - VM_OFFSET)) f)) = a.
Proof.
  rewrite VM_OFFSET_mask, PG_SIZE_pow2. intros [q Hq] Hlo Hhi. unfold into_va.
  rewrite entry_pa_new by (cbn [pa_value from_pa]; lia). cbn [pa_value from_pa].
  replace (a - (2 ^ 64 - 2 ^ 38)) with ((q - (2 ^ 52 - 2 ^ 26)) * 2 ^ 12) by lia.
  rewrite Z.div_mul by lia. rewrite VM_OFFSET_mask, wrap_small; [lia|unfold in_range; lia].
Qed.

(** The permissions of user pages. *)
Definition user_leaf (f : F) : Prop :=
  Z.testbit (bits f) 0 = true ∧ Z.testbit (bits f) 1 = true ∧ Z.testbit (bits f) 5 = false.

(** [map] of a page [a] that is new, at an address without a mapping. *)
Lemma user_space_map s s' root held0 pages T held a va size f :
  user_space s root held0 pages T held →
  user_args (mkPhysAddr (a - VM_OFFSET)) va size f → pages_of size = 1 → user_leaf f →
  (PG_SIZE | a) → VM_OFFSET ≤ a → a + PG_SIZE ≤ 2 ^ 64 → a ∉ pages →
  mapping (F := F) s root va = None →
  map F root (mkPhysAddr (a - VM_OFFSET)) va size f s = Ret ((), s') →
  ∃ T' held', user_space s' root held0 ({[a]} ∪ pages) T' held'.
Proof.
  intros US Hu Hone (Hv & Hr & Hg) Hal Hlo Hhi Ha Hm E. pose proof (us_inv _ _ _ _ _ _ US) as Hpt.
  rewrite (mapping_vleaf s T root held va Hpt) in Hm.
  destruct (map_spec s T root held _ va size f Hpt (ua_args _ _ _ _ Hu))
    as [(pn & E' & _)|(s1 & T' & held' & E' & Hpt' & HT & Hh & Hin & Hout & _ & Hnew & Honly & HG)]; [congruence|].
  rewrite E in E'. injection E' as <-. rewrite Hone in *.
  assert (Hrun : ∀ va', in_run va 1 va' ↔ vpn va' = vpn va) by (intros va'; unfold in_run; lia).
  assert (Hlow : ∀ va', in_run va 1 va' → px 2 va' < 256).
  { intros va' Hr'. apply (user_run _ _ _ _ va' Hu). by rewrite Hone. }
  assert (Hself : in_run va 1 va) by (by apply Hrun).
  set (e := entry_new (from_pa (a - VM_OFFSET)) f).
  assert (He : into_va (entry_pa e) = a) by (by apply entry_of_kernel_page).
  assert (Hleaf : ∀ va', vleaf (F := F) s' T' va' = if decide (vpn va' = vpn va) then Some e else vleaf (F := F) s T va').
  { intros va'. case_decide as Ev; [|by apply Hout; rewrite Hrun].
    rewrite Hin by (by apply Hrun). unfold e. cbn [pa_value]. do 3 f_equal. lia. }
  exists T', held'. split; [done| | | | | |].
  - apply HG; [apply US|]. intros va' Hr'. rewrite contains_G, Hg. symmetry. apply bool_decide_eq_false.
    specialize (Hlow va' Hr'). lia.
  - intros x. split.
    + intros [[?|(q & Hq & Hx)]%(us_held _ _ _ _ _ _ US)|(q & Hq)]%Honly; [by left|right; eauto using get_insert|].
      destruct (T !! q) as [y|] eqn:Eq.
      * pose proof (get_insert T T' _ _ HT Eq) as Ey. assert (y = x) as -> by congruence.
        destruct (proj1 (us_held _ _ _ _ _ _ US x)) as [?|(q' & Hq' & Hx)];
          [eapply (pi_tables _ _ _ _ Hpt); exact Eq|by left|right; eauto using get_insert].
      * right. exists q. split; [|done]. destruct (Hnew q x Hq Eq) as (_ & va' & Hr' & [r Hp]).
        intros i r' ->. injection Hp as <- _. by apply Hlow.
    + intros [?|(q & _ & Hq)]; [apply Hh, (us_held _ _ _ _ _ _ US); by left|by eapply (pi_tables _ _ _ _ Hpt')].
  - intros q x Hq Hx. destruct (T !! q) as [y|] eqn:Eq.
    + pose proof (get_insert T T' _ _ HT Eq) as Ey. assert (y = x) as -> by congruence.
      by eapply (us_own _ _ _ _ _ _ US).
    + destruct (Hnew q x Hx Eq) as [Hn _]. intros Hx0. apply Hn, (us_held _ _ _ _ _ _ US). by left.
  - intros va' e'. rewrite Hleaf. case_decide; intros Hva.
    + intros [= <-]. unfold e. rewrite is_leaf_new, is_global_new, Hr, Hg. fold e. rewrite He.
      split_and!; [done|done|]. apply elem_of_union. left. by apply elem_of_singleton.
    + intros (? & ? & ?)%(us_leaf _ _ _ _ _ _ US); [|done]. split_and!; [done|done|]. apply elem_of_union. by right.
  - intros va1 va2 e1 e2. rewrite !Hleaf. intros Hl1 Hl2. case_decide as D1; case_decide as D2.
    + intros _ _ _. congruence.
    + intros [= <-] (_ & _ & Hp)%(us_leaf _ _ _ _ _ _ US); [|done]. rewrite He. congruence.
    + intros (_ & _ & Hp)%(us_leaf _ _ _ _ _ _ US) [= <-]; [|done]. rewrite He. congruence.
    + by apply (us_once _ _ _ _ _ _ US).
  - intros x [->%elem_of_singleton|Hx]%elem_of_union.
    + exists va, e. rewrite Hleaf, decide_True by done. split; [by apply Hlow|done].
    + destruct (us_mapped _ _ _ _ _ _ US x Hx) as (va' & e' & Hl' & Hv' & He'). exists va', e'.
      rewrite Hleaf. rewrite decide_False; [done|]. intros Ev.
      assert (Hvl : vleaf (F := F) s T va' = vleaf (F := F) s T va).
      { apply vpn_inj in Ev as (E2 & E1 & E0). unfold vleaf, leaf. by rewrite E2, E1, E0. }
      congruence.
Qed.
End UserSpace.
