(* ===== verification/FreeMap.v ===== *)
(** * The bitmap of free disk sectors

    [fs/disk/free_map.rs]: the in-memory bitmap, [get], [set], [reset] and the
    three allocation operations.  Loading, formatting and flushing, which go
    through inodes, are in [DiskFs.v].  The specification is the predicate
    [used]: which sectors are marked.  The theorems give the result of each
    operation on every branch, the panics included, and what it changes. *)

From S2P Require Import Prelude.

(** [struct FreeMap]; [bits] is a boxed slice of bytes. *)
Record FreeMap : Type := mkFreeMap { fm_size : Z; fm_bits : list Z }.

(** [self.bits[sector as usize / 8]], with the bounds check of the index. *)
Definition byte_of (sector : Z) (fm : FreeMap) : outcome Z :=
  match fm_bits fm !! Z.to_nat (sector / 8) with
  | Some b => Ret b
  | None => Panic IndexOutOfBounds
  end.

Definition mask_of (sector : Z) : Z := Z.shiftl 1 (sector mod 8).

Definition fm_get (sector : Z) : M FreeMap bool := λ fm,
  lift (assert_ (bool_decide (sector < fm_size fm))) fm ≫= λ _,
  byte_of sector fm ≫= λ b,
  Ret (negb (bool_decide (Z.land b (mask_of sector) = 0)), fm).

Definition update_byte (sector : Z) (f : Z → Z) : M FreeMap unit := λ fm,
  lift (assert_ (bool_decide (sector < fm_size fm))) fm ≫= λ _,
  byte_of sector fm ≫= λ b,
  Ret ((), mkFreeMap (fm_size fm) (<[Z.to_nat (sector / 8) := f b]> (fm_bits fm))).

Definition fm_set (sector : Z) : M FreeMap unit :=
  update_byte sector (λ b, Z.lor b (mask_of sector)).

Definition fm_reset (sector : Z) : M FreeMap unit :=
  update_byte sector (λ b, Z.land b (bnot 8 (mask_of sector))).

(** The inner loop of [alloc]: [cnt] free bits from [i] on move [i] past them. *)
Fixpoint probe (cnt : nat) (i : Z) : M FreeMap (option Z) :=
  match cnt with
  | O => mret (Some i)
  | S cnt => g ← fm_get i ; if (g : bool) then mret None else probe cnt (i + 1)
  end.

Fixpoint alloc_outer (cnt : Z) (starts : list Z) : M FreeMap (result Z) :=
  match starts with
  | [] => mret (Err DiskSectorAllocFail)
  | i :: starts =>
      r ← probe (Z.to_nat cnt) i ;
      match r with
      | None => alloc_outer cnt starts (* continue 'outer *)
      | Some i =>
          for_each (seqZ (i - cnt) cnt) fm_set ;;
          mret (Ok (i - cnt))
      end
  end.

Definition fm_alloc (cnt : Z) : M FreeMap (result Z) :=
  size ← gets fm_size ;
  if bool_decide (cnt = 0) then mret (Ok 0)
  else if bool_decide (cnt >= size) then mret (Err DiskSectorAllocFail)
  else alloc_outer cnt (seqZ 0 (size - cnt)).

(** [for i in start..start + cnt { if self.get(i) { return Err } }] *)
Fixpoint all_free (l : list Z) : M FreeMap bool :=
  match l with
  | [] => mret true
  | i :: l => g ← fm_get i ; if (g : bool) then mret false else all_free l
  end.

Definition in_place_alloc (start cnt : Z) : M FreeMap (result unit) :=
  if bool_decide (cnt = 0) then mret (Ok ())
  else
    let range := seqZ start (wrap32 (start + cnt) - start) in
    ok ← all_free range ;
    if (ok : bool) then for_each range fm_set ;; mret (Ok ())
    else mret (Err DiskSectorAllocFail).

Fixpoint dealloc_loop (l : list Z) : M FreeMap unit :=
  match l with
  | [] => mret ()
  | i :: l =>
      g ← fm_get i ;
      if negb g then mret () else fm_reset i ;; dealloc_loop l
  end.

Definition fm_dealloc (sector cnt : Z) : M FreeMap unit :=
  dealloc_loop (seqZ sector (wrap32 (sector + cnt) - sector)).

(** ** The marked sectors *)

(** Every bitmap the kernel builds has one byte per eight sectors. *)
Record fm_wf (fm : FreeMap) : Prop := {
  fw_size : is_u32 (fm_size fm);
  fw_len : Z.of_nat (length (fm_bits fm)) = (fm_size fm + 7) / 8;
  fw_bytes : Forall (in_range 8) (fm_bits fm);
}.

(** Is the bit of sector [s] set? *)
Definition used (fm : FreeMap) (s : Z) : bool :=
  match fm_bits fm !! Z.to_nat (s / 8) with
  | Some b => Z.testbit b (s mod 8)
  | None => false
  end.

Definition in_disk (fm : FreeMap) (s : Z) : Prop := 0 ≤ s < fm_size fm.

(** [fm'] marks [s] when [P s] says so, and is [fm] elsewhere. *)
Definition marks (fm fm' : FreeMap) (f : Z → bool) : Prop :=
  fm_wf fm' ∧ fm_size fm' = fm_size fm ∧ ∀ s, 0 ≤ s → used fm' s = f s.

Lemma byte_of_wf fm s : fm_wf fm → in_disk fm s →
  ∃ b, fm_bits fm !! Z.to_nat (s / 8) = Some b ∧ in_range 8 b.
Proof.
  intros Hw [Hs Hlt]. destruct (lookup_lt_is_Some_2 (fm_bits fm) (Z.to_nat (s / 8))) as [b Hb].
  { pose proof (fw_len _ Hw). pose proof (Z.div_pos s 8).
    assert (s / 8 < (fm_size fm + 7) / 8); [|lia].
    apply Z.div_lt_upper_bound; [lia|]. pose proof (Z.div_mod (fm_size fm + 7) 8).
    pose proof (Z.mod_pos_bound (fm_size fm + 7) 8). lia. }
  exists b. split; [done|]. pose proof (fw_bytes _ Hw) as Hf.
  rewrite Forall_forall in Hf. apply Hf. by eapply list_elem_of_lookup_2.
Qed.

Lemma land_mask_testbit b k : 0 ≤ k → bool_decide (Z.land b (Z.shiftl 1 k) = 0) = negb (Z.testbit b k).
Proof.
  intros Hk. destruct (Z.testbit b k) eqn:E; cbn.
  - apply bool_decide_eq_false_2. intros H.
    assert (Ht : Z.testbit (Z.land b (Z.shiftl 1 k)) k = false) by (by rewrite H, Z.bits_0).
    rewrite Z.land_spec, E, Z.shiftl_spec, Z.sub_diag in Ht by lia. done.
  - apply bool_decide_eq_true_2. apply Z.bits_inj'. intros j Hj.
    rewrite Z.land_spec, Z.bits_0, Z.shiftl_spec by lia.
    destruct (decide (j = k)) as [->|]; [by rewrite E|].
    destruct (decide (j < k)).
    + rewrite (Z.testbit_neg_r 1) by lia. apply andb_false_r.
    + rewrite (Z.bits_above_log2 1) by (cbn; lia). apply andb_false_r.
Qed.

Lemma mod8_range s : 0 ≤ s mod 8 < 8.
Proof. apply Z.mod_pos_bound. lia. Qed.

Lemma fm_get_spec fm s : fm_wf fm → in_disk fm s → fm_get s fm = Ret (used fm s, fm).
Proof.
  intros Hw Hs. destruct (byte_of_wf fm s Hw Hs) as (b & Hb & _).
  unfold fm_get, byte_of, used, mask_of, lift. rewrite Hb.
  rewrite bool_decide_eq_true_2 by apply Hs. cbn.
  rewrite land_mask_testbit, negb_involutive by apply mod8_range. done.
Qed.

Lemma fm_get_out fm s : fm_size fm ≤ s → fm_get s fm = Panic AssertFailed.
Proof. intros. unfold fm_get, lift. by rewrite bool_decide_eq_false_2 by lia. Qed.

Lemma in_range_bits w n : 0 ≤ w → in_range w n → ∀ i, w ≤ i → Z.testbit n i = false.
Proof.
  intros Hw Hn i Hi. rewrite <- (Z.mod_small n (2 ^ w)) by done.
  apply Z.mod_pow2_bits_high. lia.
Qed.

Lemma bits_in_range w n : 0 ≤ w → 0 ≤ n → (∀ i, w ≤ i → Z.testbit n i = false) → in_range w n.
Proof.
  intros Hw Hn Hb. unfold in_range. split; [done|].
  destruct (decide (n = 0)) as [->|]; [by apply pow2_pos|].
  apply Z.log2_lt_pow2; [lia|].
  destruct (decide (Z.log2 n < w)); [done|].
  pose proof (Z.bit_log2 n ltac:(lia)) as E. rewrite Hb in E by lia. done.
Qed.

(** Bit [j] of a byte after setting, or clearing, bit [k]. *)
Lemma testbit_set b k j : 0 ≤ k → 0 ≤ j →
  Z.testbit (Z.lor b (Z.shiftl 1 k)) j = Z.testbit b j || bool_decide (j = k).
Proof.
  intros Hk Hj. rewrite Z.lor_spec, Z.shiftl_1_l, Z.pow2_bits_eqb by done.
  f_equal. rewrite (Z.eqb_sym k j). symmetry. apply bool_decide_ext, Z.eqb_eq || idtac.
  destruct (Z.eqb_spec j k); [by rewrite bool_decide_eq_true_2|by rewrite bool_decide_eq_false_2].
Qed.

Lemma testbit_clear b k j : 0 ≤ k < 8 → 0 ≤ j < 8 →
  Z.testbit (Z.land b (bnot 8 (Z.shiftl 1 k))) j = Z.testbit b j && negb (bool_decide (j = k)).
Proof.
  intros Hk Hj. unfold bnot, wrap.
  rewrite Z.land_spec, Z.mod_pow2_bits_low, Z.lnot_spec, Z.shiftl_1_l, Z.pow2_bits_eqb by lia.
  do 2 f_equal.
  destruct (Z.eqb_spec k j); [by rewrite bool_decide_eq_true_2|by rewrite bool_decide_eq_false_2].
Qed.

(** Writing the byte of [s] so that only bit [s mod 8] changes, to [v]. *)
Lemma update_byte_spec fm s f v :
  fm_wf fm → in_disk fm s →
  (∀ b, in_range 8 b → in_range 8 (f b) ∧
    ∀ j, 0 ≤ j < 8 → Z.testbit (f b) j = if bool_decide (j = s mod 8) then v else Z.testbit b j) →
  ∃ fm', update_byte s f fm = Ret ((), fm') ∧
    marks fm fm' (λ x, if bool_decide (x = s) then v else used fm x).
Proof.
  intros Hw Hs Hf. destruct (byte_of_wf fm s Hw Hs) as (b & Hb & Hbr).
  destruct (Hf b Hbr) as [Hr Hbit]. pose proof (lookup_lt_Some _ _ _ Hb) as Hlt.
  eexists. split.
  { unfold update_byte, byte_of, lift. rewrite Hb, bool_decide_eq_true_2 by apply Hs. done. }
  destruct Hw as [Hsz Hlen Hby]. split; [|split; [done|]].
  { split; cbn; [done|by rewrite length_insert|by apply Forall_insert]. }
  intros x Hx. unfold used. cbn. destruct Hs as [Hs0 _].
  pose proof (Z.div_mod x 8). pose proof (Z.div_mod s 8).
  pose proof (mod8_range x). pose proof (mod8_range s).
  pose proof (Z.div_pos x 8). pose proof (Z.div_pos s 8).
  destruct (decide (x / 8 = s / 8)) as [E|E].
  - rewrite E, list_lookup_insert_eq, Hb by done. rewrite Hbit by done.
    destruct (decide (x = s)) as [->|]; [by rewrite !bool_decide_eq_true_2|].
    rewrite (bool_decide_eq_false_2 (x mod 8 = _)), (bool_decide_eq_false_2 (x = s)) by lia.
    done.
  - rewrite list_lookup_insert_ne by lia. rewrite bool_decide_eq_false_2 by congruence. done.
Qed.

Lemma fm_set_spec fm s : fm_wf fm → in_disk fm s →
  ∃ fm', fm_set s fm = Ret ((), fm') ∧
    marks fm fm' (λ x, if bool_decide (x = s) then true else used fm x).
Proof.
  intros Hw Hs. apply update_byte_spec; [done|done|]. intros b Hb.
  pose proof (mod8_range s). unfold mask_of. split.
  - apply bits_in_range; [lia|apply Z.lor_nonneg; split; [apply Hb|apply Z.shiftl_nonneg; lia]|].
    intros i Hi. rewrite testbit_set, (in_range_bits 8 b), bool_decide_eq_false_2 by (done || lia). done.
  - intros j Hj. rewrite testbit_set by lia. case_bool_decide; by rewrite ?orb_true_r, ?orb_false_r.
Qed.

Lemma fm_reset_spec fm s : fm_wf fm → in_disk fm s →
  ∃ fm', fm_reset s fm = Ret ((), fm') ∧
    marks fm fm' (λ x, if bool_decide (x = s) then false else used fm x).
Proof.
  intros Hw Hs. apply update_byte_spec; [done|done|]. intros b Hb.
  pose proof (mod8_range s). unfold mask_of. split.
  - apply bits_in_range; [lia|apply Z.land_nonneg; left; apply Hb|].
    intros i Hi. by rewrite Z.land_spec, (in_range_bits 8 b) by (done || lia).
  - intros j Hj. rewrite testbit_clear by lia. case_bool_decide; by rewrite ?andb_true_r, ?andb_false_r.
Qed.

(** A bitmap is determined by which sectors it marks. *)
Lemma used_ext fm fm' : fm_wf fm → fm_wf fm' → fm_size fm = fm_size fm' →
  (∀ s, 0 ≤ s → used fm s = used fm' s) → fm = fm'.
Proof.
  intros [Hs Hl Hb] [Hs' Hl' Hb'] Hsz Hu. destruct fm as [n l], fm' as [n' l']; cbn in *.
  subst n'. f_equal. apply list_eq_same_length with (length l'); [done|lia|].
  intros i b b' Hi Eb Eb'. rewrite Forall_lookup in Hb, Hb'.
  apply Hb in Eb as Rb. apply Hb' in Eb' as Rb'.
  apply Z.bits_inj'. intros j Hj. destruct (decide (j < 8)).
  - specialize (Hu (8 * Z.of_nat i + j) ltac:(lia)). unfold used in Hu. cbn in Hu.
    rewrite (Z.mul_comm 8), Z.div_add_l, Z.div_small, Z.add_0_r, Nat2Z.id, Eb, Eb' in Hu by lia.
    by rewrite (Z.add_comm _ j), Z_mod_plus_full, Z.mod_small in Hu by lia.
  - by rewrite !(in_range_bits 8) by (done || lia).
Qed.

Lemma marks_refl fm : fm_wf fm → marks fm fm (used fm).
Proof. done. Qed.

Lemma marks_ext fm fm' f g : (∀ s, 0 ≤ s → f s = g s) → marks fm fm' f → marks fm fm' g.
Proof. intros Hfg (Hw & Hs & Hu). split; [done|]. split; [done|]. intros s ?. by rewrite Hu, Hfg. Qed.

Lemma marks_trans fm fm1 fm2 f g : marks fm fm1 f → marks fm1 fm2 g → marks fm fm2 g.
Proof. intros (_ & Hs & _) (Hw & Hs' & Hu). split; [done|]. split; [congruence|done]. Qed.

Lemma marks_in_disk fm fm' f s : marks fm fm' f → in_disk fm s → in_disk fm' s.
Proof. intros (_ & Hs & _). unfold in_disk. by rewrite Hs. Qed.

(** Is [x] in the run of [n] sectors from [s] on? *)
Definition within (s n x : Z) : bool := bool_decide (s ≤ x < s + n).

Lemma within_cons s n x : 0 < n → within s n x = bool_decide (x = s) || within (s + 1) (n - 1) x.
Proof. intros. unfold within. repeat case_bool_decide; cbn; lia || done. Qed.

Lemma within_out s n x : n ≤ 0 → within s n x = false.
Proof. intros. apply bool_decide_eq_false_2. lia. Qed.

(** The sectors [s .. s + n] are all free, all marked. *)
Definition run_free (fm : FreeMap) (s n : Z) : Prop := ∀ x, s ≤ x < s + n → used fm x = false.
Definition run_used (fm : FreeMap) (s n : Z) : Prop := ∀ x, s ≤ x < s + n → used fm x = true.

Lemma run_free_cons fm s n : 0 < n →
  run_free fm s n ↔ used fm s = false ∧ run_free fm (s + 1) (n - 1).
Proof.
  intros. unfold run_free. split.
  - intros Hf. split; [apply Hf; lia|]. intros. apply Hf. lia.
  - intros [H0 H1] x ?. destruct (decide (x = s)) as [->|]; [done|apply H1; lia].
Qed.

#[export] Instance run_free_dec fm s n : 0 ≤ s → Decision (run_free fm s n).
Proof.
  intros Hs. destruct (decide (Forall (λ x, used fm x = false) (seqZ s n))) as [Hf|Hf].
  - left. intros x ?. rewrite Forall_forall in Hf. apply Hf, elem_of_seqZ. lia.
  - right. intros Hr. apply Hf, Forall_forall. intros x Hx%elem_of_seqZ. apply Hr. lia.
Defined.

(** Setting a run of sectors marks it and nothing else. *)
Lemma for_each_set n : ∀ s fm, fm_wf fm → 0 ≤ s → s + Z.of_nat n ≤ fm_size fm →
  ∃ fm', for_each (seqZ s (Z.of_nat n)) fm_set fm = Ret ((), fm') ∧
    marks fm fm' (λ x, within s (Z.of_nat n) x || used fm x).
Proof.
  induction n as [|n IH]; intros s fm Hw Hs Hn.
  - exists fm. split; [done|]. eapply marks_ext, marks_refl, Hw.
    intros x _. by rewrite within_out by lia.
  - rewrite seqZ_cons by lia. cbn [for_each].
    destruct (fm_set_spec fm s Hw) as (fm1 & E1 & M1); [unfold in_disk; lia|].
    replace (Z.pred (Z.of_nat (S n))) with (Z.of_nat n) by lia.
    destruct (IH (Z.succ s) fm1) as (fm2 & E2 & M2); [apply M1|lia|pose proof (proj1 (proj2 M1)); lia|].
    exists fm2. split.
    { unmonad. by rewrite E1. }
    eapply marks_trans; [exact M1|]. eapply marks_ext, M2. intros x Hx. cbv beta.
    rewrite (proj2 (proj2 M1)), (within_cons s) by lia.
    replace (s + 1) with (Z.succ s) by lia. replace (Z.of_nat (S n) - 1) with (Z.of_nat n) by lia.
    case_bool_decide; cbn; [apply orb_true_r|done].
Qed.

Lemma for_each_set_run s cnt fm : fm_wf fm → 0 ≤ s → 0 ≤ cnt → s + cnt ≤ fm_size fm →
  ∃ fm', for_each (seqZ s cnt) fm_set fm = Ret ((), fm') ∧
    marks fm fm' (λ x, within s cnt x || used fm x).
Proof. intros. rewrite <- (Z2Nat.id cnt) by done. apply for_each_set; [done|done|lia]. Qed.

(** The inner loop finds out whether the run is free. *)
Lemma probe_spec fm : fm_wf fm → ∀ n s, 0 ≤ s → s + Z.of_nat n ≤ fm_size fm →
  (run_free fm s (Z.of_nat n) ∧ probe n s fm = Ret (Some (s + Z.of_nat n), fm)) ∨
  (¬ run_free fm s (Z.of_nat n) ∧ probe n s fm = Ret (None, fm)).
Proof.
  intros Hw. induction n as [|n IH]; intros s Hs Hn.
  - left. split; [intros x ?; lia|]. cbn. by rewrite Z.add_0_r.
  - cbn [probe]. unmonad. rewrite fm_get_spec by (done || unfold in_disk; lia).
    rewrite run_free_cons by lia. replace (Z.of_nat (S n) - 1) with (Z.of_nat n) by lia.
    destruct (used fm s) eqn:E; [right; split; [by intros []|done]|].
    destruct (IH (s + 1)) as [[Hf ->]|[Hf ->]]; [lia|lia|left|right].
    + split; [done|]. by replace (s + 1 + Z.of_nat n) with (s + Z.of_nat (S n)) by lia.
    + split; [by intros []|done].
Qed.

(** The outer loop is a first-fit search through the starts it is given. *)
Lemma alloc_outer_spec fm cnt : fm_wf fm → 0 < cnt → ∀ n a,
  0 ≤ a → a + Z.of_nat n + cnt ≤ fm_size fm →
  (∃ s fm', alloc_outer cnt (seqZ a (Z.of_nat n)) fm = Ret (Ok s, fm') ∧
     a ≤ s < a + Z.of_nat n ∧ run_free fm s cnt ∧
     (∀ s', a ≤ s' < s → ¬ run_free fm s' cnt) ∧
     marks fm fm' (λ x, within s cnt x || used fm x)) ∨
  (alloc_outer cnt (seqZ a (Z.of_nat n)) fm = Ret (Err DiskSectorAllocFail, fm) ∧
     ∀ s', a ≤ s' < a + Z.of_nat n → ¬ run_free fm s' cnt).
Proof.
  intros Hw Hc. induction n as [|n IH]; intros a Ha Hn.
  { right. split; [done|]. intros; lia. }
  rewrite seqZ_cons by lia. replace (Z.pred (Z.of_nat (S n))) with (Z.of_nat n) by lia.
  cbn [alloc_outer]. unmonad.
  destruct (probe_spec fm Hw (Z.to_nat cnt) a) as [[Hf ->]|[Hf ->]]; [lia|lia| |];
    rewrite Z2Nat.id in Hf by lia.
  - left. rewrite Z2Nat.id by lia. replace (a + cnt - cnt) with a by lia.
    destruct (for_each_set_run a cnt fm) as (fm' & -> & Hm); [done|lia|lia|lia|].
    exists a, fm'. split_and!; [done|lia|lia|done|intros; lia|done].
  - destruct (IH (Z.succ a)) as [(s & fm' & E & Hs & Hr & Hfst & Hm)|[E Hno]]; [lia|lia|left|right].
    + exists s, fm'. split_and!; [done|lia|lia|done| |done].
      intros s' ?. destruct (decide (s' = a)) as [->|]; [done|apply Hfst; lia].
    + split; [done|]. intros s' ?. destruct (decide (s' = a)) as [->|]; [done|apply Hno; lia].
Qed.

(** Looking for the first marked sector of a run. *)
Lemma all_free_spec fm : fm_wf fm → ∀ n s, 0 ≤ s →
  (s + Z.of_nat n ≤ fm_size fm → run_free fm s (Z.of_nat n) →
     all_free (seqZ s (Z.of_nat n)) fm = Ret (true, fm)) ∧
  (∀ i, s ≤ i < s + Z.of_nat n → i < fm_size fm → run_free fm s (i - s) → used fm i = true →
     all_free (seqZ s (Z.of_nat n)) fm = Ret (false, fm)) ∧
  (fm_size fm < s + Z.of_nat n → (0 < n)%nat → run_free fm s (fm_size fm - s) →
     all_free (seqZ s (Z.of_nat n)) fm = Panic AssertFailed).
Proof.
  intros Hw. induction n as [|n IH]; intros s Hs.
  { split_and!; [done|intros; lia|lia]. }
  rewrite seqZ_cons by lia. replace (Z.pred (Z.of_nat (S n))) with (Z.of_nat n) by lia.
  cbn [all_free]. unmonad. destruct (IH (Z.succ s)) as (I1 & I2 & I3); [lia|].
  split_and!.
  - intros Hn Hf. rewrite fm_get_spec by (done || unfold in_disk; lia).
    rewrite run_free_cons in Hf by lia. destruct Hf as [-> Hf].
    apply I1; [lia|]. by replace (Z.of_nat n) with (Z.of_nat (S n) - 1) by lia.
  - intros i Hi Hlt Hf Hu. rewrite fm_get_spec by (done || unfold in_disk; lia).
    destruct (decide (i = s)) as [->|]; [by rewrite Hu|].
    rewrite run_free_cons in Hf by lia. destruct Hf as [-> Hf].
    apply (I2 i); [lia|lia| |done]. by replace (i - Z.succ s) with (i - s - 1) by lia.
  - intros Hn _ Hf. destruct (decide (fm_size fm ≤ s)); [by rewrite fm_get_out|].
    rewrite fm_get_spec by (done || unfold in_disk; lia).
    rewrite run_free_cons in Hf by lia. destruct Hf as [-> Hf].
    apply I3; [lia|lia|]. by replace (fm_size fm - Z.succ s) with (fm_size fm - s - 1) by lia.
Qed.

(** [dealloc] unmarks the longest marked run, up to its bound. *)
Lemma dealloc_loop_spec n : ∀ s fm, fm_wf fm → 0 ≤ s → s + Z.of_nat n ≤ fm_size fm →
  ∃ k fm', dealloc_loop (seqZ s (Z.of_nat n)) fm = Ret ((), fm') ∧
    0 ≤ k ≤ Z.of_nat n ∧ run_used fm s k ∧
    (k < Z.of_nat n → used fm (s + k) = false) ∧
    marks fm fm' (λ x, negb (within s k x) && used fm x).
Proof.
  induction n as [|n IH]; intros s fm Hw Hs Hn.
  { exists 0, fm. split_and!; [done|lia|lia|intros x ?; lia|lia|].
    eapply marks_ext, marks_refl, Hw. intros. by rewrite within_out by lia. }
  rewrite seqZ_cons by lia. replace (Z.pred (Z.of_nat (S n))) with (Z.of_nat n) by lia.
  cbn [dealloc_loop]. unmonad. rewrite fm_get_spec by (done || unfold in_disk; lia).
  destruct (used fm s) eqn:E; cbn [negb]; last first.
  { exists 0, fm. split_and!; [done|lia|lia|intros x ?; lia|by rewrite Z.add_0_r|].
    eapply marks_ext, marks_refl, Hw. intros. by rewrite within_out by lia. }
  destruct (fm_reset_spec fm s Hw) as (fm1 & -> & M1); [unfold in_disk; lia|].
  destruct M1 as (Hw1 & Hs1 & Hu1).
  destruct (IH (Z.succ s) fm1) as (k & fm2 & -> & Hk & Hr & Hstop & M2); [done|lia|lia|].
  exists (k + 1), fm2. split_and!; [done|lia|lia| | |].
  - intros x ?. destruct (decide (x = s)) as [->|]; [done|].
    specialize (Hr x ltac:(lia)). rewrite Hu1 in Hr by lia. by rewrite bool_decide_eq_false_2 in Hr.
  - intros ?. specialize (Hstop ltac:(lia)). rewrite Hu1 in Hstop by lia.
    rewrite bool_decide_eq_false_2 in Hstop by lia. by replace (s + (k + 1)) with (Z.succ s + k) by lia.
  - destruct M2 as (? & ? & Hu2). split; [done|]. split; [congruence|]. intros x Hx.
    rewrite Hu2, Hu1, (within_cons s) by lia.
    replace (s + 1) with (Z.succ s) by lia. replace (k + 1 - 1) with k by lia.
    case_bool_decide; cbn; [apply andb_false_r|done].
Qed.

Lemma dealloc_run fm s cnt : fm_wf fm → 0 ≤ s → 0 ≤ cnt → s + cnt ≤ fm_size fm →
  run_used fm s cnt →
  ∃ fm', fm_dealloc s cnt fm = Ret ((), fm') ∧ marks fm fm' (λ x, negb (within s cnt x) && used fm x).
Proof.
  intros Hw Hs Hc Hle Hu. unfold fm_dealloc. pose proof (fw_size _ Hw) as Hr.
  rewrite wrap_small by (unfold in_range in *; lia). replace (s + cnt - s) with cnt by lia.
  destruct (dealloc_loop_spec (Z.to_nat cnt) s fm Hw Hs) as (k & fm' & E & Hk & _ & Hstop & Hm);
    [lia|]. rewrite Z2Nat.id in * by done. exists fm'. split; [done|].
  destruct (decide (k < cnt)) as [Hlt|]; [|by replace cnt with k by lia].
  specialize (Hu (s + k) ltac:(lia)). by rewrite Hstop in Hu.
Qed.

(** Deallocating a run that was free before it was marked undoes the marking,
    bit for bit. *)
Lemma dealloc_undoes fm fm' s cnt : fm_wf fm → 0 ≤ s → 0 ≤ cnt → s + cnt ≤ fm_size fm →
  run_free fm s cnt → marks fm fm' (λ x, within s cnt x || used fm x) →
  fm_dealloc s cnt fm' = Ret ((), fm).
Proof.
  intros Hw Hs Hc Hle Hf (Hw' & Hsz & Hu).
  destruct (dealloc_run fm' s cnt) as (fm2 & -> & Hw2 & Hsz2 & Hu2); [done|lia|lia|lia| |].
  { intros x ?. rewrite Hu by lia. unfold within. by rewrite bool_decide_eq_true_2. }
  do 2 f_equal. apply used_ext; [done|done|congruence|]. intros x Hx.
  rewrite Hu2, Hu by done. unfold within. case_bool_decide; cbn; [|done].
  symmetry. by apply Hf.
Qed.

(** The first marked sector of a run that is not free. *)
Lemma run_not_free fm s n : 0 ≤ s → ¬ run_free fm s n →
  ∃ i, s ≤ i < s + n ∧ run_free fm s (i - s) ∧ used fm i = true.
Proof.
  intros Hs. destruct (decide (n ≤ 0)); [intros Hn; exfalso; apply Hn; intros x ?; lia|].
  rewrite <-(Z2Nat.id n) by lia. generalize (Z.to_nat n) as k. clear n n0. intros k.
  revert s Hs. induction k as [|k IH]; intros s Hs Hn.
  { exfalso. apply Hn. intros x ?. lia. }
  destruct (used fm s) eqn:Eu.
  { exists s. split; [lia|]. split; [intros x ?; lia|done]. }
  destruct (IH (s + 1)) as (i & Hi & Hf & Hu); [lia| |].
  - intros Hf. apply Hn. rewrite run_free_cons by lia. split; [done|].
    by replace (Z.of_nat (S k) - 1) with (Z.of_nat k) by lia.
  - exists i. split; [lia|]. split; [|done]. rewrite run_free_cons by lia. split; [done|].
    by replace (i - s - 1) with (i - (s + 1)) by lia.
Qed.

(** [in_place_alloc] in one statement, for its callers. *)
Lemma in_place_alloc_cases fm start cnt :
  fm_wf fm → 0 ≤ start → 0 ≤ cnt → start + cnt < 2 ^ 32 → start ≤ fm_size fm →
  (∃ fm', in_place_alloc start cnt fm = Ret (Ok (), fm') ∧ start + cnt ≤ fm_size fm ∧
     run_free fm start cnt ∧ marks fm fm' (λ x, within start cnt x || used fm x)) ∨
  (in_place_alloc start cnt fm = Ret (Err DiskSectorAllocFail, fm) ∧ ¬ run_free fm start cnt) ∨
  (in_place_alloc start cnt fm = Panic AssertFailed ∧ fm_size fm < start + cnt ∧
     run_free fm start (fm_size fm - start)).
Proof.
  intros Hw Hs Hc Hr Hsz. unfold in_place_alloc. unmonad.
  destruct (decide (cnt = 0)) as [->|].
  { left. exists fm. rewrite bool_decide_eq_true_2 by done. split_and!; [done|lia| |].
    - intros x ?. lia.
    - apply (marks_ext _ _ (used fm)); [|by apply marks_refl].
      intros s ?. by rewrite within_out by lia. }
  rewrite bool_decide_eq_false_2 by done. rewrite wrap_small by (unfold in_range; lia).
  replace (start + cnt - start) with cnt by lia.
  destruct (all_free_spec fm Hw (Z.to_nat cnt) start Hs) as (I1 & I2 & I3).
  rewrite Z2Nat.id in I1, I2, I3 by lia.
  destruct (run_free_dec fm start (Z.min cnt (fm_size fm - start)) Hs) as [Hf|Hf].
  - destruct (decide (start + cnt ≤ fm_size fm)) as [Hle|Hgt].
    + rewrite Z.min_l in Hf by lia. left. rewrite (I1 Hle Hf).
      destruct (for_each_set_run start cnt fm) as (fm' & -> & Hm); [done|lia|lia|lia|]. by exists fm'.
    + rewrite Z.min_r in Hf by lia. right; right. rewrite I3 by (done || lia). split_and!; [done|lia|done].
  - right; left. destruct (run_not_free fm start (Z.min cnt (fm_size fm - start)) Hs Hf)
      as (i & Hi & Hfi & Hui).
    rewrite (I2 i) by (done || lia). split; [done|]. intros Hall. rewrite Hall in Hui by lia. done.
Qed.

(** [alloc] of at least one sector. *)
Lemma fm_alloc_cases fm cnt : fm_wf fm → 0 < cnt →
  (∃ s fm', fm_alloc cnt fm = Ret (Ok s, fm') ∧ 0 ≤ s ∧ s + cnt < fm_size fm ∧
     run_free fm s cnt ∧ (∀ s', 0 ≤ s' < s → ¬ run_free fm s' cnt) ∧
     marks fm fm' (λ x, within s cnt x || used fm x)) ∨
  (fm_alloc cnt fm = Ret (Err DiskSectorAllocFail, fm) ∧
     ∀ s, 0 ≤ s → s + cnt < fm_size fm → ¬ run_free fm s cnt).
Proof.
  intros Hw Hc. unfold fm_alloc. unmonad. rewrite bool_decide_eq_false_2 by lia.
  destruct (decide (cnt >= fm_size fm)) as [Hge|Hlt].
  { right. rewrite bool_decide_eq_true_2 by done. split; [done|]. intros; lia. }
  rewrite bool_decide_eq_false_2 by done.
  destruct (alloc_outer_spec fm cnt Hw ltac:(lia) (Z.to_nat (fm_size fm - cnt)) 0)
    as [(s & fm' & E & Hs & Hf & Hm & Hk)|[E Hno]]; [lia|lia|left|right];
    rewrite Z2Nat.id in E by lia.
  - exists s, fm'. rewrite E. split_and!; try (done || lia).
  - rewrite E. split; [done|]. intros s ??. apply Hno. lia.
Qed.

(** ** The three operations *)

(** For a well-formed bitmap, [alloc] with a count of zero gives sector 0
    and changes nothing; with a positive count it is first fit over the runs
    that end before the last sector of the disk: it gives the lowest such run
    that is free and marks exactly it, or fails with [DiskSectorAllocFail] and
    an unchanged bitmap when there is none.  It never panics, and [dealloc] of the run it
    gave restores the bitmap bit for bit. *)
Theorem fm_alloc_correct fm cnt :
  fm_wf fm → 0 ≤ cnt →
  (cnt = 0 ∧ fm_alloc cnt fm = Ret (Ok 0, fm)) ∨
  (0 < cnt ∧ ∃ s fm', fm_alloc cnt fm = Ret (Ok s, fm') ∧
     0 ≤ s ∧ s + cnt < fm_size fm ∧ run_free fm s cnt ∧
     (∀ s', 0 ≤ s' < s → ¬ run_free fm s' cnt) ∧
     marks fm fm' (λ x, within s cnt x || used fm x) ∧
     fm_dealloc s cnt fm' = Ret ((), fm)) ∨
  (0 < cnt ∧ fm_alloc cnt fm = Ret (Err DiskSectorAllocFail, fm) ∧
     ∀ s, 0 ≤ s → s + cnt < fm_size fm → ¬ run_free fm s cnt).
Proof.
  intros Hw Hc. destruct (decide (cnt = 0)) as [->|Hc0]; [by left|right].
  destruct (fm_alloc_cases fm cnt Hw) as [(s & fm' & E & Hs & Hle & Hf & Hfirst & Hm)|[E Hno]];
    [lia|left|right]; (split; [lia|]); [|done].
  exists s, fm'. split_and!; try (done || lia). apply dealloc_undoes; (done || lia).
Qed.

(** [in_place_alloc] marks exactly the run it is asked for when the run is
    free and on the disk, and [dealloc] undoes that; it fails and changes nothing when it meets a marked
    sector first; and it panics when the run is free up to the end of the disk
    and goes beyond it. *)
Theorem in_place_alloc_correct fm start cnt :
  fm_wf fm → 0 ≤ start → 0 < cnt → start + cnt < 2 ^ 32 →
  (start + cnt ≤ fm_size fm → run_free fm start cnt →
     ∃ fm', in_place_alloc start cnt fm = Ret (Ok (), fm') ∧
       marks fm fm' (λ x, within start cnt x || used fm x) ∧
       fm_dealloc start cnt fm' = Ret ((), fm)) ∧
  (∀ i, start ≤ i < start + cnt → i < fm_size fm → run_free fm start (i - start) →
     used fm i = true → in_place_alloc start cnt fm = Ret (Err DiskSectorAllocFail, fm)) ∧
  (fm_size fm < start + cnt → run_free fm start (fm_size fm - start) →
     in_place_alloc start cnt fm = Panic AssertFailed).
Proof.
  intros Hw Hs Hc Hr. unfold in_place_alloc. unmonad.
  rewrite bool_decide_eq_false_2 by lia. rewrite wrap_small by (unfold in_range; lia).
  replace (start + cnt - start) with cnt by lia.
  destruct (all_free_spec fm Hw (Z.to_nat cnt) start Hs) as (I1 & I2 & I3).
  rewrite Z2Nat.id in I1, I2, I3 by lia. split_and!.
  - intros Hle Hf. rewrite (I1 Hle Hf).
    destruct (for_each_set_run start cnt fm) as (fm' & -> & Hm); [done|lia|lia|lia|].
    exists fm'. split_and!; [done|done|apply dealloc_undoes; (done || lia)].
  - intros i Hi Hlt Hf Hu. by rewrite (I2 i Hi Hlt Hf Hu).
  - intros Hlt Hf. by rewrite (I3 Hlt ltac:(lia) Hf).
Qed.

(** [dealloc] unmarks the longest run of marked sectors that starts at its
    sector, at most the given count, and nothing else. *)
Theorem fm_dealloc_correct fm s cnt :
  fm_wf fm → 0 ≤ s → 0 ≤ cnt → s + cnt ≤ fm_size fm →
  ∃ k fm', fm_dealloc s cnt fm = Ret ((), fm') ∧ 0 ≤ k ≤ cnt ∧ run_used fm s k ∧
    (k < cnt → used fm (s + k) = false) ∧
    marks fm fm' (λ x, negb (within s k x) && used fm x).
Proof.
  intros Hw Hs Hc Hle. unfold fm_dealloc. pose proof (fw_size _ Hw) as Hr.
  rewrite wrap_small by (unfold in_range in *; lia). replace (s + cnt - s) with cnt by lia.
  pose proof (dealloc_loop_spec (Z.to_nat cnt) s fm Hw Hs) as H.
  rewrite Z2Nat.id in H by done. by apply H.
Qed.



(** A disk of twelve sectors with the two reserved sectors and sector 4 marked. *)
Definition demo_map : FreeMap := mkFreeMap 12 [19; 0].

Lemma demo_map_wf : fm_wf demo_map.
Proof.
  split; [by unfold in_range|done|].
  repeat (apply Forall_cons; split; [by unfold in_range|]). apply Forall_nil. done.
Qed.

Lemma fm_alloc_correct_witness :
  fm_alloc 3 demo_map = Ret (Ok 5, mkFreeMap 12 [243; 0]) ∧
  ((3 = 0 ∧ fm_alloc 3 demo_map = Ret (Ok 0, demo_map)) ∨
   (0 < 3 ∧ ∃ s fm', fm_alloc 3 demo_map = Ret (Ok s, fm') ∧
     0 ≤ s ∧ s + 3 < fm_size demo_map ∧ run_free demo_map s 3 ∧
     (∀ s', 0 ≤ s' < s → ¬ run_free demo_map s' 3) ∧
     marks demo_map fm' (λ x, within s 3 x || used demo_map x) ∧
     fm_dealloc s 3 fm' = Ret ((), demo_map)) ∨
   (0 < 3 ∧ fm_alloc 3 demo_map = Ret (Err DiskSectorAllocFail, demo_map) ∧
     ∀ s, 0 ≤ s → s + 3 < fm_size demo_map → ¬ run_free demo_map s 3)).
Proof.
  split; [by vm_compute|]. apply fm_alloc_correct; [apply demo_map_wf|lia].
Defined.

(** The run 10, 11, 12 leaves the disk. *)
Lemma in_place_alloc_correct_witness :
  in_place_alloc 10 3 demo_map = Panic AssertFailed.
Proof.
  apply (in_place_alloc_correct demo_map 10 3); [apply demo_map_wf|lia|lia|lia|by cbn|].
  intros x Hx. cbn in Hx. assert (x = 10 ∨ x = 11) as [-> | ->] by lia; done.
Defined.

Lemma fm_dealloc_correct_witness :
  ∃ k fm', fm_dealloc 0 5 demo_map = Ret ((), fm') ∧ 0 ≤ k ≤ 5 ∧ run_used demo_map 0 k ∧
    (k < 5 → used demo_map (0 + k) = false) ∧
    marks demo_map fm' (λ x, negb (within 0 k x) && used demo_map x).
Proof. apply fm_dealloc_correct; [apply demo_map_wf|lia|lia|by vm_compute]. Defined.
