(* ===== verification/Bytes.v ===== *)
(** * Byte slices and little-endian words

    The byte strings that files, directories and disk sectors are made of:
    sub-slices [&b[off..off + n]], overwriting a sub-slice with
    [copy_from_slice], buffers that know their address, and the little-endian
    [u32] fields of the [repr(C)] structures that are written to the disk. *)

From S2P Require Import Prelude.

(** [[u8]], every element an unsigned byte. *)
Abbreviation bytes := (list Z).
Abbreviation is_bytes := (Forall (in_range 8)).

Definition zlen {A} (l : list A) : Z := Z.of_nat (length l).
Definition ztake {A} (n : Z) (l : list A) : list A := take (Z.to_nat n) l.
Definition zdrop {A} (n : Z) (l : list A) : list A := drop (Z.to_nat n) l.

(** [&l[off..off + n]] *)
Definition slice {A} (off n : Z) (l : list A) : list A := ztake n (zdrop off l).

(** [l[off..off + d.len()].copy_from_slice(d)] *)
Definition splice {A} (off : Z) (d l : list A) : list A :=
  ztake off l ++ d ++ zdrop (off + zlen d) l.

Definition zeros (n : Z) : bytes := replicate (Z.to_nat n) 0.

(** A [&[u8]] or [&mut [u8]]: the address of its first byte and its contents. *)
Record Buf : Type := mkBuf { b_addr : Z; b_data : bytes }.

(** [&buf[n..]] *)
Definition buf_skip (n : Z) (b : Buf) : Buf := mkBuf (b_addr b + n) (zdrop n (b_data b)).

(** [u32::to_le_bytes] and back, the layout of a [u32] field in memory. *)
Definition le32 (n : Z) : bytes :=
  [n mod 256; (n / 256) mod 256; (n / 65536) mod 256; (n / 16777216) mod 256].

Definition of_le32 (l : bytes) : Z :=
  match l with
  | [a; b; c; d] => a + 256 * b + 65536 * c + 16777216 * d
  | _ => 0
  end.

(** ** Lengths *)

Lemma zlen_nonneg {A} (l : list A) : 0 ≤ zlen l.
Proof. unfold zlen. lia. Qed.

Lemma zlen_app {A} (l k : list A) : zlen (l ++ k) = zlen l + zlen k.
Proof. unfold zlen. rewrite length_app. lia. Qed.

Lemma zlen_ztake {A} n (l : list A) : 0 ≤ n → zlen (ztake n l) = Z.min n (zlen l).
Proof. intros. unfold zlen, ztake. rewrite length_take. lia. Qed.

Lemma zlen_zdrop {A} n (l : list A) : 0 ≤ n → zlen (zdrop n l) = Z.max 0 (zlen l - n).
Proof. intros. unfold zlen, zdrop. rewrite length_drop. lia. Qed.

Lemma zlen_zeros n : 0 ≤ n → zlen (zeros n) = n.
Proof. intros. unfold zlen, zeros. rewrite length_replicate. lia. Qed.

Lemma zlen_nil_inv {A} (l : list A) : zlen l = 0 → l = [].
Proof. unfold zlen. destruct l; cbn; [done|lia]. Qed.

Lemma zlen_slice {A} off n (l : list A) : 0 ≤ off → 0 ≤ n → off + n ≤ zlen l →
  zlen (slice off n l) = n.
Proof. intros. unfold slice. rewrite zlen_ztake, zlen_zdrop by lia. lia. Qed.

Lemma zlen_splice {A} off (d l : list A) : 0 ≤ off → off + zlen d ≤ zlen l →
  zlen (splice off d l) = zlen l.
Proof.
  intros. pose proof (zlen_nonneg d). unfold splice.
  rewrite !zlen_app, zlen_ztake, zlen_zdrop by lia. lia.
Qed.

#[export] Hint Resolve zlen_nonneg : tacos.

(** ** Slices, element by element *)

Lemma lookup_slice {A} off n (l : list A) i : 0 ≤ off → 0 ≤ n →
  slice off n l !! i =
    if bool_decide (Z.of_nat i < n) then l !! (Z.to_nat off + i)%nat else None.
Proof.
  intros. unfold slice, ztake, zdrop. case_bool_decide.
  - rewrite lookup_take_lt by lia. by rewrite lookup_drop.
  - by rewrite lookup_take_ge by lia.
Qed.

Lemma lookup_splice {A} off (d l : list A) i : 0 ≤ off → off + zlen d ≤ zlen l →
  splice off d l !! i =
    if bool_decide (off ≤ Z.of_nat i < off + zlen d)
    then d !! (i - Z.to_nat off)%nat else l !! i.
Proof.
  intros H1 H2. pose proof (zlen_nonneg d). unfold splice, ztake, zdrop.
  assert (Hl : length (take (Z.to_nat off) l) = Z.to_nat off).
  { rewrite length_take. unfold zlen in *. lia. }
  case_bool_decide.
  - rewrite lookup_app_r by lia. rewrite Hl.
    rewrite lookup_app_l by (unfold zlen in *; lia). done.
  - destruct (decide (Z.of_nat i < off)).
    + rewrite lookup_app_l by lia. by rewrite lookup_take_lt by lia.
    + rewrite lookup_app_r, Hl by lia. rewrite lookup_app_r by (unfold zlen in *; lia).
      rewrite lookup_drop. f_equal. unfold zlen in *. lia.
Qed.

Lemma ztake_app_zdrop {A} n (l : list A) : ztake n l ++ zdrop n l = l.
Proof. apply take_drop. Qed.

Lemma zdrop_zdrop {A} a b (l : list A) : 0 ≤ a → 0 ≤ b → zdrop b (zdrop a l) = zdrop (a + b) l.
Proof. intros. unfold zdrop. rewrite drop_drop. f_equal. lia. Qed.

Lemma ztake_all {A} n (l : list A) : zlen l ≤ n → ztake n l = l.
Proof. intros. apply take_ge. unfold zlen in *. lia. Qed.

Lemma zdrop_all {A} n (l : list A) : zlen l ≤ n → zdrop n l = [].
Proof. intros. apply drop_ge. unfold zlen in *. lia. Qed.

Lemma ztake_app_l {A} n (l k : list A) : zlen l = n → ztake n (l ++ k) = l.
Proof. intros <-. unfold ztake, zlen. rewrite Nat2Z.id. apply take_app_length. Qed.

Lemma zdrop_app_l {A} n (l k : list A) : zlen l = n → zdrop n (l ++ k) = k.
Proof. intros <-. unfold zdrop, zlen. rewrite Nat2Z.id. apply drop_app_length. Qed.

(** Equality by slices, the usual way to prove facts about them. *)
Lemma list_eq_z {A} (l k : list A) : (∀ i, l !! i = k !! i) → l = k.
Proof. apply list_eq. Qed.

Ltac slice_eq :=
  apply list_eq_z; intros ?i;
  rewrite ?lookup_slice, ?lookup_splice
    by (rewrite ?zlen_splice, ?zlen_slice by lia; lia).

Lemma slice_app {A} off n m (l : list A) : 0 ≤ off → 0 ≤ n → 0 ≤ m →
  slice off n l ++ slice (off + n) m l = slice off (n + m) l.
Proof.
  intros. unfold slice, ztake, zdrop.
  replace (Z.to_nat (n + m)) with (Z.to_nat n + Z.to_nat m)%nat by lia.
  replace (Z.to_nat (off + n)) with (Z.to_nat off + Z.to_nat n)%nat by lia.
  rewrite <-drop_drop. apply take_take_drop.
Qed.

Lemma slice_slice {A} a n b m (l : list A) : 0 ≤ a → 0 ≤ b → 0 ≤ m → b + m ≤ n →
  slice b m (slice a n l) = slice (a + b) m l.
Proof.
  intros. apply list_eq_z; intros i. rewrite !lookup_slice by lia.
  repeat case_bool_decide; try lia; [|done]. f_equal. lia.
Qed.

Lemma slice_full {A} (l : list A) n : zlen l ≤ n → slice 0 n l = l.
Proof. intros. unfold slice. by rewrite ztake_all. Qed.

Lemma slice_zero {A} off (l : list A) : slice off 0 l = [].
Proof. done. Qed.

Lemma splice_nil {A} off (l : list A) : 0 ≤ off ≤ zlen l → splice off [] l = l.
Proof. intros. unfold splice. cbn. rewrite Z.add_0_r. apply ztake_app_zdrop. Qed.

Lemma splice_splice {A} off (d e l : list A) : 0 ≤ off → off + zlen d + zlen e ≤ zlen l →
  splice (off + zlen d) e (splice off d l) = splice off (d ++ e) l.
Proof.
  intros. pose proof (zlen_nonneg d). pose proof (zlen_nonneg e).
  apply list_eq_z; intros i.
  rewrite !lookup_splice by (rewrite ?zlen_splice, ?zlen_app by lia; lia).
  rewrite zlen_app. repeat case_bool_decide; try lia; [| |done].
  - rewrite lookup_app_r by (unfold zlen in *; lia). f_equal. unfold zlen in *. lia.
  - rewrite lookup_app_l by (unfold zlen in *; lia). done.
Qed.

(** What was written reads back, and the rest is untouched. *)
Lemma slice_splice {A} off (d l : list A) : 0 ≤ off → off + zlen d ≤ zlen l →
  slice off (zlen d) (splice off d l) = d.
Proof.
  intros. pose proof (zlen_nonneg d). unfold slice, splice. rewrite zdrop_app_l by (rewrite zlen_ztake by lia; lia).
  by apply ztake_app_l.
Qed.

Lemma slice_splice_other {A} off (d l : list A) a n : 0 ≤ off → off + zlen d ≤ zlen l →
  0 ≤ a → 0 ≤ n → a + n ≤ off ∨ off + zlen d ≤ a →
  slice a n (splice off d l) = slice a n l.
Proof.
  intros. apply list_eq_z; intros i. rewrite !lookup_slice by lia. case_bool_decide; [|done].
  rewrite lookup_splice by lia. case_bool_decide; [lia|done].
Qed.

(** ** Bytes *)

Lemma is_bytes_app (l k : bytes) : is_bytes (l ++ k) ↔ is_bytes l ∧ is_bytes k.
Proof. apply Forall_app. Qed.

(** The test, for concrete strings. *)
Lemma is_bytes_forallb (l : bytes) : forallb (λ b, (0 <=? b) && (b <? 256)) l = true → is_bytes l.
Proof.
  intros Hf. apply Forall_forall. intros x Hx. apply list_elem_of_In in Hx.
  rewrite forallb_forall in Hf. specialize (Hf x Hx). unfold in_range. change (2 ^ 8) with 256. lia.
Qed.

Lemma is_bytes_slice off n (l : bytes) : is_bytes l → is_bytes (slice off n l).
Proof. intros. apply Forall_take, Forall_drop. done. Qed.

Lemma is_bytes_splice off (d l : bytes) : is_bytes d → is_bytes l → is_bytes (splice off d l).
Proof.
  intros. unfold splice. rewrite !is_bytes_app. split; [by apply Forall_take|].
  split; [done|by apply Forall_drop].
Qed.

Lemma is_bytes_zeros n : is_bytes (zeros n).
Proof. apply Forall_replicate. split; lia. Qed.

Lemma le32_bytes n : is_bytes (le32 n).
Proof. repeat constructor; apply Z.mod_pos_bound; lia. Qed.

Lemma zlen_le32 n : zlen (le32 n) = 4.
Proof. done. Qed.

Lemma of_le32_le32 n : is_u32 n → of_le32 (le32 n) = n.
Proof.
  intros [H1 H2]. change (2 ^ 32) with 4294967296 in H2. cbn [le32 of_le32].
  pose proof (Z.div_mod n 256). pose proof (Z.div_mod (n / 256) 256).
  pose proof (Z.div_mod (n / 65536) 256). pose proof (Z.div_mod (n / 16777216) 256).
  rewrite Z.div_div in * by lia.
  replace (256 * 256) with 65536 in * by lia.
  pose proof (Z.div_div n 65536 256). replace (65536 * 256) with 16777216 in * by lia.
  rewrite (Z.mod_small (n / 16777216)); [lia|].
  split; [apply Z.div_pos; lia|apply Z.div_lt_upper_bound; lia].
Qed.

Lemma of_le32_range l : is_bytes l → is_u32 (of_le32 l).
Proof.
  intros Hl. destruct l as [|a [|b [|c [|d [|e l]]]]]; try (split; cbn; lia).
  rewrite !Forall_cons in Hl. destruct Hl as (Ha & Hb & Hc & Hd & _).
  unfold in_range in *. change (2 ^ 8) with 256 in *. change (2 ^ 32) with 4294967296.
  cbn. lia.
Qed.

Lemma le32_of_le32 l : zlen l = 4 → is_bytes l → le32 (of_le32 l) = l.
Proof.
  intros Hl Hb. destruct l as [|a [|b [|c [|d [|e l]]]]]; unfold zlen in Hl; cbn in Hl; try lia.
  rewrite !Forall_cons in Hb. destruct Hb as (Ha & Hb & Hc & Hd & _).
  unfold in_range in *. change (2 ^ 8) with 256 in *. unfold of_le32, le32.
  assert ((a + 256 * b + 65536 * c + 16777216 * d) / 256 = b + 256 * c + 65536 * d) as ->.
  { symmetry. apply (Z.div_unique _ _ _ a); lia. }
  assert ((a + 256 * b + 65536 * c + 16777216 * d) / 65536 = c + 256 * d) as ->.
  { symmetry. apply (Z.div_unique _ _ _ (a + 256 * b)); lia. }
  assert ((a + 256 * b + 65536 * c + 16777216 * d) / 16777216 = d) as ->.
  { symmetry. apply (Z.div_unique _ _ _ (a + 256 * b + 65536 * c)); lia. }
  rewrite (Z.mod_small d) by lia.
  repeat f_equal; symmetry.
  - apply (Z.mod_unique _ _ (b + 256 * c + 65536 * d)); lia.
  - apply (Z.mod_unique _ _ (c + 256 * d)); lia.
  - apply (Z.mod_unique _ _ d); lia.
Qed.

#[export] Hint Resolve is_bytes_slice is_bytes_splice is_bytes_zeros le32_bytes : tacos.
