(* ===== verification/Io.v ===== *)
(** * Byte streams

    [io.rs]: the traits [Read], [Write] and [Seek] with their default methods.
    A trait is a typeclass over the state the implementor's methods run in;
    the default methods are definitions over the class.  [Stream] and
    [StreamLaws] say what the kernel's streams promise (short reads and writes
    allowed), and the default methods are proved against those laws: what
    [read_exact], [write_all], [read_into], [write_from] and [seek] return and
    leave behind.  [Fs.v] discharges the laws for files. *)

From S2P Require Import Prelude Bytes.

(** [trait Read]: the result, and what the buffer then holds. *)
Class Read (S : Type) := read : Buf → M S (result Z * bytes).

(** [trait Write] *)
Class Write (S : Type) := {
  write : Buf → M S (result Z);
  flush : M S (result unit);
}.

(** [trait Seek]; [set_pos p] is [*self.pos()? = p]. *)
Class Seek (S : Type) := {
  len : M S (result Z);
  pos : M S (result Z);
  set_pos : Z → M S (result unit);
}.

Inductive SeekFrom : Type :=
  | Start (u : Z)
  | End (i : Z)
  | Current (i : Z).

(** [n as isize], and the wrap-around of [isize] arithmetic. *)
Definition to_isize (n : Z) : Z := (n + 2 ^ 63) mod 2 ^ 64 - 2 ^ 63.

(** A type whose values are copied from and to bytes with [transmute_copy]. *)
Class Pod (T : Type) := {
  size_of : Z;
  to_bytes : T → bytes;
  of_bytes : bytes → T;
}.
Arguments size_of T {_}.

Definition is_empty_slice (b : bytes) : bool := bool_decide (b = []).

Section defaults.
Context {S : Type} `{Read S} `{Write S} `{Seek S}.

(** The test after the loop of [read_exact]. *)
Definition eof_unless_full (b : bytes) : result unit :=
  if negb (is_empty_slice b) then Err UnexpectedEOF else Ok ().

(** The loop of [read_exact]; the second component is the buffer. *)
Fixpoint read_exact_loop (fuel : nat) (b : Buf) : M S (result unit * bytes) :=
  match fuel with
  | O => fail OutOfFuel
  | Datatypes.S fuel =>
      if negb (is_empty_slice (b_data b)) then
        '(r, d) ← read b ;
        match r with
        | Ok n =>
            if bool_decide (n = 0) then mret (eof_unless_full d, d) (* break *)
            else if bool_decide (zlen d < n) then fail IndexOutOfBounds
            else
              '(r, d') ← read_exact_loop fuel (buf_skip n (mkBuf (b_addr b) d)) ;
              mret (r, ztake n d ++ d')
        | Err e => mret (Err e, d)
        end
      else mret (eof_unless_full (b_data b), b_data b)
  end.

Definition read_exact (b : Buf) : M S (result unit * bytes) :=
  read_exact_loop (Datatypes.S (length (b_data b))) b.

(** [read_into::<T>()], whose vector the kernel heap puts at address [v]. *)
Definition read_into (v : Z) (T : Type) `{Pod T} : M S (result T) :=
  '(r, d) ← read_exact (mkBuf v (zeros (size_of T))) ;
  match r with
  | Ok _ => mret (Ok (of_bytes d))
  | Err e => mret (Err e)
  end.

Fixpoint write_all_loop (fuel : nat) (b : Buf) : M S (result unit) :=
  match fuel with
  | O => fail OutOfFuel
  | Datatypes.S fuel =>
      if negb (is_empty_slice (b_data b)) then
        r ← write b ;
        match r with
        | Ok n =>
            if bool_decide (n = 0) then mret (Err UnexpectedEOF)
            else if bool_decide (zlen (b_data b) < n) then fail IndexOutOfBounds
            else write_all_loop fuel (buf_skip n b)
        | Err e => mret (Err e)
        end
      else mret (Ok ())
  end.

Definition write_all (b : Buf) : M S (result unit) :=
  write_all_loop (Datatypes.S (length (b_data b))) b.

Definition write_from (v : Z) {T : Type} `{Pod T} (value : T) : M S (result unit) :=
  _ ←? write_all (mkBuf v (to_bytes value)) ; mret (Ok ()).

Definition seek (p : SeekFrom) : M S (result Z) :=
  l ←? len ;
  cur ←? pos ;
  let ilen := to_isize l in
  let new_pos := match p with
                 | Start u => Z.max u 0
                 | End i => Z.max (to_isize (ilen + i)) 0
                 | Current i => Z.max (to_isize (to_isize cur + i)) 0
                 end in
  _ ←? set_pos new_pos ;
  mret (Ok new_pos).

Definition rewind : M S (result unit) :=
  _ ←? seek (Start 0) ; mret (Ok ()).

Definition stream_position : M S (result Z) := seek (Current 0).
End defaults.

(** ** What a stream promises *)

(** The contents and cursor of a stream; whether it takes writes; the buffers
    its device can reach; and [st_only s s'], that [s'] differs from [s] in
    this stream alone. *)
Class Stream (S : Type) := {
  st_ok : S → Prop;
  st_writable : S → Prop;
  st_buf : S → Buf → Prop;
  st_data : S → bytes;
  st_pos : S → Z;
  st_only : relation S;
}.

(** [s'] is [s] with contents [d] and cursor [p]. *)
Definition becomes {S : Type} `{Stream S} (s : S) (d : bytes) (p : Z) (s' : S) : Prop :=
  st_ok s' ∧ st_data s' = d ∧ st_pos s' = p ∧ st_only s s'.

Class StreamLaws (S : Type) `{Read S} `{Write S} `{Seek S} `{Stream S} : Prop := {
  st_only_preorder :: PreOrder (st_only (S:=S));
  st_buf_only (s s' : S) b : st_only s s' → st_buf s b → st_buf s' b;
  st_writable_only (s s' : S) : st_only s s' → st_writable s → st_writable s';
  st_buf_skip (s : S) b n : st_buf s b → 0 ≤ n ≤ zlen (b_data b) → st_buf s (buf_skip n b);
  st_buf_data (s : S) a d d' : st_buf s (mkBuf a d) → zlen d = zlen d' → st_buf s (mkBuf a d');
  st_bounds (s : S) : st_ok s → 0 ≤ st_pos s < 2 ^ 63 ∧ zlen (st_data s) < 2 ^ 63;
  read_some (s : S) b : st_ok s → st_buf s b → b_data b ≠ [] → st_pos s < zlen (st_data s) →
    ∃ n s', 1 ≤ n ≤ zlen (b_data b) ∧ st_pos s + n ≤ zlen (st_data s) ∧
      read b s = Ret ((Ok n, slice (st_pos s) n (st_data s) ++ zdrop n (b_data b)), s') ∧
      becomes s (st_data s) (st_pos s + n) s';
  read_eof (s : S) b : st_ok s → zlen (st_data s) ≤ st_pos s →
    ∃ r, (r = Ok 0 ∨ r = Err UnexpectedEOF) ∧ read b s = Ret ((r, b_data b), s);
  write_some (s : S) b : st_ok s → st_writable s → st_buf s b → is_bytes (b_data b) → b_data b ≠ [] →
    st_pos s + zlen (b_data b) ≤ zlen (st_data s) →
    ∃ n s', 1 ≤ n ≤ zlen (b_data b) ∧ write b s = Ret (Ok n, s') ∧
      becomes s (splice (st_pos s) (ztake n (b_data b)) (st_data s)) (st_pos s + n) s';
  len_spec (s : S) : st_ok s → len s = Ret (Ok (zlen (st_data s)), s);
  pos_spec (s : S) : st_ok s → pos s = Ret (Ok (st_pos s), s);
  set_pos_spec (s : S) p : st_ok s → 0 ≤ p < 2 ^ 63 →
    ∃ s', set_pos p s = Ret (Ok (), s') ∧ becomes s (st_data s) p s';
}.

(** The bytes of a value are as many as its size and determine it; [pod_ok]
    are the values of the type, whose fields are in range. *)
Class PodLaws (T : Type) `{Pod T} := {
  pod_ok : T → Prop;
  size_of_nonneg : 0 ≤ size_of T;
  to_bytes_length (t : T) : pod_ok t → zlen (to_bytes t) = size_of T;
  to_bytes_bytes (t : T) : pod_ok t → is_bytes (to_bytes t);
  of_to_bytes (t : T) : pod_ok t → of_bytes (to_bytes t) = t;
}.

Lemma to_isize_small n : -2 ^ 63 ≤ n < 2 ^ 63 → to_isize n = n.
Proof. intros. unfold to_isize. rewrite Z.mod_small; lia. Qed.

Lemma is_empty_slice_false b : b ≠ [] → is_empty_slice b = false.
Proof. apply bool_decide_eq_false_2. Qed.

Lemma zlen_ne_nil {A} (l : list A) : l ≠ [] → 0 < zlen l.
Proof. destruct l; [done|unfold zlen; cbn; lia]. Qed.

Section stream.
Context {S : Type} `{StreamLaws S}.

Lemma becomes_refl (s : S) : st_ok s → becomes s (st_data s) (st_pos s) s.
Proof. intros. by repeat split. Qed.

Lemma becomes_trans (s : S) d1 p1 s1 d2 p2 s2 :
  becomes s d1 p1 s1 → becomes s1 d2 p2 s2 → becomes s d2 p2 s2.
Proof. intros (_ & _ & _ & ?) (? & ? & ? & ?). repeat split; try done. by etrans. Qed.

(** One turn of the loops: what is left of the buffer after [n] bytes. *)
Lemma skip_shorter n b : 1 ≤ n ≤ zlen (b_data b) →
  (length (b_data (buf_skip n b)) < length (b_data b))%nat ∧
  zlen (b_data (buf_skip n b)) = zlen (b_data b) - n.
Proof.
  intros. split; [|cbn; rewrite zlen_zdrop by lia; lia].
  cbn. unfold zdrop, zlen in *. rewrite length_drop. lia.
Qed.

Lemma read_exact_loop_enough fuel : ∀ b (s : S), (length (b_data b) < fuel)%nat →
  st_ok s → st_buf s b → st_pos s + zlen (b_data b) ≤ zlen (st_data s) →
  ∃ s', read_exact_loop fuel b s =
          Ret ((Ok (), slice (st_pos s) (zlen (b_data b)) (st_data s)), s') ∧
        becomes s (st_data s) (st_pos s + zlen (b_data b)) s'.
Proof.
  induction fuel as [|fuel IH]; intros b s Hf Hok Hb Hle; [lia|].
  pose proof (st_bounds s Hok) as [Hp _]. cbn [read_exact_loop].
  destruct (decide (b_data b = [])) as [He|Hne].
  { rewrite He. exists s. split; [done|]. change (zlen []) with 0. rewrite Z.add_0_r.
    by apply becomes_refl. }
  pose proof (zlen_ne_nil _ Hne). rewrite is_empty_slice_false by done. cbn [negb].
  destruct (read_some s b Hok Hb Hne) as (n & s1 & Hn & Hn' & Hr & Hs1); [lia|].
  unmonad. rewrite Hr. rewrite bool_decide_eq_false_2 by lia.
  pose proof (zlen_slice (st_pos s) n (st_data s)) as Hsl.
  rewrite bool_decide_eq_false_2.
  2:{ rewrite zlen_app, Hsl by lia. pose proof (zlen_nonneg (zdrop n (b_data b))). lia. }
  set (b1 := buf_skip n _).
  assert (Hb1 : b1 = buf_skip n b).
  { subst b1. unfold buf_skip. cbn. by rewrite zdrop_app_l by (by rewrite Hsl by lia). }
  destruct (skip_shorter n b Hn) as [Hlt Hrem].
  pose proof Hs1 as (Hok1 & Hd1 & Hp1 & Ho1).
  destruct (IH b1 s1) as (s2 & Hr2 & Hs2).
  - rewrite Hb1. lia.
  - done.
  - rewrite Hb1. apply st_buf_skip; [by eapply st_buf_only|lia].
  - rewrite Hb1, Hd1, Hp1, Hrem. lia.
  - unmonad. rewrite Hr2. exists s2. rewrite Hb1, Hd1, Hp1, Hrem in *. split.
    + do 3 f_equal. rewrite ztake_app_l by (by rewrite Hsl by lia).
      rewrite slice_app by lia. f_equal. lia.
    + eapply becomes_trans; [done|]. by replace (st_pos s + zlen (b_data b))
        with (st_pos s + n + (zlen (b_data b) - n)) by lia.
Qed.

Lemma read_exact_loop_eof fuel : ∀ b (s : S), (length (b_data b) < fuel)%nat →
  st_ok s → st_buf s b → b_data b ≠ [] → zlen (st_data s) < st_pos s + zlen (b_data b) →
  ∃ d s', read_exact_loop fuel b s = Ret ((Err UnexpectedEOF, d), s') ∧
        becomes s (st_data s) (Z.max (st_pos s) (zlen (st_data s))) s'.
Proof.
  induction fuel as [|fuel IH]; intros b s Hf Hok Hb Hne Hle; [lia|].
  pose proof (st_bounds s Hok) as [Hp _]. cbn [read_exact_loop].
  rewrite is_empty_slice_false by done. cbn [negb]. unmonad.
  destruct (decide (st_pos s < zlen (st_data s))) as [Hlt|Hge].
  - destruct (read_some s b Hok Hb Hne Hlt) as (n & s1 & Hn & Hn' & Hr & Hs1).
    rewrite Hr. rewrite bool_decide_eq_false_2 by lia.
    pose proof (zlen_slice (st_pos s) n (st_data s)) as Hsl.
    rewrite bool_decide_eq_false_2.
    2:{ rewrite zlen_app, Hsl by lia. pose proof (zlen_nonneg (zdrop n (b_data b))). lia. }
    set (b1 := buf_skip n _).
    assert (Hb1 : b1 = buf_skip n b).
    { subst b1. unfold buf_skip. cbn. by rewrite zdrop_app_l by (by rewrite Hsl by lia). }
    destruct (skip_shorter n b Hn) as [Hlt' Hrem].
    pose proof Hs1 as (Hok1 & Hd1 & Hp1 & Ho1).
    destruct (IH b1 s1) as (d & s2 & Hr2 & Hs2).
    + rewrite Hb1. lia.
    + done.
    + rewrite Hb1. apply st_buf_skip; [by eapply st_buf_only|lia].
    + rewrite Hb1. intros He. rewrite He in Hrem. change (zlen []) with 0 in Hrem. lia.
    + rewrite Hb1, Hd1, Hp1, Hrem. lia.
    + unmonad. rewrite Hr2. eexists _, s2. split; [done|]. rewrite Hd1, Hp1 in Hs2.
      eapply becomes_trans; [done|].
      by replace (Z.max (st_pos s) (zlen (st_data s)))
        with (Z.max (st_pos s + n) (zlen (st_data s))) by lia.
  - destruct (read_eof s b Hok) as (r & Hr & Hrd); [lia|]. rewrite Hrd.
    exists (b_data b), s. rewrite Z.max_l by lia. split; [|by apply becomes_refl].
    destruct Hr as [-> | ->]; [|done]. cbn. unfold eof_unless_full.
    by rewrite is_empty_slice_false by done.
Qed.

Lemma write_all_loop_spec fuel : ∀ b (s : S), (length (b_data b) < fuel)%nat →
  st_ok s → st_writable s → st_buf s b → is_bytes (b_data b) →
  st_pos s + zlen (b_data b) ≤ zlen (st_data s) →
  ∃ s', write_all_loop fuel b s = Ret (Ok (), s') ∧
        becomes s (splice (st_pos s) (b_data b) (st_data s)) (st_pos s + zlen (b_data b)) s'.
Proof.
  induction fuel as [|fuel IH]; intros b s Hf Hok Hwr Hb Hby Hle; [lia|].
  pose proof (st_bounds s Hok) as [Hp _]. cbn [write_all_loop].
  destruct (decide (b_data b = [])) as [He|Hne].
  { rewrite He in *. change (zlen []) with 0 in *. exists s. split; [done|].
    rewrite splice_nil, Z.add_0_r by lia. by apply becomes_refl. }
  rewrite is_empty_slice_false by done. cbn [negb]. unmonad.
  destruct (write_some s b Hok Hwr Hb Hby Hne Hle) as (n & s1 & Hn & Hr & Hs1).
  rewrite Hr. rewrite !bool_decide_eq_false_2 by lia.
  destruct (skip_shorter n b Hn) as [Hlt Hrem].
  pose proof Hs1 as (Hok1 & Hd1 & Hp1 & Ho1).
  assert (Ht : zlen (ztake n (b_data b)) = n) by (rewrite zlen_ztake; lia).
  destruct (IH (buf_skip n b) s1) as (s2 & Hr2 & Hs2).
  - lia.
  - done.
  - by eapply st_writable_only.
  - apply st_buf_skip; [by eapply st_buf_only|lia].
  - by apply Forall_drop.
  - rewrite Hd1, Hp1, Hrem, zlen_splice by lia. lia.
  - exists s2. split; [done|]. rewrite Hd1, Hp1, Hrem in Hs2. eapply becomes_trans; [done|].
    replace (st_pos s + zlen (b_data b)) with (st_pos s + n + (zlen (b_data b) - n)) by lia.
    pose proof (splice_splice (st_pos s) (ztake n (b_data b)) (b_data (buf_skip n b)) (st_data s)) as E.
    rewrite Ht, Hrem in E. rewrite <-(ztake_app_zdrop n (b_data b)) at 1.
    cbn [buf_skip b_data] in *. by rewrite <-E by lia.
Qed.

Lemma write_from_spec {T} `{PodLaws T} v (t : T) (s : S) : pod_ok t →
  st_ok s → st_writable s → st_buf s (mkBuf v (zeros (size_of T))) → st_pos s + size_of T ≤ zlen (st_data s) →
  ∃ s', write_from v t s = Ret (Ok (), s') ∧
        becomes s (splice (st_pos s) (to_bytes t) (st_data s)) (st_pos s + size_of T) s'.
Proof.
  intros Ht Hok Hwr Hb Hle. pose proof (to_bytes_length t Ht) as Hl. pose proof (size_of_nonneg (T:=T)).
  destruct (write_all_loop_spec (Datatypes.S (length (to_bytes t))) (mkBuf v (to_bytes t)) s)
    as (s' & Hr & Hs').
  - cbn. lia.
  - done.
  - done.
  - eapply st_buf_data; [done|]. by rewrite zlen_zeros, Hl.
  - by apply to_bytes_bytes.
  - cbn. by rewrite Hl.
  - exists s'. unfold write_from, write_all. unmonad. cbn [b_data] in *. rewrite Hr.
    split; [done|]. by rewrite Hl in Hs'.
Qed.

Lemma read_into_spec {T} `{PodLaws T} v (s : S) :
  st_ok s → st_buf s (mkBuf v (zeros (size_of T))) → st_pos s + size_of T ≤ zlen (st_data s) →
  ∃ s', read_into v T s = Ret (Ok (of_bytes (slice (st_pos s) (size_of T) (st_data s))), s') ∧
        becomes s (st_data s) (st_pos s + size_of T) s'.
Proof.
  intros Hok Hb Hle. pose proof (size_of_nonneg (T:=T)).
  pose proof (zlen_zeros (size_of T)) as Hz.
  destruct (read_exact_loop_enough (Datatypes.S (length (zeros (size_of T))))
    (mkBuf v (zeros (size_of T))) s) as (s' & Hr & Hs'); cbn [b_data]; [lia|done|done|lia|].
  exists s'. unfold read_into, read_exact. unmonad. cbn [b_data] in *. rewrite Hr, Hz by done.
  split; [done|]. by rewrite Hz in Hs'.
Qed.

Lemma read_into_eof {T} `{PodLaws T} v (s : S) :
  st_ok s → st_buf s (mkBuf v (zeros (size_of T))) → 0 < size_of T →
  zlen (st_data s) < st_pos s + size_of T →
  ∃ s', read_into v T s = Ret (Err UnexpectedEOF, s') ∧
        becomes s (st_data s) (Z.max (st_pos s) (zlen (st_data s))) s'.
Proof.
  intros Hok Hb Hpos Hle. pose proof (zlen_zeros (size_of T)) as Hz.
  destruct (read_exact_loop_eof (Datatypes.S (length (zeros (size_of T))))
    (mkBuf v (zeros (size_of T))) s) as (d & s' & Hr & Hs'); cbn [b_data]; [lia|done|done| |lia|].
  { intros E. rewrite E in Hz. change (zlen []) with 0 in Hz. lia. }
  exists s'. unfold read_into, read_exact. unmonad. cbn [b_data] in *. by rewrite Hr.
Qed.

(** The position [seek] computes, without the machine arithmetic. *)
Definition seek_target (p : SeekFrom) (length cur : Z) : Z :=
  match p with
  | Start u => u
  | End i => Z.max 0 (length + i)
  | Current i => Z.max 0 (cur + i)
  end.

Definition seek_in_range (p : SeekFrom) (length cur : Z) : Prop :=
  match p with
  | Start u => 0 ≤ u < 2 ^ 63
  | End i => -2 ^ 63 ≤ i ∧ length + i < 2 ^ 63
  | Current i => -2 ^ 63 ≤ i ∧ cur + i < 2 ^ 63
  end.

Lemma seek_spec p (s : S) : st_ok s → seek_in_range p (zlen (st_data s)) (st_pos s) →
  ∃ s', seek p s = Ret (Ok (seek_target p (zlen (st_data s)) (st_pos s)), s') ∧
        becomes s (st_data s) (seek_target p (zlen (st_data s)) (st_pos s)) s'.
Proof.
  intros Hok Hr. destruct (st_bounds s Hok) as [Hp Hl].
  pose proof (zlen_nonneg (st_data s)) as Hn. unfold seek. unmonad.
  rewrite len_spec, pos_spec by done.
  set (q := match p with Start _ => _ | End _ => _ | Current _ => _ end).
  assert (q = seek_target p (zlen (st_data s)) (st_pos s)) as ->.
  { subst q. destruct p; cbn in *; rewrite ?to_isize_small; rewrite ?to_isize_small; try lia. }
  destruct (set_pos_spec s (seek_target p (zlen (st_data s)) (st_pos s)) Hok) as (s' & Hs & Hb).
  { destruct p; cbn in *; lia. }
  rewrite Hs. by exists s'.
Qed.

(** [read_exact] on a stream that may serve short reads terminates and
    fills the buffer with exactly the next bytes when there are enough, and
    otherwise consumes the rest of the stream and reports [UnexpectedEOF];
    the contents of the stream never change. *)
Theorem read_exact_correct b (s : S) : st_ok s → st_buf s b →
  let n := zlen (b_data b) in let L := zlen (st_data s) in
  (st_pos s + n ≤ L → ∃ s', read_exact b s = Ret ((Ok (), slice (st_pos s) n (st_data s)), s') ∧
     becomes s (st_data s) (st_pos s + n) s') ∧
  (0 < n → L < st_pos s + n → ∃ d s', read_exact b s = Ret ((Err UnexpectedEOF, d), s') ∧
     becomes s (st_data s) (Z.max (st_pos s) L) s').
Proof.
  intros Hok Hb n L. split.
  - intros. apply read_exact_loop_enough; try done; lia.
  - intros Hn ?. apply read_exact_loop_eof; try done; [lia|].
    intros E. subst n. rewrite E in Hn. done.
Qed.

(** A value written with [write_from] inside a stream is what [read_into]
    at the same position gives back; the two leave the cursor after the value
    and every byte outside it unchanged. *)
Theorem write_from_read_into {T} `{PodLaws T} v (t : T) (s : S) : pod_ok t →
  st_ok s → st_writable s → st_buf s (mkBuf v (zeros (size_of T))) → st_pos s + size_of T ≤ zlen (st_data s) →
  ∃ s1 s2 s3,
    write_from v t s = Ret (Ok (), s1) ∧
    st_data s1 = splice (st_pos s) (to_bytes t) (st_data s) ∧
    seek (Current (- size_of T)) s1 = Ret (Ok (st_pos s), s2) ∧
    read_into v T s2 = Ret (Ok t, s3) ∧
    becomes s (st_data s1) (st_pos s + size_of T) s3.
Proof.
  intros Hpod Hok Hwr Hb Hle. pose proof (size_of_nonneg (T:=T)) as Hsz.
  pose proof (to_bytes_length t Hpod) as Hlen. destruct (st_bounds s Hok) as [Hp Hl].
  destruct (write_from_spec v t s Hpod Hok Hwr Hb Hle) as (s1 & Hw & Hs1).
  pose proof Hs1 as (Hok1 & Hd1 & Hp1 & Ho1).
  assert (Hl1 : zlen (st_data s1) = zlen (st_data s)) by (rewrite Hd1, zlen_splice; lia).
  destruct (seek_spec (Current (- size_of T)) s1 Hok1) as (s2 & Hk & Hs2).
  { cbn. rewrite Hp1. lia. }
  assert (Ht : seek_target (Current (- size_of T)) (zlen (st_data s1)) (st_pos s1) = st_pos s).
  { cbn. rewrite Hp1. lia. }
  rewrite Ht in Hk, Hs2. pose proof Hs2 as (Hok2 & Hd2 & Hp2 & Ho2).
  assert (Hb2 : st_buf s2 (mkBuf v (zeros (size_of T)))).
  { eapply st_buf_only; [|exact Hb]. by etrans. }
  destruct (read_into_spec v s2 Hok2 Hb2) as (s3 & Hr & Hs3).
  { rewrite Hp2, Hd2, Hl1. done. }
  exists s1, s2, s3. repeat split; try done.
  - rewrite Hr, Hp2, Hd2, Hd1. rewrite <-Hlen at 1. rewrite slice_splice by lia.
    by rewrite of_to_bytes by done.
  - apply Hs3.
  - destruct Hs3 as (_ & Hd3 & _). by rewrite Hd3, Hd2.
  - destruct Hs3 as (_ & _ & Hp3 & _). by rewrite Hp3, Hp2.
  - destruct Hs3 as (_ & _ & _ & Ho3). etrans; [exact Ho1|]. by etrans.
Qed.

(** [write_all] inside a stream that may take short writes terminates,
    overwrites exactly the bytes at the cursor and moves the cursor past
    them; [seek] moves to the requested position, clamped at the start, and
    may go past the end. *)
Theorem write_all_seek_correct b p (s : S) : st_ok s → st_writable s → st_buf s b → is_bytes (b_data b) →
  st_pos s + zlen (b_data b) ≤ zlen (st_data s) →
  ∃ s1, write_all b s = Ret (Ok (), s1) ∧
    becomes s (splice (st_pos s) (b_data b) (st_data s)) (st_pos s + zlen (b_data b)) s1 ∧
    (seek_in_range p (zlen (st_data s1)) (st_pos s1) →
     ∃ s2, let q := seek_target p (zlen (st_data s)) (st_pos s + zlen (b_data b)) in
       seek p s1 = Ret (Ok q, s2) ∧ becomes s (st_data s1) q s2).
Proof.
  intros Hok Hwr Hb Hby Hle. destruct (st_bounds s Hok) as [Hp Hl].
  destruct (write_all_loop_spec (Datatypes.S (length (b_data b))) b s) as (s1 & Hw & Hs1);
    [lia|done|done|done|done|done|].
  exists s1. split; [done|]. split; [done|]. intros Hr.
  pose proof Hs1 as (Hok1 & Hd1 & Hp1 & Ho1).
  destruct (seek_spec p s1 Hok1 Hr) as (s2 & Hk & Hs2). exists s2. cbn zeta.
  assert (Hl1 : zlen (st_data s1) = zlen (st_data s)) by (rewrite Hd1, zlen_splice; lia).
  rewrite Hl1, Hp1 in Hk, Hs2. split; [done|]. by eapply becomes_trans.
Qed.
End stream.

(** ** A stream with short reads and writes *)

(** A cursor over a byte string that serves at most three bytes at a time. *)
Record Cursor : Type := mkCursor { cur_data : bytes; cur_pos : Z }.

Definition cursor_count (c : Cursor) (b : Buf) : Z :=
  Z.max 0 (Z.min 3 (Z.min (zlen (b_data b)) (zlen (cur_data c) - cur_pos c))).

#[export] Instance cursor_read : Read Cursor := λ b c,
  let n := cursor_count c b in
  Ret ((Ok n, slice (cur_pos c) n (cur_data c) ++ zdrop n (b_data b)),
       mkCursor (cur_data c) (cur_pos c + n)).

#[export] Instance cursor_write : Write Cursor := {
  write b := λ c,
    let n := cursor_count c b in
    Ret (Ok n, mkCursor (splice (cur_pos c) (ztake n (b_data b)) (cur_data c)) (cur_pos c + n));
  flush := mret (Ok ());
}.

#[export] Instance cursor_seek : Seek Cursor := {
  len := λ c, Ret (Ok (zlen (cur_data c)), c);
  pos := λ c, Ret (Ok (cur_pos c), c);
  set_pos p := λ c, Ret (Ok (), mkCursor (cur_data c) p);
}.

#[export] Instance cursor_stream : Stream Cursor := {
  st_ok c := 0 ≤ cur_pos c < 2 ^ 63 ∧ zlen (cur_data c) < 2 ^ 63;
  st_writable _ := True;
  st_buf _ _ := True;
  st_data := cur_data;
  st_pos := cur_pos;
  st_only _ _ := True;
}.

#[export] Instance cursor_laws : StreamLaws Cursor.
Proof.
  constructor; try done.
  - intros c b [Hp Hl] _ Hne Hlt. pose proof (zlen_ne_nil _ Hne). cbn in *.
    exists (cursor_count c b), (mkCursor (cur_data c) (cur_pos c + cursor_count c b)).
    unfold cursor_count in *. repeat split; cbn; try lia.
  - intros c b [Hp Hl] Hge. exists (Ok 0). split; [by left|]. cbn in *. unfold read, cursor_read.
    replace (cursor_count c b) with 0 by (unfold cursor_count; pose proof (zlen_nonneg (b_data b)); lia).
    rewrite Z.add_0_r. by destruct c.
  - intros c b [Hp Hl] _ _ _ Hne Hle. pose proof (zlen_ne_nil _ Hne). cbn in *.
    assert (Hc : 1 ≤ cursor_count c b ≤ zlen (b_data b)) by (unfold cursor_count; lia).
    eexists (cursor_count c b), _. split; [done|]. split; [done|].
    repeat split; cbn; try lia. rewrite zlen_splice; rewrite ?zlen_ztake by lia; lia.
  - intros c p [? ?] ?. eexists. split; [done|]. repeat split; cbn in *; lia.
Qed.

(** A [u32] as its four bytes. *)
#[export] Instance u32_pod : Pod Z := { size_of := 4; to_bytes := le32; of_bytes := of_le32 }.
#[export] Instance u32_pod_laws : PodLaws Z.
Proof.
  refine {| pod_ok := is_u32 |}; [done|done| |apply of_le32_le32]. intros. apply le32_bytes.
Defined.

Definition demo_cursor : Cursor := mkCursor [10; 11; 12; 13; 14; 15; 16; 17] 1.

Lemma read_exact_correct_witness :
  (∃ s', read_exact (mkBuf 0 [0; 0; 0; 0; 0]) demo_cursor =
     Ret ((Ok (), [11; 12; 13; 14; 15]), s') ∧ becomes demo_cursor (cur_data demo_cursor) 6 s') ∧
  (∃ d s', read_exact (mkBuf 0 (zeros 9)) demo_cursor = Ret ((Err UnexpectedEOF, d), s') ∧
     becomes demo_cursor (cur_data demo_cursor) 8 s').
Proof.
  split.
  - refine (proj1 (read_exact_correct (mkBuf 0 [0; 0; 0; 0; 0]) demo_cursor _ _) _);
      cbv; intuition congruence.
  - refine (proj2 (read_exact_correct (mkBuf 0 (zeros 9)) demo_cursor _ _) _ _);
      cbv; intuition congruence.
Defined.

Lemma write_from_read_into_witness : ∃ s1 s2 s3,
  write_from 0 (258 : Z) demo_cursor = Ret (Ok (), s1) ∧
  st_data s1 = [10; 2; 1; 0; 0; 15; 16; 17] ∧
  seek (Current (-4)) s1 = Ret (Ok 1, s2) ∧
  read_into 0 Z s2 = Ret (Ok 258, s3) ∧
  becomes demo_cursor (st_data s1) 5 s3.
Proof.
  refine (write_from_read_into (T:=Z) 0 258 demo_cursor _ _ _ _ _); cbv; intuition congruence.
Defined.

Lemma write_all_seek_correct_witness : ∃ s1,
  write_all (mkBuf 0 [1; 2; 3; 4; 5]) demo_cursor = Ret (Ok (), s1) ∧
  becomes demo_cursor [10; 1; 2; 3; 4; 5; 16; 17] 6 s1 ∧
  (seek_in_range (End (-3)) 8 6 →
   ∃ s2, seek (End (-3)) s1 = Ret (Ok 5, s2) ∧ becomes demo_cursor (st_data s1) 5 s2).
Proof.
  destruct (write_all_seek_correct (mkBuf 0 [1; 2; 3; 4; 5]) (End (-3)) demo_cursor)
    as (s1 & Hw & Hb & Hs).
  - cbv; intuition congruence.
  - done.
  - done.
  - repeat constructor; cbv; congruence.
  - cbv. congruence.
  - exists s1. split; [exact Hw|]. split; [exact Hb|].
    destruct Hb as (_ & Hd & Hp & _). rewrite Hd, Hp in *. exact Hs.
Defined.
