(* ===== verification/Fs.v ===== *)
(** * Files over virtual inodes, and the in-memory file system

    [fs.rs]: the [Vnode] and [FileSys] interfaces as typeclasses, and [File],
    a cursor over a shared vnode, with its [Read], [Write] and [Seek]
    implementations.  [VnodeLaws] is what a vnode promises; a file over any
    vnode with those laws is a stream ([file_laws]), so the theorems of [Io.v]
    hold of it.  [fs/inmem.rs], the file system over memory buffers, discharges
    the laws at the end. *)

From S2P Require Import Prelude Bytes Io.

(** [trait Vnode]: [V] are the references to vnodes, [W] the state they live in. *)
Class Vnode (W V : Type) := {
  read_at : V → Buf → Z → M W (result Z * bytes);
  write_at : V → Buf → Z → M W (result Z);
  vnode_deny_write : V → M W unit;
  vnode_allow_write : V → M W unit;
  vnode_inum : V → M W Z;
  vnode_len : V → M W Z;
  vnode_resize : V → Z → M W (result unit);
  vnode_close : V → M W unit;
}.

(** [struct File] *)
Record File (V : Type) : Type := mkFile { vnode : V; file_pos : Z; file_deny : bool }.
Arguments mkFile {V} vnode file_pos file_deny.
Arguments vnode {V} _.
Arguments file_pos {V} _.
Arguments file_deny {V} _.

(** [trait FileSys]; the instance is part of the state [W]. *)
Class FileSys (W V Path Device : Type) := {
  mount : Device → M W (result unit);
  unmount : M W unit;
  open : Path → M W (result (File V));
  close : File V → M W unit;
  create : Path → M W (result (File V));
  remove : Path → M W (result unit);
}.

(** [File::new] *)
Definition file_new {V} (v : V) : File V := mkFile v 0 false.

Section file.
Context {W V : Type} `{Vnode W V}.

(** A method of the vnode, run from a method of the file. *)
Definition on_vnode {A} (m : V → M W A) : M (W * File V) A := λ '(w, f),
  match m (vnode f) w with
  | Ret (a, w') => Ret (a, (w', f))
  | Panic p => Panic p
  end.

Definition advance (cnt : Z) : M (W * File V) unit :=
  modify (λ '(w, f), (w, mkFile (vnode f) (wrap64 (file_pos f + cnt)) (file_deny f))).

Definition set_len (size : Z) : M (W * File V) (result unit) :=
  on_vnode (λ v, vnode_resize v size).

Definition file_inum : M (W * File V) Z := on_vnode vnode_inum.

Definition file_read (b : Buf) : M (W * File V) (result Z * bytes) :=
  p ← gets (λ '(_, f), file_pos f) ;
  '(r, d) ← on_vnode (λ v, read_at v b p) ;
  match r with
  | Err e => mret (Err e, d)
  | Ok cnt => advance cnt ;; mret (Ok cnt, d)
  end.

Definition file_write (b : Buf) : M (W * File V) (result Z) :=
  p ← gets (λ '(_, f), file_pos f) ;
  cnt ←? on_vnode (λ v, write_at v b p) ;
  advance cnt ;; mret (Ok cnt).

#[export] Instance file_Read : Read (W * File V) := file_read.
#[export] Instance file_Write : Write (W * File V) := {
  write := file_write;
  flush := mret (Ok ());
}.
#[export] Instance file_Seek : Seek (W * File V) := {
  len := n ← on_vnode vnode_len ; mret (Ok n);
  pos := p ← gets (λ '(_, f), file_pos f) ; mret (Ok p);
  set_pos p := modify (λ '(w, f), (w, mkFile (vnode f) p (file_deny f))) ;; mret (Ok ());
}.

(** [File::deny_write] *)
Definition deny_write : M (W * File V) unit :=
  modify (λ '(w, f), (w, mkFile (vnode f) (file_pos f) true)) ;;
  on_vnode vnode_deny_write.

(** [impl Drop for File]; the reference to the vnode goes afterwards. *)
Definition file_drop (f : File V) : M W unit :=
  if file_deny f then vnode_allow_write (vnode f) else mret ().
End file.

(** ** What a vnode promises *)

Class VnodeSpec (W V : Type) := {
  v_ok : W → V → Prop;
  v_writable : W → V → Prop;
  v_buf : W → Buf → Prop;
  v_data : W → V → bytes;
  v_only : V → relation W;
}.

Class VnodeLaws (W V : Type) `{Vnode W V} `{VnodeSpec W V} : Prop := {
  v_only_preorder (v : V) :: PreOrder (v_only (W:=W) v);
  v_buf_only (w w' : W) (v : V) b : v_only v w w' → v_buf w b → v_buf w' b;
  v_writable_only (w w' : W) (v : V) : v_only v w w' → v_writable w v → v_writable w' v;
  v_buf_skip (w : W) b n : v_buf w b → 0 ≤ n ≤ zlen (b_data b) → v_buf w (buf_skip n b);
  v_buf_data (w : W) a d d' : v_buf w (mkBuf a d) → zlen d = zlen d' → v_buf w (mkBuf a d');
  v_bounds (w : W) (v : V) : v_ok w v → zlen (v_data w v) < 2 ^ 63;
  read_at_some (w : W) (v : V) b off : v_ok w v → v_buf w b → b_data b ≠ [] →
    0 ≤ off < zlen (v_data w v) →
    ∃ n, 1 ≤ n ≤ zlen (b_data b) ∧ off + n ≤ zlen (v_data w v) ∧
      read_at v b off w = Ret ((Ok n, slice off n (v_data w v) ++ zdrop n (b_data b)), w);
  read_at_eof (w : W) (v : V) b off : v_ok w v → zlen (v_data w v) ≤ off < 2 ^ 63 →
    ∃ r, (r = Ok 0 ∨ r = Err UnexpectedEOF) ∧ read_at v b off w = Ret ((r, b_data b), w);
  write_at_some (w : W) (v : V) b off : v_ok w v → v_writable w v → v_buf w b →
    is_bytes (b_data b) → b_data b ≠ [] → 0 ≤ off → off + zlen (b_data b) ≤ zlen (v_data w v) →
    ∃ n w', 1 ≤ n ≤ zlen (b_data b) ∧ write_at v b off w = Ret (Ok n, w') ∧
      v_ok w' v ∧ v_data w' v = splice off (ztake n (b_data b)) (v_data w v) ∧ v_only v w w';
  vnode_len_spec (w : W) (v : V) : v_ok w v → vnode_len v w = Ret (zlen (v_data w v), w);
}.

Section file_stream.
Context {W V : Type} `{VnodeLaws W V}.

(** A file is a stream over the contents of its vnode. *)
#[export] Instance file_stream : Stream (W * File V) := {
  st_ok s := v_ok s.1 (vnode s.2) ∧ 0 ≤ file_pos s.2 < 2 ^ 63;
  st_writable s := v_writable s.1 (vnode s.2);
  st_buf s := v_buf s.1;
  st_data s := v_data s.1 (vnode s.2);
  st_pos s := file_pos s.2;
  st_only s s' := v_only (vnode s.2) s.1 s'.1 ∧ vnode s'.2 = vnode s.2 ∧ file_deny s'.2 = file_deny s.2;
}.

Lemma file_only_preorder : PreOrder (st_only (S := W * File V)).
Proof.
  split.
  - intros [w f]. by repeat split.
  - intros [w1 f1] [w2 f2] [w3 f3]. cbn. intros (Ho1 & E1 & D1) (Ho2 & E2 & D2).
    rewrite E1 in Ho2. split; [by etrans|]. split; congruence.
Qed.

Lemma wrap64_small n : 0 ≤ n < 2 ^ 64 → wrap64 n = n.
Proof. apply wrap_small. Qed.

#[export] Instance file_laws : StreamLaws (W * File V).
Proof.
  constructor.
  - apply file_only_preorder.
  - intros [w f] [w' f'] b (Ho & _). by apply v_buf_only with (v := vnode f).
  - intros [w f] [w' f'] (Ho & E & _). cbn in *. rewrite E. by apply v_writable_only.
  - intros [w f]. apply v_buf_skip.
  - intros [w f]. apply v_buf_data.
  - intros [w f] [Hok Hp]. split; [done|]. by apply v_bounds.
  - intros [w f] b [Hok Hp] Hb Hne Hlt. cbn in *.
    pose proof (v_bounds w (vnode f) Hok).
    destruct (read_at_some w (vnode f) b (file_pos f) Hok Hb Hne) as (n & Hn & Hle & Hr); [lia|].
    eexists n, (w, mkFile (vnode f) (file_pos f + n) (file_deny f)).
    split; [done|]. split; [done|]. split.
    + unfold read, file_Read, file_read, on_vnode, advance. unmonad. rewrite Hr.
      by rewrite wrap64_small by lia.
    + repeat split; cbn; try done; lia.
  - intros [w f] b [Hok Hp] Hge. cbn in *.
    destruct (read_at_eof w (vnode f) b (file_pos f) Hok) as (r & Hr & Hrd); [lia|].
    exists r. split; [done|]. unfold read, file_Read, file_read, on_vnode, advance. unmonad.
    rewrite Hrd. destruct Hr as [-> | ->]; [|done].
    rewrite Z.add_0_r, wrap64_small by lia. by destruct f.
  - intros [w f] b [Hok Hp] Hwr Hb Hby Hne Hle. cbn in *.
    pose proof (v_bounds w (vnode f) Hok).
    destruct (write_at_some w (vnode f) b (file_pos f)) as (n & w' & Hn & Hr & Hok' & Hd & Ho);
      try done; [lia|].
    eexists n, (w', mkFile (vnode f) (file_pos f + n) (file_deny f)).
    split; [done|]. split.
    + unfold file_write, on_vnode, advance. unmonad. rewrite Hr. by rewrite wrap64_small by lia.
    + repeat split; cbn; try done; lia.
  - intros [w f] [Hok Hp]. cbn. unfold on_vnode. unmonad. cbn in *. by rewrite vnode_len_spec.
  - by intros [w f] _.
  - intros [w f] p [Hok Hp] Hp'. eexists. split; [done|]. repeat split; cbn in *; try done; lia.
Qed.

(** Two files over one vnode share its contents and nothing else: what is
    written through one is read through the other at the same offset, each
    keeps its own cursor, and bytes outside the write are as before. *)
Theorem files_share_vnode (w : W) (f g : File V) b c :
  vnode g = vnode f → file_pos g = file_pos f → st_ok (w, f) → st_writable (w, f) →
  v_buf w b → v_buf w c → is_bytes (b_data b) → zlen (b_data c) = zlen (b_data b) →
  file_pos f + zlen (b_data b) ≤ zlen (v_data w (vnode f)) →
  ∃ w1 w2 f' g',
    write_all b (w, f) = Ret (Ok (), (w1, f')) ∧
    read_exact c (w1, g) = Ret ((Ok (), b_data b), (w2, g')) ∧
    v_data w2 (vnode f) = splice (file_pos f) (b_data b) (v_data w (vnode f)) ∧
    file_pos f' = file_pos f + zlen (b_data b) ∧ file_pos g' = file_pos f' ∧
    v_only (vnode f) w w2.
Proof.
  intros Ev Ep Hok Hwr Hb Hc Hby Hlen Hle. cbn in Hok, Hwr. destruct Hok as [Hok Hp].
  destruct (write_all_loop_spec (S (length (b_data b))) b (w, f)) as ([w1 f'] & Hw & Hs1);
    cbn; try done; [lia|].
  destruct Hs1 as ((Hok1 & Hp1) & Hd1 & Hpos1 & Ho1 & Ev1 & _). cbn in *.
  rewrite Ev1 in Hok1, Hd1.
  assert (Hl1 : zlen (v_data w1 (vnode f)) = zlen (v_data w (vnode f))).
  { rewrite Hd1, zlen_splice by lia. done. }
  destruct (read_exact_loop_enough (S (length (b_data c))) c (w1, g)) as ([w2 g'] & Hr & Hs2).
  { lia. }
  { cbn. rewrite Ev, Ep. split; [done|lia]. }
  { cbn. by eapply v_buf_only. }
  { cbn. rewrite Ev, Ep, Hl1, Hlen. done. }
  destruct Hs2 as (_ & Hd2 & Hp2 & Ho2 & Ev2 & _). cbn in *.
  rewrite Ev2, Ev in Hd2. rewrite Ev in Ho2.
  exists w1, w2, f', g'. repeat split.
  - done.
  - unfold read_exact. rewrite Hr. do 3 f_equal.
    rewrite Ev, Ep, Hd1, Hlen. rewrite slice_splice by lia. done.
  - by rewrite Hd2, Hd1.
  - done.
  - rewrite Hp2, Hpos1, Ep, Hlen. done.
  - by etrans.
Qed.
End file_stream.

(** ** The in-memory file system *)

Module InMem.

(** The live inodes, a buffer each behind its [Arc], and [MemFs::oft]. *)
Record MemFs : Type := mkMemFs { nodes : gmap nat Buf; oft : list nat }.

(** [self.buf.lock()] for the duration of the method. *)
Definition with_buf {A} (v : nat) (f : Buf → M MemFs A) : M MemFs A := λ w,
  match nodes w !! v with Some b => f b w | None => Panic MemFault end.

Definition set_buf (v : nat) (d : bytes) : M MemFs unit :=
  with_buf v (λ b w, Ret ((), mkMemFs (<[v := mkBuf (b_addr b) d]> (nodes w)) (oft w))).

Definition inum (v : nat) : M MemFs Z := with_buf v (λ b, mret (b_addr b)).
Definition len (v : nat) : M MemFs Z := with_buf v (λ b, mret (zlen (b_data b))).

Definition read_at (v : nat) (b : Buf) (off : Z) : M MemFs (result Z * bytes) :=
  with_buf v (λ lock,
    if bool_decide (off >= zlen (b_data lock)) then mret (Err UnexpectedEOF, b_data b)
    else
      let len := Z.min (zlen (b_data lock) - off) (zlen (b_data b)) in
      mret (Ok len, splice 0 (slice off len (b_data lock)) (b_data b))).

Definition write_at (v : nat) (b : Buf) (off : Z) : M MemFs (result Z) :=
  with_buf v (λ lock,
    if bool_decide (off >= zlen (b_data lock)) then mret (Err UnexpectedEOF)
    else
      let len := Z.min (zlen (b_data lock) - off) (zlen (b_data b)) in
      set_buf v (splice off (ztake len (b_data b)) (b_data lock)) ;;
      mret (Ok len)).

#[export] Instance mem_vnode : Vnode MemFs nat := {
  Fs.read_at := read_at;
  Fs.write_at := write_at;
  vnode_deny_write _ := mret ();
  vnode_allow_write _ := mret ();
  vnode_inum := inum;
  vnode_len := len;
  vnode_resize _ _ := fail Unimplemented;
  vnode_close _ := fail Unimplemented;
}.

(** [MemFs::open]: the bytes of [id] move into a new inode. *)
Definition open (id : Buf) : M MemFs (result (File nat)) := λ w,
  let v := fresh (dom (nodes w)) in
  Ret (Ok (file_new v), mkMemFs (<[v := id]> (nodes w)) (oft w ++ [v])).

#[export] Instance mem_fs : FileSys MemFs nat Buf () := {
  Fs.mount _ := put (mkMemFs ∅ []) ;; mret (Ok ());
  Fs.unmount := fail Unimplemented;
  Fs.open := open;
  Fs.close _ := fail Unimplemented;
  Fs.create _ := fail Unimplemented;
  Fs.remove _ := fail Unimplemented;
}.

(** The contents of an inode. *)
Definition data (w : MemFs) (v : nat) : bytes :=
  match nodes w !! v with Some b => b_data b | None => [] end.

#[export] Instance mem_spec : VnodeSpec MemFs nat := {
  v_ok w v := is_Some (nodes w !! v) ∧ zlen (data w v) < 2 ^ 63;
  v_writable _ _ := True;
  v_buf _ _ := True;
  v_data := data;
  v_only v w w' := oft w' = oft w ∧ ∀ u, u ≠ v → nodes w' !! u = nodes w !! u;
}.

#[export] Instance mem_laws : VnodeLaws MemFs nat.
Proof.
  constructor; try done.
  - split.
    + by intros w.
    + intros w1 w2 w3 [O1 E1] [O2 E2]. split; [congruence|]. intros u Hu. by rewrite E2, E1.
  - intros w v [_ ?]. done.
  - intros w v b off [[n Hn] Hl] _ Hne Hoff. cbn in *. unfold data in *.
    pose proof (zlen_ne_nil _ Hne). unfold read_at, with_buf. rewrite Hn in *.
    rewrite bool_decide_eq_false_2 by lia. set (k := Z.min _ _). assert (1 ≤ k) by lia.
    exists k. split; [lia|]. split; [lia|]. unfold splice. unmonad.
    rewrite zlen_slice by lia. done.
  - intros w v b off [[n Hn] Hl] Hoff. cbn in *. unfold data, read_at, with_buf in *.
    rewrite Hn in *. rewrite bool_decide_eq_true_2 by lia. eexists; split; [by right|done].
  - intros w v b off [[n Hn] Hl] _ _ Hby Hne Hoff Hle. cbn in *.
    unfold data in *. pose proof (zlen_ne_nil _ Hne).
    unfold write_at, set_buf, with_buf. rewrite Hn in *. rewrite bool_decide_eq_false_2 by lia.
    rewrite Z.min_r by lia. rewrite (ztake_all (zlen (b_data b))) by lia.
    exists (zlen (b_data b)). eexists. split; [lia|]. split; [unmonad; by rewrite Hn|].
    cbn. rewrite lookup_insert_eq. cbn. rewrite ztake_all by lia. split.
    { split; [done|]. by rewrite zlen_splice by lia. }
    split; [done|]. split; [done|]. intros u Hu. by rewrite lookup_insert_ne.
  - intros w v [[n Hn] Hl]. cbn. unfold len, with_buf, data. by rewrite Hn.
Qed.

(** [File::write] and [File::read] on an in-memory inode. *)
Lemma mem_write_short w v b l q : nodes w !! v = Some l → 0 ≤ q < zlen (b_data l) →
  zlen (b_data l) < 2 ^ 63 → zlen (b_data l) < q + zlen (b_data b) →
  file_write b (w, mkFile v q false) =
    Ret (Ok (zlen (b_data l) - q),
      (mkMemFs (<[v := mkBuf (b_addr l)
         (splice q (ztake (zlen (b_data l) - q) (b_data b)) (b_data l))]> (nodes w)) (oft w),
       mkFile v (zlen (b_data l)) false)).
Proof.
  intros Hv Hq Hl Hlong. unfold file_write, on_vnode, advance. unmonad. cbn [Fs.write_at mem_vnode vnode file_pos].
  unfold write_at, set_buf, with_buf. unmonad. rewrite !Hv. rewrite bool_decide_eq_false_2 by lia.
  rewrite Hv, Z.min_l by lia. cbn [vnode file_pos file_deny]. rewrite wrap64_small by lia.
  do 4 f_equal. lia.
Qed.

Lemma mem_write_eof w v b l q : nodes w !! v = Some l → zlen (b_data l) ≤ q →
  file_write b (w, mkFile v q false) = Ret (Err UnexpectedEOF, (w, mkFile v q false)).
Proof.
  intros Hv Hq. unfold file_write, on_vnode. unmonad. cbn [Fs.write_at mem_vnode vnode file_pos].
  unfold write_at, with_buf. rewrite Hv. by rewrite bool_decide_eq_true_2 by lia.
Qed.

Lemma mem_read_eof w v b l q : nodes w !! v = Some l → zlen (b_data l) ≤ q →
  read b (w, mkFile v q false) = Ret ((Err UnexpectedEOF, b_data b), (w, mkFile v q false)).
Proof.
  intros Hv Hq. unfold read, file_Read, file_read, on_vnode. unmonad.
  cbn [Fs.read_at mem_vnode vnode file_pos].
  unfold read_at, with_buf. rewrite Hv. by rewrite bool_decide_eq_true_2 by lia.
Qed.

(** Opening a byte buffer gives a file at position 0 whose contents are
    those bytes and leaves every other file alone; writing more than fits from
    any position fills the file to its end and reports [UnexpectedEOF] without
    growing it, as does any access at or past the end. *)
Theorem memfs_open_correct (w : MemFs) (id : Buf) (b : Buf) (p : Z) :
  0 ≤ p < zlen (b_data id) → zlen (b_data id) < 2 ^ 63 → zlen (b_data id) < p + zlen (b_data b) →
  ∃ f w', open id w = Ret (Ok f, w') ∧
    file_pos f = 0 ∧ data w' (vnode f) = b_data id ∧ nodes w !! vnode f = None ∧
    (∀ u, u ≠ vnode f → nodes w' !! u = nodes w !! u) ∧
    ∃ w2 f2,
      (let n := zlen (b_data id) - p in
       write_all b (w', mkFile (vnode f) p false) = Ret (Err UnexpectedEOF, (w2, f2)) ∧
       data w2 (vnode f) = ztake p (b_data id) ++ ztake n (b_data b) ∧
       file_pos f2 = zlen (b_data id) ∧
       (∀ u, u ≠ vnode f → nodes w2 !! u = nodes w !! u) ∧
       ∀ c, read c (w2, f2) = Ret ((Err UnexpectedEOF, b_data c), (w2, f2))).
Proof.
  intros Hp Hl Hlong. unfold open. set (v := fresh _).
  assert (Hv : nodes w !! v = None) by (apply not_elem_of_dom, is_fresh).
  eexists (file_new v), _. split; [done|]. unfold data. cbn. rewrite lookup_insert_eq.
  split; [done|]. split; [done|]. split; [done|]. split.
  { intros u Hu. by rewrite lookup_insert_ne. }
  set (n := zlen (b_data id) - p).
  assert (Hne : b_data b ≠ []) by (intros E; rewrite E in Hlong; change (zlen []) with 0 in Hlong; lia).
  assert (Hlt : zlen (ztake n (b_data b)) = n) by (rewrite zlen_ztake; lia).
  assert (Hrest : zdrop n (b_data b) ≠ []).
  { intros E. apply (f_equal zlen) in E. rewrite zlen_zdrop in E by lia. change (zlen []) with 0 in E. lia. }
  set (w1 := mkMemFs (<[v := id]> (nodes w)) (oft w ++ [v])).
  assert (Hv1 : nodes w1 !! v = Some id) by apply lookup_insert_eq.
  pose proof (mem_write_short w1 v b id p Hv1 Hp Hl Hlong) as Hw.
  assert (Hspl : splice p (ztake n (b_data b)) (b_data id) = ztake p (b_data id) ++ ztake n (b_data b)).
  { unfold splice. rewrite Hlt, (zdrop_all (p + n)) by lia. by rewrite app_nil_r. }
  fold n in Hw. rewrite Hspl in Hw. cbn [w1 nodes] in Hw. rewrite insert_insert_eq in Hw.
  set (d2 := ztake p (b_data id) ++ ztake n (b_data b)) in *. set (w2 := mkMemFs _ _) in Hw.
  assert (Hv2 : nodes w2 !! v = Some (mkBuf (b_addr id) d2)) by apply lookup_insert_eq.
  assert (Hd2 : zlen d2 = zlen (b_data id)).
  { subst d2. rewrite zlen_app, Hlt, zlen_ztake by lia. lia. }
  exists w2, (mkFile v (zlen (b_data id)) false). split.
  { unfold write_all. destruct (length (b_data b)) as [|k] eqn:Ek.
    { apply nil_length_inv in Ek. done. }
    cbn [write_all_loop]. rewrite !is_empty_slice_false by done. cbn [negb write file_Write].
    unmonad. rewrite Hw. rewrite !bool_decide_eq_false_2 by lia.
    rewrite is_empty_slice_false by exact Hrest. cbn [negb].
    by rewrite (mem_write_eof w2 v _ _ _ Hv2) by (cbn; lia). }
  cbn [vnode file_pos]. rewrite Hv2. split; [done|]. split; [done|]. split.
  { intros u Hu. subst w2. cbn. by rewrite lookup_insert_ne. }
  intros c. rewrite (mem_read_eof w2 v _ _ _ Hv2); [done|cbn; lia].
Qed.

Definition demo_fs : MemFs := mkMemFs {[ 0%nat := mkBuf 4096 [1; 2; 3; 4; 5; 6] ]} [0%nat].

Lemma memfs_open_correct_witness :
  ∃ f w', open (mkBuf 8192 [7; 8; 9]) demo_fs = Ret (Ok f, w') ∧
    file_pos f = 0 ∧ data w' (vnode f) = [7; 8; 9] ∧ nodes demo_fs !! vnode f = None ∧
    (∀ u, u ≠ vnode f → nodes w' !! u = nodes demo_fs !! u) ∧
    ∃ w2 f2,
      write_all (mkBuf 0 [1; 2; 3; 4]) (w', mkFile (vnode f) 1 false) =
        Ret (Err UnexpectedEOF, (w2, f2)) ∧
      data w2 (vnode f) = [7; 1; 2] ∧ file_pos f2 = 3 ∧
      (∀ u, u ≠ vnode f → nodes w2 !! u = nodes demo_fs !! u) ∧
      ∀ c, read c (w2, f2) = Ret ((Err UnexpectedEOF, b_data c), (w2, f2)).
Proof.
  refine (memfs_open_correct demo_fs (mkBuf 8192 [7; 8; 9]) (mkBuf 0 [1; 2; 3; 4]) 1 _ _ _);
    cbv; intuition congruence.
Defined.

Lemma files_share_vnode_witness : ∃ w1 w2 f' g',
  write_all (mkBuf 0 [9; 9]) (demo_fs, mkFile 0%nat 1 false) = Ret (Ok (), (w1, f')) ∧
  read_exact (mkBuf 64 [0; 0]) (w1, mkFile 0%nat 1 false) = Ret ((Ok (), [9; 9]), (w2, g')) ∧
  data w2 0%nat = [1; 9; 9; 4; 5; 6] ∧ file_pos f' = 3 ∧ file_pos g' = file_pos f' ∧
  v_only 0%nat demo_fs w2.
Proof.
  refine (files_share_vnode demo_fs (mkFile 0%nat 1 false) (mkFile 0%nat 1 false)
    (mkBuf 0 [9; 9]) (mkBuf 64 [0; 0]) _ _ _ _ _ _ _ _ _); try done.
  repeat constructor; cbv; congruence.
Defined.
End InMem.
