(* ===== verification/Disk.v ===== *)
(** * Disk sectors

    The block device as the file system sees it: [Virtio::read_sector] and
    [Virtio::write_sector] of [device/virtio.rs] over a device, which is hardware
    and stays a parameter ([BlockDevice]) with what the virtio specification
    promises of reads and writes ([BlockDeviceLaws]).  The rest of the file is
    about runs of consecutive sectors read as one byte string, the form in which
    an inode keeps its contents. *)

From S2P Require Import Prelude Bytes.

(** [SECTOR_SIZE] *)
Definition SECTOR_SIZE : Z := 512.

(** A block device: its capacity in sectors and the contents of each. *)
Class BlockDevice (D : Type) := {
  dev_capacity : D → Z;
  dev_get : D → Z → bytes;
  dev_put : Z → bytes → D → D;
}.

Definition is_sector (b : bytes) : Prop := zlen b = SECTOR_SIZE ∧ is_bytes b.

Class BlockDeviceLaws (D : Type) `{BlockDevice D} := {
  dev_ok : D → Prop;
  dev_get_sector d s : dev_ok d → 0 ≤ s < dev_capacity d → is_sector (dev_get d s);
  dev_put_ok d s b : dev_ok d → 0 ≤ s < dev_capacity d → is_sector b →
    dev_ok (dev_put s b d) ∧ dev_capacity (dev_put s b d) = dev_capacity d;
  dev_get_put d s b s' : dev_ok d → 0 ≤ s < dev_capacity d → is_sector b →
    dev_get (dev_put s b d) s' = if bool_decide (s' = s) then b else dev_get d s';
}.

Section driver.
Context {D : Type} `{BlockDevice D}.

(** A request for a sector the device does not have completes with a status
    other than zero, which the driver asserts against. *)
Definition read_sector (sector : Z) : M D bytes := λ d,
  lift (assert_ (bool_decide (0 ≤ sector < dev_capacity d))) d ≫= λ _,
  Ret (dev_get d sector, d).

Definition write_sector (sector : Z) (b : bytes) : M D unit := λ d,
  lift (assert_ (bool_decide (0 ≤ sector < dev_capacity d))) d ≫= λ _,
  Ret ((), dev_put sector b d).
End driver.

(** ** Runs of sectors *)

Lemma lookup_concat_sectors (ls : list bytes) i :
  Forall (λ l, zlen l = SECTOR_SIZE) ls → 0 ≤ i →
  concat ls !! Z.to_nat i =
    ls !! Z.to_nat (i / SECTOR_SIZE) ≫= λ l, l !! Z.to_nat (i mod SECTOR_SIZE).
Proof.
  intros Hf. revert i. induction Hf as [|l ls Hl Hf IH]; intros i Hi; [done|].
  cbn [concat]. unfold SECTOR_SIZE, zlen in *. destruct (decide (i < 512)).
  - rewrite lookup_app_l by lia. rewrite Z.div_small, Z.mod_small by lia. done.
  - rewrite lookup_app_r by lia.
    replace (Z.to_nat i - length l)%nat with (Z.to_nat (i - 512)) by lia.
    rewrite IH by lia.
    assert (i / 512 = (i - 512) / 512 + 1) as -> by (rewrite <-Z.div_add by lia; f_equal; lia).
    assert (i mod 512 = (i - 512) mod 512) as ->.
    { rewrite <-(Z_mod_plus_full (i - 512) 1). f_equal; lia. }
    pose proof (Z.div_pos (i - 512) 512 ltac:(lia) ltac:(lia)).
    by replace (Z.to_nat ((i - 512) / 512 + 1)) with (S (Z.to_nat ((i - 512) / 512))) by lia.
Qed.

Lemma zlen_concat_sectors (ls : list bytes) :
  Forall (λ l, zlen l = SECTOR_SIZE) ls → zlen (concat ls) = SECTOR_SIZE * zlen ls.
Proof.
  induction 1 as [|l ls Hl _ IH]; [done|]. cbn [concat]. rewrite zlen_app, IH, Hl.
  unfold zlen. cbn [length]. unfold SECTOR_SIZE. lia.
Qed.

Section runs.
Context {D : Type} `{BlockDeviceLaws D}.

Lemma read_sector_spec d s : 0 ≤ s < dev_capacity d → read_sector s d = Ret (dev_get d s, d).
Proof. intros. unfold read_sector. unmonad. by rewrite bool_decide_eq_true_2. Qed.

Lemma write_sector_spec d s b : 0 ≤ s < dev_capacity d → write_sector s b d = Ret ((), dev_put s b d).
Proof. intros. unfold write_sector. unmonad. by rewrite bool_decide_eq_true_2. Qed.

(** The contents of the [n] sectors from [start] on. *)
Definition run_bytes (d : D) (start n : Z) : bytes := concat (dev_get d <$> seqZ start n).

(** The run lies on the disk. *)
Definition run_on (d : D) (start n : Z) : Prop := 0 ≤ start ∧ 0 ≤ n ∧ start + n ≤ dev_capacity d.

Lemma run_sectors d start n : dev_ok d → (0 < n → run_on d start n) →
  Forall (λ l, zlen l = SECTOR_SIZE) (dev_get d <$> seqZ start n).
Proof.
  intros Hok Hr. apply Forall_fmap, Forall_seqZ. intros s Hs.
  destruct Hr as (? & _ & ?); [lia|]. apply dev_get_sector; [done|lia].
Qed.

Lemma zlen_run_bytes d start n : dev_ok d → 0 ≤ n → (0 < n → run_on d start n) →
  zlen (run_bytes d start n) = SECTOR_SIZE * n.
Proof.
  intros. unfold run_bytes. rewrite zlen_concat_sectors by by apply run_sectors.
  unfold zlen. by rewrite length_fmap, length_seqZ, Z2Nat.id.
Qed.

Lemma lookup_run_bytes d start n i : dev_ok d → (0 < n → run_on d start n) →
  0 ≤ i < SECTOR_SIZE * n →
  run_bytes d start n !! Z.to_nat i =
    dev_get d (start + i / SECTOR_SIZE) !! Z.to_nat (i mod SECTOR_SIZE).
Proof.
  intros Hok Hr Hi. unfold run_bytes. rewrite lookup_concat_sectors by (by apply run_sectors || lia).
  rewrite list_lookup_fmap. pose proof (Z.div_pos i SECTOR_SIZE) as Hd.
  assert (i / SECTOR_SIZE < n) by (apply Z.div_lt_upper_bound; unfold SECTOR_SIZE in *; lia).
  unfold SECTOR_SIZE in *. rewrite lookup_seqZ_lt by lia. cbn. do 2 f_equal. lia.
Qed.

Lemma run_bytes_ext d d' start n :
  (∀ s, start ≤ s < start + n → dev_get d' s = dev_get d s) →
  run_bytes d' start n = run_bytes d start n.
Proof.
  intros Hs. unfold run_bytes. f_equal. apply list_fmap_ext. intros i s Hi.
  apply lookup_seqZ in Hi as [-> Hi]. apply Hs. lia.
Qed.

Lemma run_bytes_app d start n m : 0 ≤ n → 0 ≤ m →
  run_bytes d start (n + m) = run_bytes d start n ++ run_bytes d (start + n) m.
Proof. intros. unfold run_bytes. by rewrite seqZ_app, fmap_app, concat_app. Qed.

Lemma is_bytes_run d start n : dev_ok d → (0 < n → run_on d start n) → is_bytes (run_bytes d start n).
Proof.
  intros Hok Hr. unfold run_bytes. apply Forall_concat, Forall_fmap, Forall_seqZ. intros s Hs.
  destruct Hr as (? & _ & ?); [lia|]. apply dev_get_sector; [done|lia].
Qed.

(** A piece of a run that stays within one sector. *)
Lemma slice_run_bytes d start n off k : dev_ok d → run_on d start n → 0 ≤ off → 0 ≤ k →
  off mod SECTOR_SIZE + k ≤ SECTOR_SIZE → off + k ≤ SECTOR_SIZE * n → 0 < k →
  slice off k (run_bytes d start n) =
    slice (off mod SECTOR_SIZE) k (dev_get d (start + off / SECTOR_SIZE)).
Proof.
  intros Hok Hr Hoff Hk Hin Hle Hpos. unfold SECTOR_SIZE in *.
  pose proof (Z.mod_pos_bound off 512). pose proof (Z.div_mod off 512).
  apply list_eq_z. intros i. rewrite !lookup_slice by lia. case_bool_decide; [|done].
  replace (Z.to_nat off + i)%nat with (Z.to_nat (off + Z.of_nat i)) by lia.
  rewrite lookup_run_bytes; [|done|done|unfold SECTOR_SIZE; lia]. unfold SECTOR_SIZE.
  assert ((off + Z.of_nat i) / 512 = off / 512) as ->.
  { symmetry. apply (Z.div_unique _ _ _ (off mod 512 + Z.of_nat i)); lia. }
  assert ((off + Z.of_nat i) mod 512 = off mod 512 + Z.of_nat i) as ->.
  { symmetry. apply (Z.mod_unique _ _ (off / 512)); lia. }
  f_equal. lia.
Qed.

(** Rewriting a piece of one sector splices the run. *)
Lemma run_bytes_put d start n off b : dev_ok d → run_on d start n → 0 ≤ off → is_bytes b →
  0 < zlen b → off mod SECTOR_SIZE + zlen b ≤ SECTOR_SIZE → off + zlen b ≤ SECTOR_SIZE * n →
  let s := start + off / SECTOR_SIZE in
  let d' := dev_put s (splice (off mod SECTOR_SIZE) b (dev_get d s)) d in
  (start ≤ s < start + n) ∧ dev_ok d' ∧ dev_capacity d' = dev_capacity d ∧
  (∀ s', s' ≠ s → dev_get d' s' = dev_get d s') ∧
  run_bytes d' start n = splice off b (run_bytes d start n).
Proof.
  intros Hok Hr Hoff Hby Hpos Hin Hle s d'. pose proof Hr as (Hst & Hn & Hcap).
  unfold SECTOR_SIZE in *. pose proof (Z.mod_pos_bound off 512). pose proof (Z.div_mod off 512).
  assert (0 ≤ off / 512 < n).
  { split; [apply Z.div_pos; lia|apply Z.div_lt_upper_bound; lia]. }
  assert (Hs : 0 ≤ s < dev_capacity d) by lia.
  destruct (dev_get_sector d s Hok Hs) as [Hl Hb]. unfold SECTOR_SIZE in Hl.
  assert (Hnew : is_sector (splice (off mod 512) b (dev_get d s))).
  { split; [rewrite zlen_splice; unfold SECTOR_SIZE; lia|by apply is_bytes_splice]. }
  destruct (dev_put_ok d s _ Hok Hs Hnew) as [Hok' Hcap']. fold d' in Hok', Hcap'.
  assert (Hget : ∀ s', dev_get d' s' = if bool_decide (s' = s)
    then splice (off mod 512) b (dev_get d s) else dev_get d s').
  { intros s'. by apply dev_get_put. }
  split; [lia|]. split; [done|]. split; [done|]. split.
  { intros s' ?. by rewrite Hget, bool_decide_eq_false_2. }
  assert (Hr' : run_on d' start n) by (unfold run_on; lia).
  pose proof (zlen_run_bytes d start n Hok Hn ltac:(done)) as Hlen.
  pose proof (zlen_run_bytes d' start n Hok' Hn ltac:(done)) as Hlen'. unfold SECTOR_SIZE in *.
  apply list_eq_z. intros i. destruct (decide (Z.of_nat i < 512 * n)) as [Hi|Hi].
  - replace i with (Z.to_nat (Z.of_nat i)) at 1 by lia.
    rewrite lookup_run_bytes by (done || unfold SECTOR_SIZE; lia).
    rewrite lookup_splice by lia. rewrite Hget. unfold SECTOR_SIZE.
    pose proof (Z.div_mod (Z.of_nat i) 512). pose proof (Z.mod_pos_bound (Z.of_nat i) 512).
    destruct (decide (Z.of_nat i / 512 = off / 512)) as [E|E].
    + rewrite E. rewrite bool_decide_eq_true_2 by done. rewrite lookup_splice by lia.
      repeat case_bool_decide; try lia; [f_equal; lia|].
      replace i with (Z.to_nat (Z.of_nat i)) at 2 by lia.
      rewrite lookup_run_bytes by (done || unfold SECTOR_SIZE; lia). unfold SECTOR_SIZE. by rewrite E.
    + rewrite bool_decide_eq_false_2 by lia. rewrite bool_decide_eq_false_2.
      2:{ intros [? ?]. apply E. symmetry.
          apply (Z.div_unique _ _ _ (Z.of_nat i - 512 * (off / 512))); lia. }
      replace i with (Z.to_nat (Z.of_nat i)) at 3 by lia.
      by rewrite lookup_run_bytes by (done || unfold SECTOR_SIZE; lia).
  - rewrite (lookup_ge_None_2 (run_bytes d' start n)) by (unfold zlen in *; lia).
    symmetry. apply lookup_ge_None_2. pose proof (zlen_splice off b (run_bytes d start n)).
    unfold zlen in *. lia.
Qed.
End runs.

(** ** A device for the examples: 32 sectors, zero where nothing was written *)

Definition demo_capacity : Z := 32.

#[export] Instance demo_device : BlockDevice (gmap Z bytes) := {
  dev_capacity _ := demo_capacity;
  dev_get d s := default (zeros 512) (d !! s);
  dev_put s b d := <[s := b]> d;
}.

#[export] Instance demo_device_laws : BlockDeviceLaws (gmap Z bytes).
Proof.
  refine {| dev_ok := map_Forall (λ _, is_sector) |}.
  - intros d s Hd _. cbn. destruct (d !! s) as [b|] eqn:E; cbn; [by eapply Hd|].
    split; [by apply zlen_zeros|apply is_bytes_zeros].
  - intros d s b Hd Hs Hb. split; [|done]. by apply map_Forall_insert_2.
  - intros d s b s' _ _ _. cbn. case_bool_decide as E.
    + subst. by rewrite lookup_insert_eq.
    + by rewrite lookup_insert_ne.
Defined.
