(* ===== verification/Inode.v ===== *)
(** * Disk inodes

    [fs/disk/inode.rs]: inodes on the disk and in memory, and the vnode
    operations on them.  The state is the disk file system as a whole
    ([World]): the device, the bitmap, the root directory's lock, the inode
    table and the live inodes.  An [Arc<Inode>] is the handle of a cell in
    [w_inodes]; a cell whose strong count is zero is dead, and handles are never
    reused, so a [Weak] that outlives its inode fails to upgrade.  [close],
    which runs when the last [Arc] is dropped, uses the root directory and is in
    [DiskFs.v]; here it is an argument of the vnode instance.

    The theorems: an inode is a vnode whose contents are the first [len] bytes
    of its run of sectors, reads and writes of any size and alignment move
    exactly those bytes, and every branch of [resize] keeps the bitmap and the
    files of others. *)

From S2P Require Import Prelude Bytes FreeMap Disk Io Fs Utils.

Definition INODE_MAGIC : Z := 0x494e4f44.
Definition INODE_PADDING : Z := SECTOR_SIZE - 12.

(** [DiskInode], its [DiskInodeInner] inlined. *)
Record DiskInode : Type := mkDiskInode {
  di_start : Z;
  di_len : Z;
  di_magic : Z;
  di_padding : bytes;
}.

(** The sector image of a [DiskInode], and [mem::transmute] of a sector to one. *)
Definition inode_image (i : DiskInode) : bytes :=
  le32 (di_start i) ++ le32 (di_len i) ++ le32 (di_magic i) ++ di_padding i.
Definition inode_of_image (b : bytes) : DiskInode :=
  mkDiskInode (of_le32 (slice 0 4 b)) (of_le32 (slice 4 4 b)) (of_le32 (slice 8 4 b)) (zdrop 12 b).

Record InodeDesc : Type := mkInodeDesc {
  id_sector : Z;
  id_removed : bool;
  id_shrink_len : Z;
  id_deny_write : Z;
}.

(** [InodeDesc::new] *)
Definition desc_of (sector shrink_len : Z) : InodeDesc := mkInodeDesc sector false shrink_len 0.

(** The contents of an [Arc<Inode>] and its strong count. *)
Record Cell : Type := mkCell { c_desc : InodeDesc; c_data : DiskInode; c_strong : nat }.

(** [bytes_to_sectors] of [fs/disk.rs] *)
Definition bytes_to_sectors (bytes : Z) : Z :=
  wrap32 ((wrap64 (bytes + SECTOR_SIZE - 1)) / SECTOR_SIZE).

(** [struct DiskFs] with the device and the live inodes. *)
Record World (D : Type) : Type := mkWorld {
  w_device : D;
  w_free : FreeMap;
  w_root : File nat;
  w_root_held : bool; (* is the mutex around [root_dir] locked? *)
  w_table : gmap Z nat;
  w_inodes : gmap nat Cell;
}.
Arguments mkWorld {D}.
Arguments w_device {D} _.
Arguments w_free {D} _.
Arguments w_root {D} _.
Arguments w_root_held {D} _.
Arguments w_table {D} _.
Arguments w_inodes {D} _.

Section inode.
Context {D : Type} `{BlockDevice D}.
Abbreviation W := (World D).

(** [Translate] of a 512-byte slice at this address succeeds; the alias names
    the same bytes. *)
Context (translate_ok : Z → bool).

Definition set_device (d : D) (w : W) : W :=
  mkWorld d (w_free w) (w_root w) (w_root_held w) (w_table w) (w_inodes w).
Definition set_free (fm : FreeMap) (w : W) : W :=
  mkWorld (w_device w) fm (w_root w) (w_root_held w) (w_table w) (w_inodes w).
Definition set_inodes (m : gmap nat Cell) (w : W) : W :=
  mkWorld (w_device w) (w_free w) (w_root w) (w_root_held w) (w_table w) m.

(** Virtio, and [DISKFS.free_map.lock()] around an operation. *)
Definition on_device {A} (m : M D A) : M W A := λ w,
  match m (w_device w) with Ret (a, d) => Ret (a, set_device d w) | Panic p => Panic p end.
Definition on_free {A} (m : M FreeMap A) : M W A := λ w,
  match m (w_free w) with Ret (a, fm) => Ret (a, set_free fm w) | Panic p => Panic p end.

(** [self.0.lock()] *)
Definition get_cell (v : nat) : M W Cell := λ w,
  match w_inodes w !! v with Some c => Ret (c, w) | None => Panic MemFault end.
Definition set_cell (v : nat) (c : Cell) : M W unit :=
  modify (λ w, set_inodes (<[v := c]> (w_inodes w)) w).
Definition set_desc (v : nat) (f : InodeDesc → InodeDesc) : M W unit :=
  c ← get_cell v ; set_cell v (mkCell (f (c_desc c)) (c_data c) (c_strong c)).

(** [Arc::from(Inode(..))] *)
Definition arc_new (desc : InodeDesc) (data : DiskInode) : M W nat := λ w,
  let v := fresh (dom (w_inodes w)) in
  Ret (v, set_inodes (<[v := mkCell desc data 1]> (w_inodes w)) w).

(** [Inode::remove] *)
Definition inode_remove (v : nat) : M W unit :=
  set_desc v (λ d, mkInodeDesc (id_sector d) true (id_shrink_len d) (id_deny_write d)).

(** [Inode::create] *)
Definition inode_create (sector start len : Z) : M W (result nat) :=
  let sector_num := bytes_to_sectors len in
  let disk_inode := mkDiskInode start (wrap32 len) INODE_MAGIC (zeros INODE_PADDING) in
  on_device (write_sector sector (inode_image disk_inode)) ;;
  for_each (seqZ 0 sector_num)
    (λ i, on_device (write_sector (wrap32 (start + i)) (zeros SECTOR_SIZE))) ;;
  v ← arc_new (desc_of sector 0) disk_inode ;
  mret (Ok v).

(** [Inode::open] *)
Definition inode_open (sector : Z) : M W (result nat) :=
  b ← on_device (read_sector sector) ;
  let data := inode_of_image b in
  if bool_decide (di_magic data ≠ INODE_MAGIC) then mret (Err OpenInvalidInode)
  else v ← arc_new (desc_of sector 0) data ; mret (Ok v).

(** [resize_inner]: the result with what [desc] and [data] then are. *)
Definition flush_len (newlen : Z) (desc : InodeDesc) (data : DiskInode) : M W DiskInode :=
  let data := mkDiskInode (di_start data) newlen (di_magic data) (di_padding data) in
  on_device (write_sector (id_sector desc) (inode_image data)) ;;
  mret data.

Definition set_shrink (n : Z) (desc : InodeDesc) : InodeDesc :=
  mkInodeDesc (id_sector desc) (id_removed desc) n (id_deny_write desc).

(** The copy of a moved file, one sector through the bounce buffer. *)
Definition copy_sector (old_start new_start i : Z) : M W unit :=
  bounce ← on_device (read_sector (wrap32 (old_start + i))) ;
  on_device (write_sector (wrap32 (new_start + i)) bounce).

(** No room after the run: move the file to a new one. *)
Definition resize_move (newlen oldlen : Z) (desc : InodeDesc) (data : DiskInode) :
    M W (result unit * (InodeDesc * DiskInode)) :=
  let cnt := bytes_to_sectors newlen in
  let old_start := di_start data in
  r ← on_free (fm_alloc cnt) ;
  match r with
  | Err e => mret (Err e, (desc, data))
  | Ok new_start =>
      for_each (seqZ 0 (bytes_to_sectors oldlen)) (copy_sector old_start new_start) ;;
      on_free (fm_dealloc old_start (bytes_to_sectors oldlen)) ;;
      let desc := set_shrink 0 desc in
      let data := mkDiskInode new_start (di_len data) (di_magic data) (di_padding data) in
      data ← flush_len newlen desc data ;
      mret (Ok (), (desc, data))
  end.

Definition resize_inner (desc : InodeDesc) (data : DiskInode) (size : Z) :
    M W (result unit * (InodeDesc * DiskInode)) :=
  let newlen := wrap32 size in
  if bool_decide (newlen = di_len data) then mret (Ok (), (desc, data))
  else if bool_decide (newlen < di_len data) then
    (* Lazy shrink. *)
    let shrink := di_len data - newlen in
    let desc := set_shrink (wrap32 (id_shrink_len desc + shrink)) desc in
    data ← flush_len newlen desc data ;
    mret (Ok (), (desc, data))
  else
    (* Extend. *)
    let oldlen := wrap32 (di_len data + id_shrink_len desc) in
    if bool_decide (newlen <= oldlen) then
      let desc := set_shrink (oldlen - newlen) desc in
      data ← flush_len newlen desc data ;
      mret (Ok (), (desc, data))
    else
      let cnt := wrap32 (bytes_to_sectors newlen - bytes_to_sectors oldlen) in
      let start := wrap32 (di_start data + bytes_to_sectors oldlen) in
      r ← on_free (in_place_alloc start cnt) ;
      match r with
      | Ok _ =>
          let desc := set_shrink 0 desc in
          data ← flush_len newlen desc data ;
          mret (Ok (), (desc, data))
      | Err _ => resize_move newlen oldlen desc data
      end.

(** [Inode::resize]: [resize_inner] on the contents of the cell. *)
Definition resize (v : nat) (newlen : Z) : M W (result unit) :=
  c ← get_cell v ;
  '(r, (desc, data)) ← resize_inner (c_desc c) (c_data c) newlen ;
  set_cell v (mkCell desc data (c_strong c)) ;;
  mret r.

(** The size of the next piece of a transfer at [off]. *)
Definition chunk_size (len off buf_left : Z) : Z :=
  let sector_offset := off mod SECTOR_SIZE in
  let inode_left := saturating_sub len off in
  let sector_left := SECTOR_SIZE - sector_offset in
  Z.min (Z.min inode_left sector_left) buf_left.

(** May the piece at this address bypass the bounce buffer? *)
Definition direct (addr bytes_done chunk : Z) : bool :=
  let page_off := Z.land (wrap64 (addr + bytes_done)) PG_MASK in
  bool_decide (chunk = SECTOR_SIZE) && bool_decide (page_off <= PG_SIZE - SECTOR_SIZE).

Fixpoint read_loop (fuel : nat) (start len addr : Z) (buf : bytes) (off bytes_read buf_left : Z) :
    M W (result Z * bytes) :=
  match fuel with
  | O => fail OutOfFuel
  | S fuel =>
      let sector := start + off / SECTOR_SIZE in
      let sector_offset := off mod SECTOR_SIZE in
      let chunk := chunk_size len off buf_left in
      if bool_decide (chunk = 0) then mret (Ok bytes_read, buf) (* break *)
      else if direct addr bytes_read chunk then
        if negb (translate_ok (wrap64 (addr + bytes_read))) then mret (Err BadPtr, buf)
        else
          b ← on_device (read_sector sector) ;
          read_loop fuel start len addr (splice bytes_read b buf)
            (off + chunk) (bytes_read + chunk) (buf_left - chunk)
      else
        bounce ← on_device (read_sector sector) ;
        read_loop fuel start len addr
          (splice bytes_read (slice sector_offset chunk bounce) buf)
          (off + chunk) (bytes_read + chunk) (buf_left - chunk)
  end.

(** Every turn but the last moves at least one byte of the buffer. *)
Definition read_at (v : nat) (b : Buf) (off : Z) : M W (result Z * bytes) :=
  c ← get_cell v ;
  read_loop (S (length (b_data b))) (di_start (c_data c)) (di_len (c_data c))
    (b_addr b) (b_data b) off 0 (zlen (b_data b)).

Fixpoint write_loop (fuel : nat) (start len addr : Z) (buf : bytes) (off bytes_written buf_left : Z) :
    M W (result Z) :=
  match fuel with
  | O => fail OutOfFuel
  | S fuel =>
      let sector := start + off / SECTOR_SIZE in
      let sector_offset := off mod SECTOR_SIZE in
      let chunk := chunk_size len off buf_left in
      if bool_decide (chunk = 0) then mret (Ok bytes_written) (* break *)
      else if direct addr bytes_written chunk then
        if negb (translate_ok (wrap64 (addr + bytes_written))) then mret (Err BadPtr)
        else
          on_device (write_sector sector (slice bytes_written SECTOR_SIZE buf)) ;;
          write_loop fuel start len addr buf (off + chunk) (bytes_written + chunk) (buf_left - chunk)
      else
        bounce ← on_device (read_sector sector) ;
        on_device (write_sector sector
          (splice sector_offset (slice bytes_written chunk buf) bounce)) ;;
        write_loop fuel start len addr buf (off + chunk) (bytes_written + chunk) (buf_left - chunk)
  end.

Definition write_at (v : nat) (b : Buf) (off : Z) : M W (result Z) :=
  c ← get_cell v ;
  if bool_decide (id_deny_write (c_desc c) > 0) then mret (Err InvalidFileMode)
  else
    let newlen := wrap64 (off + zlen (b_data b)) in
    r ← (if bool_decide (di_len (c_data c) < newlen) then resize v newlen else mret (Ok ())) ;
    match r with
    | Err e => mret (Err e)
    | Ok _ =>
        c ← get_cell v ;
        write_loop (S (length (b_data b))) (di_start (c_data c)) (di_len (c_data c))
          (b_addr b) (b_data b) off 0 (zlen (b_data b))
    end.

Definition inode_inum (v : nat) : M W Z :=
  c ← get_cell v ; mret (id_sector (c_desc c)).
Definition inode_len (v : nat) : M W Z :=
  c ← get_cell v ; mret (di_len (c_data c)).
Definition inode_deny_write (v : nat) : M W unit :=
  set_desc v (λ d, mkInodeDesc (id_sector d) (id_removed d) (id_shrink_len d)
                     (wrap32 (id_deny_write d + 1))).
Definition inode_allow_write (v : nat) : M W unit :=
  set_desc v (λ d, mkInodeDesc (id_sector d) (id_removed d) (id_shrink_len d)
                     (wrap32 (id_deny_write d - 1))).

(** [impl Vnode for Inode] *)
Definition inode_vnode (close : nat → M W unit) : Vnode W nat := {|
  Fs.read_at := read_at;
  Fs.write_at := write_at;
  vnode_deny_write := inode_deny_write;
  vnode_allow_write := inode_allow_write;
  vnode_inum := inode_inum;
  vnode_len := inode_len;
  vnode_resize := resize;
  vnode_close := close;
|}.
End inode.

(** ** Invariants *)

(** Sectors for [n] bytes. *)
Definition nsect (n : Z) : Z := (n + 511) / 512.

Lemma bytes_to_sectors_nsect n : 0 ≤ n < 2 ^ 40 → bytes_to_sectors n = nsect n.
Proof.
  intros Hn. unfold bytes_to_sectors, nsect, SECTOR_SIZE.
  replace (n + 512 - 1) with (n + 511) by lia.
  rewrite (wrap_small 64) by (unfold in_range; lia). apply wrap_small.
  split; [apply Z.div_pos; lia|apply Z.div_lt_upper_bound; lia].
Qed.

Lemma nsect_bounds n : 0 ≤ n → 512 * nsect n - 511 ≤ n ≤ 512 * nsect n.
Proof.
  intros. unfold nsect. pose proof (Z.div_mod (n + 511) 512). pose proof (Z.mod_pos_bound (n + 511) 512).
  lia.
Qed.

Lemma nsect_mono a b : a ≤ b → nsect a ≤ nsect b.
Proof. intros. apply Z.div_le_mono; lia. Qed.

Lemma nsect_nonneg n : 0 ≤ n → 0 ≤ nsect n.
Proof. intros. apply Z.div_pos; lia. Qed.

Section inode_laws.
Context {D : Type} `{BlockDeviceLaws D} (translate_ok : Z → bool).
Abbreviation W := (World D).

Definition c_start (c : Cell) : Z := di_start (c_data c).
Definition c_len (c : Cell) : Z := di_len (c_data c).
Definition c_sector (c : Cell) : Z := id_sector (c_desc c).
(** The bytes a file has sectors for: its length and what lazy shrinking kept. *)
Definition c_alloc (c : Cell) : Z := c_len c + id_shrink_len (c_desc c).
Definition c_run (c : Cell) (s : Z) : Prop := c_start c ≤ s < c_start c + nsect (c_alloc c).

Definition run_of (w : W) (c : Cell) : bytes :=
  run_bytes (w_device w) (c_start c) (nsect (c_alloc c)).
(** The contents of a file. *)
Definition file_bytes (w : W) (c : Cell) : bytes := ztake (c_len c) (run_of w c).

(** The bitmap describes the device; sector numbers are far from wrapping. *)
Record world_ok (w : W) : Prop := {
  wo_dev : dev_ok (w_device w);
  wo_fm : fm_wf (w_free w);
  wo_size : fm_size (w_free w) = dev_capacity (w_device w);
  wo_cap : dev_capacity (w_device w) ≤ 2 ^ 31;
}.

(** An inode's run and its own sector are on the disk, apart, and marked, and
    the sector holds the inode. *)
Record cell_ok (w : W) (c : Cell) : Prop := {
  co_start : 0 ≤ c_start c;
  co_len : 0 ≤ c_len c;
  co_shrink : 0 ≤ id_shrink_len (c_desc c);
  co_alloc : c_alloc c < 2 ^ 32;
  co_end : c_start c + nsect (c_alloc c) ≤ dev_capacity (w_device w);
  co_run : run_used (w_free w) (c_start c) (nsect (c_alloc c));
  co_sector : 0 ≤ c_sector c < dev_capacity (w_device w);
  co_sector_used : used (w_free w) (c_sector c) = true;
  co_apart : ¬ c_run c (c_sector c);
  co_magic : di_magic (c_data c) = INODE_MAGIC;
  co_padding : zlen (di_padding (c_data c)) = INODE_PADDING ∧ is_bytes (di_padding (c_data c));
  co_synced : dev_get (w_device w) (c_sector c) = inode_image (c_data c);
}.

Lemma run_on_cell w c : cell_ok w c → run_on (w_device w) (c_start c) (nsect (c_alloc c)).
Proof.
  intros Hc. split; [apply Hc|]. split; [|apply Hc].
  apply nsect_nonneg. destruct Hc. unfold c_alloc in *. lia.
Qed.

Lemma zlen_run_of w c : world_ok w → cell_ok w c → zlen (run_of w c) = 512 * nsect (c_alloc c).
Proof.
  intros Hw Hc. unfold run_of. pose proof (run_on_cell w c Hc) as Hr.
  by apply zlen_run_bytes; [apply Hw|apply Hr|].
Qed.

Lemma alloc_le_run w c : cell_ok w c → c_len c ≤ c_alloc c ≤ 512 * nsect (c_alloc c).
Proof.
  intros Hc. pose proof (co_len _ _ Hc). pose proof (co_shrink _ _ Hc).
  pose proof (nsect_bounds (c_alloc c)). unfold c_alloc in *. lia.
Qed.

Lemma zlen_file_bytes w c : world_ok w → cell_ok w c → zlen (file_bytes w c) = c_len c.
Proof.
  intros Hw Hc. pose proof (alloc_le_run w c Hc). pose proof (co_len _ _ Hc).
  unfold file_bytes. rewrite zlen_ztake, zlen_run_of by done. lia.
Qed.

Lemma slice_file_bytes w c off k : world_ok w → cell_ok w c → 0 ≤ off → 0 ≤ k → off + k ≤ c_len c →
  slice off k (file_bytes w c) = slice off k (run_of w c).
Proof.
  intros Hw Hc ???. unfold file_bytes. change (ztake (c_len c) (run_of w c)) with
    (slice 0 (c_len c) (run_of w c)). rewrite slice_slice by lia. f_equal.
Qed.

(** A buffer whose whole-sector pieces the device can reach. *)
Definition buf_ok (b : Buf) : Prop := ∀ k, 0 ≤ k → k + SECTOR_SIZE ≤ zlen (b_data b) →
  direct (b_addr b) k SECTOR_SIZE = true → translate_ok (wrap64 (b_addr b + k)) = true.

Lemma buf_ok_skip b n : buf_ok b → 0 ≤ n ≤ zlen (b_data b) → buf_ok (buf_skip n b).
Proof.
  intros Hb Hn k Hk Hle Hd. cbn in *. rewrite zlen_zdrop in Hle by lia.
  rewrite <-Z.add_assoc. apply Hb; [lia|lia|]. unfold direct in *.
  by rewrite Z.add_assoc.
Qed.

Lemma buf_ok_data a d d' : buf_ok (mkBuf a d) → zlen d = zlen d' → buf_ok (mkBuf a d').
Proof. unfold buf_ok. cbn. intros Hb E. by rewrite <-E. Qed.

(** ** Reading *)

(** The bytes a transfer at [off] moves. *)
Definition moved (len off n : Z) : Z := Z.max 0 (Z.min n (len - off)).

Lemma direct_full addr k chunk : direct addr k chunk = true → chunk = SECTOR_SIZE.
Proof. unfold direct. intros E%andb_true_iff. destruct E as [E _]. by apply bool_decide_eq_true in E. Qed.

Lemma chunk_cases len off n : 0 ≤ off → 0 ≤ n →
  let chunk := chunk_size len off n in
  (chunk = 0 ∧ moved len off n = 0) ∨
  (0 < chunk ≤ n ∧ off mod 512 + chunk ≤ 512 ∧ off + chunk ≤ len ∧
   moved len off n = chunk + moved len (off + chunk) (n - chunk)).
Proof.
  intros Hoff Hn. unfold chunk_size, moved, saturating_sub, SECTOR_SIZE.
  pose proof (Z.mod_pos_bound off 512). cbn zeta. lia.
Qed.

(** A piece of a sector at [off] is that piece of the run. *)
Lemma sector_piece d start n off chunk : dev_ok d → run_on d start n → 0 ≤ off → 0 < chunk →
  off mod 512 + chunk ≤ 512 → off + chunk ≤ 512 * n →
  let s := start + off / SECTOR_SIZE in
  0 ≤ s < dev_capacity d ∧
  slice (off mod SECTOR_SIZE) chunk (dev_get d s) = slice off chunk (run_bytes d start n).
Proof.
  intros Hok Hr Hoff Hc Hin Hle s. pose proof Hr as (? & ? & ?). unfold SECTOR_SIZE in *. split.
  - assert (0 ≤ off / 512 < n); [|lia].
    split; [apply Z.div_pos; lia|apply Z.div_lt_upper_bound; lia].
  - symmetry. apply slice_run_bytes; done || unfold SECTOR_SIZE; lia.
Qed.

(** A whole sector is its own piece. *)
Lemma sector_whole d s off : dev_ok d → 0 ≤ s < dev_capacity d → off mod 512 + 512 ≤ 512 →
  slice (off mod SECTOR_SIZE) SECTOR_SIZE (dev_get d s) = dev_get d s.
Proof.
  intros Hok Hs Hin. destruct (dev_get_sector d s Hok Hs) as [Hl _].
  pose proof (Z.mod_pos_bound off 512). unfold SECTOR_SIZE in *.
  replace (off mod 512) with 0 by lia. apply slice_full. lia.
Qed.

Lemma read_loop_spec start len addr n (w : W) fuel : ∀ buf off br bl,
  (Z.to_nat bl < fuel)%nat → dev_ok (w_device w) → run_on (w_device w) start n → len ≤ 512 * n →
  0 ≤ off → 0 ≤ br → 0 ≤ bl → br + bl = zlen buf → buf_ok (mkBuf addr buf) →
  let k := moved len off bl in
  read_loop translate_ok fuel start len addr buf off br bl w =
    Ret ((Ok (br + k), splice br (slice off k (run_bytes (w_device w) start n)) buf), w).
Proof.
  induction fuel as [|fuel IH]; intros buf off br bl Hf Hok Hr Hlen Hoff Hbr Hbl Hsum Hb k; [lia|].
  pose proof (chunk_cases len off bl Hoff Hbl) as Hcc. cbn zeta in Hcc.
  cbn [read_loop]. set (chunk := chunk_size len off bl) in *.
  destruct Hcc as [[Hc Hm]|(Hc & Hin & Hle & Hm)].
  { rewrite bool_decide_eq_true_2 by done. subst k. rewrite Hm, slice_zero, Z.add_0_r.
    by rewrite splice_nil by (pose proof (zlen_nonneg buf); lia). }
  rewrite bool_decide_eq_false_2 by lia.
  destruct (sector_piece (w_device w) start n off chunk) as [Hs Hp]; try (done || lia).
  set (s := start + off / SECTOR_SIZE) in *. set (R := run_bytes _ _ _) in *.
  assert (Hpl : zlen (slice off chunk R) = chunk).
  { apply zlen_slice; try lia. subst R. rewrite zlen_run_bytes by (done || apply Hr).
    unfold SECTOR_SIZE. lia. }
  assert (Hk : 0 ≤ moved len (off + chunk) (bl - chunk)) by (unfold moved; lia).
  assert (Hnext : read_loop translate_ok fuel start len addr
      (splice br (slice off chunk R) buf) (off + chunk) (br + chunk) (bl - chunk) w =
    Ret ((Ok (br + k), splice br (slice off k R) buf), w)).
  { assert (Hlb : zlen (splice br (slice off chunk R) buf) = zlen buf) by (apply zlen_splice; lia).
    rewrite IH; try (done || lia); [|by eapply buf_ok_data]. subst k. rewrite Hm.
    do 3 f_equal; [f_equal; lia|].
    set (k' := moved len (off + chunk) (bl - chunk)) in *.
    assert (Hpl' : zlen (slice (off + chunk) k' R) = k').
    { apply zlen_slice; try lia. subst R. rewrite zlen_run_bytes by (done || apply Hr).
      unfold SECTOR_SIZE. subst k'. unfold moved in *. lia. }
    rewrite <-Hpl at 1. rewrite splice_splice by (rewrite ?Hpl, ?Hpl'; subst k'; unfold moved; lia).
    by rewrite slice_app by lia. }
  unfold on_device. unmonad.
  destruct (direct addr br chunk) eqn:Hd.
  - pose proof (direct_full _ _ _ Hd) as Hch.
    pose proof (Hb br) as Hbr'. cbn [b_data b_addr] in Hbr'.
    rewrite Hbr' by (lia || by rewrite <-Hch). cbn [negb].
    rewrite read_sector_spec by done. destruct w as [d fm r rh t ino]; cbn in *.
    rewrite <-Hnext, <-Hp, Hch. by rewrite sector_whole by (done || unfold SECTOR_SIZE in *; lia).
  - rewrite read_sector_spec by done. rewrite Hp. destruct w; apply Hnext.
Qed.

Lemma get_cell_spec v c (w : W) : w_inodes w !! v = Some c → get_cell v w = Ret (c, w).
Proof. intros Hv. unfold get_cell. by rewrite Hv. Qed.

Lemma read_at_spec v c (w : W) b off :
  w_inodes w !! v = Some c → world_ok w → cell_ok w c → 0 ≤ off → buf_ok b →
  let k := moved (c_len c) off (zlen (b_data b)) in
  read_at translate_ok v b off w =
    Ret ((Ok k, slice off k (file_bytes w c) ++ zdrop k (b_data b)), w).
Proof.
  intros Hv Hw Hc Hoff Hb k. destruct b as [a data]. cbn [b_data] in *. unfold read_at. unmonad. rewrite (get_cell_spec v c) by done.
  pose proof (alloc_le_run w c Hc). pose proof (zlen_nonneg data).
  rewrite (read_loop_spec _ _ _ (nsect (c_alloc c))); try done; try lia.
  - cbn [b_data b_addr]. fold (c_start c) (run_of w c) (c_len c). fold k.
    assert (Hk : k = 0 ∨ 0 < k ∧ off + k ≤ c_len c) by (subst k; unfold moved; lia).
    assert (0 ≤ k) by lia.
    assert (Hsl : slice off k (run_of w c) = slice off k (file_bytes w c)).
    { destruct Hk as [-> | [Hk0 Hk]]; [done|]. symmetry. by apply slice_file_bytes; try lia. }
    assert (Hkl : zlen (slice off k (file_bytes w c)) = k).
    { destruct Hk as [-> | [Hk0 Hk]]; [done|].
      by rewrite zlen_slice by (rewrite ?zlen_file_bytes by done; lia). }
    rewrite Hsl. unfold splice. by rewrite !Z.add_0_l, Hkl.
  - unfold zlen. lia.
  - apply Hw.
  - by apply run_on_cell.
  - fold (c_len c). lia.
Qed.

(** Past the end nothing moves, whatever the buffer. *)
Lemma read_at_past_end v c (w : W) b off :
  w_inodes w !! v = Some c → 0 ≤ off → c_len c ≤ off →
  read_at translate_ok v b off w = Ret ((Ok 0, b_data b), w).
Proof.
  intros Hv Hoff Hge. unfold read_at. unmonad. rewrite (get_cell_spec v c) by done.
  cbn [read_loop]. fold (c_len c). pose proof (zlen_nonneg (b_data b)).
  pose proof (chunk_cases (c_len c) off (zlen (b_data b)) Hoff ltac:(done)) as Hcc. cbn zeta in Hcc.
  rewrite bool_decide_eq_true_2; [done|]. unfold moved in Hcc. lia.
Qed.

(** ** Writing inside the file *)

(** [w'] is [w] with another device that differs in the run [start, n) only. *)
Definition run_changed (start n : Z) (w w' : W) : Prop := ∃ d,
  w' = set_device d w ∧ dev_ok d ∧ dev_capacity d = dev_capacity (w_device w) ∧
  ∀ s, ¬ (start ≤ s < start + n) → dev_get d s = dev_get (w_device w) s.

Lemma run_changed_refl start n (w : W) : dev_ok (w_device w) → run_changed start n w w.
Proof. intros. exists (w_device w). by destruct w. Qed.

Lemma run_changed_trans start n (w1 w2 w3 : W) :
  run_changed start n w1 w2 → run_changed start n w2 w3 → run_changed start n w1 w3.
Proof.
  intros (d2 & -> & _ & Hc2 & Hs2) (d3 & -> & Hok3 & Hc3 & Hs3). exists d3. cbn in *.
  split; [done|]. split; [done|]. split; [congruence|].
  intros s Hs. by rewrite Hs3, Hs2.
Qed.

(** What a turn of the write loop puts into its sector, whichever path it takes:
    the sector with its piece of the buffer. *)
Lemma write_piece d s off chunk (b : bytes) : dev_ok d → 0 ≤ s < dev_capacity d →
  chunk = SECTOR_SIZE → off mod 512 + chunk ≤ 512 → zlen b = chunk →
  b = splice (off mod SECTOR_SIZE) b (dev_get d s).
Proof.
  intros Hok Hs Hc Hin Hb. destruct (dev_get_sector d s Hok Hs) as [Hl _].
  pose proof (Z.mod_pos_bound off 512). unfold SECTOR_SIZE in *.
  replace (off mod 512) with 0 by lia. unfold splice. rewrite zdrop_all by lia.
  by rewrite app_nil_r.
Qed.

Lemma write_loop_spec start len addr n fuel : ∀ buf off bw bl (w : W),
  (Z.to_nat bl < fuel)%nat → dev_ok (w_device w) → run_on (w_device w) start n → len ≤ 512 * n →
  0 ≤ off → 0 ≤ bw → 0 ≤ bl → bw + bl = zlen buf → is_bytes buf → buf_ok (mkBuf addr buf) →
  let k := moved len off bl in
  ∃ w', write_loop translate_ok fuel start len addr buf off bw bl w = Ret (Ok (bw + k), w') ∧
    run_changed start n w w' ∧
    run_bytes (w_device w') start n = splice off (slice bw k buf) (run_bytes (w_device w) start n).
Proof.
  induction fuel as [|fuel IH]; intros buf off bw bl w Hf Hok Hr Hlen Hoff Hbw Hbl Hsum Hby Hb k; [lia|].
  pose proof (chunk_cases len off bl Hoff Hbl) as Hcc. cbn zeta in Hcc.
  cbn [write_loop]. set (chunk := chunk_size len off bl) in *.
  assert (HR : zlen (run_bytes (w_device w) start n) = 512 * n).
  { rewrite zlen_run_bytes by (done || apply Hr). done. }
  destruct Hcc as [[Hc Hm]|(Hc & Hin & Hle & Hm)].
  { rewrite bool_decide_eq_true_2 by done. exists w. subst k. rewrite Hm, slice_zero, Z.add_0_r.
    split; [done|]. split; [by apply run_changed_refl|]. unfold splice, ztake, zdrop. cbn.
    change (zlen []) with 0. by rewrite Z.add_0_r, take_drop. }
  rewrite bool_decide_eq_false_2 by lia. set (b := slice bw chunk buf).
  assert (Hbl' : zlen b = chunk) by (apply zlen_slice; lia).
  destruct (run_bytes_put (w_device w) start n off b) as (Hs & Hok' & Hcap' & Hoth & HR'); try done.
  { by apply is_bytes_slice. } { lia. } { unfold SECTOR_SIZE. lia. } { unfold SECTOR_SIZE. lia. }
  set (s := start + off / SECTOR_SIZE) in *. set (d' := dev_put s _ _) in *.
  assert (Hsd : 0 ≤ s < dev_capacity (w_device w)) by (destruct Hr; lia).
  assert (Hk : 0 ≤ moved len (off + chunk) (bl - chunk) ≤ bl - chunk) by (unfold moved; lia).
  assert (Hk' : moved len (off + chunk) (bl - chunk) = 0 ∨
    off + chunk + moved len (off + chunk) (bl - chunk) ≤ len) by (unfold moved; lia).
  set (k' := moved len (off + chunk) (bl - chunk)) in *.
  assert (Hnext : ∃ w', write_loop translate_ok fuel start len addr buf
      (off + chunk) (bw + chunk) (bl - chunk) (set_device d' w) = Ret (Ok (bw + k), w') ∧
    run_changed start n w w' ∧
    run_bytes (w_device w') start n = splice off (slice bw k buf) (run_bytes (w_device w) start n)).
  { destruct (IH buf (off + chunk) (bw + chunk) (bl - chunk) (set_device d' w)) as (w' & E & Hch & Hrun);
      cbn [w_device set_device]; try (done || lia).
    { unfold run_on in *. rewrite Hcap'. lia. }
    fold k' in E, Hrun. exists w'. split; [|split].
    - rewrite E. do 3 f_equal. subst k. lia.
    - eapply run_changed_trans; [|exact Hch]. exists d'. repeat split; try done.
      intros s' Hs'. apply Hoth. lia.
    - rewrite Hrun. cbn [w_device set_device]. rewrite HR'. subst k. rewrite Hm.
      assert (Hpl' : zlen (slice (bw + chunk) k' buf) = k') by (apply zlen_slice; lia).
      rewrite <-Hbl' at 1. rewrite splice_splice by (rewrite ?Hbl', ?Hpl', ?HR; lia).
      subst b. by rewrite slice_app by lia. }
  destruct Hnext as (w' & Hw' & Hpost). exists w'. split; [|done].
  unfold on_device. unmonad. destruct (direct addr bw chunk) eqn:Hd.
  - pose proof (direct_full _ _ _ Hd) as Hch. pose proof (Hb bw) as Hbr. cbn [b_data b_addr] in Hbr.
    rewrite Hbr by (lia || by rewrite <-Hch). cbn [negb].
    rewrite write_sector_spec by done.
    assert (slice bw SECTOR_SIZE buf = splice (off mod SECTOR_SIZE) b (dev_get (w_device w) s)) as ->.
    { replace (slice bw SECTOR_SIZE buf) with b by (subst b; by rewrite Hch).
      by apply (write_piece _ _ _ chunk). }
    exact Hw'.
  - rewrite read_sector_spec by done. cbn [w_device set_device]. rewrite write_sector_spec by done.
    exact Hw'.
Qed.

(** An inode after its run changed. *)
Lemma cell_ok_changed (w w' : W) c : cell_ok w c → run_changed (c_start c) (nsect (c_alloc c)) w w' →
  cell_ok w' c.
Proof.
  intros Hc (d & -> & Hd & Hcap & Hs). destruct Hc. constructor; cbn; rewrite ?Hcap; try done.
  rewrite Hs; [done|]. by unfold c_run in *.
Qed.

Lemma world_ok_changed (w w' : W) start n : world_ok w → run_changed start n w w' → world_ok w'.
Proof. intros [] (d & -> & Hd & Hcap & _). constructor; cbn; rewrite ?Hcap; done. Qed.

Lemma splice_ztake {A} off (d l : list A) len : 0 ≤ off → off + zlen d ≤ len → len ≤ zlen l →
  ztake len (splice off d l) = splice off d (ztake len l).
Proof.
  intros. pose proof (zlen_nonneg d). apply list_eq_z. intros i.
  change (ztake len (splice off d l)) with (slice 0 len (splice off d l)).
  change (ztake len l) with (slice 0 len l).
  rewrite lookup_splice by (rewrite ?zlen_slice by lia; lia).
  rewrite !lookup_slice by lia. rewrite lookup_splice by lia.
  repeat case_bool_decide; try lia; done.
Qed.

Lemma write_at_spec v c (w : W) b off :
  w_inodes w !! v = Some c → world_ok w → cell_ok w c → id_deny_write (c_desc c) = 0 →
  0 ≤ off → is_bytes (b_data b) → buf_ok b → off + zlen (b_data b) ≤ c_len c →
  ∃ w', write_at translate_ok v b off w = Ret (Ok (zlen (b_data b)), w') ∧
    run_changed (c_start c) (nsect (c_alloc c)) w w' ∧ world_ok w' ∧ cell_ok w' c ∧
    file_bytes w' c = splice off (b_data b) (file_bytes w c).
Proof.
  intros Hv Hw Hc Hdeny Hoff Hby Hb Hle. destruct b as [a data]. cbn [b_data] in *.
  unfold write_at. unmonad. rewrite (get_cell_spec v c) by done.
  rewrite Hdeny. rewrite bool_decide_eq_false_2 by lia. cbn [b_data b_addr].
  pose proof (zlen_nonneg data). pose proof (alloc_le_run w c Hc). pose proof (co_alloc w c Hc).
  rewrite wrap64_small by lia. unfold c_len in Hle. rewrite bool_decide_eq_false_2 by lia.
  rewrite (get_cell_spec v c) by done. fold (c_len c) (c_start c) in *.
  destruct (write_loop_spec (c_start c) (c_len c) a (nsect (c_alloc c)) (S (length data))
    data off 0 (zlen data) w) as (w' & E & Hch & Hrun); try done; try lia.
  { unfold zlen. lia. } { apply Hw. } { by apply run_on_cell. }
  assert (Hm : moved (c_len c) off (zlen data) = zlen data) by (unfold moved; lia).
  rewrite Hm in *. rewrite slice_full in Hrun by done. exists w'. split; [exact E|]. split; [done|].
  split; [by eapply world_ok_changed|]. split; [by eapply cell_ok_changed|].
  unfold file_bytes, run_of. rewrite Hrun. apply splice_ztake; [done|done|].
  pose proof (zlen_run_of w c Hw Hc) as Hz. unfold run_of in Hz. lia.
Qed.

(** ** Resizing *)

(** [w'] is [w] with another device and bitmap. *)
Definition store_of (w w' : W) : Prop := w' = set_free (w_free w') (set_device (w_device w') w).

(** Resizing turned the inode [c] into [c']: the bytes both have are the same,
    the bitmap has given up what was [c]'s and now marks what is [c']'s, and
    sectors in use by others are as they were. *)
Record resized (w w' : W) (c c' : Cell) (newlen : Z) : Prop := {
  rs_world : world_ok w';
  rs_cell : cell_ok w' c';
  rs_store : store_of w w';
  rs_len : c_len c' = newlen;
  rs_desc : c_sector c' = c_sector c ∧ id_removed (c_desc c') = id_removed (c_desc c) ∧
            id_deny_write (c_desc c') = id_deny_write (c_desc c) ∧ c_strong c' = c_strong c;
  rs_bytes : let k := Z.min newlen (c_alloc c) in slice 0 k (run_of w' c') = slice 0 k (run_of w c);
  rs_used : ∀ s, 0 ≤ s → used (w_free w') s =
    bool_decide (c_run c' s) || (used (w_free w) s && negb (bool_decide (c_run c s)));
  rs_others : ∀ s, 0 ≤ s → used (w_free w) s = true → ¬ c_run c s → s ≠ c_sector c →
    dev_get (w_device w') s = dev_get (w_device w) s ∧ ¬ c_run c' s;
}.

#[export] Instance c_run_dec c s : Decision (c_run c s).
Proof. unfold c_run. apply _. Defined.

Lemma inode_image_sector i : zlen (di_padding i) = INODE_PADDING → is_bytes (di_padding i) →
  is_sector (inode_image i).
Proof.
  intros Hl Hb. split.
  - unfold inode_image. rewrite !zlen_app, !zlen_le32, Hl. done.
  - unfold inode_image. rewrite !is_bytes_app. repeat split; done || apply le32_bytes.
Qed.

(** Rewriting the inode's own sector with new metadata. *)
Lemma flush_len_spec newlen desc data (w : W) : world_ok w →
  0 ≤ id_sector desc < dev_capacity (w_device w) →
  zlen (di_padding data) = INODE_PADDING → is_bytes (di_padding data) →
  let data' := mkDiskInode (di_start data) newlen (di_magic data) (di_padding data) in
  ∃ d, flush_len newlen desc data w = Ret (data', set_device d w) ∧
    dev_ok d ∧ dev_capacity d = dev_capacity (w_device w) ∧
    ∀ s, dev_get d s = if bool_decide (s = id_sector desc) then inode_image data'
                       else dev_get (w_device w) s.
Proof.
  intros Hw Hs Hl Hb data'. unfold flush_len, on_device. unmonad.
  rewrite write_sector_spec by done. fold data'. eexists. split; [done|].
  assert (Hi : is_sector (inode_image data')) by (by apply inode_image_sector).
  destruct (dev_put_ok (w_device w) (id_sector desc) (inode_image data')) as [Hok Hcap];
    [apply Hw|done|done|].
  split; [done|]. split; [done|]. intros s. by apply dev_get_put; [apply Hw|..].
Qed.

(** The runs of [c] and [c'] agree: only the metadata changed. *)
Lemma resized_in_run (w : W) c c' d : world_ok w → cell_ok w c →
  c_start c' = c_start c → c_alloc c' = c_alloc c → 0 ≤ c_len c' → 0 ≤ id_shrink_len (c_desc c') →
  di_magic (c_data c') = di_magic (c_data c) → di_padding (c_data c') = di_padding (c_data c) →
  c_sector c' = c_sector c → id_removed (c_desc c') = id_removed (c_desc c) →
  id_deny_write (c_desc c') = id_deny_write (c_desc c) → c_strong c' = c_strong c →
  dev_ok d → dev_capacity d = dev_capacity (w_device w) →
  (∀ s, dev_get d s = if bool_decide (s = c_sector c) then inode_image (c_data c')
                      else dev_get (w_device w) s) →
  resized w (set_device d w) c c' (c_len c').
Proof.
  intros Hw Hc Hst Hal Hlen Hsh Hma Hpa Hse Hrm Hdn Hsg Hd Hcap Hget.
  assert (Hrun : ∀ s, c_run c' s ↔ c_run c s) by (intros; unfold c_run; by rewrite Hst, Hal).
  assert (Hro : run_of (set_device d w) c' = run_of w c).
  { unfold run_of. rewrite Hst, Hal. apply run_bytes_ext. intros s Hs. cbn. rewrite Hget.
    rewrite bool_decide_eq_false_2; [done|]. intros ->. by apply (co_apart w c Hc). }
  constructor.
  - destruct Hw. constructor; cbn; rewrite ?Hcap; done.
  - destruct Hc. constructor; cbn [w_device w_free set_device set_free]; rewrite ?Hst, ?Hal, ?Hcap, ?Hse, ?Hma, ?Hpa; try done.
    + by rewrite Hrun.
    + by rewrite Hget, bool_decide_eq_true_2.
  - done.
  - done.
  - done.
  - by rewrite Hro.
  - intros s Hs. cbn. rewrite (bool_decide_ext _ _ (Hrun s)). destruct (decide (c_run c s)) as [Hin|Hin].
    + rewrite !bool_decide_eq_true_2 by done. by apply (co_run w c Hc).
    + rewrite !bool_decide_eq_false_2 by done. cbn. by rewrite andb_true_r.
  - intros s Hs Hu Hn Hne. cbn. rewrite Hrun. split; [|done]. rewrite Hget.
    by rewrite bool_decide_eq_false_2.
Qed.

(** The free map and device after [resize], before the cell is written back. *)
Definition inner_post (w w' : W) (c : Cell) (desc : InodeDesc) (data : DiskInode) (newlen : Z) : Prop :=
  resized w w' c (mkCell desc data (c_strong c)) newlen.

(** The run grows where it is. *)
Lemma resized_in_place (w : W) c fm d newlen : world_ok w → cell_ok w c →
  c_alloc c < newlen < 2 ^ 32 →
  c_start c + nsect newlen ≤ dev_capacity (w_device w) →
  run_free (w_free w) (c_start c + nsect (c_alloc c)) (nsect newlen - nsect (c_alloc c)) →
  marks (w_free w) fm (λ x, within (c_start c + nsect (c_alloc c)) (nsect newlen - nsect (c_alloc c)) x
                            || used (w_free w) x) →
  let data := mkDiskInode (c_start c) newlen (di_magic (c_data c)) (di_padding (c_data c)) in
  dev_ok d → dev_capacity d = dev_capacity (w_device w) →
  (∀ s, dev_get d s = if bool_decide (s = c_sector c) then inode_image data
                      else dev_get (w_device w) s) →
  inner_post w (set_device d (set_free fm w)) c (set_shrink 0 (c_desc c)) data newlen.
Proof.
  intros Hw Hc Hnew Hend Hfree (Hfw & Hfs & Hfu) data Hd Hcap Hget.
  pose proof (alloc_le_run w c Hc) as Hal. pose proof (co_len w c Hc) as Hl0.
  pose proof (nsect_mono (c_alloc c) newlen ltac:(lia)) as Hmono.
  set (c' := mkCell (set_shrink 0 (c_desc c)) data (c_strong c)).
  assert (Halloc : c_alloc c' = newlen) by (unfold c_alloc, c_len; cbn; lia).
  assert (Hrun : ∀ s, c_run c' s ↔ c_run c s ∨
     c_start c + nsect (c_alloc c) ≤ s < c_start c + nsect newlen).
  { intros s. unfold c_run. rewrite Halloc. unfold c_start at 1 2. cbn. fold (c_start c).
    pose proof (nsect_nonneg (c_alloc c)). lia. }
  assert (Hnotnew : ¬ c_run c' (c_sector c)).
  { rewrite Hrun. intros [Hr|Hr]; [by apply (co_apart w c Hc)|].
    pose proof (co_sector_used w c Hc) as Hu. rewrite Hfree in Hu; [done|lia]. }
  unfold inner_post. fold c'. constructor.
  - destruct Hw. constructor; cbn; rewrite ?Hcap; done || congruence.
  - constructor; unfold c_len, c_start, c_sector; cbn; rewrite ?Hcap; try apply Hc; try lia.
    + rewrite Halloc. exact Hend.
    + rewrite Halloc. intros s Hs. pose proof (co_start w c Hc). rewrite Hfu by lia.
      unfold within. case_bool_decide as Hin; [done|]. cbn. apply (co_run w c Hc). lia.
    + pose proof (co_sector w c Hc). rewrite Hfu by (unfold c_sector in *; lia).
      pose proof (co_sector_used w c Hc) as Hu. unfold c_sector in Hu. by rewrite Hu, orb_true_r.
    + exact Hnotnew.
    + rewrite Hget. by rewrite bool_decide_eq_true_2.
  - done.
  - done.
  - done.
  - rewrite Z.min_r by lia. unfold run_of. rewrite Halloc. unfold c_start at 1. cbn. fold (c_start c).
    replace (nsect newlen) with (nsect (c_alloc c) + (nsect newlen - nsect (c_alloc c))) by lia.
    rewrite run_bytes_app by (pose proof (nsect_nonneg (c_alloc c)); lia).
    assert (run_bytes d (c_start c) (nsect (c_alloc c)) = run_of w c) as ->.
    { apply run_bytes_ext. intros s Hs. rewrite Hget, bool_decide_eq_false_2; [done|].
      intros ->. by apply (co_apart w c Hc). }
    apply list_eq_z. intros i. rewrite !lookup_slice by lia. case_bool_decide; [|done].
    rewrite lookup_app_l; [done|]. pose proof (zlen_run_of w c Hw Hc). unfold zlen in *. lia.
  - intros s Hs. cbn. rewrite Hfu by done. rewrite (bool_decide_ext _ _ (Hrun s)).
    unfold within.
    destruct (decide (c_run c s)) as [Hin|Hin].
    + rewrite (bool_decide_eq_true_2 (c_run c s ∨ _)) by by left.
      rewrite (co_run w c Hc s Hin). apply orb_true_r.
    + rewrite (bool_decide_eq_false_2 (c_run c s)) by done. rewrite andb_true_r. f_equal.
      apply bool_decide_ext. split; [intros; right; lia|intros [?|?]; [done|lia]].
  - intros s Hs Hu Hn Hne. cbn. rewrite Hget, bool_decide_eq_false_2 by done. split; [done|].
    rewrite Hrun. intros [?|Hr]; [done|]. rewrite Hfree in Hu; [done|lia].
Qed.

Lemma copy_sector_spec old new i (w : W) : 0 ≤ old + i < dev_capacity (w_device w) →
  0 ≤ new + i < dev_capacity (w_device w) → dev_capacity (w_device w) ≤ 2 ^ 31 →
  copy_sector old new i w =
    Ret ((), set_device (dev_put (new + i) (dev_get (w_device w) (old + i)) (w_device w)) w).
Proof.
  intros. unfold copy_sector, on_device. unmonad. rewrite !wrap_small by (unfold in_range; lia).
  rewrite read_sector_spec by lia. cbn [w_device set_device]. by rewrite write_sector_spec by lia.
Qed.

(** Copying a run sector by sector to a run apart from it. *)
Lemma copy_spec n old new : ∀ i (w : W), dev_ok (w_device w) → 0 ≤ i →
  0 ≤ old → 0 ≤ new → dev_capacity (w_device w) ≤ 2 ^ 31 →
  old + i + Z.of_nat n ≤ dev_capacity (w_device w) → new + i + Z.of_nat n ≤ dev_capacity (w_device w) →
  (∀ s, old + i ≤ s < old + i + Z.of_nat n → ¬ (new + i ≤ s < new + i + Z.of_nat n)) →
  ∃ d, for_each (seqZ i (Z.of_nat n)) (copy_sector old new) w = Ret ((), set_device d w) ∧
    dev_ok d ∧ dev_capacity d = dev_capacity (w_device w) ∧
    ∀ s, dev_get d s = if bool_decide (new + i ≤ s < new + i + Z.of_nat n)
                       then dev_get (w_device w) (old + (s - new)) else dev_get (w_device w) s.
Proof.
  induction n as [|n IH]; intros i w Hok Hi Ho Hn Hcap Hle Hle' Hdis.
  { exists (w_device w). rewrite seqZ_nil by lia. split; [by destruct w|]. split; [done|].
    split; [done|]. intros s. by rewrite bool_decide_eq_false_2 by lia. }
  rewrite seqZ_cons by lia. cbn [for_each]. unmonad. rewrite copy_sector_spec by lia.
  set (b := dev_get (w_device w) (old + i)).
  assert (Hb : is_sector b) by (apply dev_get_sector; [done|lia]).
  destruct (dev_put_ok (w_device w) (new + i) b Hok ltac:(lia) Hb) as [Hok' Hcap'].
  set (w1 := set_device (dev_put (new + i) b (w_device w)) w).
  destruct (IH (Z.succ i) w1) as (d & E & Hd & Hdc & Hget); cbn [w1 w_device set_device];
    rewrite ?Hcap'; try (done || lia).
  { intros s Hs Hs'. apply (Hdis s); lia. }
  cbn [w1 w_device set_device] in Hdc, Hget. exists d. split; [|split; [done|]; split; [congruence|]].
  - unfold w1 in *. cbn in E |- *. replace (Z.pred (Z.of_nat (S n))) with (Z.of_nat n) by lia.
    exact E.
  - intros s. rewrite Hget, !(dev_get_put (w_device w)) by (done || lia).
    destruct (decide (s = new + i)) as [->|Hne].
    + rewrite bool_decide_eq_false_2 by lia. rewrite !bool_decide_eq_true_2 by lia.
      subst b. f_equal. lia.
    + rewrite (bool_decide_eq_false_2 (s = new + i)) by done.
      destruct (decide (new + i ≤ s < new + i + Z.of_nat (S n))).
      * rewrite (bool_decide_eq_true_2 (new + Z.succ i ≤ _ < _)) by lia.
        rewrite (bool_decide_eq_true_2 (new + i ≤ _ < _)) by lia.
        rewrite bool_decide_eq_false_2; [done|]. intros E'. apply (Hdis (new + i)); lia.
      * by rewrite !bool_decide_eq_false_2 by lia.
Qed.

Lemma run_bytes_copied d d' old new n :
  (∀ s, new ≤ s < new + n → dev_get d' s = dev_get d (old + (s - new))) →
  run_bytes d' new n = run_bytes d old n.
Proof.
  intros Hs. unfold run_bytes. f_equal. apply list_eq_z. intros i. rewrite !list_lookup_fmap.
  destruct (decide (Z.of_nat i < n)).
  - rewrite !lookup_seqZ_lt by lia. cbn. f_equal. rewrite Hs by lia. f_equal. lia.
  - by rewrite !lookup_seqZ_ge by lia.
Qed.

(** The outcomes of [resize_inner] on a request beyond the allocated bytes. *)
Definition extend_post (w : W) (c : Cell) (newlen : Z)
    (o : outcome (result unit * (InodeDesc * DiskInode) * W)) : Prop :=
  (∃ desc data w', o = Ret ((Ok (), (desc, data)), w') ∧ inner_post w w' c desc data newlen ∧
     id_shrink_len desc = 0) ∨
  (o = Ret ((Err DiskSectorAllocFail, (c_desc c, c_data c)), w) ∧
     ∀ s, 0 ≤ s → s + nsect newlen < dev_capacity (w_device w) →
       ¬ run_free (w_free w) s (nsect newlen)) ∨
  (o = Panic AssertFailed ∧
     dev_capacity (w_device w) < c_start c + nsect newlen ∧
     let e := c_start c + nsect (c_alloc c) in run_free (w_free w) e (dev_capacity (w_device w) - e)).

(** Moving: the new run is free ground, the copy lands in it, the old run is
    given back. *)
Lemma resized_moved (w : W) c new fm1 fm2 d d1 newlen : world_ok w → cell_ok w c →
  c_alloc c < newlen < 2 ^ 32 → 0 ≤ new → new + nsect newlen < dev_capacity (w_device w) →
  run_free (w_free w) new (nsect newlen) →
  marks (w_free w) fm1 (λ x, within new (nsect newlen) x || used (w_free w) x) →
  marks fm1 fm2 (λ x, negb (within (c_start c) (nsect (c_alloc c)) x) && used fm1 x) →
  dev_ok d1 → dev_capacity d1 = dev_capacity (w_device w) →
  (∀ s, dev_get d1 s = if bool_decide (new ≤ s < new + nsect (c_alloc c))
     then dev_get (w_device w) (c_start c + (s - new)) else dev_get (w_device w) s) →
  let data := mkDiskInode new newlen (di_magic (c_data c)) (di_padding (c_data c)) in
  dev_ok d → dev_capacity d = dev_capacity (w_device w) →
  (∀ s, dev_get d s = if bool_decide (s = c_sector c) then inode_image data else dev_get d1 s) →
  inner_post w (set_device d (set_free fm2 w)) c (set_shrink 0 (c_desc c)) data newlen.
Proof.
  intros Hw Hc Hnew Hn0 Hend Hfree (_ & Hfs1 & Hfu1) (Hfw & Hfs2 & Hfu2) Hd1 Hcap1 Hget1 data
    Hd Hcap Hget.
  pose proof (alloc_le_run w c Hc) as Hal. pose proof (co_len w c Hc) as Hl0.
  pose proof (nsect_mono (c_alloc c) newlen ltac:(lia)) as Hmono.
  pose proof (nsect_nonneg (c_alloc c) ltac:(lia)) as Hns.
  set (c' := mkCell (set_shrink 0 (c_desc c)) data (c_strong c)).
  assert (Halloc : c_alloc c' = newlen) by (unfold c_alloc, c_len; cbn; lia).
  assert (Hrun : ∀ s, c_run c' s ↔ new ≤ s < new + nsect newlen).
  { intros s. unfold c_run. rewrite Halloc. done. }
  assert (Hdisj : ∀ s, c_run c s → ¬ c_run c' s).
  { intros s Hs. rewrite Hrun. intros Hs'. pose proof (co_run w c Hc s Hs) as Hu.
    rewrite Hfree in Hu; [done|lia]. }
  assert (Hsec : ¬ c_run c' (c_sector c)).
  { rewrite Hrun. intros Hs'. pose proof (co_sector_used w c Hc) as Hu. rewrite Hfree in Hu; done. }
  assert (Hused : ∀ s, 0 ≤ s → used fm2 s =
    bool_decide (c_run c' s) || (used (w_free w) s && negb (bool_decide (c_run c s)))).
  { intros s Hs. rewrite Hfu2, Hfu1 by done.
    assert (within (c_start c) (nsect (c_alloc c)) s = bool_decide (c_run c s)) as ->
      by by apply bool_decide_ext.
    assert (within new (nsect newlen) s = bool_decide (c_run c' s)) as ->.
    { apply bool_decide_ext. by rewrite Hrun. }
    destruct (decide (c_run c s)) as [Hin|Hin].
    - rewrite (bool_decide_eq_true_2 (c_run c s)) by done. cbn. rewrite andb_false_r.
      by rewrite bool_decide_eq_false_2 by by apply Hdisj.
    - rewrite (bool_decide_eq_false_2 (c_run c s)) by done. cbn. by rewrite andb_true_r. }
  unfold inner_post. fold c'. constructor.
  - destruct Hw. constructor; cbn; rewrite ?Hcap; done || congruence.
  - constructor; unfold c_len, c_start, c_sector; cbn; rewrite ?Hcap; try apply Hc; try lia.
    + rewrite Halloc. lia.
    + rewrite Halloc. intros s Hs. rewrite Hused by lia. rewrite bool_decide_eq_true_2; [done|].
      by rewrite Hrun.
    + pose proof (co_sector w c Hc). fold (c_sector c). rewrite Hused by lia.
      rewrite (co_sector_used w c Hc), (bool_decide_eq_false_2 (c_run c _)) by apply (co_apart w c Hc).
      apply orb_true_r.
    + exact Hsec.
    + rewrite Hget. by rewrite bool_decide_eq_true_2.
  - done.
  - done.
  - done.
  - rewrite Z.min_r by lia. unfold run_of. rewrite Halloc. unfold c_start at 1. cbn.
    replace (nsect newlen) with (nsect (c_alloc c) + (nsect newlen - nsect (c_alloc c))) by lia.
    rewrite run_bytes_app by lia.
    assert (run_bytes d new (nsect (c_alloc c)) = run_of w c) as ->.
    { unfold run_of. apply run_bytes_copied. intros s Hs. rewrite Hget, bool_decide_eq_false_2.
      - rewrite Hget1. by rewrite bool_decide_eq_true_2.
      - intros ->. apply Hsec. rewrite Hrun. lia. }
    apply list_eq_z. intros i. rewrite !lookup_slice by lia. case_bool_decide; [|done].
    rewrite lookup_app_l; [done|]. pose proof (zlen_run_of w c Hw Hc). unfold zlen in *. lia.
  - exact Hused.
  - intros s Hs Hu Hn Hne. cbn. assert (Hn' : ¬ c_run c' s).
    { rewrite Hrun. intros Hs'. rewrite Hfree in Hu; done. }
    split; [|done]. rewrite Hget, bool_decide_eq_false_2 by done. rewrite Hget1, bool_decide_eq_false_2; [done|].
    intros Hs'. apply Hn'. rewrite Hrun. lia.
Qed.

Lemma resize_move_spec (w : W) c newlen : world_ok w → cell_ok w c → c_alloc c < newlen < 2 ^ 32 →
  extend_post w c newlen (resize_move newlen (c_alloc c) (c_desc c) (c_data c) w).
Proof.
  intros Hw Hc Hnew. pose proof (alloc_le_run w c Hc) as Hal. pose proof (co_len w c Hc) as Hl0.
  pose proof (nsect_bounds newlen ltac:(lia)) as Hnb.
  pose proof (nsect_mono (c_alloc c) newlen ltac:(lia)) as Hmono.
  unfold resize_move, on_free. rewrite !bytes_to_sectors_nsect by lia. fold (c_start c).
  destruct (fm_alloc_cases (w_free w) (nsect newlen)) as [(s & fm1 & E & Hs & Hle & Hfree & _ & Hm1)|[E Hno]];
    [apply Hw|lia| |]; unmonad; rewrite E.
  2:{ right; left. split; [by destruct w|]. by rewrite <-(wo_size w Hw). }
  pose proof (nsect_nonneg (c_alloc c) ltac:(lia)) as Hns. pose proof (co_start w c Hc) as Hst.
  pose proof (co_end w c Hc) as Hend. pose proof (wo_cap w Hw) as Hcap.
  rewrite (wo_size w Hw) in Hle.
  destruct (copy_spec (Z.to_nat (nsect (c_alloc c))) (c_start c) s 0 (set_free fm1 w))
    as (d1 & Ec & Hd1 & Hdc1 & Hget1); cbn [w_device set_free]; try lia; [apply Hw| |].
  { rewrite Z2Nat.id, !Z.add_0_r by lia. intros x Hx Hx'. pose proof (co_run w c Hc x Hx) as Hu.
    rewrite Hfree in Hu; [done|lia]. }
  rewrite !Z2Nat.id, !Z.add_0_r in * by lia. rewrite Ec. cbn [w_free set_free set_device].
  destruct Hm1 as (Hw1 & Hs1 & Hu1).
  destruct (dealloc_run fm1 (c_start c) (nsect (c_alloc c))) as (fm2 & -> & Hm2); try (done || lia).
  { rewrite Hs1, (wo_size w Hw). lia. }
  { intros x Hx. rewrite Hu1 by lia. rewrite (co_run w c Hc x Hx). apply orb_true_r. }
  cbn [w_device set_free set_device] in *.
  set (w2 := set_free fm2 _).
  assert (Hw2 : world_ok w2).
  { destruct Hw, Hm2 as (? & ? & _). constructor; cbn; [done|done| |lia]. congruence. }
  destruct (flush_len_spec newlen (set_shrink 0 (c_desc c))
    (mkDiskInode s (di_len (c_data c)) (di_magic (c_data c)) (di_padding (c_data c))) w2 Hw2)
    as (d & Ef & Hd & Hdc & Hget); cbn; try apply Hc.
  { rewrite Hdc1. apply (co_sector w c Hc). }
  rewrite Ef. left. eexists _, _, _. split; [done|]. split; [|done].
  unfold w2 in *. cbn in Hd, Hdc, Hget |- *.
  apply (resized_moved w c s fm1 fm2 d d1); try done. congruence.
Qed.

Lemma resize_extend_spec (w : W) c size : world_ok w → cell_ok w c → c_alloc c < wrap32 size →
  extend_post w c (wrap32 size) (resize_inner (c_desc c) (c_data c) size w).
Proof.
  intros Hw Hc Hlt. pose proof (alloc_le_run w c Hc) as Hal. pose proof (co_len w c Hc) as Hl0.
  pose proof (wrap_in_range 32 size ltac:(lia)) as Hr. unfold in_range in Hr.
  unfold resize_inner. set (newlen := wrap32 size) in *.
  fold (c_len c). rewrite !(bool_decide_eq_false_2 (newlen = _)) by lia.
  rewrite bool_decide_eq_false_2 by lia.
  assert (Hold : wrap32 (c_len c + id_shrink_len (c_desc c)) = c_alloc c).
  { apply wrap_small. unfold in_range. fold (c_alloc c). lia. }
  rewrite Hold. rewrite bool_decide_eq_false_2 by lia.
  rewrite !bytes_to_sectors_nsect by lia. fold (c_start c).
  pose proof (nsect_mono (c_alloc c) newlen ltac:(lia)) as Hmono.
  pose proof (nsect_nonneg (c_alloc c) ltac:(lia)) as Hns. pose proof (co_start w c Hc) as Hst.
  pose proof (co_end w c Hc) as Hend. pose proof (wo_cap w Hw) as Hcap.
  pose proof (nsect_bounds newlen ltac:(lia)) as Hnb.
  rewrite !wrap_small by (unfold in_range; lia).
  unfold on_free. unmonad.
  destruct (in_place_alloc_cases (w_free w) (c_start c + nsect (c_alloc c))
    (nsect newlen - nsect (c_alloc c))) as [(fm & E & Hle & Hfree & Hm)|[[E Hno]|(E & Hgt & Hf)]];
    [apply Hw|lia|lia|lia|rewrite (wo_size w Hw); lia| | |]; rewrite E.
  - destruct (flush_len_spec newlen (set_shrink 0 (c_desc c)) (c_data c) (set_free fm w))
      as (d & Ef & Hd & Hdc & Hget); cbn; try apply Hc.
    { destruct Hw, Hm as (? & ? & _). constructor; cbn; done || congruence. }
    rewrite Ef. left. eexists _, _, _. split; [done|]. split; [|done].
    cbn in Hdc, Hget. rewrite (wo_size w Hw) in Hle.
    apply resized_in_place; try done; lia.
  - assert (set_free (w_free w) w = w) as -> by by destruct w.
    apply resize_move_spec; (done || lia).
  - right; right. split; [done|]. rewrite (wo_size w Hw) in *. split; [lia|done].
Qed.

Lemma resize_within_spec (w : W) c size : world_ok w → cell_ok w c → wrap32 size ≤ c_alloc c →
  ∃ desc data w', resize_inner (c_desc c) (c_data c) size w = Ret ((Ok (), (desc, data)), w') ∧
    inner_post w w' c desc data (wrap32 size) ∧ w_free w' = w_free w ∧
    di_start data = c_start c ∧ wrap32 size + id_shrink_len desc = c_alloc c.
Proof.
  intros Hw Hc Hle. pose proof (alloc_le_run w c Hc) as Hal. pose proof (co_len w c Hc) as Hl0.
  pose proof (co_alloc w c Hc) as Ha.
  pose proof (wrap_in_range 32 size ltac:(lia)) as Hr. unfold in_range in Hr.
  unfold resize_inner. set (newlen := wrap32 size) in *. fold (c_len c).
  pose proof (co_shrink w c Hc) as Hsh.
  assert (Hflush : ∀ n, newlen ≠ c_len c → n = c_alloc c - newlen →
    ∃ desc data w', (let desc := set_shrink n (c_desc c) in
        (data ← flush_len newlen desc (c_data c) ; mret (Ok (), (desc, data)) : M W _)) w
       = Ret ((Ok (), (desc, data)), w') ∧
      inner_post w w' c desc data newlen ∧ w_free w' = w_free w ∧
      di_start data = c_start c ∧ newlen + id_shrink_len desc = c_alloc c).
  { intros n Hne Hn. destruct (flush_len_spec newlen (set_shrink n (c_desc c)) (c_data c) w Hw)
      as (d & Ef & Hd & Hdc & Hget); cbn; try apply Hc.
    unmonad. rewrite Ef. eexists _, _, _. split; [done|].
    split; [|split; [done|split; [done|cbn; lia]]].
    pose proof (resized_in_run w c (mkCell (set_shrink n (c_desc c)) (mkDiskInode (di_start (c_data c))
      newlen (di_magic (c_data c)) (di_padding (c_data c))) (c_strong c)) d) as Hres.
    apply Hres; try done; clear Hres.
    all: cbn; unfold c_alloc, c_len in *; cbn; lia. }
  destruct (decide (newlen = c_len c)) as [Heq|Hne].
  { rewrite bool_decide_eq_true_2 by done. eexists _, _, w. split; [done|].
    split; [|split; [done|split; [done|unfold c_alloc in *; lia]]].
    assert (Ecell : mkCell (c_desc c) (c_data c) (c_strong c) = c) by by destruct c.
    unfold inner_post. rewrite Ecell. constructor; try done.
    - by destruct w.
    - intros s Hs. destruct (decide (c_run c s)) as [Hin|Hin].
      + rewrite !bool_decide_eq_true_2 by done. by apply (co_run w c Hc).
      + rewrite !bool_decide_eq_false_2 by done. by rewrite andb_true_r. }
  rewrite bool_decide_eq_false_2 by done.
  destruct (decide (newlen < c_len c)) as [Hlt|Hge].
  - rewrite bool_decide_eq_true_2 by done. apply Hflush; [done|].
    rewrite wrap_small by (unfold in_range, c_alloc in *; lia). unfold c_alloc. lia.
  - rewrite bool_decide_eq_false_2 by done.
    assert (Hold : wrap32 (c_len c + id_shrink_len (c_desc c)) = c_alloc c).
    { apply wrap_small. unfold in_range. fold (c_alloc c). lia. }
    rewrite Hold. rewrite bool_decide_eq_true_2 by lia. by apply Hflush.
Qed.

(** ** The vnode interface *)

Lemma world_ok_inodes (w : W) m : world_ok w → world_ok (set_inodes m w).
Proof. intros []. by constructor. Qed.

Lemma cell_ok_inodes (w : W) m c : cell_ok w c → cell_ok (set_inodes m w) c.
Proof. intros []. by constructor. Qed.

Lemma store_inodes (w w' : W) : store_of w w' → w_inodes w' = w_inodes w.
Proof. by intros ->. Qed.

#[export] Instance inode_spec : VnodeSpec W nat := {
  v_ok w v := ∃ c, w_inodes w !! v = Some c ∧ world_ok w ∧ cell_ok w c;
  v_writable w v := ∀ c, w_inodes w !! v = Some c → id_deny_write (c_desc c) = 0;
  v_buf _ b := buf_ok b;
  v_data w v := match w_inodes w !! v with Some c => file_bytes w c | None => [] end;
  v_only v w w' :=
    match w_inodes w !! v with
    | Some c => run_changed (c_start c) (nsect (c_alloc c)) w w' ∨ w' = w
    | None => w' = w
    end;
}.

Lemma run_changed_inodes start n (w w' : W) : run_changed start n w w' → w_inodes w' = w_inodes w.
Proof. by intros (d & -> & _). Qed.

Lemma inode_only_preorder v : PreOrder (v_only (W:=W) (V:=nat) v).
Proof.
  split.
  - intros w. cbn. destruct (w_inodes w !! v); [by right|done].
  - intros w1 w2 w3. cbn. destruct (w_inodes w1 !! v) as [c|] eqn:E.
    + intros [H12| ->]; [|by rewrite E]. rewrite (run_changed_inodes _ _ _ _ H12), E.
      intros [H23| ->]; left; [by eapply run_changed_trans|done].
    + intros ->. by rewrite E.
Qed.

Lemma v_only_inodes v (w w' : W) : v_only v w w' → w_inodes w' = w_inodes w.
Proof.
  cbn. destruct (w_inodes w !! v); [|by intros ->]. intros [Hc| ->]; [|done].
  by eapply run_changed_inodes.
Qed.

(** An inode is a vnode over the first [len] bytes of its run. *)
Lemma inode_laws close : @VnodeLaws W nat (inode_vnode translate_ok close) inode_spec.
Proof.
  constructor.
  - apply inode_only_preorder.
  - done.
  - intros w w' v Ho Hwr c. rewrite (v_only_inodes v w w' Ho). apply Hwr.
  - intros w. apply buf_ok_skip.
  - intros w. apply buf_ok_data.
  - intros w v (c & Hv & Hw & Hc). cbn. rewrite Hv, zlen_file_bytes by done.
    pose proof (alloc_le_run w c Hc). pose proof (co_alloc w c Hc). lia.
  - intros w v b off (c & Hv & Hw & Hc) Hb Hne. cbn. rewrite Hv, zlen_file_bytes by done. intros Hoff.
    pose proof (zlen_ne_nil _ Hne). exists (moved (c_len c) off (zlen (b_data b))).
    split; [unfold moved; lia|]. split; [unfold moved; lia|].
    by apply (read_at_spec v c); [done..|lia|].
  - intros w v b off (c & Hv & Hw & Hc). cbn. rewrite Hv, zlen_file_bytes by done. intros Hoff.
    exists (Ok 0). split; [by left|]. pose proof (co_len w c Hc). pose proof (zlen_nonneg (b_data b)).
    apply (read_at_past_end v c); (done || lia).
  - intros w v b off (c & Hv & Hw & Hc) Hwr Hb Hby Hne Hoff. cbn. rewrite Hv, zlen_file_bytes by done.
    intros Hle. pose proof (zlen_ne_nil _ Hne).
    destruct (write_at_spec v c w b off) as (w' & E & Hch & Hw' & Hc' & Hf); try done.
    { by apply Hwr. }
    assert (Hv' : w_inodes w' !! v = Some c) by by rewrite (run_changed_inodes _ _ _ _ Hch).
    exists (zlen (b_data b)), w'. split; [lia|]. split; [exact E|]. split; [by exists c|].
    rewrite Hv'. split; [|by left]. by rewrite ztake_all by lia.
  - intros w v (c & Hv & Hw & Hc). cbn. unfold inode_len. unmonad.
    rewrite (get_cell_spec v c) by done. rewrite Hv, zlen_file_bytes by done. done.
Qed.

(** ** The operations *)

(** C33: [read_at] at any offset into a buffer at any address terminates,
    leaves the file system as it is, and delivers exactly the bytes of the file
    from the offset on, as many as fit, whether its pieces go through the bounce
    buffer or straight to the device; a first piece that would go straight to a
    buffer the kernel cannot translate is refused with [BadPtr]. *)
Theorem inode_read_at_correct v c (w : W) b off :
  w_inodes w !! v = Some c → world_ok w → cell_ok w c → 0 ≤ off →
  let n := zlen (b_data b) in
  (buf_ok b → ∃ k, k = Z.max 0 (Z.min n (c_len c - off)) ∧
     read_at translate_ok v b off w =
       Ret ((Ok k, slice off k (file_bytes w c) ++ zdrop k (b_data b)), w)) ∧
  (off mod SECTOR_SIZE = 0 → off + SECTOR_SIZE ≤ c_len c → SECTOR_SIZE ≤ n →
   direct (b_addr b) 0 SECTOR_SIZE = true → translate_ok (wrap64 (b_addr b + 0)) = false →
     read_at translate_ok v b off w = Ret ((Err BadPtr, b_data b), w)).
Proof.
  intros Hv Hw Hc Hoff n. split.
  - intros Hb. eexists. split; [done|]. by apply (read_at_spec v c).
  - intros Hal Hlen Hn Hd Ht. unfold read_at. unmonad. rewrite (get_cell_spec v c) by done.
    cbn [read_loop]. fold (c_len c) n.
    assert (Hch : chunk_size (c_len c) off n = SECTOR_SIZE).
    { unfold chunk_size, saturating_sub. rewrite Hal. unfold SECTOR_SIZE in *. lia. }
    rewrite Hch, Hd, Ht. done.
Qed.

(** C34: [write_at] inside a file that is not denied overwrites exactly the
    given bytes: the contents are spliced, reading them back gives them, and
    every sector outside the file's run, the bitmap and all bookkeeping are
    untouched; on a denied file it changes nothing and reports
    [InvalidFileMode]. *)
Theorem inode_write_at_correct v c (w : W) b off :
  w_inodes w !! v = Some c → world_ok w → cell_ok w c →
  0 ≤ off → is_bytes (b_data b) → buf_ok b → off + zlen (b_data b) ≤ c_len c →
  (id_deny_write (c_desc c) = 0 → ∃ w', write_at translate_ok v b off w = Ret (Ok (zlen (b_data b)), w') ∧
     (∃ d, w' = set_device d w ∧ ∀ s, ¬ c_run c s → dev_get d s = dev_get (w_device w) s) ∧
     world_ok w' ∧ cell_ok w' c ∧
     file_bytes w' c = splice off (b_data b) (file_bytes w c) ∧
     read_at translate_ok v b off w' = Ret ((Ok (zlen (b_data b)), b_data b), w')) ∧
  (0 < id_deny_write (c_desc c) → write_at translate_ok v b off w = Ret (Err InvalidFileMode, w)).
Proof.
  intros Hv Hw Hc Hoff Hby Hb Hle. split.
  - intros Hdeny. destruct (write_at_spec v c w b off) as (w' & E & Hch & Hw' & Hc' & Hf); try done.
    exists w'. split; [done|].
    assert (Hv' : w_inodes w' !! v = Some c) by by rewrite (run_changed_inodes _ _ _ _ Hch).
    split; [destruct Hch as (d & -> & _ & _ & Hs); by exists d|]. split; [done|]. split; [done|].
    split; [done|]. rewrite (read_at_spec v c) by done.
    assert (moved (c_len c) off (zlen (b_data b)) = zlen (b_data b)) as ->.
    { pose proof (zlen_nonneg (b_data b)). unfold moved. lia. }
    rewrite Hf, slice_splice by (rewrite ?zlen_file_bytes by done; lia).
    by rewrite zdrop_all, app_nil_r by lia.
  - intros Hdeny. unfold write_at. unmonad. rewrite (get_cell_spec v c) by done.
    by rewrite bool_decide_eq_true_2 by lia.
Qed.

(** What the world looks like once [resize_inner]'s results are in the cell. *)
Definition with_cell (v : nat) (c : Cell) (w : W) : W := set_inodes (<[v := c]> (w_inodes w)) w.

Lemma resize_unfold v c (w : W) newlen : w_inodes w !! v = Some c →
  resize v newlen w =
    match resize_inner (c_desc c) (c_data c) newlen w with
    | Ret ((r, (desc, data)), w') => Ret (r, with_cell v (mkCell desc data (c_strong c)) w')
    | Panic p => Panic p
    end.
Proof.
  intros Hv. unfold resize. unmonad. rewrite (get_cell_spec v c) by done.
  by destruct (resize_inner _ _ _ _) as [[[r [desc data]] w']|p].
Qed.

Lemma with_cell_same v c (w : W) : w_inodes w !! v = Some c → with_cell v c w = w.
Proof. intros Hv. unfold with_cell. rewrite insert_id by done. by destruct w. Qed.

Lemma cell_eta c : mkCell (c_desc c) (c_data c) (c_strong c) = c.
Proof. by destruct c. Qed.

(** C32: [resize] to [newlen] (the size as a [u32]).  Up to the allocated bytes
    it always succeeds, shrinking lazily: start, bitmap and allocated bytes
    stay.  Beyond them it succeeds, in place or moved, or reports
    [DiskSectorAllocFail] with nothing changed when no run of the size is free
    below the last sector, or panics when the sectors after the file are free
    up to the end of the disk and the growth goes past it.  Whenever it
    succeeds, the bytes the file keeps are preserved, the bitmap exchanges the
    old run for the new one exactly, and sectors in use by others keep their
    contents and stay out of the new run. *)
Theorem resize_correct v c (w : W) size :
  w_inodes w !! v = Some c → world_ok w → cell_ok w c →
  let newlen := wrap32 size in
  (newlen ≤ c_alloc c → ∃ c' w', resize v size w = Ret (Ok (), with_cell v c' w') ∧
     resized w w' c c' newlen ∧ w_free w' = w_free w ∧
     c_start c' = c_start c ∧ c_alloc c' = c_alloc c) ∧
  (c_alloc c < newlen →
     (∃ c' w', resize v size w = Ret (Ok (), with_cell v c' w') ∧
        resized w w' c c' newlen ∧ c_alloc c' = newlen) ∨
     (resize v size w = Ret (Err DiskSectorAllocFail, w) ∧
        ∀ s, 0 ≤ s → s + nsect newlen < dev_capacity (w_device w) →
          ¬ run_free (w_free w) s (nsect newlen)) ∨
     (resize v size w = Panic AssertFailed ∧
        dev_capacity (w_device w) < c_start c + nsect newlen ∧
        let e := c_start c + nsect (c_alloc c) in
        run_free (w_free w) e (dev_capacity (w_device w) - e))).
Proof.
  intros Hv Hw Hc newlen. rewrite (resize_unfold v c) by done. split.
  - intros Hle. destruct (resize_within_spec w c size Hw Hc Hle)
      as (desc & data & w' & E & Hpost & Hf & Hst & Hal). rewrite E. eexists _, w'. split; [done|].
    split; [exact Hpost|]. split; [done|]. split; [done|].
    unfold c_alloc, c_len in *. cbn. rewrite <-Hal. f_equal. apply (rs_len _ _ _ _ _ Hpost).
  - intros Hlt. destruct (resize_extend_spec w c size Hw Hc Hlt)
      as [(desc & data & w' & E & Hpost & Hz)|[[E Hno]|(E & Hgt & Hf)]]; rewrite E.
    + left. eexists _, w'. split; [done|]. split; [exact Hpost|].
      unfold c_alloc. cbn. rewrite Hz, Z.add_0_r. apply (rs_len _ _ _ _ _ Hpost).
    + right; left. split; [|done]. by rewrite cell_eta, with_cell_same.
    + right; right. done.
Qed.

(** C35: a [write_at] that goes past the end of the file (below 4 GiB) either
    grows the file to exactly the end of the write, with the written bytes in
    place, the bytes before the old end that it does not overwrite preserved,
    and no other sector in use touched; or fails as [resize] does, changing
    nothing. *)
Theorem write_extends_correct v c (w : W) b off :
  w_inodes w !! v = Some c → world_ok w → cell_ok w c → id_deny_write (c_desc c) = 0 →
  0 ≤ off → is_bytes (b_data b) → buf_ok b →
  let n := zlen (b_data b) in
  c_len c < off + n < 2 ^ 32 →
  (∃ c' w', write_at translate_ok v b off w = Ret (Ok n, w') ∧ w_inodes w' !! v = Some c' ∧
     world_ok w' ∧ cell_ok w' c' ∧ c_len c' = off + n ∧
     slice off n (file_bytes w' c') = b_data b ∧
     (let k := Z.min off (c_len c) in slice 0 k (file_bytes w' c') = slice 0 k (file_bytes w c)) ∧
     ∀ s, 0 ≤ s → used (w_free w) s = true → ¬ c_run c s → s ≠ c_sector c →
       dev_get (w_device w') s = dev_get (w_device w) s ∧ used (w_free w') s = true) ∨
  write_at translate_ok v b off w = Ret (Err DiskSectorAllocFail, w) ∨
  write_at translate_ok v b off w = Panic AssertFailed.
Proof.
  intros Hv Hw Hc Hdeny Hoff Hby Hb n Hlong. pose proof (co_len w c Hc) as Hl0.
  destruct b as [a data]. cbn [b_data] in *. pose proof (zlen_nonneg data) as Hn0.
  unfold write_at. unmonad. rewrite (get_cell_spec v c) by done.
  rewrite Hdeny. rewrite bool_decide_eq_false_2 by lia. cbn [b_data b_addr]. fold n.
  rewrite wrap64_small by lia. fold (c_len c). rewrite bool_decide_eq_true_2 by lia.
  rewrite (resize_unfold v c) by done.
  assert (Hw32 : wrap32 (off + n) = off + n) by (apply wrap_small; unfold in_range; lia).
  assert (Hres : (∃ desc data w', resize_inner (c_desc c) (c_data c) (off + n) w = Ret ((Ok (), (desc, data)), w') ∧
      inner_post w w' c desc data (off + n)) ∨
    resize_inner (c_desc c) (c_data c) (off + n) w = Ret ((Err DiskSectorAllocFail, (c_desc c, c_data c)), w) ∨
    resize_inner (c_desc c) (c_data c) (off + n) w = Panic AssertFailed).
  { destruct (decide (wrap32 (off + n) ≤ c_alloc c)) as [Hle|Hgt].
    - destruct (resize_within_spec w c (off + n) Hw Hc Hle) as (desc & dat & w' & E & Hp & _).
      left. rewrite Hw32 in Hp. by exists desc, dat, w'.
    - destruct (resize_extend_spec w c (off + n) Hw Hc ltac:(lia))
        as [(desc & dat & w' & E & Hp & _)|[[E _]|[E _]]].
      + left. rewrite Hw32 in Hp. by exists desc, dat, w'.
      + right; by left.
      + right; by right. }
  destruct Hres as [(desc & dat & w1 & E & Hp)|[E|E]]; rewrite E; [left|right; left|by right; right].
  2:{ by rewrite cell_eta, with_cell_same. }
  set (c' := mkCell desc dat (c_strong c)) in *. unfold inner_post in Hp. fold c' in Hp.
  set (w2 := with_cell v c' w1).
  assert (Hv2 : w_inodes w2 !! v = Some c') by (unfold w2, with_cell; cbn; apply lookup_insert_eq).
  rewrite (get_cell_spec v c') by done.
  assert (Hw2 : world_ok w2) by (apply world_ok_inodes, Hp).
  assert (Hc2 : cell_ok w2 c') by (apply cell_ok_inodes, Hp).
  pose proof (rs_len _ _ _ _ _ Hp) as Hlen'. pose proof (alloc_le_run w2 c' Hc2) as Hal.
  destruct (write_loop_spec (c_start c') (c_len c') a (nsect (c_alloc c')) (S (length data))
    data off 0 n w2) as (w3 & Ew & Hch & Hrun); try done; try lia.
  { unfold n, zlen. lia. } { apply Hw2. } { by apply run_on_cell. }
  assert (Hm : moved (c_len c') off n = n) by (unfold moved; lia). rewrite Hm in *.
  rewrite slice_full in Hrun by (unfold n; lia).
  assert (Hw3 : world_ok w3) by by eapply world_ok_changed.
  assert (Hc3 : cell_ok w3 c') by by eapply cell_ok_changed.
  pose proof (zlen_run_of w2 c' Hw2 Hc2) as Hzr.
  exists c', w3. split; [exact Ew|]. split; [by rewrite (run_changed_inodes _ _ _ _ Hch)|].
  split; [done|]. split; [done|]. split; [done|]. split; [|split].
  - rewrite slice_file_bytes by (done || lia). unfold run_of at 1. rewrite Hrun.
    apply slice_splice; [done|]. unfold run_of in Hzr. lia.
  - set (k := Z.min off (c_len c)). cbn zeta.
    rewrite !slice_file_bytes by (done || lia). unfold run_of at 1. rewrite Hrun.
    rewrite slice_splice_other by (unfold run_of in Hzr; lia).
    pose proof (rs_bytes _ _ _ _ _ Hp) as Hby'. cbn zeta in Hby'.
    pose proof (alloc_le_run w c Hc).
    change (slice 0 k (run_of w1 c') = slice 0 k (run_of w c)).
    apply (f_equal (slice 0 k)) in Hby'. by rewrite !slice_slice in Hby' by lia.
  - intros s Hs Hu Hn Hne. destruct (rs_others _ _ _ _ _ Hp s Hs Hu Hn Hne) as [Hg Hn'].
    destruct Hch as (d & -> & _ & _ & Hd). cbn. rewrite Hd by exact Hn'. split; [exact Hg|].
    change (used (w_free w1) s = true). rewrite (rs_used _ _ _ _ _ Hp) by done. rewrite Hu.
    rewrite (bool_decide_eq_false_2 (c_run c s)) by done. apply orb_true_r.
Qed.

(** Lengths are [u32]s and a request is truncated to one: a write that ends
    beyond 4 GiB, which a cursor moved by [seek] may ask for, can shrink the
    file instead of growing it, and then writes nothing. *)
Theorem write_past_4gib_shrinks v c (w : W) b off :
  w_inodes w !! v = Some c → world_ok w → cell_ok w c → id_deny_write (c_desc c) = 0 →
  let end_ := off + zlen (b_data b) in
  c_len c ≤ off → c_len c < end_ < 2 ^ 64 → end_ mod 2 ^ 32 < c_len c →
  ∃ c' w', write_at translate_ok v b off w = Ret (Ok 0, w') ∧ w_inodes w' !! v = Some c' ∧
    c_len c' = end_ mod 2 ^ 32 ∧ cell_ok w' c'.
Proof.
  intros Hv Hw Hc Hdeny end_ Hoff Hend Hlt. pose proof (co_len w c Hc) as Hl0.
  pose proof (zlen_nonneg (b_data b)) as Hn0. pose proof (alloc_le_run w c Hc) as Hal0.
  unfold write_at. unmonad. rewrite (get_cell_spec v c) by done.
  rewrite Hdeny. rewrite bool_decide_eq_false_2 by lia. fold end_.
  rewrite wrap64_small by (unfold end_; lia). fold (c_len c). rewrite bool_decide_eq_true_2 by lia.
  rewrite (resize_unfold v c) by done.
  destruct (resize_within_spec w c end_ Hw Hc) as (desc & dat & w1 & E & Hp & _);
    [unfold wrap; lia|]. rewrite E.
  set (c' := mkCell desc dat (c_strong c)) in *. unfold inner_post in Hp. fold c' in Hp.
  pose proof (rs_len _ _ _ _ _ Hp) as Hlen'. unfold wrap in Hlen'.
  exists c', (with_cell v c' w1). rewrite (get_cell_spec v c') by (cbn; apply lookup_insert_eq).
  cbn [write_loop]. fold (c_len c'). split; [|split; [cbn; apply lookup_insert_eq|split; [done|]]].
  - pose proof (chunk_cases (c_len c') off (zlen (b_data b)) ltac:(lia) ltac:(done)) as Hcc.
    cbn zeta in Hcc. rewrite bool_decide_eq_true_2; [done|]. unfold moved in Hcc. lia.
  - apply cell_ok_inodes, Hp.
Qed.

(** ** Creating and opening *)

Lemma inode_of_to_image i : 
  is_u32 (di_start i) → is_u32 (di_len i) → is_u32 (di_magic i) → inode_of_image (inode_image i) = i.
Proof.
  intros Hs Hl Hm. destruct i as [st ln mg pad]. cbn in *. unfold inode_of_image, inode_image. cbn.
  f_equal; by apply (of_le32_le32).
Qed.

Lemma on_device_write s b (w : W) : 0 ≤ s < dev_capacity (w_device w) →
  on_device (write_sector s b) w = Ret ((), set_device (dev_put s b (w_device w)) w).
Proof. intros. unfold on_device. by rewrite write_sector_spec. Qed.

(** Zeroing a run. *)
Lemma zero_spec n start : ∀ i (w : W), dev_ok (w_device w) → 0 ≤ i → 0 ≤ start →
  dev_capacity (w_device w) ≤ 2 ^ 31 → start + i + Z.of_nat n ≤ dev_capacity (w_device w) →
  ∃ d, for_each (seqZ i (Z.of_nat n))
         (λ i, on_device (write_sector (wrap32 (start + i)) (zeros SECTOR_SIZE))) w
       = Ret ((), set_device d w) ∧
    dev_ok d ∧ dev_capacity d = dev_capacity (w_device w) ∧
    ∀ s, dev_get d s = if bool_decide (start + i ≤ s < start + i + Z.of_nat n)
                       then zeros SECTOR_SIZE else dev_get (w_device w) s.
Proof.
  induction n as [|n IH]; intros i w Hok Hi Hst Hcap Hle.
  { exists (w_device w). rewrite seqZ_nil by lia. split; [by destruct w|]. split; [done|].
    split; [done|]. intros s. by rewrite bool_decide_eq_false_2 by lia. }
  rewrite seqZ_cons by lia. cbn [for_each]. unmonad.
  rewrite wrap_small by (unfold in_range; lia). rewrite on_device_write by lia.
  assert (Hz : is_sector (zeros SECTOR_SIZE)).
  { split; [by apply zlen_zeros|apply is_bytes_zeros]. }
  destruct (dev_put_ok (w_device w) (start + i) (zeros SECTOR_SIZE)) as [Hok' Hcap']; [done|lia|done|].
  set (w1 := set_device (dev_put (start + i) (zeros SECTOR_SIZE) (w_device w)) w).
  destruct (IH (Z.succ i) w1) as (d & E & Hd & Hdc & Hget); cbn [w1 w_device set_device];
    rewrite ?Hcap'; try (done || lia).
  cbn [w1 w_device set_device] in Hdc, Hget. exists d. split; [|split; [done|]; split; [congruence|]].
  - replace (Z.pred (Z.of_nat (S n))) with (Z.of_nat n) by lia. unfold w1 in E. cbn in E |- *. exact E.
  - intros s. rewrite Hget, !(dev_get_put (w_device w)) by (done || lia).
    destruct (decide (s = start + i)) as [->|Hne].
    + rewrite bool_decide_eq_false_2 by lia. by rewrite !bool_decide_eq_true_2 by lia.
    + rewrite (bool_decide_eq_false_2 (s = start + i)) by done.
      destruct (decide (start + i ≤ s < start + i + Z.of_nat (S n))).
      * by rewrite !bool_decide_eq_true_2 by lia.
      * by rewrite !bool_decide_eq_false_2 by lia.
Qed.

Lemma zlen_run_bytes_zero d start n : 0 ≤ n →
  (∀ s, start ≤ s < start + n → dev_get d s = zeros SECTOR_SIZE) →
  run_bytes d start n = zeros (SECTOR_SIZE * n).
Proof.
  intros Hn Hz. unfold run_bytes, zeros in *. rewrite <-(Z2Nat.id n) in * by done.
  generalize dependent start. induction (Z.to_nat n) as [|k IH]; intros start Hz; [done|].
  rewrite seqZ_cons by lia. cbn [fmap list_fmap concat]. rewrite Hz by lia.
  replace (Z.pred (Z.of_nat (S k))) with (Z.of_nat k) by lia.
  rewrite IH by (lia || (intros; apply Hz; lia)). rewrite <-replicate_add. f_equal. unfold SECTOR_SIZE. lia.
Qed.

(** The cell [create] makes. *)
Definition fresh_cell (sector start len : Z) : Cell :=
  mkCell (desc_of sector 0) (mkDiskInode start len INODE_MAGIC (zeros INODE_PADDING)) 1.

Lemma inode_create_spec sector start len (w : W) :
  world_ok w → 0 ≤ len < 2 ^ 32 → 0 ≤ start → start + nsect len ≤ dev_capacity (w_device w) →
  run_used (w_free w) start (nsect len) →
  0 ≤ sector < dev_capacity (w_device w) → used (w_free w) sector = true →
  ¬ (start ≤ sector < start + nsect len) →
  ∃ v d, let c := fresh_cell sector start len in let w' := with_cell v c (set_device d w) in
    inode_create sector start len w = Ret (Ok v, w') ∧
    w_inodes w !! v = None ∧ world_ok w' ∧ cell_ok w' c ∧ file_bytes w' c = zeros len ∧
    dev_ok d ∧ dev_capacity d = dev_capacity (w_device w) ∧
    ∀ s, s ≠ sector → ¬ (start ≤ s < start + nsect len) → dev_get d s = dev_get (w_device w) s.
Proof.
  intros Hw Hlen Hst Hend Hrun Hsec Hsu Hap. pose proof (nsect_nonneg len ltac:(lia)) as Hns.
  pose proof (nsect_bounds len ltac:(lia)) as Hnb.
  set (v := fresh (dom (w_inodes w))).
  assert (Hv : w_inodes w !! v = None) by (apply not_elem_of_dom, is_fresh).
  set (c := fresh_cell sector start len). set (img := inode_image (c_data c)).
  assert (Hi : is_sector img).
  { apply inode_image_sector; [by apply zlen_zeros|apply is_bytes_zeros]. }
  destruct (dev_put_ok (w_device w) sector img) as [Hok1 Hcap1]; [apply Hw|done|done|].
  set (w1 := set_device (dev_put sector img (w_device w)) w).
  destruct (zero_spec (Z.to_nat (nsect len)) start 0 w1) as (d & E & Hd & Hdc & Hget);
    cbn [w1 w_device set_device]; rewrite ?Hcap1; try (done || lia); [apply Hw|].
  cbn [w1 w_device set_device] in Hdc, Hget. rewrite Z.add_0_r, Z2Nat.id in * by lia.
  assert (Hget' : ∀ s, dev_get d s = if bool_decide (start ≤ s < start + nsect len)
    then zeros SECTOR_SIZE else if bool_decide (s = sector) then img else dev_get (w_device w) s).
  { intros s. rewrite Hget. case_bool_decide; [done|]. apply dev_get_put; [apply Hw|done..]. }
  exists v, d. split; [|split; [done|]].
  { unfold inode_create. unmonad. rewrite bytes_to_sectors_nsect by lia.
    rewrite (wrap_small 32 len) by done.
    change (inode_image (mkDiskInode start len INODE_MAGIC (zeros INODE_PADDING))) with img.
    rewrite on_device_write by done. fold w1. rewrite E. done. }
  assert (Hal : c_alloc c = len) by (unfold c_alloc, c_len; cbn; lia).
  assert (Hw' : world_ok (with_cell v c (set_device d w))).
  { apply world_ok_inodes. destruct Hw. constructor; cbn; rewrite ?Hdc, ?Hcap1; done. }
  assert (Hc' : cell_ok (with_cell v c (set_device d w)) c).
  { apply cell_ok_inodes. constructor; rewrite ?Hal; cbn; rewrite ?Hdc, ?Hcap1; try (done || lia).
    - unfold c_run. by rewrite Hal.
    - split; [by apply zlen_zeros|apply is_bytes_zeros].
    - rewrite Hget'. rewrite bool_decide_eq_false_2 by done. by rewrite bool_decide_eq_true_2. }
  split; [done|]. split; [done|]. split; [|split; [done|split; [congruence|]]].
  - unfold file_bytes, run_of. rewrite Hal. rewrite (zlen_run_bytes_zero _ (c_start c)); [|done|].
    + change (c_len c) with len. unfold ztake, zeros. rewrite take_replicate. f_equal.
      unfold SECTOR_SIZE in *. lia.
    + intros s Hs. cbn. rewrite Hget'. by rewrite bool_decide_eq_true_2.
  - intros s Hne Hn. rewrite Hget'. by rewrite !bool_decide_eq_false_2.
Qed.

Lemma inode_open_spec sector i (w : W) : 0 ≤ sector < dev_capacity (w_device w) →
  dev_get (w_device w) sector = inode_image i →
  is_u32 (di_start i) → is_u32 (di_len i) → di_magic i = INODE_MAGIC →
  ∃ v, inode_open sector w = Ret (Ok v, with_cell v (mkCell (desc_of sector 0) i 1) w) ∧
    w_inodes w !! v = None.
Proof.
  intros Hs Hg H1 H2 H3. set (v := fresh (dom (w_inodes w))). exists v.
  split; [|apply not_elem_of_dom, is_fresh].
  unfold inode_open, on_device. unmonad. rewrite read_sector_spec by done. rewrite Hg.
  rewrite inode_of_to_image by (rewrite ?H3; done). rewrite H3.
  rewrite bool_decide_eq_false_2 by auto. by destruct w.
Qed.

(** [create] on marked sectors writes an inode whose file is all zeros and
    touches only the inode's sector and the run; [open] of that sector then
    finds the same start and length, and of a sector without the magic number
    fails with [OpenInvalidInode] and no new inode. *)
Theorem inode_create_open sector start len (w : W) :
  world_ok w → 0 ≤ len < 2 ^ 32 → 0 ≤ start → start + nsect len ≤ dev_capacity (w_device w) →
  run_used (w_free w) start (nsect len) →
  0 ≤ sector < dev_capacity (w_device w) → used (w_free w) sector = true →
  ¬ (start ≤ sector < start + nsect len) →
  (∃ v u w1 w2, inode_create sector start len w = Ret (Ok v, w1) ∧
     inode_open sector w1 = Ret (Ok u, w2) ∧ v ≠ u ∧
     w_inodes w !! v = None ∧ w_inodes w1 !! u = None ∧
     ∃ c, w_inodes w2 !! v = Some c ∧ w_inodes w2 !! u = Some c ∧
       c_sector c = sector ∧ c_start c = start ∧ cell_ok w2 c ∧ world_ok w2 ∧
       file_bytes w2 c = zeros len ∧
       ∀ s, s ≠ sector → ¬ c_run c s → dev_get (w_device w2) s = dev_get (w_device w) s) ∧
  (di_magic (inode_of_image (dev_get (w_device w) sector)) ≠ INODE_MAGIC →
     inode_open sector w = Ret (Err OpenInvalidInode, w)).
Proof.
  intros Hw Hlen Hst Hend Hrun Hsec Hsu Hap. split.
  - destruct (inode_create_spec sector start len w) as
      (v & d & E & Hv & Hw1 & Hc1 & Hz & Hd & Hdc & Hg); try done.
    set (c := fresh_cell sector start len) in *. set (w1 := with_cell v c (set_device d w)) in *.
    destruct (inode_open_spec sector (c_data c) w1) as (u & E2 & Hu).
    + change (0 ≤ sector < dev_capacity d). by rewrite Hdc.
    + apply (co_synced w1 c Hc1).
    + pose proof (nsect_nonneg len ltac:(lia)). pose proof (wo_cap w Hw).
      unfold in_range, c, fresh_cell. cbn [c_data di_start]. lia.
    + exact Hlen.
    + done.
    + assert (Hvu : v ≠ u).
      { intros <-. unfold w1, with_cell in Hu. cbn in Hu. by rewrite lookup_insert_eq in Hu. }
      exists v, u, w1, (with_cell u c w1). split; [exact E|]. split; [exact E2|]. split; [done|].
      split; [done|]. split; [done|]. exists c. split; [|split].
      { unfold w1, with_cell. cbn. rewrite lookup_insert_ne by done. apply lookup_insert_eq. }
      { unfold with_cell. cbn. apply lookup_insert_eq. }
      split; [done|]. split; [done|]. split; [by apply cell_ok_inodes|].
      split; [by apply world_ok_inodes|]. split; [exact Hz|].
      intros s Hne Hn. apply Hg; [done|]. unfold c_run, c_alloc, c_start, c_len in Hn. cbn in Hn.
      by rewrite Z.add_0_r in Hn.
  - intros Hm. unfold inode_open, on_device. unmonad. rewrite read_sector_spec by done.
    rewrite bool_decide_eq_true_2 by done. by destruct w.
Qed.
End inode_laws.

(** ** Examples: a file of 700 bytes in sectors 5 and 6, its inode in sector 2 *)

Definition demo_inode : DiskInode := mkDiskInode 5 700 INODE_MAGIC (zeros INODE_PADDING).
Definition demo_cell : Cell := mkCell (desc_of 2 0) demo_inode 1.
Definition demo_disk : gmap Z bytes :=
  <[2 := inode_image demo_inode]> (<[5 := replicate 512 1]> (<[6 := replicate 512 2]> ∅)).
Definition demo_world : World (gmap Z bytes) :=
  mkWorld demo_disk (mkFreeMap 32 [103; 0; 0; 0]) (mkFile 0%nat 0 false) false ∅ {[ 0%nat := demo_cell ]}.

Lemma is_sector_replicate b : in_range 8 b → is_sector (replicate 512 b).
Proof. intros. split; [done|]. by apply Forall_replicate. Qed.

Lemma demo_inode_sector : is_sector (inode_image demo_inode).
Proof. apply inode_image_sector; [by apply zlen_zeros|apply is_bytes_zeros]. Qed.

Lemma demo_world_ok : world_ok demo_world.
Proof.
  constructor; cbn [w_device w_free demo_world].
  - unfold dev_ok. cbn. apply map_Forall_insert_2; [apply demo_inode_sector|].
    apply map_Forall_insert_2; [by apply is_sector_replicate|].
    apply map_Forall_insert_2; [by apply is_sector_replicate|]. apply map_Forall_empty.
  - split; [by unfold in_range|done|].
    repeat (apply Forall_cons; split; [by unfold in_range|]). by apply Forall_nil.
  - done.
  - done.
Qed.

Lemma demo_cell_ok : cell_ok demo_world demo_cell.
Proof.
  constructor; try done.
  - intros x Hx. assert (x = 5 ∨ x = 6) as [-> | ->]; [|done..].
    change (5 ≤ x < 7) in Hx. lia.
  - intros Hx. change (5 ≤ 2 < 7) in Hx. lia.
  - split; [by apply zlen_zeros|apply is_bytes_zeros].
Qed.

(** A device that reaches every buffer, and a short buffer. *)
Definition all_ok (_ : Z) : bool := true.

Lemma buf_ok_all b : buf_ok all_ok b.
Proof. done. Qed.

Lemma inode_read_at_correct_witness :
  (∃ k, k = 188 ∧ read_at all_ok 0%nat (mkBuf 4096 (zeros 300)) 512 demo_world =
     Ret ((Ok k, slice 512 k (file_bytes demo_world demo_cell) ++ zdrop k (zeros 300)), demo_world)) ∧
  read_at (λ _, false) 0%nat (mkBuf 4096 (zeros 600)) 0 demo_world =
    Ret ((Err BadPtr, zeros 600), demo_world).
Proof.
  split.
  - apply (inode_read_at_correct all_ok 0%nat demo_cell demo_world (mkBuf 4096 (zeros 300)) 512);
      [done|apply demo_world_ok|apply demo_cell_ok|done|done].
  - apply (inode_read_at_correct (λ _, false) 0%nat demo_cell demo_world (mkBuf 4096 (zeros 600)) 0);
      [done|apply demo_world_ok|apply demo_cell_ok|done|done|done|done|done|done].
Defined.

Lemma inode_write_at_correct_witness :
  ∃ w', write_at all_ok 0%nat (mkBuf 4096 [7; 8; 9; 10]) 510 demo_world = Ret (Ok 4, w') ∧
    (∃ d, w' = set_device d demo_world ∧
       ∀ s, ¬ c_run demo_cell s → dev_get d s = dev_get (w_device demo_world) s) ∧
    world_ok w' ∧ cell_ok w' demo_cell ∧
    file_bytes w' demo_cell = splice 510 [7; 8; 9; 10] (file_bytes demo_world demo_cell) ∧
    read_at all_ok 0%nat (mkBuf 4096 [7; 8; 9; 10]) 510 w' = Ret ((Ok 4, [7; 8; 9; 10]), w').
Proof.
  apply (inode_write_at_correct all_ok 0%nat demo_cell demo_world (mkBuf 4096 [7; 8; 9; 10]) 510);
    [done|apply demo_world_ok|apply demo_cell_ok|done|by apply is_bytes_forallb|done|done|done].
Defined.

(** Sector 7 is free, so growing to three sectors may happen in place. *)
Lemma resize_correct_witness :
  (∃ c' w', resize 0%nat 100 demo_world = Ret (Ok (), with_cell 0%nat c' w') ∧
     resized demo_world w' demo_cell c' 100 ∧ w_free w' = w_free demo_world ∧
     c_start c' = 5 ∧ c_alloc c' = 700) ∧
  ((∃ c' w', resize 0%nat 1500 demo_world = Ret (Ok (), with_cell 0%nat c' w') ∧
        resized demo_world w' demo_cell c' 1500 ∧ c_alloc c' = 1500) ∨
     (resize 0%nat 1500 demo_world = Ret (Err DiskSectorAllocFail, demo_world) ∧
        ∀ s, 0 ≤ s → s + nsect 1500 < dev_capacity (w_device demo_world) →
          ¬ run_free (w_free demo_world) s (nsect 1500)) ∨
     (resize 0%nat 1500 demo_world = Panic AssertFailed ∧
        dev_capacity (w_device demo_world) < c_start demo_cell + nsect 1500 ∧
        let e := c_start demo_cell + nsect (c_alloc demo_cell) in
        run_free (w_free demo_world) e (dev_capacity (w_device demo_world) - e))).
Proof.
  split.
  - apply (resize_correct 0%nat demo_cell demo_world 100);
      [done|apply demo_world_ok|apply demo_cell_ok|done].
  - apply (resize_correct 0%nat demo_cell demo_world 1500);
      [done|apply demo_world_ok|apply demo_cell_ok|done].
Defined.

Lemma write_extends_correct_witness :
  (∃ c' w', write_at all_ok 0%nat (mkBuf 4096 [7; 8; 9]) 1022 demo_world = Ret (Ok 3, w') ∧
     w_inodes w' !! 0%nat = Some c' ∧ world_ok w' ∧ cell_ok w' c' ∧ c_len c' = 1025 ∧
     slice 1022 3 (file_bytes w' c') = [7; 8; 9] ∧
     (let k := 700 in slice 0 k (file_bytes w' c') = slice 0 k (file_bytes demo_world demo_cell)) ∧
     ∀ s, 0 ≤ s → used (w_free demo_world) s = true → ¬ c_run demo_cell s → s ≠ c_sector demo_cell →
       dev_get (w_device w') s = dev_get (w_device demo_world) s ∧ used (w_free w') s = true) ∨
  write_at all_ok 0%nat (mkBuf 4096 [7; 8; 9]) 1022 demo_world = Ret (Err DiskSectorAllocFail, demo_world) ∨
  write_at all_ok 0%nat (mkBuf 4096 [7; 8; 9]) 1022 demo_world = Panic AssertFailed.
Proof.
  apply (write_extends_correct all_ok 0%nat demo_cell demo_world (mkBuf 4096 [7; 8; 9]) 1022);
    [done|apply demo_world_ok|apply demo_cell_ok|done|done|by apply is_bytes_forallb|done|done].
Defined.

Lemma write_past_4gib_shrinks_witness :
  ∃ c' w', write_at all_ok 0%nat (mkBuf 4096 [7; 8; 9]) 4294967303 demo_world = Ret (Ok 0, w') ∧
    w_inodes w' !! 0%nat = Some c' ∧ c_len c' = 10 ∧ cell_ok w' c'.
Proof.
  apply (write_past_4gib_shrinks all_ok 0%nat demo_cell demo_world (mkBuf 4096 [7; 8; 9]) 4294967303);
    [done|apply demo_world_ok|apply demo_cell_ok|done|done|done|done].
Defined.

Lemma inode_create_open_witness :
  (∃ v u w1 w2, inode_create 2 5 700 demo_world = Ret (Ok v, w1) ∧
     inode_open 2 w1 = Ret (Ok u, w2) ∧ v ≠ u ∧
     w_inodes demo_world !! v = None ∧ w_inodes w1 !! u = None ∧
     ∃ c, w_inodes w2 !! v = Some c ∧ w_inodes w2 !! u = Some c ∧
       c_sector c = 2 ∧ c_start c = 5 ∧ cell_ok w2 c ∧ world_ok w2 ∧
       file_bytes w2 c = zeros 700 ∧
       ∀ s, s ≠ 2 → ¬ c_run c s → dev_get (w_device w2) s = dev_get (w_device demo_world) s) ∧
  inode_open 0 demo_world = Ret (Err OpenInvalidInode, demo_world).
Proof.
  split.
  - apply (inode_create_open 2 5 700 demo_world);
      [apply demo_world_ok|done|done|done|apply (co_run demo_world demo_cell demo_cell_ok)|done|done|].
    apply (co_apart demo_world demo_cell demo_cell_ok).
  - apply (inode_create_open 0 6 0 demo_world);
      [apply demo_world_ok|done|done|done| |done|done| |done].
    + intros x Hx. change (6 ≤ x < 6) in Hx. lia.
    + intros Hx. change (6 ≤ 0 < 6) in Hx. lia.
Defined.
