(* ===== verification/Dir.v ===== *)
(** * The root directory

    [fs/disk/dir.rs] and [fs/disk/path.rs]: 32-byte entries in a byte stream.
    The operations use nothing of the file below them but its [Read], [Write]
    and [Seek], so they are defined and verified over any stream with
    [StreamLaws]; [DiskFs.v] runs them on the root directory's inode.  A
    directory is specified as the list of its entries: lookup is the first
    valid entry of that name, insertion fills the first invalid entry, removal
    invalidates the entries of an inode.

    The loops run until a read fails; their fuel is one more than the number of
    entries, and the theorems say that this is enough. *)

From S2P Require Import Prelude Bytes Io.

Definition FILE_NAME_LEN_MAX : Z := 28.

(** [struct DirEntry] *)
Record DirEntry : Type := mkDirEntry { de_name : bytes; de_inum : Z }.

#[export] Instance DirEntry_pod : Pod DirEntry := {
  size_of := 32;
  to_bytes e := de_name e ++ le32 (de_inum e);
  of_bytes b := mkDirEntry (ztake FILE_NAME_LEN_MAX b) (of_le32 (zdrop FILE_NAME_LEN_MAX b));
}.

(** The byte ['#'] *)
Definition HASH : Z := 35.

Definition first_byte (e : DirEntry) : Z := default 0 (de_name e !! 0%nat).

Definition is_valid (e : DirEntry) : bool :=
  negb (bool_decide (first_byte e = HASH)) && negb (bool_decide (first_byte e = 0)).

Definition invalidate (e : DirEntry) : DirEntry :=
  mkDirEntry (<[0%nat := HASH]> (de_name e)) (de_inum e).

(** [CStr::from_ptr]: the bytes before the first zero; [None] when the scan
    leaves the object it starts in. *)
Fixpoint c_str (b : bytes) : option bytes :=
  match b with
  | [] => None
  | x :: b => if bool_decide (x = 0) then Some [] else cons x <$> c_str b
  end.

(** [CStr::to_str]: the well-formed byte sequences of UTF-8 (Unicode, table 3-7). *)
Definition between (lo hi x : Z) : bool := bool_decide (lo ≤ x ≤ hi).

Fixpoint utf8_valid (fuel : nat) (b : bytes) : bool :=
  match fuel, b with
  | _, [] => true
  | S fuel, x :: b =>
      if between 0 127 x then utf8_valid fuel b
      else if between 194 223 x then
        match b with y :: b => between 128 191 y && utf8_valid fuel b | _ => false end
      else if between 224 239 x then
        match b with
        | y :: z :: b =>
            between (if bool_decide (x = 224) then 160 else 128)
                    (if bool_decide (x = 237) then 159 else 191) y &&
            between 128 191 z && utf8_valid fuel b
        | _ => false
        end
      else if between 240 244 x then
        match b with
        | y :: z :: t :: b =>
            between (if bool_decide (x = 240) then 144 else 128)
                    (if bool_decide (x = 244) then 143 else 191) y &&
            between 128 191 z && between 128 191 t && utf8_valid fuel b
        | _ => false
        end
      else false
  | O, _ :: _ => false
  end.

Definition is_utf8 (b : bytes) : bool := utf8_valid (length b) b.

(** [struct Path]: the bytes of its [String]. *)
Abbreviation Path := bytes.

(** [str::is_ascii] *)
Definition is_ascii (p : Path) : bool := forallb (between 0 127) p.

Section dir.
Context {S : Type} `{Read S} `{Write S} `{Seek S}.

(** Where the kernel heap puts the buffers of [read_into] and [write_from]. *)
Context (heap_at : Z).

Fixpoint path2inum_loop (fuel : nat) (path : Path) : M S (result Z) :=
  match fuel with
  | O => fail OutOfFuel
  | Datatypes.S fuel =>
      r ← read_into heap_at DirEntry ;
      match r with
      | Ok entry =>
          if negb (is_valid entry) then path2inum_loop fuel path (* continue *)
          else
            match c_str (to_bytes entry) with
            | None => fail MemFault
            | Some name =>
                if negb (is_utf8 name) then mret (Err CstrFormatErr)
                else if bool_decide (path = name) then mret (Ok (de_inum entry))
                else path2inum_loop fuel path
            end
      | Err _ => mret (Err NoSuchFile)
      end
  end.

Definition path2inum (fuel : nat) (path : Path) : M S (result Z) :=
  _ ←? rewind ; path2inum_loop fuel path.

Definition exists_ (fuel : nat) (path : Path) : M S bool :=
  r ← path2inum fuel path ;
  mret (match r with Ok _ => true | Err _ => false end).

Fixpoint first_invalid_loop (fuel : nat) : M S (result Z) :=
  match fuel with
  | O => fail OutOfFuel
  | Datatypes.S fuel =>
      r ← read_into heap_at DirEntry ;
      match r with
      | Ok entry =>
          if negb (is_valid entry) then
            r ← seek (Current (-32)) ;
            match r with Ok p => mret (Ok p) | Err _ => fail UnwrapNone end
          else first_invalid_loop fuel
      | Err _ => mret (Err RootDirFull)
      end
  end.

Definition first_invalid (fuel : nat) : M S (result Z) :=
  _ ←? rewind ; first_invalid_loop fuel.

(** [entry.name[0..min(len, 27)].copy_from_slice(path)] on a zeroed name. *)
Definition entry_name (path : Path) : outcome bytes :=
  let n := Z.min (zlen path) (FILE_NAME_LEN_MAX - 1) in
  if bool_decide (n = zlen path) then Ret (splice 0 path (zeros FILE_NAME_LEN_MAX))
  else Panic SliceLenMismatch.

(** [RootDir::insert] *)
Definition dir_insert (fuel : nat) (path : Path) (inum : Z) : M S (result unit) :=
  if negb (is_ascii path) then mret (Err CstrFormatErr)
  else
    pos ←? first_invalid fuel ;
    name ← lift (entry_name path) ;
    _ ←? seek (Start pos) ;
    _ ←? write_from heap_at (mkDirEntry name inum) ;
    mret (Ok ()).

Fixpoint remove_loop (fuel : nat) (inum : Z) : M S (result unit) :=
  match fuel with
  | O => fail OutOfFuel
  | Datatypes.S fuel =>
      r ← read_into heap_at DirEntry ;
      match r with
      | Ok entry =>
          if bool_decide (de_inum entry = inum) then
            _ ←? seek (Current (-32)) ;
            _ ←? write_from heap_at (invalidate entry) ;
            remove_loop fuel inum
          else remove_loop fuel inum
      | Err _ => mret (Ok ())
      end
  end.

(** [RootDir::remove] *)
Definition dir_remove (fuel : nat) (inum : Z) : M S (result unit) :=
  _ ←? rewind ; remove_loop fuel inum.
End dir.

(** ** Directories as lists of entries *)

Definition entry_ok (e : DirEntry) : Prop :=
  zlen (de_name e) = FILE_NAME_LEN_MAX ∧ is_bytes (de_name e) ∧ is_u32 (de_inum e).

#[export] Instance DirEntry_pod_laws : PodLaws DirEntry.
Proof.
  refine {| pod_ok := entry_ok |}.
  - done.
  - intros e (Hl & _). cbn. rewrite zlen_app, Hl. done.
  - intros e (_ & Hb & _). cbn. rewrite is_bytes_app. split; [done|apply le32_bytes].
  - intros [name inum] (Hl & _ & Hi). cbn in *. rewrite ztake_app_l, zdrop_app_l by done.
    by rewrite of_le32_le32.
Defined.

Definition entry_at (d : bytes) (i : Z) : DirEntry := of_bytes (slice (32 * i) 32 d).

(** The number of whole entries of the contents [d], and the entries from [i] on. *)
Definition dir_size (d : bytes) : Z := zlen d / 32.
Definition entries_from (d : bytes) (i : Z) : list DirEntry := entry_at d <$> seqZ i (dir_size d - i).
Definition entries (d : bytes) : list DirEntry := entries_from d 0.

(** What [path2inum] computes, on the entries. *)
Fixpoint dir_find (es : list DirEntry) (path : Path) : outcome (result Z) :=
  match es with
  | [] => Ret (Err NoSuchFile)
  | e :: es =>
      if negb (is_valid e) then dir_find es path
      else
        match c_str (to_bytes e) with
        | None => Panic MemFault
        | Some name =>
            if negb (is_utf8 name) then Ret (Err CstrFormatErr)
            else if bool_decide (path = name) then Ret (Ok (de_inum e))
            else dir_find es path
        end
  end.

(** A directory whose valid entries carry terminated UTF-8 names, which is all
    that [insert] ever writes. *)
Definition named (e : DirEntry) : Prop :=
  is_valid e = true → ∃ n, c_str (to_bytes e) = Some n ∧ is_utf8 n = true.

(** Does this entry carry the name? *)
Definition matches (path : Path) (e : DirEntry) : bool :=
  is_valid e && bool_decide (c_str (to_bytes e) = Some path).

(** The inode of a name: that of the first entry that carries it. *)
Fixpoint lookup_name (es : list DirEntry) (path : Path) : option Z :=
  match es with
  | [] => None
  | e :: es => if matches path e then Some (de_inum e) else lookup_name es path
  end.

Definition found (o : option Z) : result Z :=
  match o with Some i => Ok i | None => Err NoSuchFile end.

Lemma dir_find_named es path : Forall named es → dir_find es path = Ret (found (lookup_name es path)).
Proof.
  induction 1 as [|e es Hn Hes IH]; [done|].
  cbn [dir_find lookup_name]. unfold matches. destruct (is_valid e) eqn:Hv; cbn [negb andb]; [|done].
  destruct (Hn Hv) as (n & Hc & Hu). rewrite Hc, Hu. cbn [negb].
  destruct (decide (path = n)) as [->|Hne].
  - by rewrite !bool_decide_eq_true_2.
  - rewrite (bool_decide_eq_false_2 (path = n)) by done.
    by rewrite (bool_decide_eq_false_2 (Some n = Some path)) by congruence.
Qed.

Lemma entry_at_ok d i : is_bytes d → 0 ≤ i < dir_size d → entry_ok (entry_at d i).
Proof.
  intros Hb Hi. unfold dir_size in Hi. pose proof (Z.div_mod (zlen d) 32). pose proof (Z.mod_pos_bound (zlen d) 32).
  assert (Hl : zlen (slice (32 * i) 32 d) = 32) by (apply zlen_slice; lia).
  unfold entry_at, entry_ok. cbn. split; [rewrite zlen_ztake, Hl; done|]. split.
  - by apply Forall_take, is_bytes_slice.
  - apply of_le32_range. by apply Forall_drop, is_bytes_slice.
Qed.

Lemma entries_from_cons d i : 0 ≤ i < dir_size d →
  entries_from d i = entry_at d i :: entries_from d (i + 1).
Proof.
  intros. unfold entries_from. rewrite seqZ_cons by lia. cbn. do 2 f_equal.
  replace (Z.succ i) with (i + 1) by lia. f_equal. lia.
Qed.

Lemma entries_from_nil d i : dir_size d ≤ i → entries_from d i = [].
Proof. intros. unfold entries_from. by rewrite seqZ_nil by lia. Qed.

(** The bytes of an entry of the contents. *)
Lemma to_bytes_entry_at d i : is_bytes d → 0 ≤ i < dir_size d →
  to_bytes (entry_at d i) = slice (32 * i) 32 d.
Proof.
  intros Hb Hi. unfold dir_size in Hi. pose proof (Z.div_mod (zlen d) 32). pose proof (Z.mod_pos_bound (zlen d) 32).
  assert (Hl : zlen (slice (32 * i) 32 d) = 32) by (apply zlen_slice; lia).
  unfold entry_at. cbn [of_bytes to_bytes DirEntry_pod de_name de_inum].
  rewrite le32_of_le32; [apply ztake_app_zdrop| |].
  - rewrite zlen_zdrop, Hl; [done|done].
  - by apply Forall_drop, is_bytes_slice.
Qed.

(** Overwriting one entry. *)
Lemma entry_at_splice d i j e : is_bytes d → 0 ≤ i < dir_size d → 0 ≤ j < dir_size d → entry_ok e →
  entry_at (splice (32 * i) (to_bytes e) d) j = if bool_decide (j = i) then e else entry_at d j.
Proof.
  intros Hb Hi Hj He. unfold dir_size in *. pose proof (Z.div_mod (zlen d) 32). pose proof (Z.mod_pos_bound (zlen d) 32).
  pose proof (to_bytes_length e He) as Hl. change (size_of DirEntry) with 32 in Hl.
  unfold entry_at. case_bool_decide as E.
  - subst j. pose proof (slice_splice (32 * i) (to_bytes e) d) as Hs. rewrite Hl in Hs.
    rewrite Hs by lia. by apply of_to_bytes.
  - rewrite slice_splice_other by lia. done.
Qed.

Lemma entries_splice d i e : is_bytes d → 0 ≤ i < dir_size d → entry_ok e →
  entries (splice (32 * i) (to_bytes e) d) = <[Z.to_nat i := e]> (entries d).
Proof.
  intros Hb Hi He. pose proof (to_bytes_length e He) as Hl. change (size_of DirEntry) with 32 in Hl.
  assert (Hsz : dir_size (splice (32 * i) (to_bytes e) d) = dir_size d).
  { unfold dir_size in *. pose proof (Z.div_mod (zlen d) 32). pose proof (Z.mod_pos_bound (zlen d) 32).
    by rewrite zlen_splice by lia. }
  unfold entries, entries_from. rewrite Hsz, Z.sub_0_r. apply list_eq_z. intros k.
  rewrite list_lookup_fmap. destruct (decide (Z.of_nat k < dir_size d)) as [Hk|Hk].
  - rewrite lookup_seqZ_lt by done. cbn [fmap option_fmap option_map]. rewrite Z.add_0_l.
    rewrite entry_at_splice by (done || lia). case_bool_decide as E.
    + subst i. rewrite Nat2Z.id, list_lookup_insert_eq; [done|].
      rewrite length_fmap, length_seqZ. lia.
    + rewrite list_lookup_insert_ne by lia. rewrite list_lookup_fmap, lookup_seqZ_lt by done. done.
  - rewrite lookup_seqZ_ge by lia. cbn. symmetry. apply lookup_ge_None_2.
    rewrite length_insert, length_fmap, length_seqZ. lia.
Qed.

(** ** The operations over a stream *)

Section dir_stream.
Context {S : Type} `{StreamLaws S} (heap_at : Z).

(** A stream to keep a directory in: sound, writable, its buffers reachable. *)
Record dir_ok (s : S) : Prop := {
  do_ok : st_ok s;
  do_writable : st_writable s;
  do_buf : st_buf s (mkBuf heap_at (zeros (size_of DirEntry)));
  do_bytes : is_bytes (st_data s);
}.

Lemma dir_ok_becomes s0 d p (s : S) : dir_ok s0 → becomes s0 d p s → is_bytes d → dir_ok s.
Proof.
  intros [Ho Hw Hb _] (Hok & Hd & _ & Hon) Hby. constructor; [done| | |by rewrite Hd].
  - by eapply st_writable_only.
  - by eapply st_buf_only.
Qed.

Lemma dir_size_bounds d : 0 ≤ dir_size d ∧ 32 * dir_size d ≤ zlen d < 32 * dir_size d + 32.
Proof.
  unfold dir_size. pose proof (zlen_nonneg d). pose proof (Z.div_mod (zlen d) 32).
  pose proof (Z.mod_pos_bound (zlen d) 32). pose proof (Z.div_pos (zlen d) 32). lia.
Qed.

(** Reading the entry at the cursor. *)
Lemma read_entry s0 d i (s : S) : dir_ok s0 → is_bytes d → 0 ≤ i → becomes s0 d (32 * i) s →
  (i < dir_size d → ∃ s', read_into heap_at DirEntry s = Ret (Ok (entry_at d i), s') ∧
     becomes s0 d (32 * (i + 1)) s') ∧
  (dir_size d ≤ i → ∃ s' p, read_into heap_at DirEntry s = Ret (Err UnexpectedEOF, s') ∧
     becomes s0 d p s').
Proof.
  intros Hz Hby Hi Hs. pose proof (dir_ok_becomes s0 d _ s Hz Hs Hby) as [Hok Hw Hb _].
  pose proof Hs as (_ & Hd & Hp & _). pose proof (dir_size_bounds d) as [_ Hsz]. split; intros Hlt.
  - destruct (read_into_spec (T:=DirEntry) heap_at s Hok Hb) as (s' & E & Hs').
    { rewrite Hp, Hd. change (size_of DirEntry) with 32. lia. }
    exists s'. rewrite E, Hd, Hp. change (size_of DirEntry) with 32 in *. split; [done|].
    rewrite Hd, Hp in Hs'. replace (32 * (i + 1)) with (32 * i + 32) by lia.
    by eapply becomes_trans.
  - destruct (read_into_eof (T:=DirEntry) heap_at s Hok Hb) as (s' & E & Hs').
    { done. } { rewrite Hp, Hd. change (size_of DirEntry) with 32. lia. }
    exists s', (Z.max (st_pos s) (zlen (st_data s))). split; [done|].
    rewrite Hd in *. by eapply becomes_trans.
Qed.

(** Seeking from anywhere in the directory. *)
Lemma seek_entry s0 d p k q (s : S) : becomes s0 d p s →
  seek_in_range q (zlen d) p → seek_target q (zlen d) p = 32 * k →
  ∃ s', seek q s = Ret (Ok (32 * k), s') ∧ becomes s0 d (32 * k) s'.
Proof.
  intros Hs Hr Ht. pose proof Hs as (Hok & Hd & Hp & _).
  destruct (seek_spec q s Hok) as (s' & E & Hs'). { by rewrite Hd, Hp. }
  rewrite Hd, Hp, Ht in *. exists s'. split; [done|]. by eapply becomes_trans.
Qed.

Lemma rewind_spec (s : S) : dir_ok s →
  ∃ s', rewind s = Ret (Ok (), s') ∧ becomes s (st_data s) (32 * 0) s'.
Proof.
  intros Hs. destruct (seek_entry s (st_data s) (st_pos s) 0 (Start 0) s) as (s' & E & Hs').
  - apply becomes_refl, Hs.
  - cbn. lia.
  - done.
  - exists s'. unfold rewind. unmonad. by rewrite E.
Qed.

Lemma write_entry s0 d i e (s : S) : dir_ok s0 → is_bytes d → 0 ≤ i < dir_size d → entry_ok e →
  becomes s0 d (32 * i) s →
  ∃ s', write_from heap_at e s = Ret (Ok (), s') ∧
    becomes s0 (splice (32 * i) (to_bytes e) d) (32 * (i + 1)) s'.
Proof.
  intros Hz Hby Hi He Hs. pose proof (dir_ok_becomes s0 d _ s Hz Hs Hby) as [Hok Hw Hb _].
  pose proof Hs as (_ & Hd & Hp & _). pose proof (dir_size_bounds d) as [_ Hsz].
  destruct (write_from_spec heap_at e s) as (s' & E & Hs'); try done.
  { rewrite Hp, Hd. change (size_of DirEntry) with 32. lia. }
  exists s'. split; [done|]. rewrite Hd, Hp in Hs'. change (size_of DirEntry) with 32 in Hs'.
  replace (32 * (i + 1)) with (32 * i + 32) by lia. by eapply becomes_trans.
Qed.

Lemma path2inum_loop_spec s0 d path fuel : dir_ok s0 → is_bytes d → ∀ i (s : S),
  0 ≤ i → (Z.to_nat (dir_size d - i) < fuel)%nat → becomes s0 d (32 * i) s →
  match dir_find (entries_from d i) path with
  | Panic p => path2inum_loop heap_at fuel path s = Panic p
  | Ret r => ∃ s' p, path2inum_loop heap_at fuel path s = Ret (r, s') ∧ becomes s0 d p s'
  end.
Proof.
  intros Hz Hby. induction fuel as [|fuel IH]; intros i s Hi Hf Hs; [lia|].
  cbn [path2inum_loop]. unmonad. destruct (read_entry s0 d i s Hz Hby Hi Hs) as [Hin Hout].
  destruct (decide (i < dir_size d)) as [Hlt|Hge].
  - destruct (Hin Hlt) as (s' & E & Hs'). rewrite E, entries_from_cons by lia. cbn [dir_find].
    specialize (IH (i + 1) s' ltac:(lia) ltac:(lia) Hs'). unmonad.
    destruct (negb (is_valid (entry_at d i))); [exact IH|].
    destruct (c_str (to_bytes (entry_at d i))) as [n|]; [|done].
    destruct (negb (is_utf8 n)); [by eauto|].
    case_bool_decide; [by eauto|exact IH].
  - destruct (Hout ltac:(lia)) as (s' & p & E & Hs'). rewrite E, entries_from_nil by lia.
    cbn [dir_find]. by eauto.
Qed.

(** [path2inum] is the search through the list of entries. *)
Lemma path2inum_spec fuel path (s : S) : dir_ok s → dir_size (st_data s) < Z.of_nat fuel →
  match dir_find (entries (st_data s)) path with
  | Panic p => path2inum heap_at fuel path s = Panic p
  | Ret r => ∃ s' p, path2inum heap_at fuel path s = Ret (r, s') ∧ becomes s (st_data s) p s'
  end.
Proof.
  intros Hs Hf. destruct (rewind_spec s Hs) as (s1 & E & Hs1). unfold path2inum. unmonad. rewrite E.
  pose proof (dir_size_bounds (st_data s)). apply path2inum_loop_spec; [done|apply Hs|lia|lia|done].
Qed.

Lemma first_invalid_loop_spec s0 d fuel : dir_ok s0 → is_bytes d → ∀ i (s : S),
  0 ≤ i → (Z.to_nat (dir_size d - i) < fuel)%nat → becomes s0 d (32 * i) s →
  (∃ k s', i ≤ k < dir_size d ∧ is_valid (entry_at d k) = false ∧
     (∀ j, i ≤ j < k → is_valid (entry_at d j) = true) ∧
     first_invalid_loop heap_at fuel s = Ret (Ok (32 * k), s') ∧ becomes s0 d (32 * k) s') ∨
  ((∀ j, i ≤ j < dir_size d → is_valid (entry_at d j) = true) ∧
   ∃ s' p, first_invalid_loop heap_at fuel s = Ret (Err RootDirFull, s') ∧ becomes s0 d p s').
Proof.
  intros Hz Hby. induction fuel as [|fuel IH]; intros i s Hi Hf Hs; [lia|].
  cbn [first_invalid_loop]. unmonad. destruct (read_entry s0 d i s Hz Hby Hi Hs) as [Hin Hout].
  destruct (decide (i < dir_size d)) as [Hlt|Hge].
  - destruct (Hin Hlt) as (s' & E & Hs'). rewrite E. destruct (is_valid (entry_at d i)) eqn:Hv; cbn [negb].
    + destruct (IH (i + 1) s') as [(k & s2 & Hk & Hik & Hpre & E2 & Hs2)|[Hall (s2 & p & E2 & Hs2)]];
        [lia|lia|done|left|right].
      * exists k, s2. split; [lia|]. split; [done|]. split; [|done].
        intros j Hj. destruct (decide (j = i)) as [->|]; [done|apply Hpre; lia].
      * split; [|by eauto]. intros j Hj. destruct (decide (j = i)) as [->|]; [done|apply Hall; lia].
    + left. pose proof Hs' as (Hok' & Hd' & Hp' & _). pose proof (st_bounds s' Hok') as [Hb1 Hb2].
      rewrite Hp' in Hb1.
      destruct (seek_entry s0 d (32 * (i + 1)) i (Current (-32)) s') as (s2 & E2 & Hs2);
        [done|cbn [seek_in_range]; lia|cbn [seek_target]; lia|].
      unmonad. rewrite E2. exists i, s2. split; [lia|]. split; [done|]. split; [intros; lia|done].
  - destruct (Hout ltac:(lia)) as (s' & p & E & Hs'). rewrite E. right. split; [intros; lia|by eauto].
Qed.

Lemma first_invalid_spec fuel (s : S) : dir_ok s → dir_size (st_data s) < Z.of_nat fuel →
  let d := st_data s in
  (∃ k s', 0 ≤ k < dir_size d ∧ is_valid (entry_at d k) = false ∧
     (∀ j, 0 ≤ j < k → is_valid (entry_at d j) = true) ∧
     first_invalid heap_at fuel s = Ret (Ok (32 * k), s') ∧ becomes s d (32 * k) s') ∨
  ((∀ j, 0 ≤ j < dir_size d → is_valid (entry_at d j) = true) ∧
   ∃ s' p, first_invalid heap_at fuel s = Ret (Err RootDirFull, s') ∧ becomes s d p s').
Proof.
  intros Hs Hf d. destruct (rewind_spec s Hs) as (s1 & E & Hs1). unfold first_invalid. unmonad. rewrite E.
  subst d. pose proof (dir_size_bounds (st_data s)). apply first_invalid_loop_spec; [done|apply Hs|lia|lia|done].
Qed.

(** What [remove] does to an entry. *)
Definition purge (inum : Z) (e : DirEntry) : DirEntry :=
  if bool_decide (de_inum e = inum) then invalidate e else e.

Lemma entry_ok_invalidate e : entry_ok e → entry_ok (invalidate e).
Proof.
  intros (Hl & Hb & Hi). split; [|split; [|done]]; cbn.
  - unfold zlen in *. by rewrite length_insert.
  - by apply Forall_insert.
Qed.

Lemma remove_loop_spec s0 inum fuel : dir_ok s0 → ∀ d i (s : S), is_bytes d →
  0 ≤ i → (Z.to_nat (dir_size d - i) < fuel)%nat → becomes s0 d (32 * i) s →
  ∃ s' d' p, remove_loop heap_at fuel inum s = Ret (Ok (), s') ∧ becomes s0 d' p s' ∧
    is_bytes d' ∧ zlen d' = zlen d ∧
    ∀ j, 0 ≤ j < dir_size d →
      entry_at d' j = if bool_decide (i ≤ j) then purge inum (entry_at d j) else entry_at d j.
Proof.
  intros Hz. induction fuel as [|fuel IH]; intros d i s Hby Hi Hf Hs; [lia|].
  cbn [remove_loop]. unmonad. destruct (read_entry s0 d i s Hz Hby Hi Hs) as [Hin Hout].
  destruct (decide (i < dir_size d)) as [Hlt|Hge].
  - destruct (Hin Hlt) as (s1 & E & Hs1). rewrite E. case_bool_decide as Hinum.
    + pose proof Hs1 as (Hok' & Hd' & Hp' & _). pose proof (st_bounds s1 Hok') as [Hb1 Hb2].
      rewrite Hp' in Hb1.
      destruct (seek_entry s0 d (32 * (i + 1)) i (Current (-32)) s1) as (s2 & E2 & Hs2);
        [done|cbn [seek_in_range]; lia|cbn [seek_target]; lia|]. unmonad. rewrite E2.
      pose proof (entry_at_ok d i Hby ltac:(lia)) as He. apply entry_ok_invalidate in He.
      destruct (write_entry s0 d i (invalidate (entry_at d i)) s2) as (s3 & E3 & Hs3); try (done || lia).
      rewrite E3. set (d1 := splice _ _ d) in *.
      pose proof (dir_size_bounds d) as [_ Hsz]. pose proof (to_bytes_length _ He) as Hlb.
      change (size_of DirEntry) with 32 in Hlb.
      assert (Hl1 : zlen d1 = zlen d) by (apply zlen_splice; lia).
      assert (Hsz1 : dir_size d1 = dir_size d) by (unfold dir_size; by rewrite Hl1).
      destruct (IH d1 (i + 1) s3) as (s4 & d4 & p & E4 & Hs4 & Hb4 & Hl4 & Hent); try lia.
      { apply is_bytes_splice; [by apply to_bytes_bytes|done]. } { done. }
      exists s4, d4, p. split; [done|]. split; [done|]. split; [done|]. split; [lia|].
      intros j Hj. rewrite Hent by lia. unfold d1. rewrite entry_at_splice by (done || lia).
      destruct (decide (j = i)) as [->|Hne].
      * rewrite bool_decide_eq_false_2 by lia. rewrite !bool_decide_eq_true_2 by done.
        unfold purge. by rewrite bool_decide_eq_true_2.
      * rewrite (bool_decide_eq_false_2 (j = i)) by done.
        destruct (decide (i ≤ j)).
        -- by rewrite !bool_decide_eq_true_2 by lia.
        -- by rewrite !bool_decide_eq_false_2 by lia.
    + destruct (IH d (i + 1) s1) as (s4 & d4 & p & E4 & Hs4 & Hb4 & Hl4 & Hent); try (done || lia).
      exists s4, d4, p. split; [done|]. split; [done|]. split; [done|]. split; [done|].
      intros j Hj. rewrite Hent by lia. destruct (decide (j = i)) as [->|Hne].
      * rewrite bool_decide_eq_false_2 by lia. rewrite bool_decide_eq_true_2 by done.
        unfold purge. by rewrite bool_decide_eq_false_2.
      * destruct (decide (i ≤ j)).
        -- by rewrite !bool_decide_eq_true_2 by lia.
        -- by rewrite !bool_decide_eq_false_2 by lia.
  - destruct (Hout ltac:(lia)) as (s' & p & E & Hs'). rewrite E. exists s', d, p.
    repeat (split; [done|]). intros j Hj. by rewrite bool_decide_eq_false_2 by lia.
Qed.

(** ** Names *)

(** The names [insert] stores so that they can be found again. *)
Definition good_name (p : Path) : Prop :=
  p ≠ [] ∧ Forall (λ x, 1 ≤ x ≤ 127) p ∧ zlen p ≤ 27 ∧ p !! 0%nat ≠ Some HASH.

Lemma c_str_app p r : Forall (λ x, 1 ≤ x ≤ 127) p → c_str (p ++ 0 :: r) = Some p.
Proof.
  induction 1 as [|x p Hx Hp IH]; [done|]. cbn [app c_str].
  rewrite bool_decide_eq_false_2 by lia. by rewrite IH.
Qed.

Lemma utf8_ascii p : Forall (λ x, 1 ≤ x ≤ 127) p → is_utf8 p = true.
Proof.
  unfold is_utf8. induction 1 as [|x p Hx Hp IH]; [done|]. cbn [length utf8_valid].
  unfold between at 1. by rewrite bool_decide_eq_true_2 by lia.
Qed.

Lemma good_name_ascii p : good_name p → is_ascii p = true.
Proof.
  intros (_ & Hp & _). apply forallb_forall. intros x Hx. apply list_elem_of_In in Hx.
  rewrite Forall_forall in Hp. specialize (Hp x Hx). apply bool_decide_eq_true_2. lia.
Qed.

Lemma entry_name_good p : zlen p ≤ 27 →
  entry_name p = Ret (p ++ zeros (28 - zlen p)).
Proof.
  intros Hl. pose proof (zlen_nonneg p). unfold entry_name, FILE_NAME_LEN_MAX.
  rewrite bool_decide_eq_true_2 by lia. f_equal. unfold splice, ztake, zdrop, zeros. cbn [app].
  change (take (Z.to_nat 0) _) with (@nil Z). cbn [app]. f_equal. rewrite drop_replicate. f_equal. lia.
Qed.

Lemma named_entry p inum : good_name p → is_u32 inum →
  let e := mkDirEntry (p ++ zeros (28 - zlen p)) inum in
  entry_ok e ∧ is_valid e = true ∧ c_str (to_bytes e) = Some p ∧ named e.
Proof.
  intros (Hne & Hp & Hl & Hh) Hi e. pose proof (zlen_ne_nil p Hne).
  assert (Hc : c_str (to_bytes e) = Some p).
  { cbn. rewrite <-app_assoc. unfold zeros.
    destruct (Z.to_nat (28 - zlen p)) as [|n] eqn:En; [lia|]. by apply c_str_app. }
  destruct p as [|x p]; [done|]. rewrite Forall_cons in Hp. destruct Hp as [Hx Hp].
  split; [|split; [|split; [done|]]].
  - split; [|split; [|done]]; cbn [e de_name].
    + rewrite zlen_app, zlen_zeros by lia. unfold FILE_NAME_LEN_MAX. lia.
    + apply is_bytes_app. split; [|apply is_bytes_zeros]. constructor; [unfold in_range; lia|].
      eapply Forall_impl; [exact Hp|]. intros y ?. cbn in *. unfold in_range. lia.
  - unfold is_valid, first_byte. cbn in Hh |- *.
    rewrite !bool_decide_eq_false_2; [done|lia|congruence].
  - intros _. exists (x :: p). split; [done|]. by apply utf8_ascii, Forall_cons.
Qed.

Lemma matches_invalid q e : is_valid e = false → matches q e = false.
Proof. intros Hv. unfold matches. by rewrite Hv. Qed.

(** Filling an invalid slot changes the answer for one name. *)
Lemma lookup_name_insert es k e path : ∀ e0, es !! k = Some e0 → is_valid e0 = false →
  is_valid e = true → c_str (to_bytes e) = Some path →
  (∀ q, q ≠ path → lookup_name (<[k := e]> es) q = lookup_name es q) ∧
  (lookup_name es path = None → lookup_name (<[k := e]> es) path = Some (de_inum e)).
Proof.
  intros e0 Hk Hv0 Hv Hc. revert k Hk. induction es as [|x es IH]; intros k Hk; [done|].
  destruct k as [|k]; cbn in Hk |- *.
  - injection Hk as ->. split.
    + intros q Hq. rewrite (matches_invalid q e0) by done.
      unfold matches. rewrite Hv, Hc. by rewrite bool_decide_eq_false_2 by congruence.
    + intros _. unfold matches. rewrite Hv, Hc. by rewrite bool_decide_eq_true_2.
  - destruct (IH k Hk) as [I1 I2]. split.
    + intros q Hq. by rewrite I1.
    + destruct (matches path x); [done|]. apply I2.
Qed.

Lemma lookup_entries d k : 0 ≤ k < dir_size d → entries d !! Z.to_nat k = Some (entry_at d k).
Proof.
  intros. unfold entries, entries_from. rewrite list_lookup_fmap, lookup_seqZ_lt by lia.
  cbn [fmap option_fmap option_map]. by rewrite Z.add_0_l, Z2Nat.id by lia.
Qed.

(** ** The operations *)

Lemma dir_insert_spec fuel path inum (s : S) :
  dir_ok s → let d := st_data s in dir_size d < Z.of_nat fuel →
  good_name path → is_u32 inum →
  let e := mkDirEntry (path ++ zeros (28 - zlen path)) inum in
  (∃ k s' d', dir_insert heap_at fuel path inum s = Ret (Ok (), s') ∧
     becomes s d' (32 * (k + 1)) s' ∧ is_bytes d' ∧ zlen d' = zlen d ∧
     0 ≤ k < dir_size d ∧ is_valid (entry_at d k) = false ∧
     (∀ j, 0 ≤ j < k → is_valid (entry_at d j) = true) ∧
     entries d' = <[Z.to_nat k := e]> (entries d)) ∨
  ((∀ j, 0 ≤ j < dir_size d → is_valid (entry_at d j) = true) ∧
   ∃ s' p, dir_insert heap_at fuel path inum s = Ret (Err RootDirFull, s') ∧ becomes s d p s').
Proof.
  intros Hs d Hf Hg Hi e. destruct (named_entry path inum Hg Hi) as (He & _). fold e in He.
  unfold dir_insert. rewrite good_name_ascii by done. cbn [negb].
  pose proof (first_invalid_spec fuel s Hs Hf) as Hfi. cbn zeta in Hfi. fold d in Hfi.
  unmonad. destruct Hfi as [(k & s1 & Hk & Hinv & Hpre & E & Hs1)|[Hall (s1 & p & E & Hs1)]]; rewrite E.
  2:{ right. split; [done|]. by exists s1, p. }
  left. rewrite entry_name_good by apply Hg. fold e.
  pose proof (do_bytes s Hs) as Hby. fold d in Hby.
  pose proof Hs1 as (Hok1 & Hd1 & Hp1 & _). pose proof (st_bounds s1 Hok1) as [Hb1 Hb2].
  rewrite Hp1 in Hb1.
  destruct (seek_entry s d (32 * k) k (Start (32 * k)) s1) as (s2 & E2 & Hs2);
    [done|cbn [seek_in_range]; lia|done|]. rewrite E2.
  destruct (write_entry s d k e s2) as (s3 & E3 & Hs3); try done. rewrite E3.
  exists k, s3, (splice (32 * k) (to_bytes e) d). split; [done|]. split; [done|].
  split; [apply is_bytes_splice; [by apply to_bytes_bytes|done]|]. split.
  { pose proof (dir_size_bounds d) as [_ Hsz]. pose proof (to_bytes_length e He) as Hlb.
    change (size_of DirEntry) with 32 in Hlb. apply zlen_splice; lia. }
  do 3 (split; [done|]). by apply entries_splice.
Qed.

(** C36: in a directory whose valid entries are well named, [path2inum] gives
    the inode of the first entry of the name or [NoSuchFile], reading only.
    [insert] of a storable name that is absent fills the first invalid entry,
    after which that name is found with its inode and every other lookup answers
    as before; when every entry is valid it reports [RootDirFull] and changes
    nothing. *)
Theorem dir_insert_lookup fuel path inum (s : S) :
  dir_ok s → let d := st_data s in dir_size d < Z.of_nat fuel → Forall named (entries d) →
  good_name path → is_u32 inum → lookup_name (entries d) path = None →
  (∀ q, ∃ s' p, path2inum heap_at fuel q s = Ret (found (lookup_name (entries d) q), s') ∧
     becomes s d p s') ∧
  ((∃ k s' d' p, dir_insert heap_at fuel path inum s = Ret (Ok (), s') ∧ becomes s d' p s' ∧
      0 ≤ k < dir_size d ∧ is_valid (entry_at d k) = false ∧
      (∀ j, 0 ≤ j < k → is_valid (entry_at d j) = true) ∧
      entries d' = <[Z.to_nat k := mkDirEntry (path ++ zeros (28 - zlen path)) inum]> (entries d) ∧
      Forall named (entries d') ∧
      ∀ q, ∃ s2 p2, path2inum heap_at fuel q s' =
        Ret (if bool_decide (q = path) then Ok inum else found (lookup_name (entries d) q), s2) ∧
        becomes s d' p2 s2) ∨
   ((∀ j, 0 ≤ j < dir_size d → is_valid (entry_at d j) = true) ∧
    ∃ s' p, dir_insert heap_at fuel path inum s = Ret (Err RootDirFull, s') ∧ becomes s d p s')).
Proof.
  intros Hs d Hf Hnm Hg Hi Hnone. split.
  { intros q. pose proof (path2inum_spec fuel q s Hs Hf) as Hp. by rewrite dir_find_named in Hp. }
  destruct (named_entry path inum Hg Hi) as (He & Hv & Hc & Hne).
  destruct (dir_insert_spec fuel path inum s Hs Hf Hg Hi)
    as [(k & s3 & d' & E & Hs3 & Hby' & Hl' & Hk & Hinv & Hpre & Hes)|Hfull]; [left|by right].
  fold d in Hl', Hk, Hinv, Hpre, Hes. set (e := mkDirEntry _ _) in *.
  assert (Hnm' : Forall named (entries d')) by (rewrite Hes; by apply Forall_insert).
  exists k, s3, d', (32 * (k + 1)). do 7 (split; [done|]). intros q.
  assert (Hs3' : dir_ok s3) by by eapply dir_ok_becomes.
  pose proof Hs3 as (_ & Hd3 & _). pose proof (path2inum_spec fuel q s3 Hs3') as Hp.
  assert (Hsz : dir_size d' = dir_size d) by (unfold dir_size; by rewrite Hl').
  rewrite Hd3, Hsz, dir_find_named in Hp by done.
  destruct (Hp Hf) as (s4 & p4 & E4 & Hs4). exists s4, p4. split; [|by eapply becomes_trans].
  rewrite E4. do 2 f_equal. rewrite Hes.
  destruct (lookup_name_insert (entries d) (Z.to_nat k) e path (entry_at d k)) as [I1 I2];
    [by apply lookup_entries|done..|].
  case_bool_decide as Eq; [subst q; by rewrite I2|by rewrite I1].
Qed.

Lemma lookup_name_purge es inum path :
  (∀ i, lookup_name (purge inum <$> es) path = Some i → i ≠ inum) ∧
  (∀ i, i ≠ inum → lookup_name es path = Some i →
     (∀ e, e ∈ es → matches path e = true → de_inum e = i) →
     lookup_name (purge inum <$> es) path = Some i) ∧
  (lookup_name es path = None → lookup_name (purge inum <$> es) path = None).
Proof.
  assert (Hinv : ∀ e, de_name e = [] ∨ is_valid (invalidate e) = false).
  { intros [[|x n] i]; [by left|right]. unfold is_valid, first_byte. cbn. done. }
  assert (Hpm : ∀ e, de_inum e = inum → matches path (purge inum e) = false).
  { intros e He. unfold purge. rewrite bool_decide_eq_true_2 by done. apply matches_invalid.
    destruct (Hinv e) as [Hn|?]; [|done]. unfold is_valid, first_byte. cbn. rewrite Hn. done. }
  induction es as [|e es (I1 & I2 & I3)]; [by split_and!|]. cbn [fmap list_fmap lookup_name].
  destruct (decide (de_inum e = inum)) as [He|He].
  - rewrite Hpm by done. split_and!; [done| |].
    + intros i Hi. destruct (matches path e) eqn:Hm; [congruence|]. intros Hl Hall.
      apply I2; [done..|]. intros x Hx. apply Hall. by right.
    + destruct (matches path e); [done|done].
  - assert (purge inum e = e) as -> by (unfold purge; by rewrite bool_decide_eq_false_2).
    destruct (matches path e); [split_and!; congruence|]. split_and!; [done| |done].
    intros i Hi Hl Hall. apply I2; [done..|]. intros x Hx. apply Hall. by right.
Qed.

Lemma dir_remove_spec fuel inum (s : S) : dir_ok s → dir_size (st_data s) < Z.of_nat fuel →
  let d := st_data s in
  ∃ s' d' p, dir_remove heap_at fuel inum s = Ret (Ok (), s') ∧ becomes s d' p s' ∧
    is_bytes d' ∧ zlen d' = zlen d ∧ entries d' = purge inum <$> entries d.
Proof.
  intros Hs Hf d. destruct (rewind_spec s Hs) as (s1 & E & Hs1). unfold dir_remove. unmonad. rewrite E.
  pose proof (dir_size_bounds d) as [Hnn _].
  destruct (remove_loop_spec s inum fuel Hs d 0 s1) as (s2 & d2 & p & E2 & Hs2 & Hb2 & Hl2 & Hent);
    [apply Hs|done|subst d; lia|done|].
  exists s2, d2, p. split; [done|]. split; [done|]. split; [done|]. split; [done|].
  apply list_eq_z. intros k. unfold entries, entries_from.
  assert (Hsz : dir_size d2 = dir_size d) by (unfold dir_size; by rewrite Hl2).
  rewrite !list_lookup_fmap, Hsz. destruct (decide (Z.of_nat k < dir_size d - 0)).
  - rewrite lookup_seqZ_lt by lia. cbn [fmap option_fmap option_map]. f_equal. rewrite Hent by lia.
    by rewrite bool_decide_eq_true_2 by lia.
  - by rewrite lookup_seqZ_ge by lia.
Qed.

(** [remove] never fails: it invalidates every entry that refers to the
    inode and nothing else, even when none does.  Afterwards no name leads to
    that inode, a name that was absent stays absent, and a name whose entries
    all refer to another inode still leads there. *)
Theorem dir_remove_correct fuel inum (s : S) : dir_ok s →
  let d := st_data s in dir_size d < Z.of_nat fuel →
  ∃ s' d' p, dir_remove heap_at fuel inum s = Ret (Ok (), s') ∧ becomes s d' p s' ∧
    zlen d' = zlen d ∧ entries d' = purge inum <$> entries d ∧
    ∀ q, lookup_name (entries d') q ≠ Some inum ∧
      (lookup_name (entries d) q = None → lookup_name (entries d') q = None) ∧
      ∀ i, i ≠ inum → lookup_name (entries d) q = Some i →
        (∀ e, e ∈ entries d → matches q e = true → de_inum e = i) →
        lookup_name (entries d') q = Some i.
Proof.
  intros Hs d Hf. destruct (dir_remove_spec fuel inum s Hs Hf) as (s' & d' & p & E & Hs' & _ & Hl & He).
  exists s', d', p. do 4 (split; [done|]). intros q. rewrite He.
  destruct (lookup_name_purge (entries d) inum q) as (I1 & I2 & I3).
  split; [intros Hc; by apply (I1 inum)|]. split; [done|]. intros i Hi. by apply I2.
Qed.

(** What [insert] does with names it cannot store.  A name that is not
    ASCII is refused with [CstrFormatErr] before anything is read.  A name longer
    than 27 bytes panics in [copy_from_slice], the copied range and the name
    having different lengths, once a free entry is found.  A name that starts
    with ['#'], the mark of free entries, is reported as inserted, but the entry
    it wrote counts as free: no lookup changes its answer. *)
Theorem dir_insert_errors fuel path inum (s : S) :
  dir_ok s → let d := st_data s in dir_size d < Z.of_nat fuel → is_u32 inum →
  (∃ k, 0 ≤ k < dir_size d ∧ is_valid (entry_at d k) = false) →
  (is_ascii path = false → dir_insert heap_at fuel path inum s = Ret (Err CstrFormatErr, s)) ∧
  (is_ascii path = true → 27 < zlen path →
     dir_insert heap_at fuel path inum s = Panic SliceLenMismatch) ∧
  (is_ascii path = true → zlen path ≤ 27 → path !! 0%nat = Some HASH →
     ∃ s' d' p, dir_insert heap_at fuel path inum s = Ret (Ok (), s') ∧ becomes s d' p s' ∧
       ∀ q, lookup_name (entries d') q = lookup_name (entries d) q).
Proof.
  intros Hs d Hf Hi (k0 & Hk0 & Hv0). unfold dir_insert. unmonad.
  pose proof (first_invalid_spec fuel s Hs Hf) as Hfi. cbn zeta in Hfi. fold d in Hfi.
  destruct Hfi as
    [(k & s1 & Hk & Hinv & _ & E & Hs1)|[Hall _]]; [|by rewrite Hall in Hv0].
  split_and!.
  - by intros ->.
  - intros -> Hl. cbn [negb]. rewrite E. unfold entry_name, FILE_NAME_LEN_MAX.
    by rewrite bool_decide_eq_false_2 by lia.
  - intros Ha Hl Hh. rewrite Ha. cbn [negb]. rewrite E, entry_name_good by done.
    set (e := mkDirEntry _ _). pose proof (zlen_nonneg path).
    assert (He : entry_ok e).
    { split; [|split; [|done]]; cbn [e de_name].
      - rewrite zlen_app, zlen_zeros by lia. unfold FILE_NAME_LEN_MAX. lia.
      - apply is_bytes_app. split; [|apply is_bytes_zeros]. apply Forall_forall. intros x Hx.
        unfold is_ascii in Ha. rewrite forallb_forall in Ha. apply list_elem_of_In in Hx.
        specialize (Ha x Hx). apply bool_decide_eq_true in Ha. unfold in_range. lia. }
    assert (Hev : is_valid e = false).
    { unfold is_valid, first_byte. cbn. destruct path as [|x path]; [done|]. cbn in Hh |- *.
      by injection Hh as ->. }
    pose proof (do_bytes s Hs) as Hby. fold d in Hby.
    pose proof Hs1 as (Hok1 & Hd1 & Hp1 & _). pose proof (st_bounds s1 Hok1) as [Hb1 Hb2].
  rewrite Hp1 in Hb1.
    destruct (seek_entry s d (32 * k) k (Start (32 * k)) s1) as (s2 & E2 & Hs2);
      [done|cbn [seek_in_range]; lia|done|]. rewrite E2.
    destruct (write_entry s d k e s2) as (s3 & E3 & Hs3); try done. rewrite E3.
    exists s3, (splice (32 * k) (to_bytes e) d), (32 * (k + 1)). do 2 (split; [done|]). intros q.
    rewrite entries_splice by done.
    assert (Hlk : entries d !! Z.to_nat k = Some (entry_at d k)) by by apply lookup_entries.
    clear -Hlk Hinv Hev. revert Hlk. generalize (entries d) as es, (Z.to_nat k) as n.
    induction es as [|x es IH]; intros n Hn; [done|]. destruct n as [|n]; cbn in Hn |- *.
    + injection Hn as ->. by rewrite !matches_invalid.
    + by rewrite IH.
Qed.
End dir_stream.

(** ** Example: a directory of three entries, the second of them free *)

Definition demo_entry (name : bytes) (inum : Z) : DirEntry :=
  mkDirEntry (name ++ zeros (28 - zlen name)) inum.
Definition demo_entries : list DirEntry :=
  [demo_entry [105; 110; 105; 116] 5; demo_entry [35; 111] 7; demo_entry [115; 104] 9].
Definition demo_dir : Cursor := mkCursor (concat (to_bytes <$> demo_entries)) 0.

Lemma demo_dir_ok : dir_ok 4096 demo_dir.
Proof. constructor; [done|done|done|]. by apply is_bytes_forallb; vm_compute. Qed.

Lemma demo_dir_entries : entries (st_data demo_dir) = demo_entries.
Proof. by vm_compute. Qed.

Lemma demo_dir_named : Forall named (entries (st_data demo_dir)).
Proof.
  rewrite demo_dir_entries. apply Forall_cons; split; [|apply Forall_cons; split; [|apply Forall_cons; split]].
  - intros _. by exists [105; 110; 105; 116].
  - done.
  - intros _. by exists [115; 104].
  - done.
Qed.

(** Inserting ["a"] with inode 3. *)
Lemma dir_insert_lookup_witness :
  let d := st_data demo_dir in let path := [97] in
  (∀ q, ∃ s' p, path2inum 4096 4 q demo_dir = Ret (found (lookup_name (entries d) q), s') ∧
     becomes demo_dir d p s') ∧
  ((∃ k s' d' p, dir_insert 4096 4 path 3 demo_dir = Ret (Ok (), s') ∧ becomes demo_dir d' p s' ∧
      0 ≤ k < dir_size d ∧ is_valid (entry_at d k) = false ∧
      (∀ j, 0 ≤ j < k → is_valid (entry_at d j) = true) ∧
      entries d' = <[Z.to_nat k := mkDirEntry (path ++ zeros (28 - zlen path)) 3]> (entries d) ∧
      Forall named (entries d') ∧
      ∀ q, ∃ s2 p2, path2inum 4096 4 q s' =
        Ret (if bool_decide (q = path) then Ok 3 else found (lookup_name (entries d) q), s2) ∧
        becomes demo_dir d' p2 s2) ∨
   ((∀ j, 0 ≤ j < dir_size d → is_valid (entry_at d j) = true) ∧
    ∃ s' p, dir_insert 4096 4 path 3 demo_dir = Ret (Err RootDirFull, s') ∧ becomes demo_dir d p s')).
Proof.
  apply (dir_insert_lookup 4096 4 [97] 3 demo_dir);
    [apply demo_dir_ok|done|apply demo_dir_named| |done|by rewrite demo_dir_entries; vm_compute].
  split; [done|]. split; [|split; [done|done]]. apply Forall_cons; split; [lia|done].
Defined.

Lemma dir_remove_correct_witness :
  let d := st_data demo_dir in
  ∃ s' d' p, dir_remove 4096 4 9 demo_dir = Ret (Ok (), s') ∧ becomes demo_dir d' p s' ∧
    zlen d' = zlen d ∧ entries d' = purge 9 <$> entries d ∧
    ∀ q, lookup_name (entries d') q ≠ Some 9 ∧
      (lookup_name (entries d) q = None → lookup_name (entries d') q = None) ∧
      ∀ i, i ≠ 9 → lookup_name (entries d) q = Some i →
        (∀ e, e ∈ entries d → matches q e = true → de_inum e = i) →
        lookup_name (entries d') q = Some i.
Proof. apply (dir_remove_correct 4096 4 9 demo_dir); [apply demo_dir_ok|done]. Defined.

(** ["#x"], a name that vanishes. *)
Lemma dir_insert_errors_witness :
  dir_insert 4096 4 [200] 3 demo_dir = Ret (Err CstrFormatErr, demo_dir) ∧
  dir_insert 4096 4 (replicate 28 97) 3 demo_dir = Panic SliceLenMismatch ∧
  ∃ s' d' p, dir_insert 4096 4 [35; 120] 3 demo_dir = Ret (Ok (), s') ∧ becomes demo_dir d' p s' ∧
     ∀ q, lookup_name (entries d') q = lookup_name (entries (st_data demo_dir)) q.
Proof.
  assert (Hfree : ∃ k, 0 ≤ k < dir_size (st_data demo_dir) ∧
    is_valid (entry_at (st_data demo_dir) k) = false) by by exists 1.
  split; [|split].
  - by apply (dir_insert_errors 4096 4 [200] 3 demo_dir demo_dir_ok).
  - by apply (dir_insert_errors 4096 4 (replicate 28 97) 3 demo_dir demo_dir_ok).
  - by apply (dir_insert_errors 4096 4 [35; 120] 3 demo_dir demo_dir_ok).
Defined.
