(* ===== verification/DiskFs.v ===== *)
(** * The disk file system

    [fs/disk.rs], the parts of [fs/disk/free_map.rs] and [fs/disk/inode.rs] that
    tie the file system together, and [fs/disk/swap.rs]: loading, formatting
    and flushing the bitmap, closing an inode when its last [Arc] goes, and
    mounting, creating, opening and removing files.

    [DISKFS.root_dir] is behind a mutex whose state is part of the world: an
    operation takes it for one call, [remove] for its whole body.  Taking it
    while it is held is a deadlock of the only thread there is. *)

From S2P Require Import Prelude Utils Bytes FreeMap Disk Io Fs Inode Dir.

Definition FREE_MAP_SECTOR : Z := 0.
Definition ROOT_DIR_SECTOR : Z := 1.
Definition ROOT_DIR_SECTOR_LEN : Z := 8.

(** One more than the entries of the eight sectors of the root directory. *)
Definition dir_fuel : nat := 129.

Section diskfs.
Context {D : Type} `{BlockDevice D} (translate_ok : Z → bool) (heap_at : Z).
Abbreviation W := (World D).

(** The vnode methods the root directory runs; none of them closes an inode. *)
#[local] Instance root_vnode : Vnode W nat := inode_vnode translate_ok (λ _, fail Unreachable).

Definition set_root (f : File nat) (w : W) : W :=
  mkWorld (w_device w) (w_free w) f (w_root_held w) (w_table w) (w_inodes w).
Definition set_held (b : bool) (w : W) : W :=
  mkWorld (w_device w) (w_free w) (w_root w) b (w_table w) (w_inodes w).
Definition set_table (t : gmap Z nat) (w : W) : W :=
  mkWorld (w_device w) (w_free w) (w_root w) (w_root_held w) t (w_inodes w).

(** [DISKFS.root_dir.lock()] and the drop of its guard. *)
Definition lock_root : M W unit :=
  held ← gets w_root_held ;
  if (held : bool) then fail Deadlock else modify (set_held true).
Definition unlock_root : M W unit := modify (set_held false).

(** A call on the locked [RootDir]. *)
Definition on_root {A} (m : M (W * File nat) A) : M W A := λ w,
  match m (w, w_root w) with
  | Ret (a, (w', f)) => Ret (a, set_root f w')
  | Panic p => Panic p
  end.

(** [DISKFS.root_dir.lock().op()], the guard dropped with the statement. *)
Definition with_root {A} (m : M (W * File nat) A) : M W A :=
  lock_root ;; a ← on_root m ; unlock_root ;; mret a.

(** ** Closing *)

(** [Inode::close] *)
Definition inode_close (v : nat) : M W unit :=
  c ← get_cell v ;
  let desc := c_desc c in
  let data := c_data c in
  (if bool_decide (id_shrink_len desc > 0) then
     let cnt := id_shrink_len desc / SECTOR_SIZE in
     let sector := wrap32 (di_start data + wrap32 (di_len data + SECTOR_SIZE - 1) / SECTOR_SIZE) in
     on_free (fm_dealloc sector cnt)
   else mret ()) ;;
  if id_removed desc then
    lock_root ;;
    r ← on_root (dir_remove heap_at dir_fuel (id_sector desc)) ;
    match r with
    | Err _ => fail UnwrapNone
    | Ok _ =>
        on_free (fm_dealloc (di_start data) (bytes_to_sectors (di_len data))) ;;
        on_free (fm_dealloc (id_sector desc) 1) ;;
        unlock_root
    end
  else mret ().

Definition set_strong (v : nat) (n : nat) : M W unit :=
  c ← get_cell v ; set_cell v (mkCell (c_desc c) (c_data c) n).

(** Dropping an [Arc<Inode>]; the last one drops the inode, which closes it. *)
Definition arc_drop (v : nat) : M W unit :=
  c ← get_cell v ;
  set_strong v (pred (c_strong c)) ;;
  if bool_decide (c_strong c = 1%nat) then inode_close v else mret ().

(** [self.inode_table.lock().get(&inum).and_then(Weak::upgrade)] *)
Definition upgrade (inum : Z) : M W (option nat) := λ w,
  match w_table w !! inum with
  | None => Ret (None, w)
  | Some v =>
      match w_inodes w !! v with
      | Some c =>
          if bool_decide (c_strong c = 0%nat) then Ret (None, w)
          else (set_strong v (S (c_strong c)) ;; mret (Some v)) w
      | None => Ret (None, w)
      end
  end.

Definition table_insert (inum : Z) (v : nat) : M W unit :=
  modify (λ w, set_table (<[inum := v]> (w_table w)) w).

(** [drop] of a [File] on the disk. *)
Definition disk_file_drop (f : File nat) : M W unit :=
  (if file_deny f then inode_allow_write (vnode f) else mret ()) ;;
  arc_drop (vnode f).

(** ** The bitmap on the disk *)

(** A bitmap operation on a [FreeMap] that is not in the file system yet. *)
Definition run_fm {A} (fm : FreeMap) (m : M FreeMap A) : M W (A * FreeMap) := lift (m fm).

Definition bitmap_len (size : Z) : Z := (size + 7) / 8.

(** [FreeMap::new_format] *)
Definition fm_new_format (size : Z) : M W (result FreeMap) :=
  let fm := mkFreeMap size (zeros (bitmap_len size)) in
  '(_, fm) ← run_fm fm (fm_set FREE_MAP_SECTOR) ;
  '(_, fm) ← run_fm fm (fm_set ROOT_DIR_SECTOR) ;
  '(start, fm) ← run_fm fm (fm_alloc (bytes_to_sectors (bitmap_len size))) ;
  match start with
  | Err e => mret (Err e)
  | Ok start =>
      v ←? inode_create FREE_MAP_SECTOR start (bitmap_len size) ;
      arc_drop v ;;
      mret (Ok fm)
  end.

(** [FreeMap::load] *)
Definition fm_load (size : Z) : M W (result FreeMap) :=
  inode ←? inode_open FREE_MAP_SECTOR ;
  len ← inode_len inode ;
  lift (assert_ (bool_decide (len = bitmap_len size))) ;;
  '(r, bits) ← read_at translate_ok inode (mkBuf heap_at (zeros len)) 0 ;
  arc_drop inode ;;
  match r with
  | Err e => mret (Err e)
  | Ok _ => mret (Ok (mkFreeMap size bits))
  end.

(** [FreeMap::flush] *)
Definition fm_flush (fm : FreeMap) : M W (result unit) :=
  inode ←? inode_open FREE_MAP_SECTOR ;
  r ← write_at translate_ok inode (mkBuf heap_at (fm_bits fm)) 0 ;
  arc_drop inode ;;
  match r with
  | Err e => mret (Err e)
  | Ok _ => mret (Ok ())
  end.

(** ** The file system *)

(** [DiskFs::mount]; it builds the fields of the world. *)
Definition mount_free_map (size : Z) : M W (result FreeMap) :=
  r ← fm_load size ;
  match r with
  | Ok loaded => mret (Ok loaded)
  | Err _ => fm_new_format size
  end.

Definition mount_root : M W (result nat) :=
  r ← inode_open ROOT_DIR_SECTOR ;
  match r with
  | Ok loaded => mret (Ok loaded)
  | Err _ =>
      start ←? on_free (fm_alloc ROOT_DIR_SECTOR_LEN) ;
      inode_create ROOT_DIR_SECTOR start (ROOT_DIR_SECTOR_LEN * SECTOR_SIZE)
  end.

Definition fs_mount : M W (result unit) :=
  capacity ← gets (λ w, dev_capacity (w_device w)) ;
  modify (set_table ∅) ;;
  fm ←? mount_free_map (wrap32 capacity) ;
  modify (set_free fm) ;;
  vnode ←? mount_root ;
  table_insert ROOT_DIR_SECTOR vnode ;;
  modify (set_root (file_new vnode)) ;;
  modify (set_held false) ;;
  mret (Ok ()).

Definition fs_unmount : M W unit :=
  fm ← gets w_free ;
  _ ← fm_flush fm ;
  mret ().

Definition root_exists (path : Path) : M W bool :=
  with_root (exists_ heap_at dir_fuel path).

(** [DiskFs::create] *)
Definition fs_create (id : Path) : M W (result (File nat)) :=
  e ← root_exists id ;
  if (e : bool) then
    inum ← with_root (path2inum heap_at dir_fuel id) ;
    match inum with
    | Err _ => fail UnwrapNone
    | Ok inum =>
        u ← upgrade inum ;
        vnode ←? match u with Some arc => mret (Ok arc) | None => inode_open inum end ;
        (* Trunc existing file to 0 on create. *)
        r ← resize vnode 0 ;
        match r with
        | Err e => arc_drop vnode ;; mret (Err e)
        | Ok _ => mret (Ok (file_new vnode))
        end
    end
  else
    sector ←? on_free (fm_alloc 1) ;
    let cnt := bytes_to_sectors 0 in
    start ←? on_free (fm_alloc cnt) ;
    vnode ←? inode_create sector start 0 ;
    table_insert sector vnode ;;
    r ← with_root (dir_insert heap_at dir_fuel id sector) ;
    match r with
    | Err e => arc_drop vnode ;; mret (Err e)
    | Ok _ => mret (Ok (file_new vnode))
    end.

(** [DiskFs::open] *)
Definition fs_open (id : Path) : M W (result (File nat)) :=
  e ← root_exists id ;
  if negb e then mret (Err NoSuchFile)
  else
    inum ← with_root (path2inum heap_at dir_fuel id) ;
    match inum with
    | Err _ => fail UnwrapNone
    | Ok inum =>
        u ← upgrade inum ;
        match u with
        | Some arc => mret (Ok (file_new arc))
        | None =>
            vnode ←? inode_open inum ;
            table_insert inum vnode ;;
            mret (Ok (file_new vnode))
        end
    end.

(** [DiskFs::remove]; the guard [rootdir] lives to the end of the function, and
    locals are dropped in the reverse of their order. *)
Definition fs_remove (id : Path) : M W (result unit) :=
  inum ←? with_root (path2inum heap_at dir_fuel id) ;
  lock_root ;; (* let mut rootdir *)
  r ← on_root (dir_remove heap_at dir_fuel inum) ;
  match r with
  | Err e => unlock_root ;; mret (Err e)
  | Ok _ =>
      u ← upgrade inum ;
      match u with
      | Some arc => inode_remove arc ;; arc_drop arc ;; unlock_root ;; mret (Ok ())
      | None =>
          (* Not opened *)
          i ← inode_open inum ;
          match i with
          | Err e => unlock_root ;; mret (Err e)
          | Ok inode =>
              inode_remove inode ;;
              arc_drop inode ;; (* before [rootdir] *)
              unlock_root ;;
              mret (Ok ())
          end
      end
  end.

#[export] Instance disk_fs : FileSys W nat Path () := {
  Fs.mount _ := fs_mount;
  Fs.unmount := fs_unmount;
  Fs.open := fs_open;
  Fs.close := disk_file_drop; (* the argument is dropped *)
  Fs.create := fs_create;
  Fs.remove := fs_remove;
}.

(** [Path::exists] *)
Definition path_exists (path : Path) : M W bool := root_exists path.

(** ** [fs/disk/swap.rs] *)

(** The name [".glbswap"]. *)
Definition swap_name : Path := [46; 103; 108; 98; 115; 119; 97; 112].

(** The initialiser of [SWAPFILE]. *)
Definition swap_file : M W (File nat) :=
  r ← fs_open swap_name ;
  match r with Ok f => mret f | Err _ => fail UnwrapNone end.

(** [Swap::len] and [Swap::page_num] on the open file. *)
Definition swap_len (swapfile : File nat) : M W Z := inode_len (vnode swapfile).
Definition page_num (swapfile : File nat) : M W Z :=
  n ← swap_len swapfile ; mret (n / PG_SIZE).
End diskfs.

(** ** Invariants *)

Section diskfs_laws.
Context {D : Type} `{BlockDeviceLaws D} (translate_ok : Z → bool) (heap_at : Z).
Abbreviation W := (World D).
#[local] Hint Extern 0 (Vnode _ nat) => exact (root_vnode translate_ok) : typeclass_instances.
#[local] Hint Extern 0 (VnodeSpec _ nat) => exact (inode_spec translate_ok) : typeclass_instances.
#[local] Instance root_laws : VnodeLaws W nat.
Proof. exact (inode_laws translate_ok _). Defined.

(** The root directory's contents, when its inode is [c0]. *)
Definition root_entries (w : W) (c0 : Cell) : list DirEntry := entries (file_bytes w c0).

(** A mounted file system between two calls, its root directory in [c0]. *)
Record fs_ok (w : W) (c0 : Cell) : Prop := {
  fo_world : world_ok w;
  fo_held : w_root_held w = false;
  fo_root : w_inodes w !! vnode (w_root w) = Some c0;
  fo_cell : cell_ok w c0;
  fo_len : c_len c0 = 4096;
  fo_deny : id_deny_write (c_desc c0) = 0;
  fo_pos : 0 ≤ file_pos (w_root w) < 2 ^ 63;
  fo_named : Forall named (root_entries w c0);
}.

(** An inode is sound in another world that keeps its sectors and marks. *)
Lemma cell_ok_frame (w w' : W) c : cell_ok w c →
  dev_capacity (w_device w') = dev_capacity (w_device w) →
  (∀ s, c_run c s ∨ s = c_sector c → used (w_free w) s = true → used (w_free w') s = true) →
  dev_get (w_device w') (c_sector c) = dev_get (w_device w) (c_sector c) →
  cell_ok w' c.
Proof.
  intros [] Hcap Hu Hg. constructor; rewrite ?Hcap, ?Hg; try done.
  - intros s Hs. apply Hu; [left; exact Hs|by apply co_run].
  - apply Hu; [by right|done].
Qed.

Lemma file_bytes_frame (w w' : W) c :
  (∀ s, c_run c s → dev_get (w_device w') s = dev_get (w_device w) s) →
  file_bytes w' c = file_bytes w c.
Proof. intros Hs. unfold file_bytes, run_of. f_equal. by apply run_bytes_ext. Qed.

Lemma fs_ok_frame (w w' : W) c0 : fs_ok w c0 → world_ok w' →
  dev_capacity (w_device w') = dev_capacity (w_device w) →
  w_root_held w' = false → vnode (w_root w') = vnode (w_root w) → 0 ≤ file_pos (w_root w') < 2 ^ 63 →
  w_inodes w' !! vnode (w_root w) = Some c0 →
  (∀ s, c_run c0 s ∨ s = c_sector c0 → used (w_free w) s = true → used (w_free w') s = true) →
  (∀ s, c_run c0 s ∨ s = c_sector c0 → dev_get (w_device w') s = dev_get (w_device w) s) →
  fs_ok w' c0 ∧ root_entries w' c0 = root_entries w c0.
Proof.
  intros [] Hw' Hcap Hh Hv Hp Hi Hu Hg.
  assert (He : root_entries w' c0 = root_entries w c0).
  { unfold root_entries. by rewrite (file_bytes_frame w w') by auto. }
  split; [|done]. constructor; rewrite ?He, ?Hv; try done.
  eapply cell_ok_frame; [done|done|done|]. apply Hg. by right.
Qed.

(** A short buffer is never handed to the device directly. *)
Lemma buf_ok_short a d : zlen d < SECTOR_SIZE → buf_ok translate_ok (mkBuf a d).
Proof. intros Hl k Hk Hle. cbn in Hle. lia. Qed.

(** ** Calls on the root directory *)

Lemma held_fs_ok (w : W) c0 b : fs_ok w c0 → world_ok (set_held b w) ∧ cell_ok (set_held b w) c0.
Proof. intros [[] _ _ [] _ _ _ _]. by split; constructor. Qed.

Lemma root_dir_ok (w : W) c0 b : fs_ok w c0 → dir_ok heap_at (set_held b w, w_root w) ∧
  st_data (set_held b w, w_root w) = file_bytes w c0.
Proof.
  intros Hf. destruct (held_fs_ok w c0 b Hf) as [Hw Hc].
  assert (Hd : st_data (set_held b w, w_root w) = file_bytes w c0).
  { unfold st_data. cbn. rewrite (fo_root w c0 Hf). done. }
  split; [|done]. constructor.
  - cbn. split; [|apply Hf]. exists c0. split; [apply Hf|done].
  - cbn. intros c Hc'. rewrite (fo_root w c0 Hf) in Hc'. injection Hc' as <-. apply Hf.
  - cbn. by apply buf_ok_short.
  - rewrite Hd. apply Forall_take. apply is_bytes_run; [apply Hw|]. intros _. exact (run_on_cell _ c0 (fo_cell w c0 Hf)).
Qed.

(** [w'] is [w] after a call that left the directory with the contents [d]. *)
Record root_post (w w' : W) (c0 : Cell) (d : bytes) : Prop := {
  rp_device : ∃ dev f, w' = set_root f (set_device dev w) ∧ vnode f = vnode (w_root w) ∧
    0 ≤ file_pos f < 2 ^ 63;
  rp_world : world_ok w';
  rp_cap : dev_capacity (w_device w') = dev_capacity (w_device w);
  rp_cell : cell_ok w' c0;
  rp_bytes : file_bytes w' c0 = d;
  rp_get : ∀ s, ¬ c_run c0 s → dev_get (w_device w') s = dev_get (w_device w) s;
}.

Lemma on_root_spec {A} (m : M (W * File nat) A) (w : W) c0 b a d p s' : fs_ok w c0 →
  m (set_held b w, w_root w) = Ret (a, s') → becomes (set_held b w, w_root w) d p s' →
  ∃ w', on_root m (set_held b w) = Ret (a, set_held b w') ∧ root_post w w' c0 d.
Proof.
  intros Hf Hm (Hok & Hd & Hp & Ho & Hv & _). destruct s' as [w1 f1].
  unfold on_root. cbn [w_root set_held]. rewrite Hm. cbn in Hv, Ho.
  rewrite (fo_root w c0 Hf) in Ho. destruct Hok as [(c & Hc1 & Hw1 & Hok1) Hpos]. cbn in *.
  assert (Hch : ∃ dev, w1 = set_device dev (set_held b w) ∧ dev_capacity dev = dev_capacity (w_device w) ∧
    ∀ s, ¬ c_run c0 s → dev_get dev s = dev_get (w_device w) s).
  { destruct Ho as [(dev & -> & _ & Hcap & Hs)| ->]; [by exists dev|]. by exists (w_device w). }
  destruct Hch as (dev & -> & Hcap & Hs). cbn in *.
  rewrite Hv, (fo_root w c0 Hf) in Hc1. injection Hc1 as <-.
  rewrite Hv, (fo_root w c0 Hf) in Hd.
  exists (set_root f1 (set_device dev w)). split; [done|].
  constructor; cbn; try done.
  - exists dev, f1. split; [done|]. split; [exact Hv|exact Hpos].
  - by destruct Hw1.
  - by destruct Hok1.
Qed.

Lemma root_post_fs_ok (w w' : W) c0 d : fs_ok w c0 → root_post w w' c0 d →
  Forall named (entries d) → fs_ok w' c0 ∧ root_entries w' c0 = entries d.
Proof.
  intros Hf [(dev & f & -> & Hv & Hp) Hw Hcap Hc Hb Hg] Hn.
  assert (He : root_entries (set_root f (set_device dev w)) c0 = entries d).
  { unfold root_entries. by rewrite Hb. }
  split; [|done]. constructor; rewrite ?He; try done; try apply Hf.
  cbn. rewrite Hv. apply Hf.
Qed.

Lemma with_root_spec {A} (m : M (W * File nat) A) (w : W) c0 a d p s' : fs_ok w c0 →
  m (set_held true w, w_root w) = Ret (a, s') → becomes (set_held true w, w_root w) d p s' →
  ∃ w', with_root m w = Ret (a, w') ∧ root_post w w' c0 d.
Proof.
  intros Hf Hm Hb. destruct (on_root_spec m w c0 true a d p s' Hf Hm Hb) as (w' & E & Hp).
  exists w'. split; [|done]. unfold with_root, lock_root, unlock_root. unmonad.
  rewrite (fo_held w c0 Hf). rewrite E. pose proof (rp_device _ _ _ _ Hp) as (dev & f & -> & _).
  cbn. unfold set_held, set_root, set_device. cbn. by rewrite (fo_held w c0 Hf).
Qed.

Lemma zlen_root (w : W) c0 : fs_ok w c0 → zlen (file_bytes w c0) = 4096.
Proof. intros Hf. rewrite zlen_file_bytes by apply Hf. apply Hf. Qed.

Lemma root_size (w : W) c0 b : fs_ok w c0 → dir_size (st_data (set_held b w, w_root w)) < Z.of_nat dir_fuel.
Proof.
  intros Hf. destruct (root_dir_ok w c0 b Hf) as [_ ->]. unfold dir_size. by rewrite zlen_root.
Qed.

(** Looking a name up. *)
Lemma root_path2inum (w : W) c0 path : fs_ok w c0 →
  ∃ w', with_root (path2inum heap_at dir_fuel path) w =
          Ret (found (lookup_name (root_entries w c0) path), w') ∧
    root_post w w' c0 (file_bytes w c0).
Proof.
  intros Hf. destruct (root_dir_ok w c0 true Hf) as [Hdo Hd].
  pose proof (path2inum_spec heap_at dir_fuel path _ Hdo (root_size w c0 true Hf)) as Hp.
  rewrite Hd, dir_find_named in Hp by apply Hf. destruct Hp as (s' & p & E & Hb).
  eapply with_root_spec; done.
Qed.

Lemma root_exists_spec (w : W) c0 path : fs_ok w c0 →
  ∃ w', root_exists translate_ok heap_at path w =
          Ret (bool_decide (is_Some (lookup_name (root_entries w c0) path)), w') ∧
    root_post w w' c0 (file_bytes w c0).
Proof.
  intros Hf. destruct (root_dir_ok w c0 true Hf) as [Hdo Hd].
  pose proof (path2inum_spec heap_at dir_fuel path _ Hdo (root_size w c0 true Hf)) as Hp.
  rewrite Hd, dir_find_named in Hp by apply Hf. destruct Hp as (s' & p & E & Hb).
  unfold root_exists. eapply with_root_spec; [done| |done]. unfold exists_. unmonad. rewrite E.
  unfold root_entries. by destruct (lookup_name _ path).
Qed.

(** Removing an inode's entries. *)
Lemma root_remove (w : W) c0 inum : fs_ok w c0 →
  ∃ w' d, on_root (dir_remove heap_at dir_fuel inum) (set_held true w) = Ret (Ok (), set_held true w') ∧
    root_post w w' c0 d ∧ entries d = purge inum <$> root_entries w c0.
Proof.
  intros Hf. destruct (root_dir_ok w c0 true Hf) as [Hdo Hd].
  destruct (dir_remove_spec heap_at dir_fuel inum _ Hdo (root_size w c0 true Hf))
    as (s' & d' & p & E & Hb & _ & Hl & He). rewrite Hd in He.
  destruct (on_root_spec _ w c0 true _ _ _ _ Hf E Hb) as (w' & E' & Hp).
  exists w', d'. by split_and!.
Qed.

(** Inserting. *)
Lemma root_insert (w : W) c0 path inum : fs_ok w c0 → good_name path → is_u32 inum →
  let d := file_bytes w c0 in
  (∃ k w' d', with_root (dir_insert heap_at dir_fuel path inum) w = Ret (Ok (), w') ∧
     root_post w w' c0 d' ∧ 0 ≤ k < dir_size d ∧ is_valid (entry_at d k) = false ∧
     entries d' = <[Z.to_nat k := mkDirEntry (path ++ zeros (28 - zlen path)) inum]> (root_entries w c0)) ∨
  ((∀ j, 0 ≤ j < dir_size d → is_valid (entry_at d j) = true) ∧
   ∃ w', with_root (dir_insert heap_at dir_fuel path inum) w = Ret (Err RootDirFull, w') ∧
     root_post w w' c0 d).
Proof.
  intros Hf Hg Hi. cbn zeta. destruct (root_dir_ok w c0 true Hf) as [Hdo Hd].
  destruct (dir_insert_spec heap_at dir_fuel path inum _ Hdo (root_size w c0 true Hf) Hg Hi)
    as [(k & s' & d' & E & Hb & _ & _ & Hk & Hinv & _ & He)|[Hall (s' & p & E & Hb)]];
    rewrite Hd in *.
  - left. destruct (with_root_spec _ w c0 _ _ _ _ Hf E Hb) as (w' & E' & Hp). exists k, w', d'. done.
  - right. split; [done|]. destruct (with_root_spec _ w c0 _ _ _ _ Hf E Hb) as (w' & E' & Hp). by exists w'.
Qed.

(** ** Closing an inode *)

Lemma set_free_world_ok (w : W) fm f : world_ok w → marks (w_free w) fm f → world_ok (set_free fm w).
Proof. intros [] (Hw & Hs & _). constructor; cbn; try done. congruence. Qed.

(** Giving back marked sectors of the disk. *)
Lemma on_free_dealloc (w : W) s cnt : world_ok w → 0 ≤ s → 0 ≤ cnt →
  s + cnt ≤ dev_capacity (w_device w) → run_used (w_free w) s cnt →
  ∃ fm, on_free (fm_dealloc s cnt) w = Ret ((), set_free fm w) ∧ world_ok (set_free fm w) ∧
    ∀ x, 0 ≤ x → used fm x = negb (within s cnt x) && used (w_free w) x.
Proof.
  intros Hw Hs Hc Hle Hu.
  destruct (dealloc_run (w_free w) s cnt) as (fm & E & Hm); try done; [apply Hw| |].
  { by rewrite (wo_size w Hw). }
  exists fm. unfold on_free. rewrite E. split; [done|].
  split; [by eapply set_free_world_ok|apply Hm].
Qed.

(** The part of a file's run that lazy shrinking has given up: where it starts,
    how much of it [close] gives back, and how many sectors it is. *)
Definition tail_start (c : Cell) : Z := c_start c + nsect (c_len c).
Definition tail_closed (c : Cell) : Z := id_shrink_len (c_desc c) / SECTOR_SIZE.
Definition tail_size (c : Cell) : Z := nsect (c_alloc c) - nsect (c_len c).

(** [close] counts whole sectors in the shrunk bytes, so it may leave one. *)
Lemma tail_bounds (w : W) c : cell_ok w c →
  0 ≤ tail_closed c ∧ (tail_size c = tail_closed c ∨ tail_size c = tail_closed c + 1).
Proof.
  intros Hc. pose proof (co_len w c Hc). pose proof (co_shrink w c Hc).
  unfold tail_size, tail_closed, c_alloc, nsect, SECTOR_SIZE in *.
  pose proof (Z.div_mod (c_len c + 511) 512). pose proof (Z.mod_pos_bound (c_len c + 511) 512).
  pose proof (Z.div_mod (c_len c + id_shrink_len (c_desc c) + 511) 512).
  pose proof (Z.mod_pos_bound (c_len c + id_shrink_len (c_desc c) + 511) 512).
  pose proof (Z.div_mod (id_shrink_len (c_desc c)) 512).
  pose proof (Z.mod_pos_bound (id_shrink_len (c_desc c)) 512).
  lia.
Qed.

(** The first half of [close]. *)
Lemma close_tail (w : W) v c : w_inodes w !! v = Some c → world_ok w → cell_ok w c →
  c_len c + 511 < 2 ^ 32 → ∃ fm, (if bool_decide (id_shrink_len (c_desc c) > 0) then
     on_free (fm_dealloc (wrap32 (di_start (c_data c) + wrap32 (di_len (c_data c) + SECTOR_SIZE - 1) / SECTOR_SIZE))
       (id_shrink_len (c_desc c) / SECTOR_SIZE))
   else mret ()) w = Ret ((), set_free fm w) ∧ world_ok (set_free fm w) ∧
   ∀ x, 0 ≤ x → used fm x = negb (within (tail_start c) (tail_closed c) x) && used (w_free w) x.
Proof.
  intros Hv Hw Hc Hlen. pose proof (tail_bounds w c Hc) as [Ht0 Ht].
  pose proof (co_start w c Hc). pose proof (co_end w c Hc). pose proof (co_len w c Hc).
  pose proof (co_shrink w c Hc). pose proof (nsect_nonneg (c_len c) ltac:(done)).
  pose proof (wo_cap w Hw). pose proof (co_alloc w c Hc) as Hal.
  case_bool_decide as Hs.
  - fold (c_start c) (c_len c). rewrite (wrap_small 32 (c_len c + _ - _)).
    2:{ unfold in_range, SECTOR_SIZE. lia. }
    replace (c_len c + SECTOR_SIZE - 1) with (c_len c + 511) by (unfold SECTOR_SIZE; lia).
    change ((c_len c + 511) / SECTOR_SIZE) with (nsect (c_len c)).
    unfold tail_size in Ht.
    rewrite wrap_small by (unfold in_range; lia).
    destruct (on_free_dealloc w (tail_start c) (tail_closed c)) as (fm & E & Hw' & Hu); try done.
    + unfold tail_start. lia.
    + unfold tail_start. lia.
    + intros x Hx. apply (co_run w c Hc). unfold tail_start in Hx. lia.
    + by exists fm.
  - exists (w_free w). destruct w; cbn. split; [done|]. split; [done|]. intros x Hx.
    assert (tail_closed c = 0) as ->.
    { unfold tail_closed. assert (id_shrink_len (c_desc c) = 0) as -> by lia. done. }
    by rewrite within_out by lia.
Qed.

Lemma inode_close_unfold v c (w : W) fm : w_inodes w !! v = Some c →
  (if bool_decide (id_shrink_len (c_desc c) > 0) then
     on_free (fm_dealloc (wrap32 (di_start (c_data c) + wrap32 (di_len (c_data c) + SECTOR_SIZE - 1) / SECTOR_SIZE))
       (id_shrink_len (c_desc c) / SECTOR_SIZE))
   else mret ()) w = Ret ((), set_free fm w) → id_removed (c_desc c) = false →
  inode_close translate_ok heap_at v w = Ret ((), set_free fm w).
Proof.
  intros Hv E Hr. unfold inode_close. unmonad. rewrite (get_cell_spec v c) by done. rewrite Hr.
  unmonad. by rewrite E.
Qed.

(** Does the sector [s] lie in the part of the run [close] does not give back? *)
Definition leaked (c : Cell) (s : Z) : Prop :=
  tail_start c + tail_closed c ≤ s < tail_start c + tail_size c.

(** Closing an inode that is not removed and was not shrunk changes nothing. *)
Lemma inode_close_quiet v c (w : W) : w_inodes w !! v = Some c →
  id_shrink_len (c_desc c) = 0 → id_removed (c_desc c) = false →
  inode_close translate_ok heap_at v w = Ret ((), w).
Proof.
  intros Hv Hs Hr. rewrite (inode_close_unfold v c w (w_free w)); [by destruct w|done| |done].
  rewrite Hs. by destruct w.
Qed.

Lemma arc_drop_quiet v c (w : W) : w_inodes w !! v = Some c → c_strong c = 1%nat →
  id_shrink_len (c_desc c) = 0 → id_removed (c_desc c) = false →
  arc_drop translate_ok heap_at v w = Ret ((), with_cell v (mkCell (c_desc c) (c_data c) 0) w).
Proof.
  intros Hv H1 Hs Hr. unfold arc_drop, set_strong. unmonad. rewrite !(get_cell_spec v c) by done.
  rewrite H1. rewrite bool_decide_eq_true_2 by done. unfold set_cell, modify. cbn [pred].
  apply (inode_close_quiet v (mkCell (c_desc c) (c_data c) 0)); [|done..].
  cbn. apply lookup_insert_eq.
Qed.

(** Freeing the sectors of a removed inode and its own, after the tail has been
    given back. *)
Lemma free_removed (w w2 : W) c fm :
  world_ok w → cell_ok w c → world_ok w2 → w_free w2 = fm →
  dev_capacity (w_device w2) = dev_capacity (w_device w) →
  (∀ s, 0 ≤ s → used fm s = negb (within (tail_start c) (tail_closed c) s) && used (w_free w) s) →
  let wh := set_held true w2 in
  ∃ fm3 fm4, on_free (fm_dealloc (c_start c) (nsect (c_len c))) wh = Ret ((), set_free fm3 wh) ∧
    on_free (fm_dealloc (c_sector c) 1) (set_free fm3 wh) = Ret ((), set_free fm4 (set_free fm3 wh)) ∧
    world_ok (set_free fm4 (set_free fm3 wh)) ∧
    (∀ s, 0 ≤ s → used fm4 s =
       negb (within (c_sector c) 1 s) && (negb (within (c_start c) (nsect (c_len c)) s) && used fm s)) ∧
    ∀ s, 0 ≤ s → used fm4 s = used (w_free w) s &&
      negb (bool_decide ((c_run c s ∧ ¬ leaked c s) ∨ s = c_sector c)).
Proof.
  intros Hw Hc Hw2 Hfree2 Hcap Hu1 wh.
  pose proof (tail_bounds w c Hc) as [Ht0 Ht]. pose proof (co_start w c Hc) as Hst.
  pose proof (co_len w c Hc) as Hl0. pose proof (nsect_nonneg (c_len c) Hl0) as Hn0.
  pose proof (co_end w c Hc) as Hend. pose proof (co_sector w c Hc) as Hsec.
  assert (Hw2h : world_ok wh) by (destruct Hw2; by constructor). unfold tail_size in Ht.
  destruct (on_free_dealloc wh (c_start c) (nsect (c_len c))) as (fm3 & E3 & Hw3 & Hu3); try done.
  { cbn. lia. }
  { intros x Hx. cbn. rewrite Hfree2, Hu1 by lia. rewrite (co_run w c Hc x) by lia.
    unfold within, tail_start. by rewrite bool_decide_eq_false_2 by lia. }
  destruct (on_free_dealloc (set_free fm3 wh) (c_sector c) 1) as (fm4 & E4 & Hw4 & Hu4); try done; try lia.
  { cbn. lia. }
  { intros x Hx. assert (x = c_sector c) as -> by lia. cbn. rewrite Hu3 by lia. cbn.
    rewrite Hfree2, Hu1 by lia. rewrite (co_sector_used w c Hc).
    pose proof (co_apart w c Hc) as Hap'. unfold c_run in Hap'. unfold within, tail_start.
    rewrite !bool_decide_eq_false_2 by lia. done. }
  assert (Hu : ∀ s, 0 ≤ s → used fm4 s =
    negb (within (c_sector c) 1 s) && (negb (within (c_start c) (nsect (c_len c)) s) && used fm s)).
  { intros s Hs. rewrite Hu4 by done. cbn. rewrite Hu3 by done. cbn. by rewrite Hfree2. }
  exists fm3, fm4. split_and!; [done..|]. intros s Hs. rewrite Hu, Hu1 by done.
  unfold within. rewrite (andb_comm (used _ _)), !andb_assoc. f_equal.
  rewrite <-!negb_orb. f_equal. rewrite <-!bool_decide_or. apply bool_decide_ext.
  unfold c_run, leaked, tail_start, tail_size in *. lia.
Qed.

Lemma purge_named n e : named e → named (purge n e).
Proof.
  intros Hn. unfold purge. destruct (decide (de_inum e = n)) as [Hi|Hi].
  - rewrite bool_decide_eq_true_2 by done. intros Hv'. by destruct e as [[|x m] i].
  - by rewrite bool_decide_eq_false_2.
Qed.

Lemma c_run_nonneg (w : W) c s : cell_ok w c → c_run c s ∨ s = c_sector c → 0 ≤ s.
Proof.
  intros Hc [Hs| ->]; [|apply (co_sector _ _ Hc)].
  pose proof (co_start _ _ Hc). unfold c_run in Hs. lia.
Qed.

(** C31: closing an inode (of a file 511 bytes short of 4 GiB, where the rounding
    to sectors wraps).  Without the removal mark it gives back whole sectors
    of what lazy shrinking kept and nothing else, and at most one sector of the
    run stays marked with no file to own it.  With the mark, on a mounted file
    system whose root directory is elsewhere, it also invalidates the inode's
    entries and frees the file's sectors and the inode's own, so that exactly the
    possible leftover of the shrinking stays marked. *)
Theorem inode_close_correct v c (w : W) :
  w_inodes w !! v = Some c → world_ok w → cell_ok w c → c_len c + 511 < 2 ^ 32 →
  (id_removed (c_desc c) = false → ∃ fm,
     inode_close translate_ok heap_at v w = Ret ((), set_free fm w) ∧
     (∀ s, 0 ≤ s → used fm s = negb (within (tail_start c) (tail_closed c) s) && used (w_free w) s) ∧
     (∀ s, leaked c s → used fm s = true ∧ c_run c s) ∧
     (tail_size c = tail_closed c ∨ tail_size c = tail_closed c + 1)) ∧
  (id_removed (c_desc c) = true → ∀ c0, fs_ok w c0 →
     (∀ s, c_run c0 s ∨ s = c_sector c0 → ¬ c_run c s ∧ s ≠ c_sector c) →
     ∃ w', inode_close translate_ok heap_at v w = Ret ((), w') ∧ fs_ok w' c0 ∧
       root_entries w' c0 = purge (c_sector c) <$> root_entries w c0 ∧
       ∀ s, 0 ≤ s → used (w_free w') s =
         used (w_free w) s &&
         negb (bool_decide ((c_run c s ∧ ¬ leaked c s) ∨ s = c_sector c))).
Proof.
  intros Hv Hw Hc Hlen. destruct (close_tail w v c Hv Hw Hc Hlen) as (fm & E & Hw1 & Hu1).
  pose proof (tail_bounds w c Hc) as [Ht0 Ht]. pose proof (co_start w c Hc) as Hst.
  pose proof (co_len w c Hc) as Hl0. pose proof (nsect_nonneg (c_len c) Hl0) as Hn0.
  assert (Htl : ∀ s, leaked c s → c_run c s).
  { intros s Hs. unfold leaked, c_run, tail_start, tail_size in *. lia. }
  split.
  - intros Hr. exists fm. split; [by eapply inode_close_unfold|]. split; [done|]. split; [|done].
    intros s Hs. pose proof (Htl s Hs) as Hin. split; [|done].
    rewrite Hu1 by (unfold c_run in Hin; lia). rewrite (co_run w c Hc s Hin).
    unfold within. rewrite bool_decide_eq_false_2; [done|]. unfold leaked in Hs. lia.
  - intros Hr c0 Hf Hap. set (w1 := set_free fm w) in *.
    destruct (fs_ok_frame w w1 c0 Hf Hw1) as [Hf1 He1]; try done; try apply Hf.
    { intros s Hs Hu. destruct (Hap s Hs) as [Hn1 _]. cbn.
      pose proof (c_run_nonneg _ _ s (fo_cell _ _ Hf) Hs).
      rewrite Hu1, Hu by done. unfold within. rewrite bool_decide_eq_false_2; [done|].
      intros Hin. apply Hn1. unfold c_run, tail_start, tail_size in *. lia. }
    destruct (root_remove w1 c0 (c_sector c) Hf1) as (w2 & d & E2 & Hp2 & He2).
    pose proof (rp_device _ _ _ _ Hp2) as (dev & f & Ew2 & Hvf & Hpf).
    pose proof (rp_world _ _ _ _ Hp2) as Hw2. pose proof (rp_cap _ _ _ _ Hp2) as Hcap2.
    assert (Hfree2 : w_free w2 = fm) by by rewrite Ew2.
    destruct (free_removed w w2 c fm Hw Hc Hw2 Hfree2 Hcap2 Hu1) as (fm3 & fm4 & E3 & E4 & Hw4 & Hu4 & Hu4').
    set (w4 := set_held false (set_free fm4 (set_free fm3 (set_held true w2)))).
    exists w4. split.
    { unfold inode_close. unmonad. rewrite (get_cell_spec v c) by done. rewrite Hr. unmonad. rewrite E.
      unfold lock_root, unlock_root. unmonad. fold w1. rewrite (fo_held w1 c0 Hf1).
      change (id_sector (c_desc c)) with (c_sector c). rewrite E2.
      pose proof (co_alloc w c Hc). pose proof (co_shrink w c Hc).
      rewrite bytes_to_sectors_nsect by (fold (c_len c); unfold c_alloc in *; lia).
      fold (c_start c) (c_len c). rewrite E3, E4. done. }
    assert (Hnd : Forall named (entries d)).
    { rewrite He2. apply Forall_fmap. eapply Forall_impl; [apply (fo_named _ _ Hf1)|]. apply purge_named. }
    destruct (root_post_fs_ok w1 w2 c0 d Hf1 Hp2 Hnd) as [Hf2 He2'].
    destruct (fs_ok_frame w2 w4 c0 Hf2) as [Hf4 He4].
    + destruct Hw4. by constructor.
    + done.
    + done.
    + done.
    + apply Hf2.
    + apply Hf2.
    + intros s Hs Hu. destruct (Hap s Hs) as [Hn1 Hn2].
      pose proof (c_run_nonneg _ _ s (fo_cell _ _ Hf) Hs).
      change (used fm4 s = true). rewrite Hu4, <-Hfree2, Hu by done. unfold within. 
      rewrite !bool_decide_eq_false_2; [done|unfold c_run, tail_size in *; lia|clear -Hn2; lia].
    + done.
    + split; [exact Hf4|]. split; [|exact Hu4'].
      rewrite He4, He2', He2, He1. done.
Qed.

(** ** Creating and opening files *)

Lemma on_free_alloc (w : W) cnt : world_ok w → 0 < cnt →
  (∃ s fm, on_free (fm_alloc cnt) w = Ret (Ok s, set_free fm w) ∧ world_ok (set_free fm w) ∧
     0 ≤ s ∧ s + cnt < dev_capacity (w_device w) ∧ run_free (w_free w) s cnt ∧
     ∀ x, 0 ≤ x → used fm x = within s cnt x || used (w_free w) x) ∨
  on_free (fm_alloc cnt) w = Ret (Err DiskSectorAllocFail, w).
Proof.
  intros Hw Hc. destruct (fm_alloc_cases (w_free w) cnt) as [(s & fm & E & Hs & Hle & Hf & _ & Hm)|[E _]];
    [apply Hw|done| |]; unfold on_free; rewrite E.
  - left. exists s, fm. split; [done|]. split; [by eapply set_free_world_ok|]. split; [done|].
    split; [by rewrite <-(wo_size w Hw)|]. split; [done|apply Hm].
  - right. by destruct w.
Qed.

Lemma on_free_alloc0 (w : W) : on_free (fm_alloc (bytes_to_sectors 0)) w = Ret (Ok 0, w).
Proof. unfold on_free. cbn. by destruct w. Qed.

(** A marked sector that was free is in nobody's run. *)
Lemma fresh_sector (w : W) c s : cell_ok w c → used (w_free w) s = false →
  ¬ c_run c s ∧ s ≠ c_sector c.
Proof.
  intros Hc Hu. split.
  - intros Hs. by rewrite (co_run w c Hc s Hs) in Hu.
  - intros ->. by rewrite (co_sector_used w c Hc) in Hu.
Qed.

(** The allocation part of [create]: a new empty inode in a sector that was
    free, entered in the table. *)
Lemma create_inode (w : W) c0 : fs_ok w c0 →
  (∃ s v w1, (sector ←? on_free (fm_alloc 1) ;
       let cnt := bytes_to_sectors 0 in
       start ←? on_free (fm_alloc cnt) ;
       vnode ←? inode_create sector start 0 ;
       table_insert sector vnode ;;
       mret (Ok (sector, vnode)) : M W (result (Z * nat))) w = Ret (Ok (s, v), w1) ∧
     fs_ok w1 c0 ∧ root_entries w1 c0 = root_entries w c0 ∧
     0 ≤ s < dev_capacity (w_device w1) ∧ used (w_free w) s = false ∧
     w_inodes w !! v = None ∧ v ≠ vnode (w_root w) ∧ w_root w1 = w_root w ∧
     w_inodes w1 !! v = Some (fresh_cell s 0 0) ∧ cell_ok w1 (fresh_cell s 0 0) ∧
     w_table w1 !! s = Some v ∧ 
     (∀ x, 0 ≤ x → used (w_free w1) x = bool_decide (x = s) || used (w_free w) x)) ∨
  on_free (fm_alloc 1) w = Ret (Err DiskSectorAllocFail, w).
Proof.
  intros Hf. destruct (on_free_alloc w 1 (fo_world w c0 Hf) ltac:(done))
    as [(s & fm & E & Hw1 & Hs & Hle & Hfree & Hu)|E]; [left|by right].
  assert (Hsf : used (w_free w) s = false) by (apply Hfree; lia).
  destruct (fresh_sector w c0 s (fo_cell w c0 Hf) Hsf) as [Hn1 Hn2].
  set (w1 := set_free fm w) in *.
  assert (Hus : used fm s = true).
  { rewrite Hu by done. unfold within. by rewrite bool_decide_eq_true_2 by lia. }
  destruct (inode_create_spec s 0 0 w1) as (v & dv & Ec & Hv & Hw2 & Hc2 & _ & _ & Hcap & Hg); try done.
  { change (0 ≤ dev_capacity (w_device w)). lia. } { intros x Hx. change (0 ≤ x < 0) in Hx. lia. }
  { change (0 ≤ s < dev_capacity (w_device w)). lia. }
  { intros Hx. change (0 ≤ s < 0) in Hx. lia. }
  set (c := fresh_cell s 0 0) in *. set (w2 := with_cell v c (set_device dv w1)) in *.
  assert (Hvr : v ≠ vnode (w_root w)).
  { intros ->. change (w_inodes w1) with (w_inodes w) in Hv. by rewrite (fo_root w c0 Hf) in Hv. }
  set (w3 := set_table (<[s := v]> (w_table w)) w2).
  assert (Hw3 : world_ok w3) by (destruct Hw2; by constructor).
  destruct (fs_ok_frame w w3 c0 Hf Hw3) as [Hf3 He3]; try done; try apply Hf.
  { cbn. by rewrite lookup_insert_ne, (fo_root w c0 Hf). }
  { intros x Hx Hux. cbn. assert (0 ≤ x).
    { destruct Hx as [Hx| ->]; [|apply (co_sector _ _ (fo_cell _ _ Hf))].
      pose proof (co_start _ _ (fo_cell _ _ Hf)). unfold c_run in Hx. lia. }
    rewrite Hu, Hux by done. apply orb_true_r. }
  { intros x Hx. cbn. rewrite Hg; [done| |].
    - intros ->. destruct Hx as [Hx|Hx]; [done|]. done.
    - intros Hx'. change (0 ≤ x < 0) in Hx'. lia. }
  exists s, v, w3. split.
  { unmonad. rewrite E. fold w1. cbn zeta. rewrite on_free_alloc0, Ec. done. }
  split; [done|]. split; [done|]. split; [cbn; rewrite Hcap; cbn; lia|]. split; [done|].
  split; [done|]. split; [done|]. split; [done|]. split; [cbn; apply lookup_insert_eq|].
  split; [destruct Hc2; by constructor|]. split; [cbn; apply lookup_insert_eq|].
  intros x Hx. cbn. rewrite Hu by done. f_equal. apply bool_decide_ext. lia.
Qed.

Lemma used_small (w : W) s : world_ok w → 0 ≤ s < dev_capacity (w_device w) → is_u32 s.
Proof. intros Hw Hs. pose proof (wo_cap w Hw). unfold in_range. lia. Qed.

(** What a call on the root directory leaves of an inode elsewhere. *)
Lemma root_post_cell (w w' : W) c0 c d : root_post w w' c0 d → cell_ok w c → ¬ c_run c0 (c_sector c) →
  cell_ok w' c.
Proof.
  intros Hp Hc Hn. pose proof (rp_device _ _ _ _ Hp) as (dev & f & E & _).
  eapply cell_ok_frame; [done|apply Hp| |by apply Hp]. intros s _ Hu. by rewrite E.
Qed.

Lemma upgrade_live inum v c (w : W) : w_table w !! inum = Some v → w_inodes w !! v = Some c →
  c_strong c ≠ 0%nat →
  upgrade inum w = Ret (Some v, with_cell v (mkCell (c_desc c) (c_data c) (S (c_strong c))) w).
Proof.
  intros Ht Hv Hn. unfold upgrade. rewrite Ht, Hv. rewrite bool_decide_eq_false_2 by done.
  unfold set_strong. unmonad. by rewrite (get_cell_spec v c) by done.
Qed.

Lemma fs_open_spec (w : W) c0 path inum v c : fs_ok w c0 →
  lookup_name (root_entries w c0) path = Some inum →
  w_table w !! inum = Some v → w_inodes w !! v = Some c → c_strong c ≠ 0%nat →
  ∃ w', fs_open translate_ok heap_at path w = Ret (Ok (mkFile v 0 false), w') ∧
    w_inodes w' !! v = Some (mkCell (c_desc c) (c_data c) (S (c_strong c))).
Proof.
  intros Hf Hl Ht Hv Hn. destruct (root_exists_spec w c0 path Hf) as (w1 & E1 & Hp1).
  pose proof (root_post_fs_ok w w1 c0 _ Hf Hp1 (fo_named w c0 Hf)) as [Hf1 He1].
  destruct (root_path2inum w1 c0 path Hf1) as (w2 & E2 & Hp2). rewrite He1 in E2.
  unfold fs_open. unmonad. rewrite E1. fold (root_entries w c0) in E2. rewrite Hl in E2 |- *.
  rewrite bool_decide_eq_true_2 by by eexists. cbn [negb]. unmonad. rewrite E2. cbn [found].
  pose proof (rp_device _ _ _ _ Hp1) as (d1 & f1 & Ew1 & _).
  pose proof (rp_device _ _ _ _ Hp2) as (d2 & f2 & Ew2 & _).
  assert (Ht2 : w_table w2 !! inum = Some v) by by rewrite Ew2, Ew1.
  assert (Hv2 : w_inodes w2 !! v = Some c) by by rewrite Ew2, Ew1.
  rewrite (upgrade_live inum v c) by done. eexists. split; [done|]. cbn. apply lookup_insert_eq.
Qed.

(** [create] of a name that is absent. *)
Definition enter (path : Path) (sector : Z) (v : nat) : M W (result (File nat)) :=
  r ← with_root (dir_insert heap_at dir_fuel path sector) ;
  match r with
  | Err e => arc_drop translate_ok heap_at v ;; mret (Err e)
  | Ok _ => mret (Ok (file_new v))
  end.

Lemma fs_create_absent (w w1 : W) path : root_exists translate_ok heap_at path w = Ret (false, w1) →
  fs_create translate_ok heap_at path w =
    (sector ←? on_free (fm_alloc 1) ;
     let cnt := bytes_to_sectors 0 in
     start ←? on_free (fm_alloc cnt) ;
     vnode ←? inode_create sector start 0 ;
     table_insert sector vnode ;;
     enter path sector vnode) w1.
Proof. intros E. unfold fs_create. unfold mbind at 1, M_bind at 1. rewrite E. reflexivity. Qed.


(** ** Removing files *)

(** The start of [remove]: the entries are gone and the guard is held. *)
Lemma remove_entries (w : W) c0 inum : fs_ok w c0 →
  ∃ w', (lock_root ;; on_root (dir_remove heap_at dir_fuel inum) : M W _) w =
          Ret (Ok (), set_held true w') ∧
    fs_ok w' c0 ∧ root_entries w' c0 = purge inum <$> root_entries w c0 ∧
    (∃ d f, w' = set_root f (set_device d w)) ∧
    dev_capacity (w_device w') = dev_capacity (w_device w) ∧
    ∀ s, ¬ c_run c0 s → dev_get (w_device w') s = dev_get (w_device w) s.
Proof.
  intros Hf. destruct (root_remove w c0 inum Hf) as (w1 & d & E & Hp & He).
  assert (Hnd : Forall named (entries d)).
  { rewrite He. apply Forall_fmap. eapply Forall_impl; [apply (fo_named _ _ Hf)|].
    intros e Hn. change (named (purge inum e)). unfold purge.
    destruct (decide (de_inum e = inum)) as [Hi|Hi].
    - rewrite bool_decide_eq_true_2 by done. intros Hv'. by destruct e as [[|x n] i].
    - by rewrite bool_decide_eq_false_2. }
  destruct (root_post_fs_ok w w1 c0 d Hf Hp Hnd) as [Hf1 He1].
  exists w1. split.
  { unfold lock_root. unmonad. rewrite (fo_held w c0 Hf). exact E. }
  split; [done|]. split; [by rewrite He1|].
  pose proof (rp_device _ _ _ _ Hp) as (dev & f & Ew & _). split; [by exists dev, f|].
  split; [apply Hp|apply Hp].
Qed.

Definition mark_removed (c : Cell) : Cell :=
  mkCell (mkInodeDesc (id_sector (c_desc c)) true (id_shrink_len (c_desc c)) (id_deny_write (c_desc c)))
    (c_data c) (c_strong c).

Lemma inode_remove_spec v c (w : W) : w_inodes w !! v = Some c →
  inode_remove v w = Ret ((), with_cell v (mark_removed c) w).
Proof. intros Hv. unfold inode_remove, set_desc. unmonad. by rewrite (get_cell_spec v c). Qed.

Lemma with_cell_with_cell v c c' (w : W) : with_cell v c' (with_cell v c w) = with_cell v c' w.
Proof. unfold with_cell, set_inodes. cbn. by rewrite insert_insert_eq. Qed.

Lemma lookup_with_cell v c (w : W) : w_inodes (with_cell v c w) !! v = Some c.
Proof. apply lookup_insert_eq. Qed.

(** Dropping a reference that is not the last. *)
Lemma arc_drop_live v c n (w : W) : w_inodes w !! v = Some c → c_strong c = S (S n) →
  arc_drop translate_ok heap_at v w = Ret ((), with_cell v (mkCell (c_desc c) (c_data c) (S n)) w).
Proof.
  intros Hv Hs. unfold arc_drop, set_strong. unmonad. rewrite !(get_cell_spec v c) by done.
  rewrite Hs. by rewrite bool_decide_eq_false_2 by lia.
Qed.

(** Dropping the last reference to a removed inode takes the root directory. *)
Lemma arc_drop_removed_held v c (w : W) : w_inodes w !! v = Some c → c_strong c = 1%nat →
  id_shrink_len (c_desc c) = 0 → id_removed (c_desc c) = true → w_root_held w = true →
  arc_drop translate_ok heap_at v w = Panic Deadlock.
Proof.
  intros Hv Hs Hsh Hr Hh. unfold arc_drop, set_strong. unmonad. rewrite !(get_cell_spec v c) by done.
  rewrite Hs. rewrite bool_decide_eq_true_2 by done.
  unfold set_cell, modify, inode_close. unmonad.
  rewrite (get_cell_spec v (mkCell (c_desc c) (c_data c) 0)) by (cbn; apply lookup_insert_eq).
  cbn [c_desc pred]. rewrite Hsh, Hr. rewrite bool_decide_eq_false_2 by lia.
  unfold lock_root. unmonad. cbn [w_root_held set_inodes]. by rewrite Hh.
Qed.


(** ** The bitmap on the disk *)

(** C39: what [flush] writes is what [load] reads: on a disk whose sector 0 holds
    the inode of a file of the bitmap's length, flushing succeeds, and loading
    afterwards gives back the same bitmap, byte for byte; both leave no inode
    open and no lock held, and a load for another disk size panics. *)
Theorem flush_load (w : W) i :
  world_ok w → let c := mkCell (desc_of FREE_MAP_SECTOR 0) i 1 in
  cell_ok w c → di_len i = bitmap_len (fm_size (w_free w)) →
  buf_ok translate_ok (mkBuf heap_at (fm_bits (w_free w))) →
  ∃ w1 w2, fm_flush translate_ok heap_at (w_free w) w = Ret (Ok (), w1) ∧
    w_free w1 = w_free w ∧ w_root_held w1 = w_root_held w ∧
    (∀ s, ¬ c_run c s → dev_get (w_device w1) s = dev_get (w_device w) s) ∧
    fm_load translate_ok heap_at (fm_size (w_free w)) w1 = Ret (Ok (w_free w), w2) ∧
    (∀ size, bitmap_len size ≠ di_len i →
       fm_load translate_ok heap_at size w1 = Panic AssertFailed).
Proof.
  intros Hw c Hc Hlen Hbuf. pose proof (wo_fm w Hw) as Hfw.
  assert (Hbl : zlen (fm_bits (w_free w)) = c_len c).
  { change (c_len c) with (di_len i). rewrite Hlen. apply (fw_len _ Hfw). }
  pose proof (co_alloc w c Hc). pose proof (alloc_le_run w c Hc). pose proof (co_len w c Hc) as Hl0.
  pose proof (co_start w c Hc) as Hst. pose proof (co_end w c Hc) as Hend. pose proof (wo_cap w Hw).
  pose proof (nsect_nonneg (c_alloc c) ltac:(lia)).
  assert (Hopen : ∀ w' : W, cell_ok w' c → world_ok w' →
    ∃ v, inode_open FREE_MAP_SECTOR w' = Ret (Ok v, with_cell v c w') ∧ w_inodes w' !! v = None).
  { intros w' Hc' Hw'. destruct (inode_open_spec FREE_MAP_SECTOR i w') as (v & E & Hv).
    - apply (co_sector w' c Hc').
    - apply (co_synced w' c Hc').
    - change (is_u32 (c_start c)). unfold in_range. lia.
    - change (is_u32 (c_len c)). unfold in_range. lia.
    - apply (co_magic w' c Hc').
    - by exists v. }
  destruct (Hopen w Hc Hw) as (v & Eo & Hv).
  set (wa := with_cell v c w).
  assert (Hva : w_inodes wa !! v = Some c) by (cbn; apply lookup_insert_eq).
  destruct (write_at_spec translate_ok v c wa (mkBuf heap_at (fm_bits (w_free w))) 0)
    as (wb & Ewr & Hch & Hwb & Hcb & Hfb); try done.
  { by apply world_ok_inodes. } { by apply cell_ok_inodes. } { apply (fw_bytes _ Hfw). }
  { cbn [b_data]. lia. }
  cbn [b_data] in *. pose proof (run_changed_inodes _ _ _ _ Hch) as Hinb.
  destruct Hch as (d & -> & Hd & Hcap & Hg). set (wb := set_device d wa) in *.
  assert (Hvb : w_inodes wb !! v = Some c) by (cbn; apply lookup_insert_eq).
  set (w1 := with_cell v (mkCell (c_desc c) (c_data c) 0) wb).
  assert (Hw1 : world_ok w1) by by apply world_ok_inodes.
  assert (Hc1 : cell_ok w1 c) by by apply cell_ok_inodes.
  assert (Hf1 : file_bytes w1 c = fm_bits (w_free w)).
  { change (file_bytes w1 c) with (file_bytes wb c). rewrite Hfb.
    assert (Hz : zlen (file_bytes wa c) = c_len c).
    { apply zlen_file_bytes; [by apply world_ok_inodes|by apply cell_ok_inodes]. }
    unfold splice. rewrite zdrop_all by lia. rewrite app_nil_r. done. }
  destruct (Hopen w1 Hc1 Hw1) as (u & Eu & Hu).
  set (wc := with_cell u c w1).
  assert (Huc : w_inodes wc !! u = Some c) by (cbn; apply lookup_insert_eq).
  assert (Hread : read_at translate_ok u (mkBuf heap_at (zeros (di_len i))) 0 wc =
    Ret ((Ok (c_len c), fm_bits (w_free w)), wc)).
  { assert (Hz : zlen (zeros (di_len i)) = c_len c) by by apply zlen_zeros.
    rewrite (read_at_spec translate_ok u c); try done.
    - cbn [b_data]. rewrite Hz. assert (moved (c_len c) 0 (c_len c) = c_len c) as ->.
      { unfold moved. lia. }
      rewrite zdrop_all, app_nil_r by lia. change (file_bytes wc c) with (file_bytes w1 c).
      rewrite Hf1, slice_full by lia. done.
    - by apply world_ok_inodes.
    - by apply cell_ok_inodes.
    - eapply buf_ok_data; [exact Hbuf|]. by rewrite Hz. }
  exists w1, (with_cell u (mkCell (c_desc c) (c_data c) 0) wc). split.
  { unfold fm_flush. unmonad. rewrite Eo. fold wa. rewrite Ewr.
    by rewrite (arc_drop_quiet v c wb) by done. }
  split; [done|]. split; [done|]. split; [exact Hg|]. split.
  - unfold fm_load. unmonad. rewrite Eu. fold wc. unfold inode_len. unmonad.
    rewrite (get_cell_spec u c) by done. change (di_len (c_data c)) with (di_len i).
    rewrite bool_decide_eq_true_2 by done. cbn [assert_]. unmonad. rewrite Hread.
    rewrite (arc_drop_quiet u c wc) by done. by destruct (w_free w).
  - intros size Hne. unfold fm_load. unmonad. rewrite Eu. fold wc. unfold inode_len. unmonad.
    rewrite (get_cell_spec u c) by done. change (di_len (c_data c)) with (di_len i).
    by rewrite bool_decide_eq_false_2 by congruence.
Qed.
End diskfs_laws.

(** ** Example: a mounted disk

    The bitmap's inode in sector 0 with its data in sector 12, the root directory
    in sectors 4 to 11, a file "a" (inode 2) that is open and was shrunk by one
    byte, in sectors 13 and 14, and an empty file "b" (inode 3) that nobody has
    open. *)

Module Demo.

Definition bitmap_inode : DiskInode := mkDiskInode 12 4 INODE_MAGIC (zeros INODE_PADDING).
Definition root_inode : DiskInode := mkDiskInode 4 4096 INODE_MAGIC (zeros INODE_PADDING).
Definition a_inode : DiskInode := mkDiskInode 13 512 INODE_MAGIC (zeros INODE_PADDING).
Definition b_inode : DiskInode := mkDiskInode 0 0 INODE_MAGIC (zeros INODE_PADDING).

Definition root_sector : bytes :=
  to_bytes (demo_entry [97] 2) ++ to_bytes (demo_entry [98] 3) ++ zeros 448.

Definition disk : gmap Z bytes :=
  <[0 := inode_image bitmap_inode]> (<[1 := inode_image root_inode]>
    (<[2 := inode_image a_inode]> (<[3 := inode_image b_inode]> (<[4 := root_sector]> ∅)))).

Definition root_cell : Cell := mkCell (desc_of 1 0) root_inode 1.
Definition a_cell : Cell := mkCell (desc_of 2 1) a_inode 1.

Definition world : World (gmap Z bytes) :=
  mkWorld disk (mkFreeMap 32 [255; 127; 0; 0]) (mkFile 0%nat 0 false) false
    {[ 1 := 0%nat; 2 := 1%nat ]} {[ 0%nat := root_cell; 1%nat := a_cell ]}.

Lemma inode_sector i : di_padding i = zeros INODE_PADDING → is_sector (inode_image i).
Proof.
  intros E. apply inode_image_sector; rewrite E; [by apply zlen_zeros|apply is_bytes_zeros].
Qed.

Lemma world_good : world_ok world.
Proof.
  constructor; cbn [w_device w_free world].
  - unfold dev_ok. cbn. do 4 (apply map_Forall_insert_2; [by apply inode_sector|]).
    apply map_Forall_insert_2; [|apply map_Forall_empty].
    split; [done|]. by apply is_bytes_forallb; vm_compute.
  - split; [by unfold in_range|done|]. by apply is_bytes_forallb; vm_compute.
  - done.
  - done.
Qed.

(** All of the first fifteen sectors are marked. *)
Lemma marked s : 0 ≤ s < 15 → used (w_free world) s = true.
Proof.
  intros Hs. assert (Hf : forallb (λ k, used (w_free world) (Z.of_nat k)) (seq 0 15) = true) by by vm_compute.
  rewrite forallb_forall in Hf. specialize (Hf (Z.to_nat s)). rewrite Z2Nat.id in Hf by lia.
  apply Hf, in_seq. lia.
Qed.

Lemma cell_good desc i : di_padding i = zeros INODE_PADDING → di_magic i = INODE_MAGIC →
  let c := mkCell desc i 1 in
  0 ≤ c_start c → 0 ≤ c_len c → 0 ≤ id_shrink_len desc → c_alloc c < 2 ^ 32 →
  c_start c + nsect (c_alloc c) ≤ 15 → 0 ≤ c_sector c < 15 → ¬ c_run c (c_sector c) →
  dev_get disk (c_sector c) = inode_image i → cell_ok world c.
Proof.
  intros Hp Hm c Hst Hl Hsh Hal Hend Hsec Hap Hsy. constructor; try done.
  - change (dev_capacity _) with 32. lia.
  - intros x Hx. apply marked. lia.
  - change (dev_capacity _) with 32. lia.
  - by apply marked.
  - change (zlen (di_padding i) = INODE_PADDING ∧ is_bytes (di_padding i)). rewrite Hp.
    split; [by apply zlen_zeros|apply is_bytes_zeros].
Qed.

Lemma root_good : cell_ok world root_cell.
Proof. apply cell_good; try done. intros Hx. change (4 ≤ 1 < 12) in Hx. lia. Qed.
Lemma a_good : cell_ok world a_cell.
Proof. apply cell_good; try done. intros Hx. change (13 ≤ 2 < 15) in Hx. lia. Qed.
Lemma bitmap_good : cell_ok world (mkCell (desc_of FREE_MAP_SECTOR 0) bitmap_inode 1).
Proof. apply cell_good; try done. intros Hx. change (12 ≤ 0 < 13) in Hx. lia. Qed.

Lemma root_list : root_entries world root_cell =
  demo_entry [97] 2 :: demo_entry [98] 3 :: replicate 126 (mkDirEntry (zeros 28) 0).
Proof. by vm_compute. Qed.

Lemma fs_good : fs_ok world root_cell.
Proof.
  constructor; try done; [apply world_good|apply root_good|].
  rewrite root_list. apply Forall_cons; split; [|apply Forall_cons; split].
  - intros _. by exists [97].
  - intros _. by exists [98].
  - by apply Forall_replicate.
Qed.
End Demo.

(** "a" closes with one sector left over. *)
Lemma inode_close_correct_witness : ∃ fm,
  inode_close all_ok 4096 1%nat Demo.world = Ret ((), set_free fm Demo.world) ∧
  (∀ s, 0 ≤ s → used fm s = negb (within (tail_start Demo.a_cell) (tail_closed Demo.a_cell) s) &&
                            used (w_free Demo.world) s) ∧
  (∀ s, leaked Demo.a_cell s → used fm s = true ∧ c_run Demo.a_cell s) ∧
  (tail_size Demo.a_cell = tail_closed Demo.a_cell ∨ tail_size Demo.a_cell = tail_closed Demo.a_cell + 1).
Proof.
  apply (inode_close_correct all_ok 4096 1%nat Demo.a_cell Demo.world);
    [done|apply Demo.world_good|apply Demo.a_good|done|done].
Defined.



Lemma flush_load_witness : ∃ w1 w2,
  fm_flush all_ok 4096 (w_free Demo.world) Demo.world = Ret (Ok (), w1) ∧
  w_free w1 = w_free Demo.world ∧ w_root_held w1 = w_root_held Demo.world ∧
  (∀ s, ¬ c_run (mkCell (desc_of FREE_MAP_SECTOR 0) Demo.bitmap_inode 1) s →
     dev_get (w_device w1) s = dev_get (w_device Demo.world) s) ∧
  fm_load all_ok 4096 (fm_size (w_free Demo.world)) w1 = Ret (Ok (w_free Demo.world), w2) ∧
  (∀ size, bitmap_len size ≠ di_len Demo.bitmap_inode →
     fm_load all_ok 4096 size w1 = Panic AssertFailed).
Proof.
  apply (flush_load all_ok 4096 Demo.world Demo.bitmap_inode);
    [apply Demo.world_good|apply Demo.bitmap_good|done|done].
Defined.
