(* ===== verification/Intr.v ===== *)
(** * Interrupt levels, the interrupt lock and one-time initialisation

    [sbi/interrupt.rs], [sync/intr.rs], [sync/mutex.rs], [sync/spin.rs],
    [sync/once.rs] and [sync/lazy.rs].  The hart carries the two enable bits of
    [sie] the kernel uses, [sstatus.SIE], the clock and the calls made to the
    firmware's timer.  A lock is a value acquired and released on that hart
    (class [Lock], the trait of [sync.rs]); [Mutex] pairs one with the data. *)

From S2P Require Import Prelude.

(** ** [sbi/interrupt.rs] and the clock of [sbi/timer.rs] *)

Record Hart : Type := mkHart {
  stimer : bool;      (* [sie.STIE] *)
  sext : bool;        (* [sie.SEIE] *)
  sie : bool;         (* [sstatus.SIE] *)
  time : Z;           (* the [time] register *)
  timer_calls : list Z  (* arguments of the calls to the firmware, last first *)
}.

Definition TICKS_PER_SEC : Z := 10.
Definition CLOCK_PRE_SEC : Z := 12500000.

Definition interrupt_on : M Hart unit :=
  modify (λ h, mkHart true true (sie h) (time h) (timer_calls h)).
Definition interrupt_off : M Hart unit :=
  modify (λ h, mkHart false false (sie h) (time h) (timer_calls h)).

(** [interrupt::get] *)
Definition interrupt_get : M Hart bool := gets stimer.

(** [interrupt::set] *)
Definition interrupt_set (level : bool) : M Hart bool :=
  old ← interrupt_get ;
  (if bool_decide (old = level) then mret ()
   else if level then interrupt_on else interrupt_off) ;;
  mret old.

Definition clock : M Hart Z := gets time.
Definition time_ms : M Hart Z := c ← clock ; mret (wrap64 (c * 1000) / CLOCK_PRE_SEC).
Definition time_us : M Hart Z := c ← clock ; mret (wrap64 (c * 1000000) / CLOCK_PRE_SEC).

Definition set_timer (t : Z) : M Hart unit :=
  modify (λ h, mkHart (stimer h) (sext h) (sie h) (time h) (t :: timer_calls h)).

(** [timer::next] *)
Definition timer_next : M Hart unit :=
  c ← clock ; set_timer (wrap64 (c + CLOCK_PRE_SEC / TICKS_PER_SEC)).

(** [interrupt::init] *)
Definition interrupt_init : M Hart unit :=
  timer_next ;;
  interrupt_set true ;;
  modify (λ h, mkHart (stimer h) (sext h) true (time h) (timer_calls h)).

(** The kernel only ever switches the two enable bits together. *)
Definition hart_ok (h : Hart) : Prop := sext h = stimer h.

Definition with_level (b : bool) (h : Hart) : Hart :=
  mkHart b b (sie h) (time h) (timer_calls h).

Lemma interrupt_set_run b h :
  hart_ok h → interrupt_set b h = Ret (stimer h, with_level b h).
Proof.
  destruct h as [st se si ti tc]; unfold hart_ok; cbn; intros ->.
  by destruct st, b.
Qed.

Lemma with_level_ok b h : hart_ok (with_level b h).
Proof. done. Qed.
#[export] Hint Resolve with_level_ok : tacos.

Lemma with_level_level b c h : with_level b (with_level c h) = with_level b h.
Proof. done. Qed.

Lemma with_level_id h : hart_ok h → with_level (stimer h) h = h.
Proof. destruct h; unfold hart_ok; cbn. by intros ->. Qed.

(** [time_ms] is the clock in thousandths of a second while the product fits. *)
Lemma time_ms_run h : 0 ≤ time h → time h * 1000 < 2 ^ 64 →
  time_ms h = Ret (time h / 12500, h).
Proof.
  intros. unfold time_ms, clock. unmonad. rewrite wrap_small by (split; lia).
  unfold CLOCK_PRE_SEC. do 2 f_equal.
  by rewrite <-(Z.div_mul_cancel_r (time h) 12500 1000).
Qed.

(** ** Locks: the trait [Lock] of [sync.rs] *)

Class Lock (L : Type) := {
  lock_default : L;
  acquire : M (Hart * L) unit;
  release : M (Hart * L) unit
}.

(** A computation on the hart, in a state that has more. *)
Definition on_hart {X A} (m : M Hart A) : M (Hart * X) A := λ s,
  match m s.1 with Ret (a, h) => Ret (a, (h, s.2)) | Panic p => Panic p end.

(** *** [sync/intr.rs]: [struct Intr(Cell<Option<bool>>)] *)
Record Intr : Type := mkIntr { saved : option bool }.

Definition intr_acquire : M (Hart * Intr) unit :=
  old ← on_hart (interrupt_set false) ;
  l ← gets snd ;
  (if bool_decide (saved l ≠ None) then fail Explicit else mret ()) ;;
  l ← gets snd ;
  lift (assert_ (bool_decide (saved l = None))) ;;
  on_hart (interrupt_set old) ;;
  old ← on_hart (interrupt_set false) ;
  modify (λ s, (s.1, mkIntr (Some old))).

Definition intr_release : M (Hart * Intr) unit :=
  l ← gets snd ;
  modify (λ s, (s.1, mkIntr None)) ;;
  match saved l with
  | Some old => on_hart (interrupt_set old) ;; mret ()
  | None => fail UnwrapNone
  end.

#[export] Instance Intr_lock : Lock Intr := {
  lock_default := mkIntr None;
  acquire := intr_acquire;
  release := intr_release
}.

(** Unfolds the monad and reduces the pairs and records of this file. *)
Ltac hrun := unmonad; cbn [fst snd saved assert_].

Lemma intr_acquire_free h : hart_ok h →
  intr_acquire (h, mkIntr None) = Ret ((), (with_level false h, mkIntr (Some (stimer h)))).
Proof.
  intros Hh. unfold intr_acquire, on_hart. hrun.
  rewrite interrupt_set_run by done. hrun.
  rewrite bool_decide_eq_false_2 by auto. rewrite bool_decide_eq_true_2 by done. hrun.
  rewrite interrupt_set_run by auto with tacos. hrun.
  rewrite with_level_level, with_level_id by done.
  by rewrite interrupt_set_run by done.
Qed.

Lemma intr_acquire_held h b : hart_ok h →
  intr_acquire (h, mkIntr (Some b)) = Panic Explicit.
Proof.
  intros Hh. unfold intr_acquire, on_hart. hrun.
  by rewrite interrupt_set_run by done.
Qed.

Lemma intr_release_held h b : hart_ok h →
  intr_release (h, mkIntr (Some b)) = Ret ((), (with_level b h, mkIntr None)).
Proof.
  intros Hh. unfold intr_release, on_hart. hrun.
  by rewrite interrupt_set_run by done.
Qed.

(** *** [sync/spin.rs]: [struct Spin(AtomicBool)]

    Between two turns of the loop of [acquire] other threads run: [others] is
    what they do to the hart and the flag. *)
Record Spin : Type := mkSpin { locked : bool }.

(** One [fetch_or] and, when the lock was taken, the assertion; [true] when
    the lock has been obtained. *)
Definition spin_try : M (Hart * Spin) bool :=
  l ← gets snd ;
  modify (λ s, (s.1, mkSpin true)) ;;
  if locked l then i ← on_hart interrupt_get ; lift (assert_ i) ;; mret false
  else mret true.

Fixpoint spin_acquire (fuel : nat) (others : nat → Hart * Spin → Hart * Spin)
    : M (Hart * Spin) unit :=
  match fuel with
  | O => fail OutOfFuel
  | S fuel =>
      got ← spin_try ;
      if (got : bool) then mret ()
      else modify (others fuel) ;; spin_acquire fuel others
  end.

Definition spin_release : M (Hart * Spin) unit :=
  modify (λ s, (s.1, mkSpin false)).

(** With interrupts off nobody can release the lock: the assertion stops the
    kernel instead of spinning for ever. *)
Lemma spin_acquire_may_block fuel others h :
  stimer h = false → spin_acquire (S fuel) others (h, mkSpin true) = Panic AssertFailed.
Proof.
  intros Hh. cbn [spin_acquire]. unfold spin_try, on_hart, interrupt_get. hrun. cbn [locked]. hrun.
  by rewrite Hh.
Qed.

Lemma spin_acquire_free fuel others h :
  spin_acquire (S fuel) others (h, mkSpin false) = Ret ((), (h, mkSpin true)).
Proof. done. Qed.

(** ** [sync/mutex.rs] *)

Record Mutex (T L : Type) : Type := mkMutex { value : T; lock : L }.
Arguments mkMutex {T L}. Arguments value {T L}. Arguments lock {T L}.

Section Mutex.
Context {T L : Type} `{Lock L}.

Definition mutex_new (v : T) : Mutex T L := mkMutex v lock_default.

(** The lock operations on a mutex; its value stays put. *)
Definition on_lock {A} (m : M (Hart * L) A) : M (Hart * Mutex T L) A := λ s,
  match m (s.1, lock s.2) with
  | Ret (a, (h, l)) => Ret (a, (h, mkMutex (value s.2) l))
  | Panic p => Panic p
  end.

(** [Mutex::lock], and [drop] of the guard. *)
Definition mutex_lock : M (Hart * Mutex T L) unit := on_lock acquire.
Definition guard_drop : M (Hart * Mutex T L) unit := on_lock release.

(** The data through the guard ([Deref] and [DerefMut]). *)
Definition on_value {A} (m : M (Hart * T) A) : M (Hart * Mutex T L) A := λ s,
  match m (s.1, value s.2) with
  | Ret (a, (h, v)) => Ret (a, (h, mkMutex v (lock s.2)))
  | Panic p => Panic p
  end.

(** [{ let mut g = m.lock(); f(&mut g) }] *)
Definition with_guard {A} (f : M (Hart * T) A) : M (Hart * Mutex T L) A :=
  mutex_lock ;; a ← on_value f ; guard_drop ;; mret a.
End Mutex.
Arguments mutex_new {T L _}.

Lemma mutex_lock_free {T} h (v : T) : hart_ok h →
  mutex_lock (h, mkMutex v (mkIntr None)) =
    Ret ((), (with_level false h, mkMutex v (mkIntr (Some (stimer h))))).
Proof.
  intros. unfold mutex_lock, on_lock. cbn [fst snd lock value acquire Intr_lock].
  by rewrite intr_acquire_free.
Qed.

Lemma guard_drop_held {T} h b (v : T) : hart_ok h →
  guard_drop (h, mkMutex v (mkIntr (Some b))) =
    Ret ((), (with_level b h, mkMutex v (mkIntr None))).
Proof.
  intros. unfold guard_drop, on_lock. cbn [fst snd lock value release Intr_lock].
  by rewrite intr_release_held.
Qed.

(** The body of a section under [Mutex<_, Intr>] that keeps the hart. *)
Lemma with_guard_run {T A} (f : M (Hart * T) A) h v a v' :
  hart_ok h → f (with_level false h, v) = Ret (a, (with_level false h, v')) →
  with_guard f (h, mkMutex v (mkIntr None)) = Ret (a, (h, mkMutex v' (mkIntr None))).
Proof.
  intros Hh Hf. unfold with_guard, mbind, M_bind, mret, M_ret.
  rewrite mutex_lock_free by done. unfold on_value. cbn [fst snd value lock].
  rewrite Hf. cbn [fst snd value lock].
  by rewrite guard_drop_held, with_level_level, with_level_id.
Qed.
