(* ===== verification/Once.v ===== *)
(** * One-time initialisation

    [sync/once.rs] and [sync/lazy.rs]: [Once], [OnceCell] and [Lazy].  The state
    is the hart, the fields of one [Lazy] and the rest of the kernel ([world]);
    the initialiser is a computation on all of it, so it may also use the very
    cell it initialises. *)

From S2P Require Import Prelude Intr.

Inductive OnceState : Type := InComplete | Complete.

#[export] Instance OnceState_eq_dec : EqDecision OnceState.
Proof. solve_decision. Defined.

(** [struct Once] *)
Record Once : Type := mkOnce { inner : OnceState; once_lock : Intr }.
Definition once_new : Once := mkOnce InComplete (mkIntr None).

Section Lazy.
(** The value of the cell, the type of initialisers and the rest of the
    kernel's state. *)
Context {T F W : Type}.

(** [struct Lazy], with the [OnceCell] it holds, in its environment. *)
Record Env : Type := mkEnv {
  hart : Hart;
  once : Once;            (* [cell.once] *)
  cell : option T;        (* [cell.inner] *)
  init : option F;        (* [init] *)
  world : W
}.

(** Running an initialiser. *)
Context (call : F → M Env T).

Definition lazy_new (f : F) (h : Hart) (w : W) : Env := mkEnv h once_new None (Some f) w.

(** *** [sync/once.rs] *)

Definition is_completed : M Env bool :=
  gets (λ e, bool_decide (inner (once e) = Complete)).

Definition set_inner (s : OnceState) : M Env unit :=
  modify (λ e, mkEnv (hart e) (mkOnce s (once_lock (once e))) (cell e) (init e) (world e)).

(** The operations of [Once]'s lock. *)
Definition on_once_lock {A} (m : M (Hart * Intr) A) : M Env A := λ e,
  match m (hart e, once_lock (once e)) with
  | Ret (a, (h, l)) => Ret (a, mkEnv h (mkOnce (inner (once e)) l) (cell e) (init e) (world e))
  | Panic p => Panic p
  end.

Definition call_once (f : M Env unit) : M Env unit :=
  c ← is_completed ;
  if (c : bool) then mret ()
  else
    on_once_lock acquire ;;
    i ← gets (λ e, inner (once e)) ;
    (match i with
     | InComplete => f ;; set_inner Complete
     | Complete => mret ()
     end) ;;
    on_once_lock release.

Definition set_cell (v : T) : M Env unit :=
  modify (λ e, mkEnv (hart e) (once e) (Some v) (init e) (world e)).

Definition cell_init (f : M Env T) : M Env unit :=
  call_once (v ← f ; set_cell v).

Definition cell_get : M Env T :=
  c ← gets cell ;
  match c with Some x => mret x | None => fail Unreachable end.

Definition get_or_init (f : M Env T) : M Env T :=
  c ← is_completed ;
  if (c : bool) then cell_get else cell_init f ;; cell_get.

(** *** [sync/lazy.rs] *)

(** [Cell::take] of [init], then [unwrap]. *)
Definition take_init : M Env F :=
  i ← gets init ;
  modify (λ e, mkEnv (hart e) (once e) (cell e) None (world e)) ;;
  match i with Some f => mret f | None => fail UnwrapNone end.

(** [Lazy::get] *)
Definition lazy_get : M Env T := get_or_init (f ← take_init ; call f).

(** ** Lemmas *)

Lemma on_once_lock_acquire h l o c i w :
  hart_ok h → l = mkIntr None →
  on_once_lock acquire (mkEnv h (mkOnce o l) c i w) =
    Ret ((), mkEnv (with_level false h) (mkOnce o (mkIntr (Some (stimer h)))) c i w).
Proof.
  intros ? ->. unfold on_once_lock. cbn [hart once once_lock acquire Intr_lock].
  by rewrite intr_acquire_free.
Qed.

Lemma on_once_lock_reacquire h b o c i w :
  hart_ok h →
  on_once_lock acquire (mkEnv h (mkOnce o (mkIntr (Some b))) c i w) = Panic Explicit.
Proof.
  intros. unfold on_once_lock. cbn [hart once once_lock acquire Intr_lock].
  by rewrite intr_acquire_held.
Qed.

Lemma on_once_lock_release h b o c i w :
  hart_ok h →
  on_once_lock release (mkEnv h (mkOnce o (mkIntr (Some b))) c i w) =
    Ret ((), mkEnv (with_level b h) (mkOnce o (mkIntr None)) c i w).
Proof.
  intros. unfold on_once_lock. cbn [hart once once_lock release Intr_lock].
  by rewrite intr_release_held.
Qed.

(** Once the cell is complete, reading it is all that happens. *)
Lemma lazy_get_complete e v :
  inner (once e) = Complete → cell e = Some v → lazy_get e = Ret (v, e).
Proof.
  intros He Hc. unfold lazy_get, get_or_init, is_completed, cell_get. unmonad.
  by rewrite bool_decide_eq_true_2, Hc.
Qed.

(** The first access runs the initialiser with interrupts off and the lock
    held, and leaves the cell complete, the lock free and the interrupt level
    as it was. *)
Lemma lazy_get_first h f w v w' :
  hart_ok h →
  (∀ e, hart_ok (hart e) → stimer (hart e) = false → world e = w →
     call f e = Ret (v, mkEnv (hart e) (once e) (cell e) (init e) w')) →
  lazy_get (lazy_new f h w) =
    Ret (v, mkEnv h (mkOnce Complete (mkIntr None)) (Some v) None w').
Proof.
  intros Hh Hf.
  unfold lazy_get, get_or_init, cell_init, call_once, is_completed, lazy_new, once_new.
  unmonad. cbn [inner once]. rewrite !bool_decide_eq_false_2 by done.
  rewrite on_once_lock_acquire by done. cbn [inner once].
  unfold take_init. unmonad. cbn [init hart once cell world].
  rewrite Hf by done. cbn [init hart once cell world].
  unfold set_cell, set_inner. unmonad. cbn [init hart once cell world once_lock].
  rewrite on_once_lock_release by done. unfold cell_get. unmonad. cbn [cell].
  by rewrite with_level_level, with_level_id.
Qed.

(** A [Lazy] runs its initialiser on the first access and never again: a
    second access gives the same value and changes nothing. *)
Lemma lazy_get_twice_run h f w v w' :
  hart_ok h →
  (∀ e, hart_ok (hart e) → stimer (hart e) = false → world e = w →
     call f e = Ret (v, mkEnv (hart e) (once e) (cell e) (init e) w')) →
  ∃ e, lazy_get (lazy_new f h w) = Ret (v, e) ∧
    hart e = h ∧ world e = w' ∧ lazy_get e = Ret (v, e).
Proof.
  intros Hh Hf. eexists. split; [by eapply lazy_get_first|].
  do 2 (split; [done|]). by apply lazy_get_complete.
Qed.

(** An initialiser that uses the cell it initialises stops the kernel on the
    lock it already holds. *)
Lemma lazy_get_reentrant h f w :
  hart_ok h →
  (∀ e, call f e = lazy_get e) →
  lazy_get (lazy_new f h w) = Panic Explicit.
Proof.
  intros Hh Hf.
  unfold lazy_get at 1, get_or_init, cell_init, call_once, is_completed, lazy_new, once_new.
  unmonad. cbn [inner once]. rewrite !bool_decide_eq_false_2 by done.
  rewrite on_once_lock_acquire by done. cbn [inner once].
  unfold take_init at 1. unmonad. cbn [init hart once cell world].
  rewrite Hf. unfold lazy_get, get_or_init, cell_init, call_once, is_completed.
  unmonad. cbn [inner once]. rewrite !bool_decide_eq_false_2 by done.
  by rewrite on_once_lock_reacquire.
Qed.
End Lazy.
Arguments Env : clear implicits.
