(* ===== verification/Thread.v ===== *)
(** * Kernel threads: the data

    The first half of [thread/imp.rs]: [Thread], [DonationData] (from
    [sync/sleep.rs]), [Builder] and [Status].  An [Arc<Thread>] is the thread's
    identifier, the key of the store of threads, so that every holder of the
    [Arc] sees the same status and priority.  Fields under [Mutex<_, Intr>] or
    in an atomic are plain fields here: each access is one locked section, which
    [Intr.with_guard_run] shows to be the access and nothing else. *)

From S2P Require Import Prelude.

Definition PRI_DEFAULT : Z := 31.
Definition PRI_MAX : Z := 63.
Definition PRI_MIN : Z := 0.
Definition STACK_SIZE : Z := 4096 * 4.
Definition STACK_ALIGN : Z := 16.
Definition MAGIC : Z := 0xdeadbeef.

Inductive Status : Type := Ready | Running | Blocked | Dying.

#[export] Instance Status_eq_dec : EqDecision Status.
Proof. solve_decision. Defined.

(** [struct DonationData]; the two threads by their identifiers. *)
Record DonationData : Type := mkDonation {
  donner : Z;
  acceptor : Z;
  donner_priority : Z;
  prev_priority : Z;
  is_donner : bool;
  dd_lockid : Z
}.

#[export] Instance DonationData_eq_dec : EqDecision DonationData.
Proof. solve_decision. Defined.

(** [struct Thread].  [magic] is the word at the bottom of the stack;
    [context] is the continuation of [Sync.v]'s threads and the registers of
    [Asm.v], not a field here. *)
Record Thread : Type := mkThread {
  tid : Z;
  name : string;
  stack : Z;
  status : Status;
  priority : Z;
  priority_setted : option Z;
  userproc : option Z;     (* which user process it owns *)
  pagetable : option Z;    (* the root of its own page table *)
  donationq : list DonationData;
  stored_prev : Z * Z;
  magic : Z
}.

#[export] Instance Thread_inhabited : Inhabited Thread :=
  populate (mkThread 0 "" 0 Ready 0 None None None [] (0, 0) 0).

(** [Thread::new], given the next value of the counter [TID]. *)
Definition thread_new (TID : Z) (name : string) (stack priority : Z)
    (userproc pagetable : option Z) (magic : Z) : Thread :=
  mkThread TID name stack Ready priority None userproc pagetable [] (0xFFFFFFFF, 0) magic.

(** Assignments to one field. *)
Definition with_status (s : Status) (t : Thread) : Thread :=
  mkThread (tid t) (name t) (stack t) s (priority t) (priority_setted t) (userproc t)
    (pagetable t) (donationq t) (stored_prev t) (magic t).
Definition with_priority (p : Z) (t : Thread) : Thread :=
  mkThread (tid t) (name t) (stack t) (status t) p (priority_setted t) (userproc t)
    (pagetable t) (donationq t) (stored_prev t) (magic t).
Definition with_setted (p : option Z) (t : Thread) : Thread :=
  mkThread (tid t) (name t) (stack t) (status t) (priority t) p (userproc t)
    (pagetable t) (donationq t) (stored_prev t) (magic t).
Definition with_donationq (q : list DonationData) (t : Thread) : Thread :=
  mkThread (tid t) (name t) (stack t) (status t) (priority t) (priority_setted t) (userproc t)
    (pagetable t) q (stored_prev t) (magic t).
Definition with_stored_prev (p : Z * Z) (t : Thread) : Thread :=
  mkThread (tid t) (name t) (stack t) (status t) (priority t) (priority_setted t) (userproc t)
    (pagetable t) (donationq t) p (magic t).

(** [Thread::overflow] *)
Definition overflow (t : Thread) : bool := bool_decide (magic t ≠ MAGIC).

(** The store of threads, and an access through an [Arc]. *)
Abbreviation Threads := (gmap Z Thread).

Definition priority_of (ts : Threads) (t : Z) : Z := priority (ts !!! t).
Definition status_of (ts : Threads) (t : Z) : Status := status (ts !!! t).

Definition on_thread (t : Z) (f : Thread → Thread) (ts : Threads) : Threads := alter f t ts.

(** ** [Builder] *)
Record Builder : Type := mkBuilder {
  b_priority : Z;
  b_name : string;
  b_userproc : option Z;
  b_pagetable : option Z
}.

(** [Builder::new]; the closure it boxes is the thread's program. *)
Definition builder_new : Builder := mkBuilder PRI_DEFAULT "Default" None None.
Definition set_b_priority (p : Z) (b : Builder) : Builder :=
  mkBuilder p (b_name b) (b_userproc b) (b_pagetable b).
Definition set_b_name (n : string) (b : Builder) : Builder :=
  mkBuilder (b_priority b) n (b_userproc b) (b_pagetable b).
Definition set_b_pagetable (p : Z) (b : Builder) : Builder :=
  mkBuilder (b_priority b) (b_name b) (b_userproc b) (Some p).
Definition set_b_userproc (u : Z) (b : Builder) : Builder :=
  mkBuilder (b_priority b) (b_name b) (Some u) (b_pagetable b).

(** [Builder::build], given the stack [kalloc] returned: the magic number is
    written at its bottom. *)
Definition build (TID stack : Z) (b : Builder) : Thread :=
  thread_new TID (b_name b) stack (b_priority b) (b_userproc b) (b_pagetable b) MAGIC.

(** ** Lemmas *)

Lemma lookup_total_on_thread ts t f u th :
  ts !! t = Some th → on_thread t f ts !!! u = if decide (u = t) then f th else ts !!! u.
Proof.
  intros Ht. unfold on_thread. rewrite !lookup_total_alt. destruct (decide (u = t)) as [->|].
  - by rewrite lookup_alter_eq, Ht.
  - by rewrite lookup_alter_ne by done.
Qed.

Lemma on_thread_lookup ts t f u :
  on_thread t f ts !! u = if decide (u = t) then f <$> ts !! t else ts !! u.
Proof.
  unfold on_thread. destruct (decide (u = t)) as [->|];
    [by rewrite lookup_alter_eq|by rewrite lookup_alter_ne].
Qed.
