(* ===== verification/Scheduler.v ===== *)
(** * Thread schedulers

    [thread/scheduler.rs] and its two implementations, [scheduler/fcfs.rs] and
    [scheduler/priority.rs].  A [VecDeque] is the list of its elements from the
    front to the back.  [Schedule] is the trait; [ScheduleLaws] is what the
    thread manager needs of it, and both schedulers promise it. *)

From S2P Require Import Prelude Thread.

(** What a scheduler reads of the rest of the kernel: the priorities of the
    threads, and the current thread. *)
Record View : Type := mkView { v_threads : Threads; v_current : Z }.

Definition prio (v : View) (t : Z) : Z := priority_of (v_threads v) t.

(** [trait Schedule] *)
Class Schedule (Sc : Type) := {
  sched_default : Sc;
  register : View → Z → Sc → outcome Sc;
  schedule : View → Sc → outcome (option Z * Sc)
}.

(** The contract.  [queued] is the threads the scheduler holds, in some order;
    [prio_ok] is the priorities it can file. *)
Class ScheduleLaws (Sc : Type) `{Schedule Sc} := {
  queued : Sc → list Z;
  prio_ok : Z → Prop;
  sched_ok : Sc → Prop;    (* the representation invariant *)
  default_ok : sched_ok sched_default ∧ queued sched_default = [];
  register_ok : ∀ v t s, sched_ok s → prio_ok (prio v t) →
    ∃ s', register v t s = Ret s' ∧ sched_ok s' ∧ queued s' ≡ₚ t :: queued s;
  schedule_ok : ∀ v s, sched_ok s → Forall (λ t, prio_ok (prio v t)) (queued s) →
    ∃ next s', schedule v s = Ret (next, s') ∧ sched_ok s' ∧
      match next with
      | Some t => queued s ≡ₚ t :: queued s'
      | None => queued s' ≡ₚ queued s ∧
                (queued s = [] ∨ status_of (v_threads v) (v_current v) = Running)
      end
}.

(** ** Deques *)

Definition push_front {A} (x : A) (l : list A) : list A := x :: l.
Definition push_back {A} (x : A) (l : list A) : list A := l ++ [x].
Definition pop_back {A} (l : list A) : option (A * list A) :=
  match rev l with [] => None | x :: r => Some (x, rev r) end.

Lemma pop_back_snoc {A} (l : list A) x : pop_back (l ++ [x]) = Some (x, l).
Proof. unfold pop_back. rewrite rev_app_distr. cbn. by rewrite rev_involutive. Qed.

Lemma pop_back_None {A} (l : list A) : pop_back l = None ↔ l = [].
Proof.
  split; [|by intros ->]. destruct l as [|x l _] using rev_ind; [done|].
  by rewrite pop_back_snoc.
Qed.

Lemma pop_back_Some {A} (l : list A) x r : pop_back l = Some (x, r) → l = r ++ [x].
Proof.
  destruct l as [|y l _] using rev_ind; [done|]. rewrite pop_back_snoc. by intros [= -> ->].
Qed.

(** ** [scheduler/fcfs.rs] *)

Record Fcfs : Type := mkFcfs { fcfs_queue : list Z }.

Definition fcfs_register (t : Z) (s : Fcfs) : Fcfs := mkFcfs (push_front t (fcfs_queue s)).

Definition fcfs_schedule (s : Fcfs) : option Z * Fcfs :=
  match pop_back (fcfs_queue s) with
  | Some (t, r) => (Some t, mkFcfs r)
  | None => (None, s)
  end.

#[export] Instance Fcfs_schedule : Schedule Fcfs := {
  sched_default := mkFcfs [];
  register := λ _ t s, Ret (fcfs_register t s);
  schedule := λ _ s, Ret (fcfs_schedule s)
}.

#[export, program] Instance Fcfs_laws : ScheduleLaws Fcfs := {
  queued := fcfs_queue;
  prio_ok := λ _, True;
  sched_ok := λ _, True
}.
Next Obligation. done. Qed.
Next Obligation. intros v t s _ _. by eexists. Qed.
Next Obligation.
  intros v [q] _ _. cbn. unfold fcfs_schedule. cbn [fcfs_queue].
  destruct (pop_back q) as [[t r]|] eqn:E; do 2 eexists; do 2 (split; [done|]); cbn.
  - rewrite (pop_back_Some _ _ _ E). by rewrite <-Permutation_cons_append.
  - split; [done|]. left. by apply pop_back_None.
Qed.

(** ** [scheduler/priority.rs] *)

(** [struct PriorityScheduler([VecDeque<Arc<Thread>>; 64])] *)
Record PriorityScheduler : Type := mkPS { buckets : list (list Z) }.

Definition ps_default : PriorityScheduler := mkPS (replicate 64 []).

(** [self.0[i]], and an assignment to it; an index of 64 or more panics. *)
Definition bucket (i : Z) (s : PriorityScheduler) : outcome (list Z) :=
  match buckets s !! Z.to_nat i with Some q => Ret q | None => Panic IndexOutOfBounds end.

Definition set_bucket (i : Z) (q : list Z) (s : PriorityScheduler) : PriorityScheduler :=
  mkPS (<[Z.to_nat i := q]> (buckets s)).

Definition ps_register (v : View) (t : Z) (s : PriorityScheduler) : outcome PriorityScheduler :=
  q ← bucket (prio v t) s ;
  mret (set_bucket (prio v t) (push_front t q) s).

(** The inner loop of [update_priority]: the threads popped from the front of
    bucket [i], each kept in [temp] or moved to the bucket of its priority. *)
Fixpoint rebucket (v : View) (i : Z) (q temp : list Z) (s : PriorityScheduler)
    : outcome (list Z * PriorityScheduler) :=
  match q with
  | [] => mret (temp, s)
  | newitem :: q =>
      if bool_decide (prio v newitem = i) then rebucket v i q (push_back newitem temp) s
      else b ← bucket (prio v newitem) s ;
           rebucket v i q temp (set_bucket (prio v newitem) (push_back newitem b) s)
  end.

(** The outer loop from bucket [i] on, [n] turns. *)
Fixpoint update_from (v : View) (n : nat) (i : Z) (s : PriorityScheduler)
    : outcome PriorityScheduler :=
  match n with
  | O => mret s
  | S n =>
      q ← bucket i s ;
      r ← rebucket v i q [] (set_bucket i [] s) ;
      update_from v n (i + 1) (set_bucket i r.1 r.2)
  end.

Definition update_priority (v : View) (s : PriorityScheduler) : outcome PriorityScheduler :=
  update_from v 64 0 s.

(** The second loop of [schedule]: the buckets below [n], the highest first. *)
Fixpoint pick (v : View) (n : nat) (s : PriorityScheduler)
    : outcome (option Z * PriorityScheduler) :=
  match n with
  | O => mret (None, s)
  | S n =>
      q ← bucket (Z.of_nat n) s ;
      match pop_back q with
      | None => pick v n s
      | Some (chosen, r) =>
          if bool_decide (prio v chosen < prio v (v_current v)) &&
             bool_decide (status_of (v_threads v) (v_current v) = Running)
          then mret (None, set_bucket (Z.of_nat n) (push_back chosen r) s)
          else mret (Some chosen, set_bucket (Z.of_nat n) r s)
      end
  end.

Definition ps_schedule (v : View) (s : PriorityScheduler)
    : outcome (option Z * PriorityScheduler) :=
  s ← update_priority v s ;
  pick v 64 s.

#[export] Instance PS_schedule : Schedule PriorityScheduler := {
  sched_default := ps_default;
  register := ps_register;
  schedule := ps_schedule
}.

(** *** Buckets *)

Lemma concat_insert {A} (bs : list (list A)) i q q' :
  bs !! i = Some q → q ++ concat (<[i := q']> bs) ≡ₚ q' ++ concat bs.
Proof.
  intros Hi. pose proof (lookup_lt_Some _ _ _ Hi).
  rewrite insert_take_drop by done. rewrite <-(take_drop_middle _ _ _ Hi) at 3.
  rewrite !concat_app. cbn [concat]. solve_Permutation.
Qed.

Lemma elem_of_concat {A} (x : A) bs : x ∈ concat bs ↔ ∃ b, x ∈ b ∧ b ∈ bs.
Proof.
  rewrite list_elem_of_In, in_concat. setoid_rewrite list_elem_of_In. naive_solver.
Qed.

Section Priority.
Context (v : View).

(** A scheduler of 64 buckets. *)
Definition ps_ok (s : PriorityScheduler) : Prop := length (buckets s) = 64%nat.
Definition ps_queued (s : PriorityScheduler) : list Z := concat (buckets s).
Definition pri_ok (p : Z) : Prop := 0 ≤ p < 64.

(** Bucket [j] holds threads of priority [j] only. *)
Definition settled (j : Z) (s : PriorityScheduler) : Prop :=
  ∀ q, bucket j s = Ret q → Forall (λ t, prio v t = j) q.

Lemma bucket_ok s i : ps_ok s → pri_ok i → ∃ q, bucket i s = Ret q.
Proof.
  unfold ps_ok, pri_ok, bucket. intros Hs Hi.
  destruct (lookup_lt_is_Some_2 (buckets s) (Z.to_nat i)) as [q ->]; [lia|by eexists].
Qed.

Lemma bucket_lookup s i q : bucket i s = Ret q ↔ buckets s !! Z.to_nat i = Some q.
Proof. unfold bucket. destruct (buckets s !! Z.to_nat i); naive_solver. Qed.

Lemma set_bucket_ok s i q : ps_ok s → ps_ok (set_bucket i q s).
Proof. unfold ps_ok, set_bucket. cbn. by rewrite length_insert. Qed.

Lemma bucket_set_bucket s i j q :
  ps_ok s → pri_ok i → pri_ok j →
  bucket j (set_bucket i q s) = if bool_decide (i = j) then Ret q else bucket j s.
Proof.
  unfold ps_ok, pri_ok, bucket, set_bucket. cbn [buckets]. intros Hs Hi Hj.
  case_bool_decide as E.
  - subst. by rewrite list_lookup_insert_eq by lia.
  - by rewrite list_lookup_insert_ne by lia.
Qed.

Lemma queued_set_bucket s i q q' :
  bucket i s = Ret q → q ++ ps_queued (set_bucket i q' s) ≡ₚ q' ++ ps_queued s.
Proof. rewrite bucket_lookup. apply concat_insert. Qed.

Lemma queued_set_bucket_id s i q q' :
  bucket i s = Ret q → q' ≡ₚ q → ps_queued (set_bucket i q' s) ≡ₚ ps_queued s.
Proof.
  intros Hq Hp. apply (Permutation_app_inv_l q).
  rewrite (queued_set_bucket _ _ _ _ Hq). by rewrite Hp.
Qed.

Lemma ps_register_run t s :
  ps_ok s → pri_ok (prio v t) →
  ∃ s', ps_register v t s = Ret s' ∧ ps_ok s' ∧ ps_queued s' ≡ₚ t :: ps_queued s.
Proof.
  intros Hs Hp. destruct (bucket_ok _ _ Hs Hp) as [q Hq].
  eexists. split; [|split].
  - unfold ps_register, mbind, outcome_bind. rewrite Hq. done.
  - by apply set_bucket_ok.
  - apply (Permutation_app_inv_l q).
    rewrite (queued_set_bucket _ _ _ _ Hq). unfold push_front. solve_Permutation.
Qed.

(** A priority of 64 or more, which [set_priority] and [Builder::priority] do
    not refuse, stops the kernel. *)
Lemma ps_register_panic t s :
  ps_ok s → 64 ≤ prio v t → ps_register v t s = Panic IndexOutOfBounds.
Proof.
  unfold ps_ok, ps_register, bucket. intros Hs Hp.
  by rewrite (lookup_ge_None_2 (buckets s)) by lia.
Qed.

(** The inner loop keeps what belongs to bucket [i], in order, and files the
    rest, each in the bucket of its priority. *)
Lemma rebucket_run i q temp s :
  ps_ok s → pri_ok i → Forall (λ t, pri_ok (prio v t)) q →
  ∃ s', rebucket v i q temp s = Ret (temp ++ filter (λ t, prio v t = i) q, s') ∧ ps_ok s' ∧
    (temp ++ filter (λ t, prio v t = i) q) ++ ps_queued s' ≡ₚ temp ++ q ++ ps_queued s ∧
    bucket i s' = bucket i s ∧
    (∀ j, pri_ok j → settled j s → settled j s').
Proof.
  intros Hs Hi Hq. revert temp s Hs.
  induction Hq as [|t q Ht Hq IH]; intros temp s Hs; cbn [rebucket].
  - exists s. rewrite filter_nil, app_nil_r. by split_and!.
  - rewrite filter_cons. case_bool_decide as Ei.
    + rewrite decide_True by done.
      destruct (IH (push_back t temp) s Hs) as (s' & HR & Hs' & HP & Hb & Hst).
      unfold push_back in *. rewrite <-app_assoc in HR.
      exists s'. split_and!; try done.
      etrans; [|etrans; [exact HP|]]; solve_Permutation.
    + rewrite decide_False by done.
      destruct (bucket_ok _ _ Hs Ht) as [b Hb0].
      unfold mbind, outcome_bind. rewrite Hb0.
      destruct (IH temp (set_bucket (prio v t) (push_back t b) s)) as (s' & HR & Hs' & HP & Hb & Hst);
        [by apply set_bucket_ok|].
      exists s'. split_and!; try done.
      * rewrite HP. apply (Permutation_app_inv_l b). rewrite !(Permutation_app_swap_app b).
        rewrite (queued_set_bucket _ _ _ _ Hb0). unfold push_back. solve_Permutation.
      * rewrite Hb, bucket_set_bucket by done. by rewrite bool_decide_eq_false_2 by done.
      * intros j Hj Hset. apply Hst; [done|]. intros c.
        rewrite bucket_set_bucket by done. case_bool_decide as Ej; [|apply Hset].
        intros [= <-]. subst j. apply Forall_app. split; [by apply Hset|by constructor].
Qed.

Lemma queued_bucket s i q t : bucket i s = Ret q → t ∈ q → t ∈ ps_queued s.
Proof.
  rewrite bucket_lookup. intros Hq Ht. apply elem_of_concat. exists q.
  split; [done|]. by eapply list_elem_of_lookup_2.
Qed.

Lemma queued_Forall_bucket P s i q : bucket i s = Ret q → Forall P (ps_queued s) → Forall P q.
Proof.
  rewrite !Forall_forall. intros Hq HP t Ht. eapply HP, queued_bucket; eauto.
Qed.

(** The outer loop settles the buckets from [i] on and keeps the rest so. *)
Lemma update_from_run n i s :
  ps_ok s → 0 ≤ i → i + Z.of_nat n = 64 → Forall (λ t, pri_ok (prio v t)) (ps_queued s) →
  (∀ j, 0 ≤ j < i → settled j s) →
  ∃ s', update_from v n i s = Ret s' ∧ ps_ok s' ∧ ps_queued s' ≡ₚ ps_queued s ∧
    (∀ j, pri_ok j → settled j s').
Proof.
  revert i s. induction n as [|n IH]; intros i s Hs Hi Hn Hq Hset; cbn [update_from].
  { exists s. split_and!; try done. intros j Hj. apply Hset. unfold pri_ok in Hj. lia. }
  assert (Hpi : pri_ok i) by (unfold pri_ok; lia).
  destruct (bucket_ok _ _ Hs Hpi) as [q Hb]. unfold mbind, outcome_bind at 1. rewrite Hb.
  pose proof (queued_set_bucket _ _ _ [] Hb) as H1. cbn [app] in H1.
  destruct (rebucket_run i q [] (set_bucket i [] s)) as (s1 & -> & Hs1 & HP & Hb1 & Hst);
    [by apply set_bucket_ok|done|by eapply queued_Forall_bucket|].
  cbn [app fst snd outcome_bind] in *.
  rewrite bucket_set_bucket, bool_decide_eq_true_2 in Hb1 by done.
  set (kept := filter _ _) in *.
  assert (HP2 : ps_queued (set_bucket i kept s1) ≡ₚ ps_queued s).
  { pose proof (queued_set_bucket _ _ _ kept Hb1) as H2. cbn [app] in H2.
    by rewrite H2, HP, H1. }
  destruct (IH (i + 1) (set_bucket i kept s1)) as (s' & HU & Hs' & HP' & Hset');
    [by apply set_bucket_ok|lia|lia|by rewrite HP2| |].
  { intros j Hj c. assert (pri_ok j) by (unfold pri_ok; lia).
    rewrite bucket_set_bucket by done. case_bool_decide as Ej.
    - intros [= <-]. subst j. apply Forall_forall. intros t Ht. by apply list_elem_of_filter in Ht as [??].
    - apply Hst; [done|]. intros c'. rewrite bucket_set_bucket by done.
      rewrite bool_decide_eq_false_2 by done. apply Hset. lia. }
  exists s'. rewrite HU, <-HP2. by split_and!.
Qed.

Lemma update_priority_run s :
  ps_ok s → Forall (λ t, pri_ok (prio v t)) (ps_queued s) →
  ∃ s', update_priority v s = Ret s' ∧ ps_ok s' ∧ ps_queued s' ≡ₚ ps_queued s ∧
    (∀ j, pri_ok j → settled j s').
Proof. intros. apply update_from_run; try done; lia. Qed.

Lemma rebucket_settled i q temp s :
  Forall (λ t, prio v t = i) q → rebucket v i q temp s = Ret (temp ++ q, s).
Proof.
  intros Hq. revert temp. induction Hq as [|t q Ht _ IH]; intros temp; cbn [rebucket].
  - by rewrite app_nil_r.
  - rewrite bool_decide_eq_true_2 by done. rewrite IH. unfold push_back.
    by rewrite <-app_assoc.
Qed.

Lemma set_bucket_same s i q : bucket i s = Ret q → set_bucket i q s = s.
Proof.
  rewrite bucket_lookup. destruct s as [bs]. unfold set_bucket. cbn. intros.
  by rewrite list_insert_id.
Qed.

(** Without a change of priorities the re-filing changes nothing, so that
    threads of one priority keep the order they were registered in. *)
Lemma update_from_settled n i s :
  ps_ok s → 0 ≤ i → i + Z.of_nat n = 64 → (∀ j, pri_ok j → settled j s) →
  update_from v n i s = Ret s.
Proof.
  revert i. induction n as [|n IH]; intros i Hs Hi Hn Hset; cbn [update_from]; [done|].
  assert (Hpi : pri_ok i) by (unfold pri_ok; lia).
  destruct (bucket_ok _ _ Hs Hpi) as [q Hb]. unfold mbind, outcome_bind at 1. rewrite Hb.
  rewrite rebucket_settled by (by eapply Hset). cbn [app fst snd outcome_bind].
  replace (set_bucket i q (set_bucket i [] s)) with s; [apply IH; (lia || done)|].
  unfold set_bucket. cbn [buckets]. rewrite list_insert_insert_eq.
  symmetry. by apply set_bucket_same.
Qed.

Lemma update_priority_settled s :
  ps_ok s → (∀ j, pri_ok j → settled j s) → update_priority v s = Ret s.
Proof. intros. apply update_from_settled; (lia || done). Qed.

Definition runs : bool := bool_decide (status_of (v_threads v) (v_current v) = Running).

(** What the choice among the buckets below [n] is, when they are settled and
    the ones above are empty. *)
Lemma pick_run n s :
  ps_ok s → Z.of_nat n ≤ 64 → (∀ j, pri_ok j → settled j s) →
  (∀ j, Z.of_nat n ≤ j < 64 → bucket j s = Ret []) →
  match pick v n s with
  | Ret (Some t, s') =>
      ps_ok s' ∧ ps_queued s ≡ₚ t :: ps_queued s' ∧
      (∀ u, u ∈ ps_queued s → prio v u ≤ prio v t) ∧
      (runs = true → prio v (v_current v) ≤ prio v t) ∧
      (∃ r, bucket (prio v t) s = Ret (r ++ [t]))
  | Ret (None, s') =>
      s' = s ∧ (ps_queued s = [] ∨
        runs = true ∧ ∀ u, u ∈ ps_queued s → prio v u < prio v (v_current v))
  | Panic _ => False
  end.
Proof.
  intros Hs Hn Hset. revert Hn. induction n as [|n IH]; intros Hn Hemp; cbn [pick].
  { split; [done|]. left. unfold ps_queued. destruct s as [bs]. cbn in *.
    apply concat_nil_Forall, Forall_lookup. intros i q Hq. unfold ps_ok in Hs. cbn in Hs.
    pose proof (lookup_lt_Some _ _ _ Hq).
    specialize (Hemp (Z.of_nat i)). unfold bucket in Hemp. cbn in Hemp.
    rewrite Nat2Z.id, Hq in Hemp. assert (Ret q = Ret []) as [=] by (apply Hemp; lia). done. }
  assert (Hpn : pri_ok (Z.of_nat n)) by (unfold pri_ok; lia).
  destruct (bucket_ok _ _ Hs Hpn) as [q Hb]. unfold mbind, outcome_bind. rewrite Hb.
  destruct (pop_back q) as [[t r]|] eqn:Hpop.
  2: { apply pop_back_None in Hpop as ->. apply IH; [lia|].
       intros j Hj. destruct (decide (j = Z.of_nat n)) as [->|]; [done|]. apply Hemp. lia. }
  apply pop_back_Some in Hpop as ->.
  assert (Hpt : prio v t = Z.of_nat n).
  { pose proof (Hset _ Hpn _ Hb) as HF. apply Forall_app in HF as [_ HF].
    by apply Forall_cons in HF as [??]. }
  assert (Hmax : ∀ u, u ∈ ps_queued s → prio v u ≤ prio v t).
  { intros u Hu. apply elem_of_concat in Hu as (b & Hub & Hb').
    apply list_elem_of_lookup in Hb' as [i Hi].
    pose proof (lookup_lt_Some _ _ _ Hi) as Hlt. rewrite Hs in Hlt.
    assert (Hbi : bucket (Z.of_nat i) s = Ret b) by (apply bucket_lookup; by rewrite Nat2Z.id).
    assert (pri_ok (Z.of_nat i)) as Hpi by (unfold pri_ok; lia).
    pose proof (Hset _ Hpi _ Hbi) as HF. rewrite Forall_forall in HF.
    rewrite (HF _ Hub), Hpt.
    destruct (decide (Z.of_nat i ≤ Z.of_nat n)); [done|].
    rewrite Hemp in Hbi by lia. injection Hbi as <-. by apply not_elem_of_nil in Hub. }
  fold runs. destruct (bool_decide (prio v t < prio v (v_current v)) && runs) eqn:E.
  - apply andb_true_iff in E as [E1 E2]. apply bool_decide_eq_true in E1.
    split; [by apply set_bucket_same|]. right. split; [done|].
    intros u Hu. specialize (Hmax u Hu). lia.
  - split_and!.
    + by apply set_bucket_ok.
    + apply (Permutation_app_inv_l r).
      pose proof (queued_set_bucket _ _ _ r Hb) as HP.
      etrans; [symmetry; exact HP|]. solve_Permutation.
    + done.
    + intros Hr. rewrite Hr, andb_true_r in E. apply bool_decide_eq_false in E. lia.
    + exists r. by rewrite Hpt.
Qed.
End Priority.

Lemma Forall_perm {A} (P : A → Prop) l l' : l ≡ₚ l' → Forall P l → Forall P l'.
Proof. by intros ->. Qed.

Lemma ps_schedule_run v s :
  ps_ok s → Forall (λ t, pri_ok (prio v t)) (ps_queued s) →
  ∃ next s', ps_schedule v s = Ret (next, s') ∧ ps_ok s' ∧
    match next with
    | Some t => ps_queued s ≡ₚ t :: ps_queued s' ∧
        (∀ u, u ∈ ps_queued s → prio v u ≤ prio v t) ∧
        (runs v = true → prio v (v_current v) ≤ prio v t)
    | None => ps_queued s' ≡ₚ ps_queued s ∧
        (ps_queued s = [] ∨
         runs v = true ∧ ∀ u, u ∈ ps_queued s → prio v u < prio v (v_current v))
    end.
Proof.
  intros Hs Hq. destruct (update_priority_run _ _ Hs Hq) as (s1 & HU & Hs1 & HP & Hset).
  unfold ps_schedule, mbind, outcome_bind. rewrite HU.
  pose proof (pick_run v 64 s1 Hs1 ltac:(lia) Hset ltac:(intros; lia)) as Hpick.
  destruct (pick v 64 s1) as [[[t|] s2]|p]; [| |done].
  - destruct Hpick as (? & HP2 & Hmax & Hrun & _). exists (Some t), s2.
    rewrite <-HP. split_and!; try done. intros u Hu. apply Hmax. by rewrite HP.
  - destruct Hpick as (-> & Hd). exists None, s1. split_and!; try done.
    destruct Hd as [Hd|[Hr Hd]].
    + left. apply Permutation_nil_r. by rewrite <-HP, Hd.
    + right. split; [done|]. intros u Hu. apply Hd. by rewrite HP.
Qed.

#[export, program] Instance PS_laws : ScheduleLaws PriorityScheduler := {
  queued := ps_queued;
  prio_ok := pri_ok;
  sched_ok := ps_ok
}.
Next Obligation. done. Qed.
Next Obligation. intros. by apply ps_register_run. Qed.
Next Obligation.
  intros v s Hs Hq. destruct (ps_schedule_run v s Hs Hq) as (next & s' & HR & Hs' & Hd).
  exists next, s'. split_and!; [done..|]. destruct next; [by destruct Hd|].
  destruct Hd as [? [Hd|[Hd _]]]; split; [done|by left|done|].
  right. by apply bool_decide_eq_true in Hd.
Qed.


(** Three threads of priorities 31, 40 and 40, the last two registered in that
    order, while a thread of priority 31 runs. *)
Definition demo_thread (t p : Z) (st : Status) : Thread :=
  with_status st (thread_new t "demo" 0 p None None MAGIC).

Definition demo_view : View :=
  mkView (list_to_map [(0, demo_thread 0 31 Running); (1, demo_thread 1 31 Ready);
                       (2, demo_thread 2 40 Ready); (3, demo_thread 3 40 Ready)]) 0.

Definition demo_scheduler : PriorityScheduler :=
  match (s ← ps_register demo_view 1 ps_default ; s ← ps_register demo_view 2 s ;
         ps_register demo_view 3 s) with
  | Ret s => s
  | Panic _ => ps_default
  end.

