(* ===== verification/Manager.v ===== *)
(** * The thread manager

    [thread/manager.rs] and the operations of [thread.rs] that change threads:
    registration, [schedule] up to and including [schedule_tail], [block],
    [wake_up], [exit], [set_priority] and [Builder::spawn].  Everything is over
    the interface of [Scheduler.v], so the theorems hold of both schedulers.

    [schedule] ends where the switch has happened and [schedule_tail] has run
    on the new thread's stack (interrupts stay off from the first line to
    there); what the old thread still does when it is resumed, restoring the
    interrupt level it had, is the value [schedule] returns. *)

From S2P Require Import Prelude Intr Thread Scheduler.

(** [struct Manager], with the state it works on: the hart, the counter [TID],
    the threads and the page table in use ([None]: the kernel's). *)
Record Kernel (Sc : Type) : Type := mkKernel {
  hart : Hart;
  TID : Z;
  threads : Threads;
  scheduler : Sc;
  current : Z;
  all : list Z;
  active : option Z
}.
Arguments mkKernel {Sc}. Arguments hart {Sc}. Arguments TID {Sc}. Arguments threads {Sc}.
Arguments scheduler {Sc}. Arguments current {Sc}. Arguments all {Sc}. Arguments active {Sc}.

Section Manager.
Context {Sc : Type} `{SI : Schedule Sc}.
Abbreviation K := (Kernel Sc).

Definition with_hart (h : Hart) (k : K) : K :=
  mkKernel h (TID k) (threads k) (scheduler k) (current k) (all k) (active k).
Definition with_TID (n : Z) (k : K) : K :=
  mkKernel (hart k) n (threads k) (scheduler k) (current k) (all k) (active k).
Definition with_threads (ts : Threads) (k : K) : K :=
  mkKernel (hart k) (TID k) ts (scheduler k) (current k) (all k) (active k).
Definition with_scheduler (s : Sc) (k : K) : K :=
  mkKernel (hart k) (TID k) (threads k) s (current k) (all k) (active k).
Definition with_current (t : Z) (k : K) : K :=
  mkKernel (hart k) (TID k) (threads k) (scheduler k) t (all k) (active k).
Definition with_all (l : list Z) (k : K) : K :=
  mkKernel (hart k) (TID k) (threads k) (scheduler k) (current k) l (active k).
Definition with_active (r : option Z) (k : K) : K :=
  mkKernel (hart k) (TID k) (threads k) (scheduler k) (current k) (all k) r.

Definition view (k : K) : View := mkView (threads k) (current k).
Definition thread (k : K) (t : Z) : Thread := threads k !!! t.
Definition current_thread (k : K) : Thread := thread k (current k).

(** An operation of the hart. *)
Definition hart_op {A} (m : M Hart A) : M K A := λ k,
  match m (hart k) with Ret (a, h) => Ret (a, with_hart h k) | Panic p => Panic p end.

Definition interrupt_set' (b : bool) : M K bool := hart_op (interrupt_set b).

(** An assignment to fields of a thread. *)
Definition update (t : Z) (f : Thread → Thread) : M K unit :=
  modify (λ k, with_threads (on_thread t f (threads k)) k).

Definition set_status (t : Z) (s : Status) : M K unit := update t (with_status s).

(** [self.scheduler.lock().register(t)] *)
Definition sched_register (t : Z) : M K unit := λ k,
  match register (view k) t (scheduler k) with
  | Ret s => Ret ((), with_scheduler s k)
  | Panic p => Panic p
  end.

(** [self.scheduler.lock().schedule()] *)
Definition sched_schedule : M K (option Z) := λ k,
  match schedule (view k) (scheduler k) with
  | Ret (next, s) => Ret (next, with_scheduler s k)
  | Panic p => Panic p
  end.

(** [Manager::register] *)
Definition manager_register (t : Z) : M K unit :=
  sched_register t ;;
  modify (λ k, with_all (push_back t (all k)) k).

(** [Manager::schedule_tail] *)
Definition schedule_tail (previous : Z) : M K unit :=
  i ← hart_op interrupt_get ;
  lift (assert_ (negb i)) ;;
  p ← gets (λ k, thread k previous) ;
  (match status p with
   | Dying => modify (λ k, with_all (filter (λ t, t ≠ previous) (all k)) k)
   | Running => set_status previous Ready ;; sched_register previous
   | Blocked => mret ()
   | Ready => fail Unreachable
   end) ;;
  modify (λ k, with_active (pagetable (current_thread k)) k).

(** [Manager::schedule].  [Some old]: another thread runs now, and the caller,
    once it is scheduled again, goes on with [interrupt::set(old)]; [None]:
    the caller runs on. *)
Definition manager_schedule : M K (option bool) :=
  old ← interrupt_set' false ;
  next ← sched_schedule ;
  c ← gets current_thread ;
  lift (assert_ (bool_decide (status c = Running) || bool_decide (is_Some next))) ;;
  lift (assert_ (negb (overflow c))) ;;
  match next with
  | Some next =>
      n ← gets (λ k, thread k next) ;
      lift (assert_ (bool_decide (status n = Ready))) ;;
      lift (assert_ (negb (overflow n))) ;;
      set_status next Running ;;
      previous ← gets current ;
      modify (with_current next) ;;
      schedule_tail previous ;;
      mret (Some old)
  | None => interrupt_set' old ;; mret None
  end.

(** [block], up to its call of [schedule]. *)
Definition block_enter : M K unit :=
  c ← gets current ; set_status c Blocked.

(** [exit], up to its call of [schedule]. *)
Definition exit_enter : M K unit :=
  c ← gets current ; set_status c Dying.

(** [wake_up] *)
Definition wake_up (t : Z) : M K unit :=
  th ← gets (λ k, thread k t) ;
  lift (assert_ (bool_decide (status th = Blocked))) ;;
  set_status t Ready ;;
  sched_register t.

(** [set_priority] up to its call of [schedule], and after it. *)
Definition set_priority_enter (p : Z) : M K unit :=
  c ← gets current ; update c (with_priority p).
Definition set_priority_leave (p : Z) : M K unit :=
  c ← gets current ; update c (with_setted (Some p)).

(** [get_priority] *)
Definition get_priority : M K Z := gets (λ k, priority (current_thread k)).

(** [Builder::spawn] up to its call of [schedule], given the stack [kalloc]
    returned; the new thread's identifier. *)
Definition spawn_enter (stack : Z) (b : Builder) : M K Z :=
  t ← gets TID ;
  modify (with_TID (t + 1)) ;;
  modify (λ k, with_threads (<[t := build t stack b]> (threads k)) k) ;;
  manager_register t ;;
  mret t.

(** [Manager::get]: the initial thread, on the boot stack, and the idle
    thread, on a stack of [kalloc]. *)
Definition manager_new (bootstack idle_stack : Z) (h : Hart) : outcome K :=
  let initial := with_status Running (thread_new 0 "Initial" bootstack PRI_DEFAULT None None MAGIC) in
  let idle := build 1 idle_stack (set_b_priority PRI_MIN (set_b_name "Idle" builder_new)) in
  r ← manager_register 1
        (mkKernel h 2 {[ 0 := initial; 1 := idle ]} sched_default 0 [0] None) ;
  mret r.2.

(** ** The invariant *)

Context `{SL : !ScheduleLaws Sc}.

Record wf (k : K) : Prop := {
  wf_hart : hart_ok (hart k);
  wf_sched : sched_ok (scheduler k);
  wf_nodup : NoDup (queued (scheduler k));
  wf_ready : ∀ t, t ∈ queued (scheduler k) ↔
    ∃ th, threads k !! t = Some th ∧ status th = Ready;
  wf_running : ∀ t th, threads k !! t = Some th → status th = Running → t = current k;
  wf_current : ∃ c, threads k !! current k = Some c ∧ status c ≠ Ready;
  wf_prio : ∀ t th, threads k !! t = Some th → prio_ok (priority th);
  wf_magic : ∀ t th, threads k !! t = Some th → magic th = MAGIC;
  wf_tid : ∀ t th, threads k !! t = Some th → t < TID k
}.

Lemma thread_lookup k t th : threads k !! t = Some th → thread k t = th.
Proof. intros E. unfold thread. by rewrite lookup_total_alt, E. Qed.

Lemma current_not_queued k : wf k → current k ∉ queued (scheduler k).
Proof.
  intros W Hq. apply (wf_ready _ W) in Hq as (th & Ht & Hs).
  destruct (wf_current _ W) as (c & Hc & Hn). naive_solver.
Qed.

Lemma overflow_wf k t th : wf k → threads k !! t = Some th → overflow th = false.
Proof.
  intros W Ht. unfold overflow. apply bool_decide_eq_false_2. intros Hm.
  by apply Hm, (wf_magic _ W t).
Qed.

Lemma prio_view k t th : threads k !! t = Some th → prio (view k) t = priority th.
Proof. intros E. unfold prio, priority_of. cbn. by rewrite lookup_total_alt, E. Qed.

(** Fields the operations of this file never change. *)
Definition same_thread (th th' : Thread) : Prop :=
  priority th' = priority th ∧ priority_setted th' = priority_setted th ∧
  donationq th' = donationq th ∧ stored_prev th' = stored_prev th ∧
  magic th' = magic th ∧ tid th' = tid th ∧ pagetable th' = pagetable th.

(** The general step of the proofs below: the threads keep their fields but
    the status, and the queue is the ready threads of the new store. *)
Lemma wf_step k k' :
  wf k →
  hart_ok (hart k') → sched_ok (scheduler k') → TID k' = TID k →
  NoDup (queued (scheduler k')) →
  (∀ t, t ∈ queued (scheduler k') ↔ ∃ th, threads k' !! t = Some th ∧ status th = Ready) →
  (∀ t th, threads k' !! t = Some th → status th = Running → t = current k') →
  (∃ c, threads k' !! current k' = Some c ∧ status c ≠ Ready) →
  (∀ t th', threads k' !! t = Some th' → ∃ th, threads k !! t = Some th ∧ same_thread th th') →
  wf k'.
Proof.
  intros W ? ? HT ? ? ? ? Hsame. split; try done.
  - intros t th' Ht. destruct (Hsame _ _ Ht) as (th & Hth & -> & _). by eapply wf_prio.
  - intros t th' Ht. destruct (Hsame _ _ Ht) as (th & Hth & _ & _ & _ & _ & -> & _).
    by eapply wf_magic.
  - intros t th' Ht. destruct (Hsame _ _ Ht) as (th & Hth & _).
    rewrite HT. by eapply wf_tid.
Qed.

(** *** [register] through the interface *)
Lemma sched_register_run k t th :
  sched_ok (scheduler k) → threads k !! t = Some th → prio_ok (priority th) →
  ∃ s', sched_register t k = Ret ((), with_scheduler s' k) ∧ sched_ok s' ∧
    queued s' ≡ₚ t :: queued (scheduler k).
Proof.
  intros Hs Ht Hp. destruct (register_ok (view k) t (scheduler k)) as (s' & HR & ? & ?);
    [done|by rewrite (prio_view _ _ _ Ht)|].
  exists s'. unfold sched_register. by rewrite HR.
Qed.

Lemma sched_schedule_run k :
  wf k →
  ∃ next s', sched_schedule k = Ret (next, with_scheduler s' k) ∧ sched_ok s' ∧
    match next with
    | Some t => queued (scheduler k) ≡ₚ t :: queued s'
    | None => queued s' ≡ₚ queued (scheduler k) ∧
        (queued (scheduler k) = [] ∨ status (current_thread k) = Running)
    end.
Proof.
  intros W. destruct (schedule_ok (view k) (scheduler k)) as (next & s' & HR & ? & Hd).
  - apply W.
  - apply Forall_forall. intros t Ht. apply (wf_ready _ W) in Ht as (th & Ht & _).
    rewrite (prio_view _ _ _ Ht). by eapply wf_prio.
  - exists next, s'. unfold sched_schedule. rewrite HR. by split_and!.
Qed.

(** The status [schedule_tail] leaves the previous thread with. *)
Definition after_switch (th : Thread) : Thread :=
  match status th with Running => with_status Ready th | _ => th end.

(** The store of threads after a switch to [next]. *)
Definition switched (k : K) (next : Z) : Threads :=
  on_thread (current k) after_switch (on_thread next (with_status Running) (threads k)).

Definition all_after (k : K) : list Z :=
  match status (current_thread k) with
  | Dying => filter (λ t, t ≠ current k) (all k)
  | _ => all k
  end.

Lemma switched_lookup k next t :
  next ≠ current k →
  switched k next !! t =
    if decide (t = current k) then after_switch <$> threads k !! t
    else if decide (t = next) then with_status Running <$> threads k !! t
    else threads k !! t.
Proof.
  intros Hne. unfold switched. rewrite !on_thread_lookup.
  repeat case_decide; subst; try done; congruence.
Qed.

(** A store in which the previous thread has left the processor and [next]
    runs is well formed with any queue of its ready threads. *)
Lemma switched_wf k next n c s' a r :
  wf k → next ≠ current k →
  threads k !! current k = Some c → threads k !! next = Some n → status n = Ready →
  sched_ok s' → NoDup (queued s') →
  (∀ t, t ∈ queued s' ↔ t ≠ next ∧ t ∈ queued (scheduler k) ∨
          t = current k ∧ status c = Running) →
  wf (mkKernel (with_level false (hart k)) (TID k) (switched k next) s' next a r).
Proof.
  intros W Hne Hc Hn Hns Hs' ND' Hq'.
  destruct (wf_current _ W) as (c' & Hc' & Hcs). simplify_eq.
  apply (wf_step k); cbn [hart TID threads scheduler current]; try done.
  - intros t. rewrite Hq', (wf_ready _ W), switched_lookup by done.
    case_decide as E1; [|case_decide as E2]; subst.
    + rewrite Hc. cbn. unfold after_switch.
      split; [intros [(_ & th & [= <-] & ?)|[_ ->]]; [done|by eexists]|].
      intros (th & [= <-] & Hth). right. split; [done|].
      destruct (status c) eqn:E; cbn in *; congruence.
    + rewrite Hn. cbn. split; [by intros [[? _]|[? _]]|]. by intros (th & [= <-] & ?).
    + split; [by intros [[_ ?]|[? _]]|]. by left.
  - intros t th. rewrite switched_lookup by done.
    case_decide as E1; [|case_decide as E2]; subst; [|done|].
    + rewrite Hc. cbn. unfold after_switch. intros [= <-].
      destruct (status c) eqn:E; cbn; congruence.
    + intros Ht Hr. by apply (wf_running _ W) in Ht.
  - exists (with_status Running n).
    by rewrite switched_lookup, decide_False, decide_True, Hn.
  - intros t th'. rewrite switched_lookup by done. unfold same_thread, after_switch.
    case_decide as E1; [|case_decide as E2]; subst.
    + rewrite Hc. cbn. intros [= <-]. exists c. by destruct (status c).
    + rewrite Hn. cbn. intros [= <-]. by exists n.
    + intros Ht. by exists th'.
Qed.

(** [schedule_tail] on the new thread's stack, once the scheduler has chosen
    [next] and left the queue [s]. *)
Lemma schedule_tail_run k next s :
  wf k → next ∈ queued (scheduler k) → sched_ok s →
  queued (scheduler k) ≡ₚ next :: queued s →
  ∃ k', schedule_tail (current k)
      (mkKernel (with_level false (hart k)) (TID k)
        (on_thread next (with_status Running) (threads k)) s next (all k) (active k))
      = Ret ((), k') ∧
    wf k' ∧ hart k' = with_level false (hart k) ∧ current k' = next ∧
    threads k' = switched k next ∧ all k' = all_after k ∧ TID k' = TID k.
Proof.
  intros W Hq Hs HP.
  assert (Hne : next ≠ current k) by (intros ->; by apply (current_not_queued k)).
  destruct (wf_current _ W) as (c & Hc & Hcs).
  pose proof (wf_nodup _ W) as ND. rewrite HP in ND. apply NoDup_cons in ND as [Hnn ND].
  pose proof Hq as Hq'. apply (wf_ready _ W) in Hq' as (n & Hn & Hns).
  assert (Hc1 : on_thread next (with_status Running) (threads k) !! current k = Some c)
    by (by rewrite on_thread_lookup, decide_False).
  assert (Hready : ∀ t, t ∈ queued s ↔ t ≠ next ∧ t ∈ queued (scheduler k)).
  { intros t. rewrite HP, elem_of_cons. split; [|tauto].
    intros Ht. split; [by intros ->|by right]. }
  assert (Hsw : status c ≠ Running →
    switched k next = on_thread next (with_status Running) (threads k)).
  { intros Hr. apply map_eq. intros t. unfold switched. rewrite on_thread_lookup.
    case_decide; [subst; rewrite Hc1|done]. cbn. unfold after_switch. by destruct (status c). }
  pose proof (λ s' a r, switched_wf k next n c s' a r W Hne Hc Hn Hns) as Hwf.
  unfold schedule_tail, hart_op, interrupt_get. unmonad. cbn [assert_ hart with_level stimer negb].
  unfold with_hart. cbn [hart TID threads scheduler current all active].
  rewrite (thread_lookup _ _ c) by done.
  unfold all_after, current_thread. rewrite (thread_lookup k (current k) c) by done.
  destruct (status c) eqn:E; [done| | |].
  - unfold set_status, update, with_threads. unmonad.
    cbn [hart TID threads scheduler current all active].
    assert (Hts : on_thread (current k) (with_status Ready)
        (on_thread next (with_status Running) (threads k)) = switched k next).
    { apply map_eq. intros t. unfold switched. rewrite !(on_thread_lookup _ (current k)).
      case_decide; [subst; rewrite Hc1|done]. cbn. unfold after_switch. by rewrite E. }
    rewrite Hts.
    destruct (sched_register_run (mkKernel (with_level false (hart k)) (TID k)
        (switched k next) s next (all k) (active k))
      (current k) (with_status Ready c)) as (s' & HR & Hs' & HP'); [done| | |].
    { cbn [threads]. rewrite switched_lookup, decide_True, Hc by done.
      cbn. unfold after_switch. by rewrite E. }
    { change (prio_ok (priority c)). by eapply wf_prio. }
    rewrite HR. eexists. split; [reflexivity|]. cbn in *. split_and!; try done.
    apply Hwf; [done| |].
    + rewrite HP'. apply NoDup_cons. split; [|done]. rewrite Hready.
      intros [_ ?]. by apply (current_not_queued k).
    + intros t. rewrite HP', elem_of_cons, Hready. tauto.
  - eexists. split; [reflexivity|]. cbn in *. rewrite <-Hsw by congruence.
    split_and!; try done. apply Hwf; [done..|]. intros t. rewrite Hready.
    split; [by left|]. by intros [?|[_ ?]].
  - eexists. split; [reflexivity|]. cbn in *. rewrite <-Hsw by congruence.
    split_and!; try done. apply Hwf; [done..|]. intros t. rewrite Hready.
    split; [by left|]. by intros [?|[_ ?]].
Qed.

(** [schedule], when the current thread runs or another one is ready. *)
Lemma manager_schedule_run k :
  wf k → status (current_thread k) = Running ∨ queued (scheduler k) ≠ [] →
  ∃ r k', manager_schedule k = Ret (r, k') ∧ wf k' ∧ TID k' = TID k ∧
    match r with
    | None => status (current_thread k) = Running ∧ threads k' = threads k ∧
        current k' = current k ∧ hart k' = hart k ∧ all k' = all k
    | Some old => old = stimer (hart k) ∧ hart k' = with_level false (hart k) ∧
        current k' ≠ current k ∧ current k' ∈ queued (scheduler k) ∧
        threads k' = switched k (current k') ∧ all k' = all_after k
    end.
Proof.
  intros W Hrun. destruct (wf_current _ W) as (c & Hc & Hcs).
  pose proof (thread_lookup _ _ _ Hc) as Hct. unfold current_thread in *. rewrite Hct in *.
  set (k0 := with_hart (with_level false (hart k)) k).
  assert (W0 : wf k0) by (destruct W; by constructor).
  destruct (sched_schedule_run k0 W0) as (next & s' & HS & Hs' & Hd).
  unfold manager_schedule, interrupt_set', hart_op. unmonad.
  rewrite interrupt_set_run by apply W. fold k0. rewrite HS.
  unfold k0, with_hart, with_scheduler, current_thread, thread in *.
  cbn [hart TID threads scheduler current all active] in *.
  rewrite Hct in *. rewrite (overflow_wf k (current k)) by done.
  destruct next as [next|].
  - assert (Hq : next ∈ queued (scheduler k)) by (rewrite Hd; set_solver).
    pose proof Hq as Hq'. apply (wf_ready _ W) in Hq' as (n & Hn & Hns).
    assert (Hne : next ≠ current k) by (intros ->; by apply (current_not_queued k)).
    rewrite orb_true_r. cbn [assert_ negb].
    rewrite (lookup_total_correct _ _ n) by done. rewrite bool_decide_eq_true_2 by done.
    rewrite (overflow_wf k next) by done. cbn [assert_ negb].
    unfold set_status, update, with_threads, with_current. unmonad.
    cbn [hart TID threads scheduler current all active].
    destruct (schedule_tail_run k next s') as (k' & HT & Hk'); [done..|].
    rewrite HT. exists (Some (stimer (hart k))), k'.
    destruct Hk' as (? & ? & Hcur & ? & ? & ?). rewrite Hcur. by split_and!.
  - destruct Hd as [HP Hd].
    assert (Hr : status c = Running).
    { destruct Hrun as [?|Hq]; [done|]. by destruct Hd as [?|?]. }
    rewrite bool_decide_eq_true_2 by done. cbn [assert_ orb negb].
    cbn [hart TID threads scheduler current all active].
    rewrite interrupt_set_run by done. rewrite with_level_level, with_level_id by apply W.
    exists None. eexists. split; [reflexivity|]. cbn. split_and!; try done.
    apply (wf_step k); cbn; try done; try apply W.
    + rewrite HP. apply W.
    + intros t. rewrite HP. apply W.
    + intros t th ?. exists th. by unfold same_thread.
Qed.

Ltac some_case := split; intros (? & [= <-] & ?); eexists; (split; [reflexivity|congruence]).

(** *** The other operations *)

(** Changing fields of a thread, but not its status or its stack. *)
Lemma update_wf k t f th :
  wf k → threads k !! t = Some th → status (f th) = status th → magic (f th) = magic th →
  prio_ok (priority (f th)) → wf (with_threads (on_thread t f (threads k)) k).
Proof.
  intros W Ht Hs Hm Hp. destruct W as [Wh Wsc Wnd Wre Wru Wcu Wpr Wma Wti].
  assert (Hl : ∀ u, on_thread t f (threads k) !! u =
                 if decide (u = t) then Some (f th) else threads k !! u).
  { intros u. rewrite on_thread_lookup, Ht. by case_decide. }
  split; cbn; try done.
  - intros u. rewrite Wre, Hl. case_decide; subst; [|done]. rewrite Ht. by some_case.
  - intros u thu. rewrite Hl. case_decide; subst; [|by eauto].
    intros [= <-] E. eapply Wru; [done|congruence].
  - destruct Wcu as (c & Hc & Hcs). rewrite Hl. case_decide; subst; [|by exists c].
    exists (f th). split; [done|congruence].
  - intros u thu. rewrite Hl. case_decide; [|by eauto]. by intros [= <-].
  - intros u thu. rewrite Hl. case_decide; [|by eauto]. intros [= <-]. rewrite Hm. by eapply Wma.
  - intros u thu. rewrite Hl. case_decide; [|by eauto]. subst. intros. by eapply Wti.
Qed.

(** The current thread leaves the state [Running]. *)
Lemma set_current_status_wf k s :
  wf k → s ≠ Ready →
  wf (with_threads (on_thread (current k) (with_status s) (threads k)) k).
Proof.
  intros W Hs. destruct (wf_current _ W) as (c & Hc & Hcs).
  assert (Hl : ∀ u, on_thread (current k) (with_status s) (threads k) !! u =
                 if decide (u = current k) then Some (with_status s c) else threads k !! u).
  { intros u. rewrite on_thread_lookup, Hc. by case_decide. }
  apply (wf_step k); cbn; try done; try apply W.
  - intros u. rewrite (wf_ready _ W), Hl. case_decide; subst; [|done]. rewrite Hc.
    by split; intros (? & [= <-] & ?).
  - intros u thu. rewrite Hl. case_decide; [done|]. apply W.
  - rewrite Hl, decide_True by done. by eexists.
  - intros u thu. rewrite Hl. case_decide; subst.
    + intros [= <-]. by exists c.
    + intros. by exists thu.
Qed.

(** [wake_up] of a blocked thread: it becomes ready and is queued. *)
Lemma wake_up_run k t th :
  wf k → t ≠ current k → threads k !! t = Some th → status th = Blocked →
  ∃ s', wake_up t k = Ret ((), with_scheduler s'
      (with_threads (on_thread t (with_status Ready) (threads k)) k)) ∧
    queued s' ≡ₚ t :: queued (scheduler k) ∧
    wf (with_scheduler s' (with_threads (on_thread t (with_status Ready) (threads k)) k)).
Proof.
  intros W Hne Ht Hb.
  assert (Hl : ∀ u, on_thread t (with_status Ready) (threads k) !! u =
                 if decide (u = t) then Some (with_status Ready th) else threads k !! u).
  { intros u. rewrite on_thread_lookup, Ht. by case_decide. }
  destruct (sched_register_run (with_threads (on_thread t (with_status Ready) (threads k)) k)
              t (with_status Ready th)) as (s' & HR & Hs' & HP).
  { apply W. }
  { cbn. by rewrite Hl, decide_True. }
  { change (prio_ok (priority th)). by eapply wf_prio. }
  exists s'. unfold wake_up, set_status, update. unmonad.
  rewrite (thread_lookup _ _ _ Ht), bool_decide_eq_true_2 by done. cbn [assert_].
  rewrite HR. split_and!; [done|done|].
  assert (Htq : t ∉ queued (scheduler k)).
  { rewrite (wf_ready _ W), Ht. by intros (? & [= <-] & ?); congruence. }
  apply (wf_step k); cbn; try done; try apply W.
  - rewrite HP. apply NoDup_cons. split; [done|apply W].
  - intros u. rewrite HP. cbn. rewrite elem_of_cons, (wf_ready _ W), Hl.
    case_decide; subst; [|by split; [intros [?|?]|by right]].
    split; [|by left]. intros _. by eexists.
  - intros u thu. rewrite Hl. case_decide; [by intros [= <-]|]. apply W.
  - rewrite Hl, decide_False by done. apply W.
  - intros u thu. rewrite Hl. case_decide; subst.
    + intros [= <-]. by exists th.
    + intros. by exists thu.
Qed.

(** [wake_up] of a thread that is not blocked stops the kernel. *)
Lemma wake_up_panic k t : status (thread k t) ≠ Blocked → wake_up t k = Panic AssertFailed.
Proof.
  intros Hs. unfold wake_up. unmonad. by rewrite bool_decide_eq_false_2.
Qed.

(** [spawn] files a thread with a new identifier. *)
Lemma spawn_enter_run k stk b :
  wf k → prio_ok (b_priority b) →
  ∃ k', spawn_enter stk b k = Ret (TID k, k') ∧ wf k' ∧ TID k' = TID k + 1 ∧
    hart k' = hart k ∧ current k' = current k ∧ all k' = all k ++ [TID k] ∧
    threads k' = <[TID k := build (TID k) stk b]> (threads k).
Proof.
  intros W Hp. set (t := TID k). set (nt := build t stk b).
  assert (Hfresh : threads k !! t = None).
  { destruct (threads k !! t) as [th|] eqn:E; [|done].
    apply (wf_tid _ W) in E. unfold t in E. lia. }
  destruct (sched_register_run (with_threads (<[t := nt]> (threads k)) (with_TID (t + 1) k)) t nt)
    as (s' & HR & Hs' & HP); [apply W|by apply lookup_insert_eq|done|].
  unfold spawn_enter, manager_register. unmonad. fold t. cbn [threads with_TID]. fold nt.
  cbn in HR. cbn. rewrite HR. eexists. split; [reflexivity|]. cbn. split_and!; try done.
  assert (Hl : ∀ u, <[t := nt]> (threads k) !! u =
                 if decide (u = t) then Some nt else threads k !! u).
  { intros u. case_decide; subst; [by apply lookup_insert_eq|by apply lookup_insert_ne]. }
  assert (Htq : t ∉ queued (scheduler k)).
  { rewrite (wf_ready _ W), Hfresh. by intros (? & ? & ?). }
  assert (Htc : t ≠ current k).
  { intros E. destruct (wf_current _ W) as (c & Hc & _). congruence. }
  split; cbn; try done; try apply W.
  - rewrite HP. apply NoDup_cons. split; [done|apply W].
  - intros u. rewrite HP. cbn. rewrite elem_of_cons, (wf_ready _ W), Hl.
    case_decide; subst; [|by split; [intros [?|?]|by right]].
    split; [|by left]. intros _. by eexists.
  - intros u thu. rewrite Hl. case_decide; [by intros [= <-]|]. apply W.
  - rewrite Hl, decide_False by done. apply W.
  - intros u thu. rewrite Hl. case_decide; [by intros [= <-]|]. apply W.
  - intros u thu. rewrite Hl. case_decide; [by intros [= <-]|]. apply W.
  - intros u thu. rewrite Hl. case_decide; [intros; subst; lia|].
    intros E. apply (wf_tid _ W) in E. unfold t. lia.
Qed.

(** The kernel the first access to the manager builds. *)
Lemma manager_new_run bs stk h :
  hart_ok h → prio_ok PRI_DEFAULT → prio_ok PRI_MIN →
  ∃ k, manager_new bs stk h = Ret k ∧ wf k ∧ current k = 0 ∧ hart k = h ∧ TID k = 2 ∧
    status (thread k 0) = Running ∧ (∃ th, threads k !! 1 = Some th ∧ status th = Ready) ∧
    (∀ t th, threads k !! t = Some th → t = 0 ∨ t = 1) ∧
    (∀ t th, threads k !! t = Some th →
       donationq th = [] ∧ (stored_prev th).2 = 0 ∧ priority_setted th = None).
Proof.
  intros Hh Hd Hm. unfold manager_new, manager_register. unmonad.
  set (initial := with_status Running _). set (idle := build _ _ _).
  destruct default_ok as [Hok Hq].
  destruct (sched_register_run (mkKernel h 2 {[0 := initial; 1 := idle]} sched_default 0 [0] None)
    1 idle) as (s' & HR & Hs' & HP); [done|done|done|].
  rewrite HR. eexists. split; [reflexivity|]. cbn in *. rewrite Hq in HP.
  assert (Hl : ∀ u th, ({[0 := initial; 1 := idle]} : Threads) !! u = Some th ↔
                    u = 0 ∧ th = initial ∨ u = 1 ∧ th = idle).
  { intros u th. rewrite lookup_insert_Some, lookup_singleton_Some. naive_solver. }
  split_and!; try done.
  - split; cbn; try done.
    + rewrite HP. apply NoDup_singleton.
    + intros u. rewrite HP, list_elem_of_singleton. setoid_rewrite Hl. split.
      * intros ->. exists idle. by split; [right|].
      * by intros (th & [[_ ->]|[-> _]] & ?).
    + intros u th. rewrite Hl. by intros [[-> _]|[_ ->]].
    + exists initial. rewrite Hl. split; [by left|done].
    + intros u th. rewrite Hl. by intros [[_ ->]|[_ ->]].
    + intros u th. rewrite Hl. by intros [[_ ->]|[_ ->]].
    + intros u th. rewrite Hl. by intros [[-> _]|[-> _]].
  - exists idle. rewrite Hl. split; [by right|done].
  - intros u th. rewrite Hl. naive_solver.
  - intros u th. rewrite Hl. by intros [[_ ->]|[_ ->]].
Qed.
End Manager.
