(* ===== verification/Sync.v ===== *)
(** * Blocking synchronisation and the threads that use it

    [sync/sema.rs], [sync/sleep.rs], [sync/condvar.rs], [sleepq.rs], the tick of
    [sbi/timer.rs] and the rest of [thread.rs] and [thread/imp.rs].

    A thread gives up the processor in the middle of these functions and goes on
    much later, when others have run; the model keeps what is left of each call
    as a [frame] on the thread's stack.  [exec] runs a frame up to the next call
    of [schedule] (or to a point where a timer interrupt may come in between)
    and returns the frames that are left; [FSchedule] is the call itself.  One
    [step] of the kernel runs a frame of the current thread or takes a timer
    interrupt, which needs the interrupts to be on. *)

From S2P Require Import Prelude Intr Thread Scheduler Manager.

(** ** Semaphores, locks, condition variables and the sleep queue *)

(** [struct Semaphore]; the waiters from the front of the deque. *)
Record Semaphore : Type := mkSemaphore { sema_value : Z; waiters : list Z }.

Definition semaphore_new (n : Z) : Semaphore := mkSemaphore n [].

#[export] Instance Semaphore_inhabited : Inhabited Semaphore := populate (semaphore_new 0).

(** [struct Sleep]; a lock is known by its [lockid].  The field
    [prev_priority] is never read. *)
Record Sleep : Type := mkSleep { inner : Semaphore; holder : option Z }.

(** [Sleep::default] *)
Definition sleep_default : Sleep := mkSleep (semaphore_new 1) None.

#[export] Instance Sleep_inhabited : Inhabited Sleep := populate sleep_default.

(** Where a semaphore is: on its own, or the field [inner] of a lock. *)
Inductive saddr : Type := SemaAt (n : Z) | LockSema (l : Z).

#[export] Instance saddr_eq_dec : EqDecision saddr.
Proof. solve_decision. Defined.

(** [struct Condvar]: the semaphores of its waiters and the shared borrows of
    its [RefCell] that are alive. *)
Record Condvar : Type := mkCondvar { cv_queue : list Z; cv_borrows : Z }.

#[export] Instance Condvar_inhabited : Inhabited Condvar := populate (mkCondvar [] 0).

(** [struct SleepData] and its order, reversed so that the heap's greatest
    element is the one to wake first. *)
Record SleepData : Type := mkSleepData { sd_ticks : Z; sd_thread : Z }.

Definition sd_cmp (a b : SleepData) : comparison := Z.compare (sd_ticks b) (sd_ticks a).

(** [BinaryHeap]: a bag whose [pop] takes out a greatest element (the first of
    the list among equals, an order the library leaves open). *)
Fixpoint heap_max (d : SleepData) (q : list SleepData) : SleepData :=
  match q with
  | [] => d
  | e :: q => match sd_cmp d e with Lt => heap_max e q | _ => heap_max d q end
  end.

Definition sd_eqb (a b : SleepData) : bool :=
  bool_decide (sd_ticks a = sd_ticks b) && bool_decide (sd_thread a = sd_thread b).

Fixpoint heap_remove (d : SleepData) (q : list SleepData) : list SleepData :=
  match q with
  | [] => []
  | e :: q => if sd_eqb d e then q else e :: heap_remove d q
  end.

Definition heap_peek (q : list SleepData) : option SleepData :=
  match q with [] => None | d :: q => Some (heap_max d q) end.

Definition heap_pop (q : list SleepData) : option (SleepData * list SleepData) :=
  d ← heap_peek q ; Some (d, heap_remove d q).

(** ** What threads do *)

(** The calls of a thread's program into this part of the kernel. *)
Inductive op : Type :=
  | OYield                                      (* [schedule()] *)
  | OExit                                       (* [exit()] *)
  | OSetPriority (p : Z)                        (* [set_priority(p)] *)
  | OSleep (ticks : Z)                          (* [sleep(ticks)] *)
  | ODown (s : saddr)                           (* [s.down()] *)
  | OUp (s : saddr)                             (* [s.up()] *)
  | OLocked (l : Z) (body : list op)            (* [{ let g = l.lock(); body }] *)
  | OWait (c l : Z)                             (* [c.wait(&mut guard of l)] *)
  | ONotifyOne (c : Z)                          (* [c.notify_one()] *)
  | ONotifyAll (c : Z)                          (* [c.notify_all()] *)
  | OSpawn (stack : Z) (b : Builder) (main : list op)  (* [b.spawn()] *)
  | OIdle.                                      (* [loop { schedule() }] *)

(** What is left of a call. *)
Inductive frame : Type :=
  | FMain (ops : list op)
  | FKernelThread (main : list op)
  | FExit
  | FUnreachable
  | FIdle
  | FSchedule
  | FScheduleRet (old : bool)
  | FBlock
  | FSetSetted (p : Z)
  | FDown (s : saddr)
  | FDownLoop (s : saddr) (old : bool)
  | FUp (s : saddr)
  | FUpRet (old : bool)
  | FAcquire (l : Z)
  | FAcquireHolder (l : Z)
  | FDonate (donner acceptor l : Z)
  | FFindAndDonate (donner l : Z)
  | FSetHolder (l : Z)
  | FRelease (l : Z)
  | FNotifyClear (c : Z).

(** The state: the manager's, the objects above, the number of ticks, and the
    stack of every thread. *)
Record Sys (Sc : Type) : Type := mkSys {
  kern : Kernel Sc;
  semas : gmap Z Semaphore;
  locks : gmap Z Sleep;
  condvars : gmap Z Condvar;
  next_sema : Z;
  ticks : Z;
  sleepq : list SleepData;
  stacks : gmap Z (list frame)
}.
Arguments mkSys {Sc}. Arguments kern {Sc}. Arguments semas {Sc}. Arguments locks {Sc}.
Arguments condvars {Sc}. Arguments next_sema {Sc}. Arguments ticks {Sc}.
Arguments sleepq {Sc}. Arguments stacks {Sc}.

Section Sync.
Context {Sc : Type} `{SI : Schedule Sc}.
Abbreviation S := (Sys Sc).

Definition with_kern (k : Kernel Sc) (s : S) : S :=
  mkSys k (semas s) (locks s) (condvars s) (next_sema s) (ticks s) (sleepq s) (stacks s).
Definition with_semas (m : gmap Z Semaphore) (s : S) : S :=
  mkSys (kern s) m (locks s) (condvars s) (next_sema s) (ticks s) (sleepq s) (stacks s).
Definition with_locks (m : gmap Z Sleep) (s : S) : S :=
  mkSys (kern s) (semas s) m (condvars s) (next_sema s) (ticks s) (sleepq s) (stacks s).
Definition with_condvars (m : gmap Z Condvar) (s : S) : S :=
  mkSys (kern s) (semas s) (locks s) m (next_sema s) (ticks s) (sleepq s) (stacks s).
Definition with_next_sema (n : Z) (s : S) : S :=
  mkSys (kern s) (semas s) (locks s) (condvars s) n (ticks s) (sleepq s) (stacks s).
Definition with_ticks (n : Z) (s : S) : S :=
  mkSys (kern s) (semas s) (locks s) (condvars s) (next_sema s) n (sleepq s) (stacks s).
Definition with_sleepq (q : list SleepData) (s : S) : S :=
  mkSys (kern s) (semas s) (locks s) (condvars s) (next_sema s) (ticks s) q (stacks s).
Definition with_stacks (m : gmap Z (list frame)) (s : S) : S :=
  mkSys (kern s) (semas s) (locks s) (condvars s) (next_sema s) (ticks s) (sleepq s) m.

(** An operation of the manager. *)
Definition on_kern {A} (m : M (Kernel Sc) A) : M S A := λ s,
  match m (kern s) with Ret (a, k) => Ret (a, with_kern k s) | Panic p => Panic p end.

Definition set_intr (b : bool) : M S bool := on_kern (interrupt_set' b).
Definition cur : M S Z := gets (λ s, current (kern s)).
Definition thr (t : Z) : M S Thread := gets (λ s, thread (kern s) t).
Definition prio_at (s : S) (t : Z) : Z := priority_of (threads (kern s)) t.

Definition sema_at (a : saddr) (s : S) : Semaphore :=
  match a with SemaAt n => semas s !!! n | LockSema l => inner (locks s !!! l) end.

Definition set_sema (a : saddr) (x : Semaphore) (s : S) : S :=
  match a with
  | SemaAt n => with_semas (<[n := x]> (semas s)) s
  | LockSema l => with_locks (<[l := mkSleep x (holder (locks s !!! l))]> (locks s)) s
  end.

Definition set_holder (l : Z) (h : option Z) (s : S) : S :=
  with_locks (<[l := mkSleep (inner (locks s !!! l)) h]> (locks s)) s.

(** *** [thread.rs] *)

(** [schedule()]: when another thread takes over, the caller is left with the
    restoring of its interrupt level. *)
Definition thread_schedule : M S (list frame) :=
  r ← on_kern manager_schedule ;
  mret (match r with Some old => [FScheduleRet old] | None => [] end).

Definition exit : M S (list frame) :=
  on_kern exit_enter ;; mret [FSchedule; FUnreachable].

Definition block : M S (list frame) :=
  on_kern block_enter ;; mret [FSchedule].

Definition set_priority (p : Z) : M S (list frame) :=
  on_kern (set_priority_enter p) ;; mret [FSchedule; FSetSetted p].

(** [sleep]; the wake-up time is an [i64]. *)
Definition sleep (n : Z) : M S (list frame) :=
  if bool_decide (n ≤ 0) then mret []
  else
    old ← set_intr false ;
    curren_tick ← gets ticks ;
    t ← cur ;
    let wake_time := wrap64 (curren_tick + n + 2 ^ 63) - 2 ^ 63 in
    modify (λ s, with_sleepq (mkSleepData wake_time t :: sleepq s) s) ;;
    set_intr old ;;
    mret [FBlock].

(** [Builder::spawn]: the new thread starts in [kernel_thread]. *)
Definition spawn (stack : Z) (b : Builder) (main : list op) : M S (list frame) :=
  t ← on_kern (spawn_enter stack b) ;
  modify (λ s, with_stacks (<[t := [FKernelThread main]]> (stacks s)) s) ;;
  mret [FSchedule].

(** [kernel_thread] *)
Definition kernel_thread (main : list op) : M S (list frame) :=
  set_intr true ;; mret [FMain main; FExit].

(** *** [sync/sema.rs] *)

(** [get_maxpriority]: the loop from index [i] on. *)
Fixpoint maxpriority_from (prio : Z → Z) (ws : list Z) (i max_index : nat) (max_priority : Z)
    : nat * Z :=
  match ws with
  | [] => (max_index, max_priority)
  | t :: ws =>
      if bool_decide (max_priority ≤ prio t)
      then maxpriority_from prio ws (i + 1) i (prio t)
      else maxpriority_from prio ws (i + 1) max_index max_priority
  end.

Definition get_maxpriority (prio : Z → Z) (ws : list Z) : nat * Z :=
  maxpriority_from prio ws 0 0 0.

(** The loop of [down] and what follows it. *)
Definition down_loop (a : saddr) (old : bool) : M S (list frame) :=
  x ← gets (sema_at a) ;
  if bool_decide (sema_value x = 0) then
    t ← cur ;
    modify (set_sema a (mkSemaphore (sema_value x) (push_front t (waiters x)))) ;;
    fs ← block ;
    mret (fs ++ [FDownLoop a old])
  else
    modify (set_sema a (mkSemaphore (sema_value x - 1) (waiters x))) ;;
    set_intr old ;;
    mret [].

Definition down (a : saddr) : M S (list frame) :=
  old ← set_intr false ; down_loop a old.

(** [VecDeque::remove] *)
Definition deque_remove {A} (i : nat) (l : list A) : option (A * list A) :=
  match l !! i with Some x => Some (x, delete i l) | None => None end.

Definition up (a : saddr) : M S (list frame) :=
  old ← set_intr false ;
  x ← gets (sema_at a) ;
  let count := sema_value x in
  modify (set_sema a (mkSemaphore (wrap64 (count + 1)) (waiters x))) ;;
  if bool_decide (waiters x ≠ []) then
    lift (assert_ (bool_decide (count = 0))) ;;
    x ← gets (sema_at a) ;
    lift (assert_ (bool_decide (sema_value x ≠ 0))) ;;
    prio ← gets prio_at ;
    let (max_index, max_priority) := get_maxpriority prio (waiters x) in
    match deque_remove max_index (waiters x) with
    | None => fail UnwrapNone
    | Some (t, ws) =>
        modify (set_sema a (mkSemaphore (sema_value x) ws)) ;;
        on_kern (wake_up t) ;;
        c ← cur ;
        prio ← gets prio_at ;
        set_intr old ;;
        mret (if bool_decide (prio c < max_priority) then [FSchedule; FUpRet old] else [])
    end
  else set_intr old ;; mret [].

(** *** [sync/sleep.rs] and the donations of [thread/imp.rs] *)

(** [Thread::add_donation] *)
Definition add_donation (t : Z) (d : DonationData) : M S unit :=
  on_kern (update t (λ th, with_donationq (push_back d (donationq th)) th)).

(** [Thread::delete_donation] *)
Definition delete_donation (t l : Z) : M S (option DonationData) :=
  th ← thr t ;
  on_kern (update t (λ th, with_donationq
    (filter (λ d, dd_lockid d ≠ l) (donationq th)) th)) ;;
  mret (find (λ d, bool_decide (dd_lockid d = l)) (donationq th)).

(** [donation_wrapped], with [Thread::donate] *)
Definition donation_wrapped (d a l : Z) : M S (list frame) :=
  td ← thr d ;
  ta ← thr a ;
  if bool_decide (priority ta < priority td) then
    on_kern (update a (with_priority (priority td))) ;;
    add_donation d (mkDonation d a (priority td) (priority ta) true l) ;;
    add_donation a (mkDonation d a (priority td) (priority ta) false l) ;;
    mret [FSchedule]
  else mret [].

(** [Thread::find_and_donate] *)
Definition find_and_donate (d l : Z) : M S (list frame) :=
  th ← thr d ;
  mret (concat (map (λ i,
    if is_donner i && bool_decide (dd_lockid i ≠ l)
    then [FDonate d (acceptor i) l; FFindAndDonate (acceptor i) l] else [])
    (donationq th))).

(** [Sleep::acquire]: between the test of the holder and its use a timer
    interrupt may come in. *)
Definition acquire (l : Z) : M S (list frame) :=
  x ← gets (λ s, locks s !!! l) ;
  mret (if bool_decide (is_Some (holder x)) then [FAcquireHolder l]
        else [FDown (LockSema l); FSetHolder l]).

Definition acquire_holder (l : Z) : M S (list frame) :=
  x ← gets (λ s, locks s !!! l) ;
  match holder x with
  | None => fail UnwrapNone
  | Some acceptor =>
      c ← cur ;
      mret [FDonate c acceptor l; FFindAndDonate acceptor l;
            FDown (LockSema l); FSetHolder l]
  end.

Definition replace_holder (l : Z) : M S (list frame) :=
  c ← cur ; modify (set_holder l (Some c)) ;; mret [].

(** The part of [release] that gives back a donated priority. *)
Definition return_donation (l : Z) (ret : DonationData) : M S unit :=
  let d := donner ret in
  c ← cur ;
  delete_donation d l ;;
  on_kern (update c (λ th, with_donationq (filter (λ x, donner x ≠ d) (donationq th)) th)) ;;
  on_kern (update d (λ th, with_donationq (filter (λ x, acceptor x ≠ c) (donationq th)) th)) ;;
  th ← thr c ;
  (if bool_decide ((stored_prev th).1 > l)
   then on_kern (update c (with_stored_prev (l, prev_priority ret))) else mret ()) ;;
  th ← thr c ;
  let final_priority :=
    foldl (λ p i, Z.max p (donner_priority i)) (stored_prev th).2 (donationq th) in
  on_kern (update c (with_priority final_priority)).

(** [Sleep::release] *)
Definition release (l : Z) : M S (list frame) :=
  x ← gets (λ s, locks s !!! l) ;
  c ← cur ;
  match holder x with
  | None => fail UnwrapNone
  | Some h =>
      lift (assert_ (bool_decide (h = c))) ;;
      ret ← delete_donation c l ;
      (match ret with Some ret => return_donation l ret | None => mret () end) ;;
      th ← thr c ;
      (match priority_setted th with
       | Some p => on_kern (update c (with_priority p))
       | None => mret ()
       end) ;;
      modify (set_holder l None) ;;
      mret [FUp (LockSema l); FSchedule]
  end.

(** *** [sync/condvar.rs] *)

(** [self.0.borrow_mut()]: panics while a shared borrow is alive. *)
Definition cv_borrow_mut (c : Z) : M S (list Z) :=
  x ← gets (λ s, condvars s !!! c) ;
  lift (assert_ (bool_decide (cv_borrows x = 0))) ;; mret (cv_queue x).

Definition cv_set (c : Z) (q : list Z) (b : Z) : M S unit :=
  modify (λ s, with_condvars (<[c := mkCondvar q b]> (condvars s)) s).

(** [Condvar::wait] on the guard of lock [l]. *)
Definition cv_wait (c l : Z) : M S (list frame) :=
  n ← gets next_sema ;
  modify (λ s, with_next_sema (n + 1) (with_semas (<[n := semaphore_new 0]> (semas s)) s)) ;;
  q ← cv_borrow_mut c ;
  cv_set c (push_front n q) 0 ;;
  mret [FRelease l; FDown (SemaAt n); FAcquire l].

(** The loop of [notify_one] from index [i] on. *)
Fixpoint choose_sema (prio : Z → Z) (ss : list Semaphore) (i chosen : nat) (max_priority : Z)
    : nat :=
  match ss with
  | [] => chosen
  | x :: ss =>
      let (_, this_priority) := get_maxpriority prio (waiters x) in
      if bool_decide (max_priority ≤ this_priority)
      then choose_sema prio ss (i + 1) i this_priority
      else choose_sema prio ss (i + 1) chosen max_priority
  end.

Definition notify_one (c : Z) : M S (list frame) :=
  s ← get ;
  let q := cv_queue (condvars s !!! c) in
  let chosen_index := choose_sema (prio_at s) (map (λ n, semas s !!! n) q) 0 0 0 in
  q ← cv_borrow_mut c ;
  match deque_remove chosen_index q with
  | Some (n, q) => cv_set c q 0 ;; mret [FUp (SemaAt n)]
  | None => mret []
  end.

(** [notify_all]: the queue is borrowed until every [up] has returned. *)
Definition notify_all (c : Z) : M S (list frame) :=
  x ← gets (λ s, condvars s !!! c) ;
  cv_set c (cv_queue x) (cv_borrows x + 1) ;;
  mret (map (λ n, FUp (SemaAt n)) (cv_queue x) ++ [FNotifyClear c]).

Definition notify_clear (c : Z) : M S (list frame) :=
  x ← gets (λ s, condvars s !!! c) ;
  cv_set c (cv_queue x) (cv_borrows x - 1) ;;
  cv_borrow_mut c ;;
  cv_set c [] 0 ;;
  mret [].

(** *** [sbi/timer.rs] *)

(** The loop of [tick], over a queue of [n] sleepers. *)
Fixpoint wake_sleepers (n : nat) (now : Z) : M S unit :=
  match n with
  | O => mret ()
  | Datatypes.S n =>
      q ← gets sleepq ;
      match heap_peek q with
      | None => mret ()
      | Some d =>
          if bool_decide (sd_ticks d ≤ now) then
            match heap_pop q with
            | None => fail UnwrapNone
            | Some (d, q) =>
                modify (with_sleepq q) ;;
                on_kern (wake_up (sd_thread d)) ;;
                wake_sleepers n now
            end
          else mret ()
      end
  end.

Definition tick : M S unit :=
  modify (λ s, with_ticks (wrap64 (ticks s + 1 + 2 ^ 63) - 2 ^ 63) s) ;;
  old ← set_intr false ;
  now ← gets ticks ;
  q ← gets sleepq ;
  wake_sleepers (length q) now ;;
  set_intr old ;;
  on_kern (hart_op timer_next).

(** The handler of a timer interrupt ([trap.rs]): the tick, then [schedule]. *)
Definition timer_interrupt : M S (list frame) := tick ;; mret [FSchedule].

(** *** The machine *)

Definition exec_op (o : op) : M S (list frame) :=
  match o with
  | OYield => mret [FSchedule]
  | OExit => mret [FExit]
  | OSetPriority p => set_priority p
  | OSleep n => sleep n
  | ODown a => mret [FDown a]
  | OUp a => mret [FUp a]
  | OLocked l body => mret [FAcquire l; FMain body; FRelease l]
  | OWait c l => cv_wait c l
  | ONotifyOne c => notify_one c
  | ONotifyAll c => notify_all c
  | OSpawn stack b main => spawn stack b main
  | OIdle => mret [FIdle]
  end.

Definition exec (f : frame) : M S (list frame) :=
  match f with
  | FMain [] => mret []
  | FMain (o :: ops) => fs ← exec_op o ; mret (fs ++ [FMain ops])
  | FKernelThread main => kernel_thread main
  | FExit => exit
  | FUnreachable => fail Unreachable
  | FIdle => mret [FSchedule; FIdle]
  | FSchedule => thread_schedule
  | FScheduleRet old => set_intr old ;; mret []
  | FBlock => block
  | FSetSetted p => on_kern (set_priority_leave p) ;; mret []
  | FDown a => down a
  | FDownLoop a old => down_loop a old
  | FUp a => up a
  | FUpRet old => set_intr old ;; mret []
  | FAcquire l => acquire l
  | FAcquireHolder l => acquire_holder l
  | FDonate d a l => donation_wrapped d a l
  | FFindAndDonate d l => find_and_donate d l
  | FSetHolder l => replace_holder l
  | FRelease l => release l
  | FNotifyClear c => notify_clear c
  end.

Definition stk (s : S) (t : Z) : list frame := stacks s !!! t.

Definition push_frames (t : Z) (fs rest : list frame) (s : S) : S :=
  with_stacks (<[t := fs ++ rest]> (stacks s)) s.

(** The current thread runs its topmost frame; [None] when it has none. *)
Definition step_thread (s : S) : option (outcome S) :=
  let t := current (kern s) in
  match stk s t with
  | [] => None
  | f :: rest => Some
      match exec f s with
      | Ret (fs, s') => Ret (push_frames t fs rest s')
      | Panic p => Panic p
      end
  end.

(** A timer interrupt, taken on the stack of the current thread. *)
Definition step_timer (s : S) : option (outcome S) :=
  let t := current (kern s) in
  if stimer (hart (kern s)) then Some
    match timer_interrupt s with
    | Ret (fs, s') => Ret (push_frames t fs (stk s t) s')
    | Panic p => Panic p
    end
  else None.

Inductive step (s s' : S) : Prop :=
  | step_by_thread : step_thread s = Some (Ret s') → step s s'
  | step_by_timer : step_timer s = Some (Ret s') → step s s'.

(** The machine when [main] has initialised the kernel: the initial thread
    runs [main], and semaphores [sms] have been created. *)
Definition boot (bootstack idle_stack : Z) (h : Hart) (main : list op)
    (sms : gmap Z Semaphore) : outcome S :=
  k ← manager_new bootstack idle_stack h ;
  mret (mkSys k sms ∅ ∅ 0 0 []
    {[ 0 := [FMain main]; 1 := [FKernelThread [OIdle]] ]}).

(** A run: [true] for a step of the thread, [false] for a timer interrupt;
    [None] when a step is not possible. *)
Fixpoint run_steps (l : list bool) (s : S) : option (outcome S) :=
  match l with
  | [] => Some (Ret s)
  | b :: l =>
      match (if b then step_thread s else step_timer s) with
      | Some (Ret s) => run_steps l s
      | r => r
      end
  end.
End Sync.
