(* ===== verification/SyncSafe.v ===== *)
(** * The machine with mutexes is safe

    The invariant of [Sync.v]'s machine for threads that use mutexes (in the
    scoped way guards give), counting semaphores, [schedule], [set_priority],
    [spawn] and [exit], with timer interrupts wherever they are enabled: the
    thread manager is well formed, a blocked thread is in the queue of the one
    semaphore it waits for, and of every lock there is at most one holder, which
    is the thread the lock names.  Condition variables and
    sleeps of a positive length are not among the operations of these programs;
    the waking of sleepers is in [Wakeups.v]. *)

From S2P Require Import Prelude Intr Thread Scheduler Manager Sync.

(** ** Counting on stacks *)

(** What a frame contributes to the number of times its thread owns the
    semaphore of lock [l]: a pending [up] owns it, a pending [down] will. *)
Definition w_of (l : Z) (f : frame) : Z :=
  match f with
  | FRelease m | FUp (LockSema m) => if bool_decide (m = l) then 1 else 0
  | FAcquire m | FAcquireHolder m | FDown (LockSema m) | FDownLoop (LockSema m) _ =>
      if bool_decide (m = l) then -1 else 0
  | _ => 0
  end.

(** The same for being the thread the field [holder] names. *)
Definition h_of (l : Z) (f : frame) : Z :=
  match f with
  | FRelease m => if bool_decide (m = l) then 1 else 0
  | FAcquire m | FAcquireHolder m | FSetHolder m => if bool_decide (m = l) then -1 else 0
  | _ => 0
  end.

Definition d_of (l : Z) (f : frame) : Z := w_of l f - h_of l f.

Fixpoint sum (g : frame → Z) (st : list frame) : Z :=
  match st with [] => 0 | f :: st => g f + sum g st end.

(** No suffix of the stack owes more than it holds. *)
Fixpoint bal (g : frame → Z) (st : list frame) : Prop :=
  match st with [] => True | f :: st' => 0 ≤ sum g st ∧ bal g st' end.

Definition balanced (l : Z) (st : list frame) : Prop :=
  bal (w_of l) st ∧ bal (h_of l) st ∧ bal (d_of l) st.

Lemma sum_app g st st' : sum g (st ++ st') = sum g st + sum g st'.
Proof. induction st; cbn; lia. Qed.

Lemma bal_nonneg g st : bal g st → 0 ≤ sum g st.
Proof. destruct st; cbn; [lia|tauto]. Qed.

Lemma sum_zero g st : Forall (λ f, g f = 0) st → sum g st = 0.
Proof. induction 1; cbn; lia. Qed.

Lemma bal_zero g st st' : Forall (λ f, g f = 0) st → bal g st' → bal g (st ++ st').
Proof.
  intros Hz Hb. induction Hz as [|f st Hf Hz IH]; cbn; [done|]. split; [|done].
  rewrite Hf, sum_app, (sum_zero g st Hz). pose proof (bal_nonneg _ _ Hb). lia.
Qed.

Lemma sum_sub g g' st : sum (λ f, g f - g' f) st = sum g st - sum g' st.
Proof. induction st; cbn; lia. Qed.

Lemma sum_d l st : sum (d_of l) st = sum (w_of l) st - sum (h_of l) st.
Proof. apply (sum_sub (w_of l) (h_of l)). Qed.

Lemma balanced_sums l st :
  balanced l st → 0 ≤ sum (h_of l) st ≤ sum (w_of l) st.
Proof.
  intros (_ & H2 & H3). apply bal_nonneg in H2, H3. rewrite sum_d in H3. lia.
Qed.

Lemma balanced_tail l f st : balanced l (f :: st) → balanced l st.
Proof. unfold balanced. cbn [bal]. tauto. Qed.

(** Frames that concern no lock. *)
Definition neutral (f : frame) : Prop := ∀ l, w_of l f = 0 ∧ h_of l f = 0.

Lemma neutral_sums l st st' :
  Forall neutral st →
  sum (w_of l) (st ++ st') = sum (w_of l) st' ∧ sum (h_of l) (st ++ st') = sum (h_of l) st' ∧
  (balanced l st' → balanced l (st ++ st')).
Proof.
  intros Hn.
  assert (Hw : Forall (λ f, w_of l f = 0) st) by exact (Forall_impl _ _ _ Hn (λ f Hf, proj1 (Hf l))).
  assert (Hh : Forall (λ f, h_of l f = 0) st) by exact (Forall_impl _ _ _ Hn (λ f Hf, proj2 (Hf l))).
  assert (Hd : Forall (λ f, d_of l f = 0) st).
  { apply (Forall_impl _ _ _ Hn). intros f Hf. unfold d_of. destruct (Hf l). lia. }
  rewrite !sum_app, (sum_zero _ _ Hw), (sum_zero _ _ Hh). split_and!; [lia..|].
  intros (? & ? & ?). split_and!; by apply bal_zero.
Qed.

(** ** At most one *)

(** [W t] is 1 for the thread [o] and 0 for every other one. *)
Definition hold (o : option Z) (W : Z → Z) : Prop :=
  match o with
  | None => ∀ t, W t = 0
  | Some t => W t = 1 ∧ ∀ u, u ≠ t → W u = 0
  end.

(** A binary semaphore of value [v]. *)
Definition own (v : Z) (W : Z → Z) : Prop :=
  ∃ o, v = (match o with None => 1 | Some _ => 0 end) ∧ hold o W.

Lemma hold_ext o W W' : (∀ t, W t = W' t) → hold o W → hold o W'.
Proof. intros E. destruct o; cbn; intros Hh; [split|]; intros; rewrite <-E; by apply Hh. Qed.

Lemma own_ext v W W' : (∀ t, W t = W' t) → own v W → own v W'.
Proof. intros E (o & ? & ?). exists o. split; [done|by eapply hold_ext]. Qed.

Lemma hold_release o W W' t :
  hold o W → 1 ≤ W t → W' t = W t - 1 → (∀ u, u ≠ t → W' u = W u) →
  o = Some t ∧ hold None W'.
Proof.
  intros Hh Ht Ht' Hu. destruct o as [v|]; cbn in *; [|specialize (Hh t); lia].
  destruct Hh as [Hv Hv']. destruct (decide (v = t)) as [->|Hne].
  - split; [done|]. intros u. destruct (decide (u = t)) as [->|]; [lia|].
    rewrite Hu by done. by apply Hv'.
  - rewrite (Hv' t) in Ht by congruence. lia.
Qed.

Lemma hold_take W W' t :
  hold None W → W' t = W t + 1 → (∀ u, u ≠ t → W' u = W u) → hold (Some t) W'.
Proof.
  cbn. intros Hh Ht Hu. split; [rewrite Ht, Hh; lia|]. intros u Hne. rewrite Hu by done. apply Hh.
Qed.

Lemma hold_unique o W t u : hold o W → 0 < W t → 0 < W u → t = u.
Proof.
  intros Hh Ht Hu. destruct o as [v|]; cbn in Hh; [|specialize (Hh t); lia].
  destruct Hh as [_ Hh].
  assert (t = v) by (destruct (decide (t = v)); [done|]; specialize (Hh t ltac:(done)); lia).
  assert (u = v) by (destruct (decide (u = v)); [done|]; specialize (Hh u ltac:(done)); lia).
  congruence.
Qed.

Lemma own_value v W : own v W → v = 0 ∨ v = 1.
Proof. intros ([t|] & -> & _); auto. Qed.

(** ** The shape of stacks *)

Definition is_down (f : frame) : bool := match f with FDownLoop _ _ => true | _ => false end.

Definition has_down (st : list frame) : bool := existsb is_down st.

(** The thread waits in [down] for semaphore [a]. *)
Definition blocked_on (st : list frame) (a : saddr) : Prop :=
  ∃ f o r, st = f :: FDownLoop a o :: r ∧ (f = FSchedule ∨ f = FScheduleRet false).

(** A loop of [down] is at the top of the stack, or right under the call of
    [schedule] it has made. *)
Definition shape (st : list frame) : Prop :=
  has_down (tail st) = false ∨ (∃ a, blocked_on st a) ∧ has_down (tail (tail st)) = false.

Definition sched_frame (f : frame) : Prop := f = FSchedule ∨ ∃ o, f = FScheduleRet o.

(** The stacks of the idle thread. *)
Definition idle_base : list (list frame) :=
  [[FKernelThread [OIdle]]; [FMain [OIdle]; FExit]; [FIdle; FMain []; FExit]].

Definition idle_stack (st : list frame) : Prop :=
  ∃ pre base, st = pre ++ base ∧ Forall sched_frame pre ∧ base ∈ idle_base.

Definition idle_frame (f : frame) : Prop :=
  sched_frame f ∨ f = FKernelThread [OIdle] ∨ f = FMain [OIdle] ∨ f = FIdle.

Lemma idle_top f st : idle_stack (f :: st) → idle_frame f.
Proof.
  intros (pre & base & E & Hpre & Hb). destruct pre as [|g pre].
  - unfold idle_base in Hb. rewrite !elem_of_cons in Hb.
    destruct Hb as [->|[->|[->|Hb]]]; [| | |by apply not_elem_of_nil in Hb];
      cbn in E; injection E as -> ->; unfold idle_frame; tauto.
  - cbn in E. injection E as -> ->. apply Forall_cons in Hpre as [? _]. by left.
Qed.

Lemma idle_push f st : sched_frame f → idle_stack st → idle_stack (f :: st).
Proof.
  intros Hf (pre & base & -> & Hpre & Hb). exists (f :: pre), base.
  split_and!; [done|by constructor|done].
Qed.

Lemma idle_pop f st : sched_frame f → idle_stack (f :: st) → idle_stack st.
Proof.
  intros Hf (pre & base & E & Hpre & Hb). destruct pre as [|g pre].
  - unfold idle_base in Hb. rewrite !elem_of_cons in Hb. destruct Hf as [->|[o ->]];
      destruct Hb as [->|[->|[->|Hb]]]; try done; by apply not_elem_of_nil in Hb.
  - cbn in E. injection E as -> ->. apply Forall_cons in Hpre as [_ ?]. by exists pre, base.
Qed.

Lemma idle_step f st :
  idle_stack (f :: st) → ¬ sched_frame f →
  f = FKernelThread [OIdle] ∧ st = [] ∨ f = FMain [OIdle] ∧ st = [FExit] ∨
  f = FIdle ∧ st = [FMain []; FExit].
Proof.
  intros (pre & base & E & Hpre & Hb) Hn. destruct pre as [|g pre].
  - unfold idle_base in Hb. rewrite !elem_of_cons in Hb.
    destruct Hb as [->|[->|[->|Hb]]]; [| | |by apply not_elem_of_nil in Hb];
      cbn in E; injection E as -> ->; tauto.
  - cbn in E. injection E as -> ->. by apply Forall_cons in Hpre as [? _].
Qed.

Lemma idle_base_in b pre : Forall sched_frame pre → b ∈ idle_base → idle_stack (pre ++ b).
Proof. intros. by exists pre, b. Qed.

(** ** The invariant *)

Section Safe.
Context {Sc : Type} `{SI : Schedule Sc} `{SL : !ScheduleLaws Sc}.
Context (Hdef : prio_ok PRI_DEFAULT) (Hmin : prio_ok PRI_MIN).

(** Programs of the theorem: no sleeping, no condition variables, semaphores
    other than the ones inside locks, and priorities the scheduler has room
    for. *)
Fixpoint op_ok (o : op) : Prop :=
  match o with
  | OYield | OExit | OIdle => True
  | OSetPriority p => prio_ok p
  | OSleep n => n ≤ 0
  | ODown (SemaAt _) | OUp (SemaAt _) => True
  | ODown (LockSema _) | OUp (LockSema _) => False
  | OLocked _ body => foldr (λ o P, op_ok o ∧ P) True body
  | OWait _ _ | ONotifyOne _ | ONotifyAll _ => False
  | OSpawn _ b main => prio_ok (b_priority b) ∧ foldr (λ o P, op_ok o ∧ P) True main
  end.

Definition ops_ok (ops : list op) : Prop := foldr (λ o P, op_ok o ∧ P) True ops.

Definition frame_ok (ts : Threads) (f : frame) : Prop :=
  match f with
  | FMain ops | FKernelThread ops => ops_ok ops
  | FSetSetted p => prio_ok p
  | FDonate d a _ => is_Some (ts !! d) ∧ is_Some (ts !! a)
  | FFindAndDonate d _ => is_Some (ts !! d)
  | FBlock | FNotifyClear _ => False
  | _ => True
  end.

(** The records of donations name threads and priorities that exist. *)
Definition donation_ok (ts : Threads) (d : DonationData) : Prop :=
  is_Some (ts !! donner d) ∧ is_Some (ts !! acceptor d) ∧
  prio_ok (donner_priority d) ∧ prio_ok (prev_priority d).

Definition data_ok (ts : Threads) (th : Thread) : Prop :=
  Forall (donation_ok ts) (donationq th) ∧ prio_ok (stored_prev th).2 ∧
  (∀ p, priority_setted th = Some p → prio_ok p).

Definition lock_inv (s : Sys Sc) (l : Z) : Prop :=
  own (sema_value (inner (locks s !!! l))) (λ t, sum (w_of l) (stk s t)) ∧
  hold (holder (locks s !!! l)) (λ t, sum (h_of l) (stk s t)).

Record inv (s : Sys Sc) : Prop := {
  i_wf : wf (kern s);
  i_data : ∀ t th, threads (kern s) !! t = Some th → data_ok (threads (kern s)) th;
  i_idle : ∃ th, threads (kern s) !! 1 = Some th ∧ status th ≠ Blocked ∧ status th ≠ Dying;
  i_idle_stack : idle_stack (stk s 1);
  i_frames : ∀ t, Forall (frame_ok (threads (kern s))) (stk s t);
  i_dom : ∀ t, threads (kern s) !! t = None → stk s t = [];
  i_dead : ∀ t, FUnreachable ∈ stk s t → status (thread (kern s) t) = Dying;
  i_shape : ∀ t, shape (stk s t);
  i_intr : has_down (stk s (current (kern s))) = true → stimer (hart (kern s)) = false;
  i_cur_blocked : status (current_thread (kern s)) = Blocked →
    head (stk s (current (kern s))) = Some FSchedule;
  i_cur_dying : status (current_thread (kern s)) = Dying →
    head (stk s (current (kern s))) = Some FSchedule;
  i_blocked : ∀ t th, threads (kern s) !! t = Some th → status th = Blocked →
    ∃ a, t ∈ waiters (sema_at a s);
  i_waiting : ∀ a t, t ∈ waiters (sema_at a s) →
    (∃ th, threads (kern s) !! t = Some th ∧ status th = Blocked) ∧ blocked_on (stk s t) a;
  i_nodup : ∀ a, NoDup (waiters (sema_at a s));
  i_balanced : ∀ l t, balanced l (stk s t);
  i_lock : ∀ l, lock_inv s l;
  i_sleepq : sleepq s = []
}.

(** *** Basic facts *)

Lemma frame_ok_mono ts ts' f :
  (∀ t, is_Some (ts !! t) → is_Some (ts' !! t)) → frame_ok ts f → frame_ok ts' f.
Proof. intros Hts. destruct f; cbn; try done; naive_solver. Qed.

Lemma frames_ok_mono ts ts' st :
  (∀ t, is_Some (ts !! t) → is_Some (ts' !! t)) →
  Forall (frame_ok ts) st → Forall (frame_ok ts') st.
Proof. intros Hts Hst. apply (Forall_impl _ _ _ Hst). intros. by eapply frame_ok_mono. Qed.

Lemma data_ok_mono ts ts' th :
  (∀ t, is_Some (ts !! t) → is_Some (ts' !! t)) → data_ok ts th → data_ok ts' th.
Proof.
  intros Hts (H1 & ? & ?). split_and!; try done. apply (Forall_impl _ _ _ H1).
  intros d (? & ? & ? & ?). unfold donation_ok. auto.
Qed.

Lemma status_dom (ts ts' : Threads) :
  (∀ u, status <$> ts' !! u = status <$> ts !! u) →
  ∀ t, is_Some (ts' !! t) ↔ is_Some (ts !! t).
Proof. intros E t. by rewrite <-(fmap_is_Some status), E, fmap_is_Some. Qed.

Lemma status_lookup (ts ts' : Threads) t th :
  (∀ u, status <$> ts' !! u = status <$> ts !! u) →
  ts' !! t = Some th → ∃ th0, ts !! t = Some th0 ∧ status th0 = status th.
Proof.
  intros E Ht. specialize (E t). rewrite Ht in E. cbn in E.
  destruct (ts !! t) as [th0|]; [|done]. exists th0. cbn in E. split; congruence.
Qed.

Lemma status_total (ts ts' : Threads) t :
  (∀ u, status <$> ts' !! u = status <$> ts !! u) → status (ts' !!! t) = status (ts !!! t).
Proof.
  intros E. specialize (E t). rewrite !lookup_total_alt.
  destruct (ts !! t), (ts' !! t); cbn in *; congruence.
Qed.

Lemma stk_push (s s' : Sys Sc) t st u :
  stacks s' = <[t := st]> (stacks s) → stk s' u = if decide (u = t) then st else stk s u.
Proof.
  intros E. unfold stk. rewrite E. case_decide; subst.
  - by rewrite lookup_total_insert_eq.
  - by rewrite lookup_total_insert_ne.
Qed.

(** *** The current thread replaces its stack

    The general step that leaves the status of every thread and the waiters
    of every semaphore as they are. *)
Lemma inv_run (s s' : Sys Sc) t st :
  inv s → t = current (kern s) →
  status (current_thread (kern s)) = Running ∨
    status (current_thread (kern s)) = Dying ∧ head st = Some FSchedule →
  wf (kern s') → current (kern s') = t → sleepq s' = [] →
  (∀ u, status <$> (threads (kern s') !! u) = status <$> (threads (kern s) !! u)) →
  (∀ u th, threads (kern s') !! u = Some th → data_ok (threads (kern s')) th) →
  (∀ a, waiters (sema_at a s') = waiters (sema_at a s)) →
  stacks s' = <[t := st]> (stacks s) →
  Forall (frame_ok (threads (kern s'))) st →
  (FUnreachable ∈ st → FUnreachable ∈ stk s t) →
  (t = 1 → idle_stack st) →
  shape st → (has_down st = true → stimer (hart (kern s')) = false) →
  (∀ l, balanced l st) →
  (∀ l, lock_inv s' l) →
  inv s'.
Proof.
  intros I Ht Hrun Hwf Hcur Hsq Hst Hdata Hwait Hstk Hok Hun Hidle Hshape Hintr Hbal Hlock.
  pose proof (λ u, stk_push _ _ _ _ u Hstk) as Hs'. pose proof (status_dom _ _ Hst) as Hdom.
  assert (Hcth : status (current_thread (kern s')) = status (current_thread (kern s))).
  { unfold current_thread, thread. rewrite Hcur, Ht. by apply status_total. }
  destruct (wf_current _ (i_wf _ I)) as (c & Hc & Hcs). rewrite <-Ht in Hc.
  assert (Hcst : status (current_thread (kern s)) = status c).
  { unfold current_thread. rewrite <-Ht. by rewrite (thread_lookup _ _ _ Hc). }
  split; try done.
  - destruct (i_idle _ I) as (th & Hth & ? & ?). specialize (Hst 1). rewrite Hth in Hst.
    destruct (threads (kern s') !! 1) as [th'|]; [|done]. exists th'. cbn in Hst.
    injection Hst as Hst. by rewrite Hst.
  - rewrite Hs'. case_decide; [auto|apply I].
  - intros u. rewrite Hs'. case_decide; [done|].
    eapply frames_ok_mono; [|apply I]. intros v. by apply Hdom.
  - intros u Hu. rewrite Hs'.
    assert (Hu' : threads (kern s) !! u = None).
    { apply eq_None_not_Some. rewrite <-Hdom, Hu. by intros [??]. }
    case_decide; [congruence|]. by apply (i_dom _ I).
  - intros u Hu. unfold thread. rewrite (status_total _ _ _ Hst).
    apply (i_dead _ I). rewrite Hs' in Hu. case_decide; [subst; auto|done].
  - intros u. rewrite Hs'. case_decide; [done|apply I].
  - rewrite Hs', Hcur, decide_True by done. done.
  - rewrite Hcth, Hs', Hcur, decide_True by done. intros Hb.
    destruct Hrun as [?|[??]]; congruence.
  - rewrite Hcth, Hs', Hcur, decide_True by done. intros Hd.
    destruct Hrun as [?|[??]]; congruence.
  - intros u th Hu Hb. destruct (status_lookup _ _ _ _ Hst Hu) as (th0 & Hu0 & Hb0).
    destruct (i_blocked _ I _ _ Hu0) as [a Ha]; [congruence|]. exists a. by rewrite Hwait.
  - intros a u. rewrite Hwait. intros Hu. destruct (i_waiting _ I _ _ Hu) as [(th & Hth & Hb) Hbl].
    assert (u ≠ t) as Hne.
    { intros ->. simplify_eq. destruct Hrun as [?|[??]]; congruence. }
    split; [|by rewrite Hs', decide_False].
    specialize (Hst u). rewrite Hth in Hst. destruct (threads (kern s') !! u) as [th'|]; [|done].
    exists th'. cbn in Hst. injection Hst as Hst. split; [done|congruence].
  - intros a. rewrite Hwait. apply I.
  - intros l u. rewrite Hs'. case_decide; [done|apply I].
Qed.

(** *** The top of the current stack *)

Lemma running_top (s : Sys Sc) f rest :
  inv s → stk s (current (kern s)) = f :: rest → f ≠ FSchedule →
  status (current_thread (kern s)) = Running.
Proof.
  intros I Hst Hf. destruct (wf_current _ (i_wf _ I)) as (c & Hc & Hcs).
  pose proof (i_cur_blocked _ I) as Hb. pose proof (i_cur_dying _ I) as Hd.
  rewrite Hst in Hb, Hd. unfold current_thread in *.
  rewrite (thread_lookup _ _ _ Hc) in *. cbn in *.
  destruct (status c); [done|done| |].
  - specialize (Hb eq_refl). congruence.
  - specialize (Hd eq_refl). congruence.
Qed.

Lemma rest_no_down f rest : shape (f :: rest) → ¬ sched_frame f → has_down rest = false.
Proof.
  intros [?|((a & g & o & r & E & Hg) & _)] Hf; [done|]. exfalso. apply Hf.
  injection E as -> _. destruct Hg as [-> | ->]; [by left|right; by eexists].
Qed.

Lemma no_down_shape st : has_down st = false → shape st.
Proof. intros Hd. left. destruct st; [done|]. cbn in *. by apply orb_false_iff in Hd as [_ ?]. Qed.

Lemma has_down_app st st' : has_down (st ++ st') = has_down st || has_down st'.
Proof. apply existsb_app. Qed.

Lemma current_dom (s : Sys Sc) : inv s → is_Some (threads (kern s) !! current (kern s)).
Proof. intros I. destruct (wf_current _ (i_wf _ I)) as (c & Hc & _). by eexists. Qed.

(** What frames [fs] may take the place of [f] above [rest]. *)
Record frames_new (ts : Threads) (f : frame) (fs rest : list frame) : Prop := {
  n_ok : Forall (frame_ok ts) fs;
  n_dead : FUnreachable ∉ fs;
  n_down : has_down fs = false;
  n_balanced : ∀ l, balanced l (f :: rest) → balanced l (fs ++ rest)
}.

Lemma lock_inv_push (s s' : Sys Sc) t f fs rest l :
  stk s t = f :: rest → stacks s' = stacks s →
  sema_value (inner (locks s' !!! l)) = sema_value (inner (locks s !!! l)) →
  holder (locks s' !!! l) = holder (locks s !!! l) →
  sum (w_of l) fs = w_of l f → sum (h_of l) fs = h_of l f →
  lock_inv s l → lock_inv (push_frames t fs rest s') l.
Proof.
  intros Hst Hs Hv Hh Hw Hho [Ho Hl]. unfold lock_inv. cbn [locks push_frames with_stacks].
  rewrite Hv, Hh. split.
  - eapply own_ext; [|exact Ho]. intros u. cbv beta.
    rewrite (stk_push s (push_frames t fs rest s') t (fs ++ rest)) by (cbn; by rewrite Hs).
    case_decide; [|done]. subst. by rewrite Hst, sum_app, Hw.
  - eapply hold_ext; [|exact Hl]. intros u. cbv beta.
    rewrite (stk_push s (push_frames t fs rest s') t (fs ++ rest)) by (cbn; by rewrite Hs).
    case_decide; [|done]. subst. by rewrite Hst, sum_app, Hho.
Qed.

(** A frame other than the ones of [schedule] has run. *)
Lemma inv_frame (s s' : Sys Sc) f fs rest :
  inv s → stk s (current (kern s)) = f :: rest → ¬ sched_frame f →
  wf (kern s') → current (kern s') = current (kern s) → sleepq s' = [] →
  (∀ u, status <$> (threads (kern s') !! u) = status <$> (threads (kern s) !! u)) →
  (∀ u th, threads (kern s') !! u = Some th → data_ok (threads (kern s')) th) →
  (∀ a, waiters (sema_at a s') = waiters (sema_at a s)) →
  stacks s' = stacks s →
  frames_new (threads (kern s')) f fs rest →
  (current (kern s) = 1 → idle_stack (fs ++ rest)) →
  (∀ l, lock_inv (push_frames (current (kern s)) fs rest s') l) →
  inv (push_frames (current (kern s)) fs rest s').
Proof.
  intros I Hst Hf Hwf Hcur Hsq Hstat Hdata Hwait Hstk Hn Hidle Hlock.
  assert (Hnd : has_down (fs ++ rest) = false).
  { rewrite has_down_app, (n_down _ _ _ _ Hn). apply (rest_no_down f); [|done].
    rewrite <-Hst. apply I. }
  assert (Hrest : Forall (frame_ok (threads (kern s'))) rest).
  { eapply frames_ok_mono; [intros u; apply (status_dom _ _ Hstat)|].
    pose proof (i_frames _ I (current (kern s))) as HF. rewrite Hst in HF.
    by apply Forall_cons in HF as [_ ?]. }
  eapply (inv_run s _ (current (kern s)) (fs ++ rest)); try done.
  - left. eapply running_top; [done..|]. intros ->. apply Hf. by left.
  - cbn. by rewrite Hstk.
  - apply Forall_app. split; [apply Hn|done].
  - rewrite Hst, elem_of_app, elem_of_cons. intros [?|?]; [|by right].
    by destruct (n_dead _ _ _ _ Hn).
  - by apply no_down_shape.
  - by rewrite Hnd.
  - intros l. apply Hn. rewrite <-Hst. apply I.
Qed.

(** A frame that only becomes other frames. *)
Lemma inv_pure (s : Sys Sc) f fs rest :
  inv s → stk s (current (kern s)) = f :: rest → ¬ sched_frame f →
  frames_new (threads (kern s)) f fs rest →
  (current (kern s) = 1 → idle_stack (fs ++ rest)) →
  (∀ l, sum (w_of l) fs = w_of l f ∧ sum (h_of l) fs = h_of l f) →
  inv (push_frames (current (kern s)) fs rest s).
Proof.
  intros I Hst Hf Hn Hidle Hsum. eapply inv_frame; try done; try apply I.
  intros l. destruct (Hsum l). eapply lock_inv_push; try done. apply I.
Qed.

(** The current thread is not the idle thread. *)
Lemma not_idle (s : Sys Sc) f rest (P : Prop) :
  inv s → stk s (current (kern s)) = f :: rest → ¬ idle_frame f →
  current (kern s) = 1 → P.
Proof.
  intros I Hst Hf E. exfalso. apply Hf. apply (idle_top f rest).
  rewrite <-Hst, E. apply I.
Qed.

(** *** Frame by frame *)

Ltac bal_tac :=
  let l' := fresh "l" in intros l' (B1 & B2 & B3);
  cbn [bal sum] in B1, B2, B3; destruct B1 as [N1 B1], B2 as [N2 B2], B3 as [N3 B3];
  pose proof (bal_nonneg _ _ B1); pose proof (bal_nonneg _ _ B2);
  pose proof (bal_nonneg _ _ B3);
  unfold d_of in N3; cbn [w_of h_of] in N1, N2, N3;
  unfold balanced; cbn [app bal sum]; unfold d_of; cbn [w_of h_of];
  repeat case_bool_decide; split_and!; (done || lia).

Ltac new_tac :=
  split; cbn [app]; [repeat apply Forall_cons_2; cbn; try done
         |rewrite ?elem_of_cons; intros HU; destruct_or?; try done; by apply not_elem_of_nil in HU
         |done|try bal_tac].

Ltac sum_tac := let l' := fresh "l" in intros l'; cbn; repeat case_bool_decide; split; lia.

Ltac not_sched := intros [? | [? ?]]; discriminate.
Ltac not_idle_frame := intros [[? | [? ?]] | [? | [? | ?]]]; discriminate.

(** Panics the theorem allows: the holder of a lock has let go of it between
    the test and the use of [holder], and an [up] of a positive semaphore that
    has waiters. *)
Definition may_panic (s : Sys Sc) (f : frame) (p : panic) : Prop :=
  (p = UnwrapNone ∧ ∃ l, f = FAcquireHolder l ∧ holder (locks s !!! l) = None) ∨
  (p = AssertFailed ∧ ∃ n, f = FUp (SemaAt n) ∧
    sema_value (semas s !!! n) ≠ 0 ∧ waiters (semas s !!! n) ≠ []).

Definition exec_inv (s : Sys Sc) (f : frame) (rest : list frame) : Prop :=
  match exec f s with
  | Ret (fs, s') => inv (push_frames (current (kern s)) fs rest s')
  | Panic p => may_panic s f p
  end.

Section Step.
Context (s : Sys Sc) (rest : list frame) (I : inv s).
Abbreviation t := (current (kern s)).

Lemma frame_ok_top f : stk s t = f :: rest → frame_ok (threads (kern s)) f.
Proof.
  intros Hst. pose proof (i_frames _ I t) as HF. rewrite Hst in HF.
  by apply Forall_cons in HF as [? _].
Qed.

Lemma main_nil_ok : stk s t = FMain [] :: rest → exec_inv s (FMain []) rest.
Proof.
  intros Hst. unfold exec_inv. cbn [exec]. unmonad.
  eapply (inv_pure s (FMain []) [] rest); try done; [not_sched|new_tac|].
  eapply not_idle; [done..|not_idle_frame].
Qed.

(** The calls that only become frames. *)
Lemma main_pure o ops fs :
  stk s t = FMain (o :: ops) :: rest → exec_op o s = Ret (fs, s) →
  frames_new (threads (kern s)) (FMain (o :: ops)) (fs ++ [FMain ops]) rest →
  (t = 1 → idle_stack (fs ++ [FMain ops] ++ rest)) →
  (∀ l, sum (w_of l) fs = 0 ∧ sum (h_of l) fs = 0) →
  exec_inv s (FMain (o :: ops)) rest.
Proof.
  intros Hst Ho Hn Hidle Hsum. unfold exec_inv. cbn [exec]. unmonad. rewrite Ho.
  apply (inv_pure s (FMain (o :: ops))); try done; [not_sched|by rewrite <-app_assoc|].
  intros l. rewrite !sum_app. cbn. destruct (Hsum l). lia.
Qed.

Lemma idle_main ops o :
  stk s t = FMain (o :: ops) :: rest → t = 1 → o = OIdle ∧ ops = [] ∧ rest = [FExit].
Proof.
  intros Hst E. pose proof (i_idle_stack _ I) as Hi. rewrite <-E, Hst in Hi.
  apply idle_step in Hi; [|not_sched]. destruct Hi as [[? ?]|[[[= -> ->] ->]|[? ?]]]; done.
Qed.

Lemma main_idle_ok ops :
  stk s t = FMain (OIdle :: ops) :: rest → exec_inv s (FMain (OIdle :: ops)) rest.
Proof.
  intros Hst. pose proof (frame_ok_top _ Hst) as [_ Hops].
  eapply main_pure; try done; [new_tac|].
  intros E. destruct (idle_main _ _ Hst E) as (_ & -> & ->).
  apply (idle_base_in _ []); [done|]. unfold idle_base. rewrite !elem_of_cons. tauto.
Qed.

Lemma main_simple_ok o ops :
  stk s t = FMain (o :: ops) :: rest →
  match o with OYield | OExit | ODown _ | OUp _ | OLocked _ _ | OSleep _ => True | _ => False end →
  exec_inv s (FMain (o :: ops)) rest.
Proof.
  intros Hst Ho. pose proof (frame_ok_top _ Hst) as [Hok Hops].
  assert (Hni : ∀ fs, t = 1 → idle_stack (fs ++ [FMain ops] ++ rest)).
  { intros fs E. destruct (idle_main _ _ Hst E) as (-> & _). done. }
  destruct o; try done; cbn in Hok.
  - eapply main_pure; try done; [new_tac|apply (Hni [_])].
  - eapply main_pure; try done; [new_tac|apply (Hni [_])].
  - apply (main_pure _ _ []); [done| |new_tac|apply (Hni [])|by intros].
    cbn [exec_op]. unfold sleep. by rewrite bool_decide_eq_true_2.
  - destruct s0; [|done]. eapply main_pure; try done; [new_tac|apply (Hni [_])].
  - destruct s0; [|done]. eapply main_pure; try done; [new_tac|apply (Hni [_])].
  - eapply main_pure; [done|done|new_tac|apply (Hni [_; _; _])|sum_tac].
Qed.

Lemma kernel_thread_top_ok main :
  stk s t = FKernelThread main :: rest → exec_inv s (FKernelThread main) rest.
Proof.
  intros Hst. pose proof (frame_ok_top _ Hst) as Hok. cbn in Hok.
  unfold exec_inv. cbn [exec]. unfold kernel_thread, set_intr, on_kern, interrupt_set', hart_op.
  unmonad. rewrite interrupt_set_run by apply I.
  eapply inv_frame; try done; [not_sched| | | |new_tac| |].
  - destruct (i_wf _ I). by constructor.
  - cbn. apply I.
  - cbn. apply I.
  - intros E. pose proof (i_idle_stack _ I) as Hi. rewrite <-E, Hst in Hi.
    apply idle_step in Hi; [|not_sched]. destruct Hi as [[[= ->] ->]|[[? ?]|[? ?]]]; [|done..].
    apply (idle_base_in _ []); [done|]. unfold idle_base. rewrite !elem_of_cons. tauto.
  - intros l. eapply lock_inv_push; try done. apply I.
Qed.

Lemma idle_ok : stk s t = FIdle :: rest → exec_inv s FIdle rest.
Proof.
  intros Hst. unfold exec_inv. cbn [exec]. unmonad.
  eapply (inv_pure s FIdle); try done; [not_sched|new_tac|].
  intros E. pose proof (i_idle_stack _ I) as Hi. rewrite <-E, Hst in Hi.
  cbn. apply idle_push; [by left|done].
Qed.

Lemma acquire_ok l : stk s t = FAcquire l :: rest → exec_inv s (FAcquire l) rest.
Proof.
  intros Hst. unfold exec_inv. cbn [exec]. unfold acquire. unmonad.
  case_bool_decide.
  - eapply (inv_pure s (FAcquire l)); try done; [not_sched|new_tac| |sum_tac].
    eapply not_idle; [done..|not_idle_frame].
  - eapply (inv_pure s (FAcquire l)); try done; [not_sched|new_tac| |sum_tac].
    eapply not_idle; [done..|not_idle_frame].
Qed.

(** The holder of a lock is a thread of the store. *)
Lemma holder_dom l u : holder (locks s !!! l) = Some u → is_Some (threads (kern s) !! u).
Proof.
  intros Hu. destruct (i_lock _ I l) as [_ Hh]. rewrite Hu in Hh. destruct Hh as [Hh _].
  destruct (threads (kern s) !! u) eqn:E; [by eexists|].
  rewrite (i_dom _ I _ E) in Hh. cbn in Hh. lia.
Qed.

Lemma acquire_holder_ok l :
  stk s t = FAcquireHolder l :: rest → exec_inv s (FAcquireHolder l) rest.
Proof.
  intros Hst. unfold exec_inv. cbn [exec]. unfold acquire_holder, cur. unmonad.
  destruct (holder (locks s !!! l)) as [a|] eqn:Ha; [|left; eauto].
  pose proof (holder_dom _ _ Ha). pose proof (current_dom _ I).
  eapply (inv_pure s (FAcquireHolder l)); try done; [not_sched|new_tac| |sum_tac].
  eapply not_idle; [done..|not_idle_frame].
Qed.

Lemma find_and_donate_ok d l :
  stk s t = FFindAndDonate d l :: rest → exec_inv s (FFindAndDonate d l) rest.
Proof.
  intros Hst. pose proof (frame_ok_top _ Hst) as [th Hth]. cbn in Hth.
  unfold exec_inv. cbn [exec]. unfold find_and_donate, thr. unmonad.
  rewrite (thread_lookup _ _ _ Hth).
  destruct (i_data _ I _ _ Hth) as (HD & _). set (g := λ i : DonationData, _).
  assert (HF : ∀ f, f ∈ concat (map g (donationq th)) →
    ∃ i, i ∈ donationq th ∧ (f = FDonate d (acceptor i) l ∨ f = FFindAndDonate (acceptor i) l)).
  { intros f Hf. apply elem_of_concat in Hf as (b & Hfb & Hb).
    apply list_elem_of_fmap in Hb as (i & -> & Hi). exists i. split; [done|].
    unfold g in Hfb. destruct (_ && _); [|by apply not_elem_of_nil in Hfb].
    rewrite !elem_of_cons in Hfb. destruct Hfb as [?|[?|Hn]]; [by left|by right|].
    by apply not_elem_of_nil in Hn. }
  assert (HN : Forall neutral (concat (map g (donationq th)))).
  { apply Forall_forall. intros f Hf. destruct (HF f Hf) as (i & _ & [-> | ->]); by intros l'. }
  eapply (inv_pure s (FFindAndDonate d l)); try done; [not_sched| | |].
  - split.
    + apply Forall_forall. intros f Hf. destruct (HF f Hf) as (i & Hi & Hor).
      rewrite Forall_forall in HD. destruct (HD i Hi) as (_ & ? & _).
      destruct Hor as [-> | ->]; cbn; [|done]. split; [by eexists|done].
    + intros Hf. by destruct (HF _ Hf) as (i & _ & [?|?]).
    + apply not_true_iff_false. intros Hd. apply existsb_exists in Hd as (f & Hf & Hd).
      apply list_elem_of_In in Hf. by destruct (HF f Hf) as (i & _ & [-> | ->]).
    + intros l' HB. apply (neutral_sums l' _ _ HN). by eapply balanced_tail.
  - eapply not_idle; [done..|not_idle_frame].
  - intros l'. destruct (neutral_sums l' _ [] HN) as (H1 & H2 & _).
    rewrite app_nil_r in H1, H2. by rewrite H1, H2.
Qed.
End Step.

(** *** Changes of thread fields

    Priorities and records of donations change while nothing else does. *)

Definition upd (t : Z) (f : Thread → Thread) (s : Sys Sc) : Sys Sc :=
  with_kern (with_threads (on_thread t f (threads (kern s))) (kern s)) s.

Lemma update_run t f (s : Sys Sc) : on_kern (update t f) s = Ret ((), upd t f s).
Proof. done. Qed.

Record quiet (s s' : Sys Sc) : Prop := {
  q_same : s' = with_kern (with_threads (threads (kern s')) (kern s)) s;
  q_status : ∀ u, status <$> threads (kern s') !! u = status <$> threads (kern s) !! u;
  q_wf : wf (kern s');
  q_data : ∀ u th, threads (kern s') !! u = Some th → data_ok (threads (kern s')) th
}.

Lemma with_kern_id (s : Sys Sc) : with_kern (with_threads (threads (kern s)) (kern s)) s = s.
Proof. by destruct s as [[]]. Qed.

Lemma quiet_refl s : inv s → quiet s s.
Proof. intros I. split; try apply I; try done. by rewrite with_kern_id. Qed.

Lemma quiet_current s s' : quiet s s' → current (kern s') = current (kern s).
Proof. intros Q. by rewrite (q_same _ _ Q). Qed.

Lemma quiet_locks s s' : quiet s s' → locks s' = locks s.
Proof. intros Q. by rewrite (q_same _ _ Q). Qed.

Lemma quiet_dom s s' u :
  quiet s s' → is_Some (threads (kern s') !! u) ↔ is_Some (threads (kern s) !! u).
Proof. intros Q. apply status_dom, Q. Qed.

Lemma quiet_upd s s' t f th :
  quiet s s' → threads (kern s') !! t = Some th →
  status (f th) = status th → magic (f th) = magic th → prio_ok (priority (f th)) →
  data_ok (threads (kern s')) (f th) →
  quiet s (upd t f s').
Proof.
  intros Q Ht Hst Hm Hp Hd. unfold upd.
  assert (Hl : ∀ u, on_thread t f (threads (kern s')) !! u =
                 if decide (u = t) then Some (f th) else threads (kern s') !! u).
  { intros u. rewrite on_thread_lookup, Ht. by case_decide. }
  split; cbn.
  - by rewrite (q_same _ _ Q).
  - intros u. rewrite Hl, <-(q_status _ _ Q). case_decide; subst; [|done].
    rewrite Ht. cbn. by rewrite Hst.
  - eapply update_wf; try done. apply Q.
  - intros u thu. rewrite Hl. intros Hu. eapply (data_ok_mono (threads (kern s'))).
    + clear Hu. intros v. rewrite Hl. case_decide; [by eexists|done].
    + case_decide; [by simplify_eq|by eapply Q].
Qed.

(** The frame [f] has run and changed thread fields only. *)
Lemma inv_quiet s s' f fs rest :
  inv s → quiet s s' → stk s (current (kern s)) = f :: rest → ¬ sched_frame f →
  frames_new (threads (kern s')) f fs rest →
  (current (kern s) = 1 → idle_stack (fs ++ rest)) →
  (∀ l, sum (w_of l) fs = w_of l f ∧ sum (h_of l) fs = h_of l f) →
  inv (push_frames (current (kern s)) fs rest s').
Proof.
  intros I Q Hst Hf Hn Hidle Hsum.
  assert (HL : ∀ a, sema_at a s' = sema_at a s) by (intros []; by rewrite (q_same _ _ Q)).
  eapply inv_frame; try done.
  - apply Q.
  - by apply quiet_current.
  - rewrite (q_same _ _ Q). apply I.
  - apply Q.
  - apply Q.
  - intros a. by rewrite HL.
  - by rewrite (q_same _ _ Q).
  - intros l. destruct (Hsum l). eapply lock_inv_push; try done.
    + by rewrite (q_same _ _ Q).
    + by rewrite (quiet_locks _ _ Q).
    + by rewrite (quiet_locks _ _ Q).
    + apply I.
Qed.

Lemma data_ok_queue ts th q :
  data_ok ts th → Forall (donation_ok ts) q → data_ok ts (with_donationq q th).
Proof. intros (_ & ? & ?) ?. by split. Qed.

Lemma data_ok_priority ts th p : data_ok ts th → data_ok ts (with_priority p th).
Proof. by intros (? & ? & ?). Qed.

Section Quiet.
Context (s0 : Sys Sc).

Lemma quiet_lookup s u :
  quiet s0 s → is_Some (threads (kern s0) !! u) →
  ∃ th, threads (kern s) !! u = Some th ∧ thread (kern s) u = th ∧
    prio_ok (priority th) ∧ data_ok (threads (kern s)) th.
Proof.
  intros Q Hu. apply (quiet_dom _ _ _ Q) in Hu as [th Hth]. exists th.
  split_and!; [done|by apply thread_lookup| |by eapply Q].
  eapply wf_prio; [apply Q|done].
Qed.

Lemma quiet_priority s u p :
  quiet s0 s → is_Some (threads (kern s0) !! u) → prio_ok p →
  quiet s0 (upd u (with_priority p) s).
Proof.
  intros Q Hu Hp. destruct (quiet_lookup s u Q Hu) as (th & Hth & _ & _ & Hd).
  by eapply quiet_upd.
Qed.

(** A new queue of donations computed from the old one. *)
Lemma quiet_queue s u (g : list DonationData → list DonationData) :
  quiet s0 s → is_Some (threads (kern s0) !! u) →
  (∀ q, Forall (donation_ok (threads (kern s))) q →
        Forall (donation_ok (threads (kern s))) (g q)) →
  quiet s0 (upd u (λ th, with_donationq (g (donationq th)) th) s).
Proof.
  intros Q Hu Hg. destruct (quiet_lookup s u Q Hu) as (th & Hth & _ & Hp & Hd).
  eapply quiet_upd; try done. apply data_ok_queue; [done|]. apply Hg, Hd.
Qed.

Lemma quiet_add_donation s u d :
  quiet s0 s → is_Some (threads (kern s0) !! u) → donation_ok (threads (kern s0)) d →
  ∃ s', add_donation u d s = Ret ((), s') ∧ quiet s0 s'.
Proof.
  intros Q Hu (H1 & H2 & H3 & H4). eexists. split; [apply update_run|].
  apply (quiet_queue s u (push_back d)); [done..|]. intros q Hq. unfold push_back.
  apply Forall_app. split; [done|]. constructor; [|done].
  split_and!; try done; by apply (quiet_dom _ _ _ Q).
Qed.

Lemma Forall_filter_keep {A} (P Q : A → Prop) `{∀ x, Decision (Q x)} l :
  Forall P l → Forall P (filter Q l).
Proof. rewrite !Forall_forall. intros HP x Hx. apply list_elem_of_filter in Hx as [_ ?]. auto. Qed.

Lemma quiet_delete_donation s u l :
  quiet s0 s → is_Some (threads (kern s0) !! u) →
  ∃ r s', delete_donation u l s = Ret (r, s') ∧ quiet s0 s' ∧
    (∀ d, r = Some d → donation_ok (threads (kern s0)) d).
Proof.
  intros Q Hu. destruct (quiet_lookup s u Q Hu) as (th & Hth & Hthr & Hp & Hd).
  unfold delete_donation, thr. unmonad. rewrite update_run, Hthr. do 2 eexists.
  split; [reflexivity|]. split.
  - eapply quiet_upd; try done. apply data_ok_queue; [done|].
    apply Forall_filter_keep. apply Hd.
  - intros d Hfd. apply find_some in Hfd as [Hin _]. destruct Hd as (HD & _).
    rewrite Forall_forall in HD. destruct (HD d) as (? & ? & ? & ?); [by apply list_elem_of_In|].
    split_and!; try done; by apply (quiet_dom _ _ _ Q).
Qed.
End Quiet.

Lemma foldl_max_ok p q :
  prio_ok p → Forall (λ i, prio_ok (donner_priority i)) q →
  prio_ok (foldl (λ p i, Z.max p (donner_priority i)) p q).
Proof.
  intros Hp Hq. revert p Hp. induction Hq as [|i q Hi Hq IH]; intros p Hp; [done|].
  cbn. apply IH. by destruct (Z.max_spec p (donner_priority i)) as [[_ ->]|[_ ->]].
Qed.

(** Giving back a donation keeps everything in order. *)
Lemma return_donation_quiet s0 s l ret :
  quiet s0 s → is_Some (threads (kern s0) !! current (kern s0)) →
  donation_ok (threads (kern s0)) ret →
  ∃ s', return_donation l ret s = Ret ((), s') ∧ quiet s0 s'.
Proof.
  intros Q Hc (Hd & _ & _ & Hpp).
  unfold return_donation, cur, thr. unmonad. rewrite (quiet_current _ _ Q).
  set (c := current (kern s0)) in *. set (d := donner ret) in *.
  destruct (quiet_delete_donation s0 s d l Q Hd) as (r1 & s1 & -> & Q1 & _).
  rewrite !update_run.
  set (s2 := upd c _ s1).
  assert (Q2 : quiet s0 s2).
  { apply (quiet_queue s0 s1 c (filter (λ x, donner x ≠ d))); [done..|].
    intros. by apply Forall_filter_keep. }
  set (s3 := upd d _ s2).
  assert (Q3 : quiet s0 s3).
  { apply (quiet_queue s0 s2 d (filter (λ x, acceptor x ≠ c))); [done..|].
    intros. by apply Forall_filter_keep. }
  destruct (quiet_lookup s0 s3 c Q3 Hc) as (th3 & Hth3 & -> & Hp3 & Hd3).
  assert (Hlast : ∀ s4, quiet s0 s4 → ∃ s', 
    on_kern (update c (with_priority (foldl (λ p i, Z.max p (donner_priority i))
       (stored_prev (thread (kern s4) c)).2 (donationq (thread (kern s4) c))))) s4
      = Ret ((), s') ∧ quiet s0 s').
  { intros s4 Q4. destruct (quiet_lookup s0 s4 c Q4 Hc) as (th4 & Hth4 & -> & Hp4 & Hd4).
    eexists. split; [apply update_run|]. apply quiet_priority; [done..|].
    destruct Hd4 as (HD & ? & _). apply foldl_max_ok; [done|].
    apply (Forall_impl _ _ _ HD). by intros i (_ & _ & ? & _). }
  case_bool_decide; [|by apply Hlast]. rewrite update_run. apply Hlast.
  eapply quiet_upd; try done. destruct Hd3 as (? & ? & ?). by split_and!.
Qed.

(** Changing the interrupt level: the state of the hart alone changes. *)
Definition level (b : bool) (s : Sys Sc) : Sys Sc :=
  with_kern (with_hart (with_level b (hart (kern s))) (kern s)) s.

Lemma set_intr_run b s : inv s → set_intr b s = Ret (stimer (hart (kern s)), level b s).
Proof.
  intros I. unfold set_intr, on_kern, interrupt_set', hart_op.
  by rewrite interrupt_set_run by apply I.
Qed.

Lemma wf_level (k : Kernel Sc) b : wf k → wf (with_hart (with_level b (hart k)) k).
Proof. intros []. by split. Qed.

Lemma sema_at_level a b s : sema_at a (level b s) = sema_at a s.
Proof. by destruct a. Qed.

Section Step2.
Context (s : Sys Sc) (rest : list frame) (I : inv s).
Abbreviation t := (current (kern s)).

Lemma schedule_ret_ok old :
  stk s t = FScheduleRet old :: rest → exec_inv s (FScheduleRet old) rest.
Proof.
  intros Hst. unfold exec_inv. cbn [exec]. unmonad. rewrite set_intr_run by done.
  pose proof (i_shape _ I t) as Hsh. pose proof (i_intr _ I) as Hin. rewrite Hst in Hsh, Hin.
  eapply (inv_run s _ t rest); try done; cbn.
  - left. by eapply running_top.
  - apply wf_level, I.
  - apply I.
  - apply I.
  - pose proof (i_frames _ I t) as HF. rewrite Hst in HF. by apply Forall_cons in HF as [_ ?].
  - rewrite Hst. intros. by right.
  - intros E. eapply idle_pop; [right; by exists old|]. rewrite <-Hst, E. apply I.
  - destruct Hsh as [?|((a & g & o & r & E & Hg) & Hd)]; [by apply no_down_shape|].
    injection E as _ ->. by left.
  - intros Hd. destruct Hsh as [Hsh|((a & g & o & r & E & Hg) & _)]; [cbn [tail] in Hsh; congruence|].
    injection E as <- _. by destruct Hg as [|[= ->]].
  - intros l. eapply balanced_tail. rewrite <-Hst. apply I.
  - intros l. apply (lock_inv_push s _ t (FScheduleRet old) [] rest); try done. apply I.
Qed.

Lemma up_ret_ok old : stk s t = FUpRet old :: rest → exec_inv s (FUpRet old) rest.
Proof.
  intros Hst. unfold exec_inv. cbn [exec]. unmonad. rewrite set_intr_run by done.
  eapply inv_frame; try done; cbn; try apply I; [not_sched|apply wf_level, I|new_tac| |].
  - eapply not_idle; [done..|not_idle_frame].
  - intros l. eapply lock_inv_push; try done. apply I.
Qed.

Lemma set_setted_ok p : stk s t = FSetSetted p :: rest → exec_inv s (FSetSetted p) rest.
Proof.
  intros Hst. pose proof (frame_ok_top _ _ I _ Hst) as Hp. cbn in Hp.
  unfold exec_inv. cbn [exec]. unfold set_priority_leave. unmonad.
  destruct (quiet_lookup s s t (quiet_refl s I) (current_dom _ I)) as (th & Hth & _ & Hpr & Hd).
  eapply (inv_quiet s (upd t (with_setted (Some p)) s)); try done; [|not_sched|new_tac|].
  - eapply quiet_upd; try done; [by apply quiet_refl|]. destruct Hd as (? & ? & _).
    split_and!; try done. cbn. by intros ? [= <-].
  - eapply not_idle; [done..|not_idle_frame].
Qed.

Lemma main_set_priority_ok p ops :
  stk s t = FMain (OSetPriority p :: ops) :: rest →
  exec_inv s (FMain (OSetPriority p :: ops)) rest.
Proof.
  intros Hst. pose proof (frame_ok_top _ _ I _ Hst) as [Hp Hops].
  unfold exec_inv. cbn [exec exec_op]. unfold set_priority, set_priority_enter. unmonad.
  eapply (inv_quiet s (upd t (with_priority p) s)); try done; [|not_sched|new_tac|].
  - apply quiet_priority; [by apply quiet_refl|by apply current_dom|done].
  - intros E. by destruct (idle_main _ _ I _ _ Hst E) as (? & _).
Qed.

Lemma donate_ok d a l : stk s t = FDonate d a l :: rest → exec_inv s (FDonate d a l) rest.
Proof.
  intros Hst. pose proof (frame_ok_top _ _ I _ Hst) as [Hd Ha].
  unfold exec_inv. cbn [exec]. unfold donation_wrapped, thr. unmonad.
  pose proof (quiet_refl s I) as Q.
  destruct (quiet_lookup s s d Q Hd) as (td & Htd & -> & Hpd & _).
  destruct (quiet_lookup s s a Q Ha) as (ta & Hta & -> & Hpa & _).
  case_bool_decide.
  - rewrite update_run.
    pose proof (quiet_priority s s a (priority td) Q Ha Hpd) as Q1.
    destruct (quiet_add_donation s _ d (mkDonation d a (priority td) (priority ta) true l)
      Q1 Hd) as (s2 & -> & Q2); [by split_and!|].
    destruct (quiet_add_donation s _ a (mkDonation d a (priority td) (priority ta) false l)
      Q2 Ha) as (s3 & -> & Q3); [by split_and!|].
    eapply (inv_quiet s s3); try done; [not_sched|new_tac|].
    eapply not_idle; [done..|not_idle_frame].
  - eapply (inv_quiet s s); try done; [not_sched|new_tac|].
    eapply not_idle; [done..|not_idle_frame].
Qed.

(** Setting or clearing the holder of lock [l]. *)
Lemma inv_holder s' f fs l o :
  quiet s s' → stk s t = f :: rest → ¬ sched_frame f → ¬ idle_frame f →
  frames_new (threads (kern s)) f fs rest →
  (∀ m, sum (w_of m) fs = w_of m f) →
  (∀ m, m ≠ l → sum (h_of m) fs = h_of m f) →
  (hold (holder (locks s !!! l)) (λ u, sum (h_of l) (stk s u)) →
   hold o (λ u, if decide (u = t) then sum (h_of l) (fs ++ rest) else sum (h_of l) (stk s u))) →
  inv (push_frames t fs rest (set_holder l o s')).
Proof.
  intros Q Hst Hf Hif Hn Hw Hh Hold.
  assert (HL : locks s' = locks s) by (by apply quiet_locks).
  assert (HS : ∀ a, waiters (sema_at a (set_holder l o s')) = waiters (sema_at a s)).
  { intros [n|m]; cbn; [by rewrite (q_same _ _ Q)|]. rewrite HL.
    destruct (decide (m = l)) as [->|]; [by rewrite lookup_total_insert_eq|].
    by rewrite lookup_total_insert_ne. }
  assert (Hn' : frames_new (threads (kern s')) f fs rest).
  { destruct Hn. split; try done. eapply frames_ok_mono; [|done]. intros u. by apply quiet_dom. }
  eapply inv_frame; try done; cbn.
  - apply Q.
  - by apply quiet_current.
  - rewrite (q_same _ _ Q). apply I.
  - apply Q.
  - apply Q.
  - by rewrite (q_same _ _ Q).
  - eapply not_idle; [done..|done].
  - intros m. destruct (decide (m = l)) as [->|Hne].
    + destruct (i_lock _ I l) as [Ho Hl]. unfold lock_inv. cbn [locks push_frames with_stacks set_holder with_locks].
      rewrite HL, lookup_total_insert_eq. cbn [inner holder]. split.
      * eapply own_ext; [|exact Ho]. intros u. cbv beta.
        rewrite (stk_push s (push_frames t fs rest (set_holder l o s')) t (fs ++ rest))
          by (cbn; by rewrite (q_same _ _ Q)).
        case_decide; [|done]. subst. by rewrite Hst, sum_app, Hw.
      * eapply hold_ext; [|by apply Hold]. intros u. cbv beta.
        rewrite (stk_push s (push_frames t fs rest (set_holder l o s')) t (fs ++ rest))
          by (cbn; by rewrite (q_same _ _ Q)).
        by case_decide.
    + eapply lock_inv_push; try done; cbn; [by rewrite (q_same _ _ Q)| | |by apply Hh|apply I].
      * by rewrite HL, lookup_total_insert_ne.
      * by rewrite HL, lookup_total_insert_ne.
Qed.

Lemma balanced_top f l : stk s t = f :: rest →
  balanced l (f :: rest) ∧ balanced l rest ∧
  0 ≤ sum (h_of l) rest ≤ sum (w_of l) rest ∧
  0 ≤ sum (h_of l) (f :: rest) ≤ sum (w_of l) (f :: rest).
Proof.
  intros Hst. pose proof (i_balanced _ I l t) as HB. rewrite Hst in HB.
  pose proof (balanced_tail _ _ _ HB) as HB'.
  pose proof (balanced_sums _ _ HB). pose proof (balanced_sums _ _ HB'). split_and!; (done || lia).
Qed.

Lemma set_holder_ok l : stk s t = FSetHolder l :: rest → exec_inv s (FSetHolder l) rest.
Proof.
  intros Hst. unfold exec_inv. cbn [exec]. unfold replace_holder, cur. unmonad.
  apply (inv_holder s (FSetHolder l) [] l); try done;
    [by apply quiet_refl|not_sched|not_idle_frame|new_tac| |].
  - intros m Hm. cbn. by rewrite bool_decide_eq_false_2.
  - intros Hh. destruct (balanced_top _ l Hst) as (_ & _ & H1 & H2).
    destruct (i_lock _ I l) as [(o & _ & Ho) _].
    cbn [sum w_of h_of] in H2. rewrite bool_decide_eq_true_2 in H2 by done.
    assert (Hwt : 0 < sum (w_of l) (stk s t)) by (rewrite Hst; cbn [sum w_of]; lia).
    assert (Hnone : hold None (λ u, sum (h_of l) (stk s u))).
    { destruct (holder (locks s !!! l)) as [u|] eqn:Eh; [|done]. exfalso.
      destruct Hh as [Hu _]. pose proof (balanced_sums _ _ (i_balanced _ I l u)) as Hb.
      assert (u = t) as -> by (eapply (hold_unique o); [exact Ho|cbv beta; lia|done]).
      destruct o as [v|]; cbn in Ho; [|specialize (Ho t); lia].
      destruct Ho as [Hv Hv']. destruct (decide (t = v)) as [<-|Hne].
      - rewrite Hst in Hv, Hu. cbn [sum w_of h_of] in Hv, Hu.
        rewrite bool_decide_eq_true_2 in Hu by done. lia.
      - specialize (Hv' t Hne). lia. }
    eapply (hold_take _ _ t Hnone); cbv beta.
    + rewrite decide_True by done. rewrite Hst. cbn [sum h_of app].
      rewrite bool_decide_eq_true_2 by done. lia.
    + intros u Hu. by rewrite decide_False.
Qed.

Lemma release_top_ok l : stk s t = FRelease l :: rest → exec_inv s (FRelease l) rest.
Proof.
  intros Hst. pose proof (quiet_refl s I) as Q. pose proof (current_dom _ I) as Hc.
  destruct (balanced_top _ l Hst) as (_ & _ & H1 & H2).
  destruct (i_lock _ I l) as [_ Hh].
  destruct (hold_release _ _ (λ u, if decide (u = t) then sum (h_of l) rest
                                    else sum (h_of l) (stk s u)) t Hh) as [Ho Hnone].
  { cbv beta. rewrite Hst. cbn [sum h_of]. rewrite bool_decide_eq_true_2 by done. lia. }
  { cbv beta. rewrite decide_True, Hst by done. cbn [sum h_of].
    rewrite bool_decide_eq_true_2 by done. lia. }
  { intros u Hu. cbv beta. by rewrite decide_False. }
  unfold exec_inv. cbn [exec]. unfold release, cur. unmonad. rewrite Ho.
  rewrite bool_decide_eq_true_2 by done. cbn [assert_].
  destruct (quiet_delete_donation s s t l Q Hc) as (r & s1 & -> & Q1 & Hr).
  assert (HR : ∃ s2, (match r with Some ret => return_donation l ret | None => λ s, Ret ((), s) end) s1
            = Ret ((), s2) ∧ quiet s s2).
  { destruct r as [ret|]; [|by exists s1].
    apply (return_donation_quiet s s1 l ret Q1 Hc). by apply Hr. }
  destruct HR as (s2 & -> & Q2). unfold thr. unmonad.
  destruct (quiet_lookup s s2 t Q2 Hc) as (th & Hth & -> & Hp & Hd).
  assert (HP : ∃ s3, (match priority_setted th with
              | Some p => on_kern (update t (with_priority p)) | None => λ s, Ret ((), s) end) s2
            = Ret ((), s3) ∧ quiet s s3).
  { destruct (priority_setted th) as [p|] eqn:Ep; [|by exists s2].
    eexists. split; [apply update_run|]. apply quiet_priority; [done..|].
    destruct Hd as (_ & _ & Hset). by apply Hset. }
  destruct HP as (s3 & -> & Q3).
  apply (inv_holder s3 (FRelease l) [FUp (LockSema l); FSchedule] l); try done;
    [not_sched|not_idle_frame|new_tac| |].
  - intros m. cbn. case_bool_decide; lia.
  - intros m Hm. cbn. by rewrite bool_decide_eq_false_2.
Qed.
End Step2.

(** *** Blocking and exiting: the current thread stops running *)

Lemma not_waiting s a : inv s → status (current_thread (kern s)) = Running →
  current (kern s) ∉ waiters (sema_at a s).
Proof.
  intros I Hr Hw. destruct (i_waiting _ I _ _ Hw) as [(th & Hth & Hb) _].
  unfold current_thread in Hr. rewrite (thread_lookup _ _ _ Hth) in Hr. congruence.
Qed.

Lemma inv_leave (s s' : Sys Sc) st f rest fs :
  inv s → stk s (current (kern s)) = f :: rest → ¬ sched_frame f → ¬ idle_frame f →
  (st = Blocked ∨ st = Dying) →
  kern s' = with_threads (on_thread (current (kern s)) (with_status st) (threads (kern s))) (kern s) →
  sleepq s' = [] → stacks s' = <[current (kern s) := FSchedule :: fs ++ rest]> (stacks s) →
  Forall (frame_ok (threads (kern s))) fs →
  (FUnreachable ∈ fs → st = Dying) →
  shape (FSchedule :: fs ++ rest) →
  (has_down (FSchedule :: fs ++ rest) = true → stimer (hart (kern s)) = false) →
  (∀ l, balanced l (FSchedule :: fs ++ rest)) →
  (∀ a, waiters (sema_at a s') = waiters (sema_at a s) ∨
     st = Blocked ∧ waiters (sema_at a s') = current (kern s) :: waiters (sema_at a s) ∧
     blocked_on (FSchedule :: fs ++ rest) a) →
  (st = Blocked → ∃ a, current (kern s) ∈ waiters (sema_at a s')) →
  (∀ l, lock_inv s' l) →
  inv s'.
Proof.
  intros I Hst Hf Hif Hor Hk Hsq Hstk Hok Hun Hsh Hin Hbal Hw Hb Hlock.
  set (t := current (kern s)) in *.
  assert (Hrun : status (current_thread (kern s)) = Running).
  { eapply running_top; [done..|]. intros ->. apply Hf. by left. }
  destruct (current_dom _ I) as [c Hc]. fold t in Hc.
  assert (Hcr : status c = Running).
  { unfold current_thread in Hrun. fold t in Hrun. by rewrite (thread_lookup _ _ _ Hc) in Hrun. }
  assert (Hcur : current (kern s') = t) by (by rewrite Hk).
  assert (Hl : ∀ u, threads (kern s') !! u =
                 if decide (u = t) then Some (with_status st c) else threads (kern s) !! u).
  { intros u. rewrite Hk. cbn. rewrite on_thread_lookup, Hc. by case_decide. }
  assert (Hdom : ∀ u, is_Some (threads (kern s) !! u) → is_Some (threads (kern s') !! u)).
  { intros u. rewrite Hl. case_decide; [by eexists|done]. }
  assert (Ht1 : t ≠ 1) by (intros E; by eapply (not_idle s f rest False)).
  pose proof (λ u, stk_push _ _ _ _ u Hstk) as Hs'.
  assert (Hcst : status (current_thread (kern s')) = st).
  { unfold current_thread. rewrite Hcur. rewrite (thread_lookup _ _ (with_status st c)); [done|].
    by rewrite Hl, decide_True. }
  assert (Hnw : ∀ a, t ∉ waiters (sema_at a s)) by (intros a; by apply not_waiting).
  split; try done.
  - rewrite Hk. apply set_current_status_wf; [apply I|]. by destruct Hor as [-> | ->].
  - intros u th. rewrite Hl. intros Hu. eapply data_ok_mono; [exact Hdom|].
    case_decide; [|by eapply i_data]. injection Hu as <-. by apply (i_data _ I t c Hc).
  - destruct (i_idle _ I) as (th & Hth & ?). exists th. by rewrite Hl, decide_False.
  - rewrite Hs', decide_False by done. apply I.
  - intros u. rewrite Hs'. case_decide; [|eapply frames_ok_mono; [exact Hdom|apply I]].
    eapply frames_ok_mono; [exact Hdom|]. constructor; [done|]. apply Forall_app. split; [done|].
    pose proof (i_frames _ I t) as HF. rewrite Hst in HF. by apply Forall_cons in HF as [_ ?].
  - intros u. rewrite Hl, Hs'. case_decide; [done|apply I].
  - intros u. rewrite Hs'. unfold thread. case_decide as Eu; subst.
    + rewrite elem_of_cons, elem_of_app. intros [?|[HU|HU]]; [done| |].
      * rewrite lookup_total_alt, Hl, decide_True by done. cbn. by apply Hun.
      * assert (Hd : status (thread (kern s) t) = Dying).
        { apply (i_dead _ I). rewrite Hst. by right. }
        rewrite (thread_lookup _ _ _ Hc) in Hd. congruence.
    + rewrite lookup_total_alt, Hl, decide_False by done. rewrite <-lookup_total_alt. apply I.
  - intros u. rewrite Hs'. case_decide; [done|apply I].
  - rewrite Hcur, Hs', decide_True by done. rewrite Hk. exact Hin.
  - by rewrite Hcur, Hs', decide_True.
  - by rewrite Hcur, Hs', decide_True.
  - intros u th. rewrite Hl. case_decide as Eu; [subst; intros [= <-]; apply Hb|].
    intros Hu Hub. destruct (i_blocked _ I _ _ Hu Hub) as [a Ha]. exists a.
    destruct (Hw a) as [-> |(_ & -> & _)]; [done|by right].
  - intros a u Hu. rewrite Hl, Hs'. destruct (Hw a) as [E|(-> & E & Hbl)]; rewrite E in Hu.
    + assert (u ≠ t) by (intros ->; by apply (Hnw a)). rewrite !decide_False by done. by apply I.
    + apply elem_of_cons in Hu as [-> |Hu].
      * rewrite !decide_True by done. split; [by eexists|done].
      * assert (u ≠ t) by (intros ->; by apply (Hnw a)). rewrite !decide_False by done. by apply I.
  - intros a. destruct (Hw a) as [-> |(_ & -> & _)]; [apply I|].
    apply NoDup_cons. split; [apply Hnw|apply I].
  - intros l u. rewrite Hs'. case_decide; [done|apply I].
Qed.

Section Step3.
Context (s : Sys Sc) (rest : list frame) (I : inv s).
Abbreviation t := (current (kern s)).

Lemma exit_ok : stk s t = FExit :: rest → t ≠ 1 → exec_inv s FExit rest.
Proof.
  intros Hst Ht1. unfold exec_inv. cbn [exec]. unfold exit, exit_enter, set_status. unmonad.
  assert (Hnd : has_down rest = false).
  { apply (rest_no_down FExit); [rewrite <-Hst; apply I|not_sched]. }
  apply (inv_leave s _ Dying FExit rest [FUnreachable]); try done;
    [not_sched|not_idle_frame|by right| | | | | | |]; cbn [app].
  - apply I.
  - by repeat constructor.
  - by left.
  - change (has_down rest = true → stimer (hart (kern s)) = false). by rewrite Hnd.
  - intros l. destruct (balanced_top _ _ I FExit l Hst) as (_ & HB & _).
    by apply (neutral_sums l [FSchedule; FUnreachable] rest); [repeat constructor|].
  - intros a. by left.
  - intros l. apply (lock_inv_push s _ _ FExit [FSchedule; FUnreachable] rest l); try done.
    apply I.
Qed.

(** The interrupts go off. *)
Lemma inv_level_off : inv (level false s).
Proof.
  destruct I. split; try done. by apply wf_level.
Qed.
End Step3.

Lemma set_sema_waiters a x (s : Sys Sc) b :
  waiters (sema_at b (set_sema a x s)) = if decide (b = a) then waiters x else waiters (sema_at b s).
Proof.
  destruct a as [n|l], b as [m|k]; cbn; case_decide as E; simplify_eq; try done.
  - by rewrite lookup_total_insert_eq.
  - rewrite lookup_total_insert_ne; [done|congruence].
  - by rewrite lookup_total_insert_eq.
  - rewrite lookup_total_insert_ne; [done|congruence].
Qed.

Lemma set_sema_value a x (s : Sys Sc) l :
  sema_value (inner (locks (set_sema a x s) !!! l)) =
    if decide (a = LockSema l) then sema_value x else sema_value (inner (locks s !!! l)).
Proof.
  destruct a as [n|k]; cbn; case_decide as E; simplify_eq; try done.
  - by rewrite lookup_total_insert_eq.
  - rewrite lookup_total_insert_ne; [done|congruence].
Qed.

Lemma set_sema_holder a x (s : Sys Sc) l :
  holder (locks (set_sema a x s) !!! l) = holder (locks s !!! l).
Proof.
  destruct a as [n|k]; cbn; [done|]. destruct (decide (l = k)) as [->|].
  - by rewrite lookup_total_insert_eq.
  - by rewrite lookup_total_insert_ne.
Qed.

Lemma set_sema_kern a x (s : Sys Sc) : kern (set_sema a x s) = kern s.
Proof. by destruct a. Qed.
Lemma set_sema_stacks a x (s : Sys Sc) : stacks (set_sema a x s) = stacks s.
Proof. by destruct a. Qed.
Lemma set_sema_sleepq a x (s : Sys Sc) : sleepq (set_sema a x s) = sleepq s.
Proof. by destruct a. Qed.

Definition down_frame (f : frame) (a : saddr) : Prop := f = FDown a ∨ ∃ o, f = FDownLoop a o.

Lemma down_frame_w f a l : down_frame f a →
  w_of l f = (if decide (a = LockSema l) then -1 else 0) ∧ h_of l f = 0.
Proof.
  intros [-> |[o ->]]; destruct a as [n|m]; cbn; split; try done;
    case_bool_decide; case_decide; congruence.
Qed.

Section Step4.
Context (s : Sys Sc) (rest : list frame) (I : inv s).
Abbreviation t := (current (kern s)).

Lemma down_loop_inv f a old :
  stk s t = f :: rest → down_frame f a → stimer (hart (kern s)) = false →
  match down_loop a old s with
  | Ret (fs, s') => inv (push_frames t fs rest s')
  | Panic _ => False
  end.
Proof.
  intros Hst Hf Hoff.
  assert (Hns : ¬ sched_frame f) by (destruct Hf as [-> |[o ->]]; not_sched).
  assert (Hni : ¬ idle_frame f) by (destruct Hf as [-> |[o ->]]; not_idle_frame).
  assert (Hnd : has_down rest = false).
  { apply (rest_no_down f); [rewrite <-Hst; apply I|done]. }
  unfold down_loop, cur, block, block_enter, set_status. unmonad. case_bool_decide as Hv.
  - unfold on_kern at 1. rewrite set_sema_kern. unfold update. unmonad. cbn [app].
    set (x := sema_at a s) in *. set (x' := mkSemaphore _ _).
    apply (inv_leave s _ Blocked f rest [FDownLoop a old]); try done; cbn [app]; [by left|..].
    + cbn. rewrite set_sema_sleepq. apply I.
    + cbn. by rewrite set_sema_stacks.
    + by repeat constructor.
    + intros HU. by apply list_elem_of_singleton in HU.
    + right. split; [|done]. exists a, FSchedule, old, rest. split; [done|by left].
    + intros l. destruct (balanced_top _ _ I f l Hst) as ((B1 & B2 & B3) & _).
      destruct (down_frame_w f a l Hf) as [Ew Eh].
      cbn [bal sum] in B1, B2, B3. unfold d_of in B3 at 1.
      rewrite Ew in B1, B3. rewrite Eh in B2, B3.
      unfold balanced. cbn [bal sum]. unfold d_of at 1 2 4.
      destruct (down_frame_w (FDownLoop a old) a l) as [-> ->]; [right; by eexists|].
      cbn [w_of h_of]. split_and!; (tauto || lia).
    + intros b.
      assert (E : ∀ k, waiters (sema_at b (push_frames t [FSchedule; FDownLoop a old] rest
        (with_kern k (set_sema a x' s)))) = waiters (sema_at b (set_sema a x' s))) by (by destruct b).
      rewrite E, set_sema_waiters. case_decide; [|by left]. subst b. right.
      split_and!; [done|done|]. exists FSchedule, old, rest. split; [done|by left].
    + intros _. exists a.
      assert (E : ∀ k, waiters (sema_at a (push_frames t [FSchedule; FDownLoop a old] rest
        (with_kern k (set_sema a x' s)))) = waiters (sema_at a (set_sema a x' s))) by (by destruct a).
      rewrite E, set_sema_waiters, decide_True by done. by left.
    + intros l. destruct (down_frame_w f a l Hf) as [Ew Eh].
      destruct (down_frame_w (FDownLoop a old) a l) as [Ew' Eh']; [right; by eexists|].
      eapply lock_inv_push; try done; cbn.
      * by rewrite set_sema_stacks.
      * rewrite set_sema_value. case_decide; [subst a; done|done].
      * by rewrite set_sema_holder.
      * change (0 + (w_of l (FDownLoop a old) + 0) = w_of l f). lia.
      * apply I.
  - set (x := sema_at a s) in *. set (x' := mkSemaphore _ _).
    unfold set_intr, on_kern, interrupt_set', hart_op. rewrite set_sema_kern.
    rewrite interrupt_set_run by apply I. cbn [fst snd].
    eapply inv_frame; try done; cbn.
    + apply wf_level, I.
    + rewrite set_sema_sleepq. apply I.
    + apply I.
    + intros b.
      assert (E : ∀ k, waiters (sema_at b (with_kern k (set_sema a x' s)))
        = waiters (sema_at b (set_sema a x' s))) by (by destruct b).
      rewrite E, set_sema_waiters. by case_decide; subst.
    + by rewrite set_sema_stacks.
    + split; [done|by apply not_elem_of_nil|done|]. intros l HB. by eapply balanced_tail.
    + eapply not_idle; done.
    + intros l. destruct (down_frame_w f a l Hf) as [Ew Eh].
      destruct (i_lock _ I l) as [Ho Hh]. destruct (decide (a = LockSema l)) as [-> |Hne].
      * assert (HP : ∀ k u, stk (push_frames t [] rest (with_kern k (set_sema (LockSema l) x' s))) u
          = if decide (u = t) then rest else stk s u) by (intros; by apply stk_push).
        unfold lock_inv. cbn [locks push_frames with_stacks with_kern].
        rewrite set_sema_value, set_sema_holder, decide_True by done. cbn [sema_value x'].
        destruct (own_value _ _ Ho) as [E|E]; [by destruct Hv|]. unfold x.
        cbn [sema_at]. rewrite E in Ho |- *. destruct Ho as ([u|] & ? & Hn); [done|]. split.
        -- exists (Some t). split; [done|]. eapply (hold_take _ _ t Hn); cbv beta.
           ++ rewrite HP, decide_True, Hst by done. cbn [sum]. lia.
           ++ intros u Hu. by rewrite HP, decide_False.
        -- eapply hold_ext; [|exact Hh]. intros u. cbv beta. rewrite HP.
           case_decide; [|done]. subst u. rewrite Hst. cbn [sum]. lia.
      * eapply lock_inv_push; try done; cbn.
        -- by rewrite set_sema_stacks.
        -- by rewrite set_sema_value, decide_False.
        -- by rewrite set_sema_holder.
Qed.
End Step4.

Lemma down_top_ok s rest a :
  inv s → stk s (current (kern s)) = FDown a :: rest → exec_inv s (FDown a) rest.
Proof.
  intros I Hst. unfold exec_inv. cbn [exec]. unfold down. unmonad.
  rewrite set_intr_run by done.
  pose proof (down_loop_inv (level false s) rest (inv_level_off s I) (FDown a) a
                (stimer (hart (kern s))) Hst ltac:(by left) eq_refl) as HD.
  destruct (down_loop a _ (level false s)) as [[fs s']|p]; [exact HD|done].
Qed.

Lemma down_loop_top_ok s rest a old :
  inv s → stk s (current (kern s)) = FDownLoop a old :: rest → exec_inv s (FDownLoop a old) rest.
Proof.
  intros I Hst. unfold exec_inv. cbn [exec].
  pose proof (down_loop_inv s rest I (FDownLoop a old) a old Hst ltac:(right; by eexists)) as HD.
  assert (Hoff : stimer (hart (kern s)) = false) by (apply (i_intr _ I); by rewrite Hst).
  specialize (HD Hoff). by destruct (down_loop a old s) as [[fs s']|p].
Qed.

(** *** [up] *)

Section Up.
Context (s : Sys Sc) (rest : list frame) (a : saddr) (I : inv s).
Abbreviation t := (current (kern s)).
Context (Hst : stk s t = FUp a :: rest).

(** The thread that ups the semaphore of a lock owns it. *)
Lemma up_owner l : a = LockSema l →
  sema_value (inner (locks s !!! l)) = 0 ∧
  hold None (λ u, if decide (u = t) then sum (w_of l) rest else sum (w_of l) (stk s u)).
Proof.
  intros E. destruct (balanced_top _ _ I _ l Hst) as (_ & _ & H1 & _).
  destruct (i_lock _ I l) as [(o & -> & Ho) _].
  assert (Hw : sum (w_of l) (stk s t) = 1 + sum (w_of l) rest).
  { rewrite Hst. cbn [sum w_of]. rewrite E. by rewrite bool_decide_eq_true_2. }
  destruct (hold_release _ _ (λ u, if decide (u = t) then sum (w_of l) rest
                                    else sum (w_of l) (stk s u)) t Ho) as [-> Hnone].
  { cbv beta. lia. }
  { cbv beta. rewrite decide_True by done. lia. }
  { intros u Hu. cbv beta. by rewrite decide_False. }
  done.
Qed.

Lemma up_locks s' x fs l :
  Forall neutral fs → sema_value x = wrap64 (sema_value (sema_at a s) + 1) →
  (∀ u, stk s' u = if decide (u = t) then fs ++ rest else stk s u) →
  locks s' = locks (set_sema a x s) → lock_inv s' l.
Proof.
  intros Hn Hx Hs' HL. destruct (i_lock _ I l) as [Ho Hh].
  destruct (neutral_sums l fs rest Hn) as (Ew & Eh & _).
  unfold lock_inv. rewrite HL, set_sema_value, set_sema_holder. split.
  - case_decide as E.
    + destruct (up_owner l E) as [Hv Hnone]. rewrite Hx, E. cbn [sema_at]. rewrite Hv.
      exists None. split; [done|]. eapply hold_ext; [|exact Hnone]. intros u. cbv beta.
      rewrite Hs'. case_decide; [|done]. by rewrite Ew.
    + eapply own_ext; [|exact Ho]. intros u. cbv beta. rewrite Hs'.
      case_decide; [|done]. subst u. rewrite Hst, Ew. cbn [sum w_of].
      destruct a as [n|m]; [done|]. rewrite bool_decide_eq_false_2 by congruence. done.
  - eapply hold_ext; [|exact Hh]. intros u. cbv beta. rewrite Hs'.
    case_decide; [|done]. subst u. rewrite Hst, Eh. done.
Qed.

(** A waiter [u] has been taken out of the queue and woken up. *)
Lemma inv_wake s' u ws fs :
  waiters (sema_at a s) ≡ₚ u :: ws →
  wf (kern s') → threads (kern s') = on_thread u (with_status Ready) (threads (kern s)) →
  current (kern s') = t → sleepq s' = [] →
  (∀ b, waiters (sema_at b s') = if decide (b = a) then ws else waiters (sema_at b s)) →
  stacks s' = <[t := fs ++ rest]> (stacks s) →
  Forall neutral fs → Forall (frame_ok (threads (kern s))) fs → FUnreachable ∉ fs →
  has_down fs = false →
  (∀ l, lock_inv s' l) → inv s'.
Proof.
  intros HP Hwf Hth Hcur Hsq Hw Hstk Hn Hok Hun Hnd Hlock.
  assert (Hrun : status (current_thread (kern s)) = Running) by (by eapply running_top).
  pose proof (λ v, stk_push _ _ _ _ v Hstk) as Hs'.
  assert (Hua : u ∈ waiters (sema_at a s)) by (rewrite HP; by left).
  destruct (i_waiting _ I _ _ Hua) as [(tu & Htu & Hbu) Hblu].
  assert (Hut : u ≠ t) by (intros ->; by apply (not_waiting s a)).
  assert (Hl : ∀ v, threads (kern s') !! v =
                 if decide (v = u) then Some (with_status Ready tu) else threads (kern s) !! v).
  { intros v. rewrite Hth, on_thread_lookup, Htu. by case_decide. }
  assert (Hdom : ∀ v, is_Some (threads (kern s) !! v) → is_Some (threads (kern s') !! v)).
  { intros v. rewrite Hl. case_decide; [by eexists|done]. }
  assert (Hnr : has_down rest = false).
  { apply (rest_no_down (FUp a)); [rewrite <-Hst; apply I|not_sched]. }
  assert (Hnf : has_down (fs ++ rest) = false) by (by rewrite has_down_app, Hnd, Hnr).
  assert (Hother : ∀ v, v ≠ u → thread (kern s') v = thread (kern s) v).
  { intros v Hv. unfold thread. by rewrite !lookup_total_alt, Hl, decide_False. }
  assert (Hcth : status (current_thread (kern s')) = Running).
  { unfold current_thread. rewrite Hcur, Hother by congruence. exact Hrun. }
  assert (Ht1 : t ≠ 1) by (intros E; eapply (not_idle s (FUp a) rest False); [done..|not_idle_frame|done]).
  pose proof (i_nodup _ I a) as ND. rewrite HP in ND. apply NoDup_cons in ND as [Huws NDws].
  split; try done.
  - intros v th. rewrite Hl. intros Hv. eapply data_ok_mono; [exact Hdom|].
    case_decide; [|by eapply i_data]. injection Hv as <-. by apply (i_data _ I u tu Htu).
  - destruct (i_idle _ I) as (th & Hth1 & Hb1 & Hd1). exists th.
    rewrite Hl. rewrite decide_False; [done|]. intros <-. congruence.
  - rewrite Hs', decide_False by done. apply I.
  - intros v. rewrite Hs'. case_decide; (eapply frames_ok_mono; [exact Hdom|]); [|apply I].
    apply Forall_app. split; [done|].
    pose proof (i_frames _ I t) as HF. rewrite Hst in HF. by apply Forall_cons in HF as [_ ?].
  - intros v. rewrite Hl, Hs'. case_decide; [done|]. case_decide; [|apply I].
    intros Hv. subst v. destruct (current_dom _ I) as [? Hc]. congruence.
  - intros v. rewrite Hs'. case_decide as Ev.
    + subst v. rewrite elem_of_app. intros [?|HU]; [done|]. rewrite Hother by done.
      apply (i_dead _ I). rewrite Hst. by right.
    + intros HU. pose proof (i_dead _ I v HU) as Hd. destruct (decide (v = u)) as [-> |].
      * rewrite (thread_lookup _ _ _ Htu) in Hd. congruence.
      * by rewrite Hother.
  - intros v. rewrite Hs'. case_decide; [by apply no_down_shape|apply I].
  - rewrite Hcur, Hs', decide_True by done. by rewrite Hnf.
  - rewrite Hcth. done.
  - rewrite Hcth. done.
  - intros v th. rewrite Hl. case_decide as Ev; [by intros [= <-]|]. intros Hv Hbv.
    destruct (i_blocked _ I _ _ Hv Hbv) as [b Hb]. exists b. rewrite Hw. case_decide; [|done].
    subst b. rewrite HP in Hb. apply elem_of_cons in Hb as [?|?]; done.
  - intros b v Hv. rewrite Hw in Hv.
    assert (Hvu : v ≠ u ∧ v ∈ waiters (sema_at b s)).
    { case_decide as E.
      - subst b. split; [by intros ->|]. rewrite HP. by right.
      - split; [|done]. intros ->. destruct (i_waiting _ I _ _ Hv) as [_ Hbl].
        destruct Hblu as (? & ? & ? & E1 & _), Hbl as (? & ? & ? & E2 & _). congruence. }
    destruct Hvu as [Hvu Hvb].
    assert (v ≠ t) by (intros ->; by apply (not_waiting s b)).
    rewrite Hl, Hs', !decide_False by done. by apply I.
  - intros b. rewrite Hw. case_decide; [done|apply I].
  - intros l v. rewrite Hs'. case_decide; [|apply I].
    apply (neutral_sums l fs rest Hn). destruct (balanced_top _ _ I _ l Hst) as (_ & ? & _). done.
Qed.

Lemma maxpriority_index prio ws i mi mp N :
  (mi < N)%nat → (i + length ws ≤ N)%nat → ((maxpriority_from prio ws i mi mp).1 < N)%nat.
Proof.
  clear. revert i mi mp. induction ws as [|u ws IH]; intros i mi mp Hlt Hle; cbn in *; [lia|].
  case_bool_decide; apply IH; lia.
Qed.

Lemma up_ok : exec_inv s (FUp a) rest.
Proof.
  assert (Hns : ¬ sched_frame (FUp a)) by not_sched.
  unfold exec_inv. cbn [exec]. unfold up, cur. unmonad. rewrite set_intr_run by done.
  rewrite sema_at_level. set (x := sema_at a s).
  destruct (bool_decide (waiters x ≠ [])) eqn:Ew.
  - apply bool_decide_eq_true in Ew.
    destruct (bool_decide (sema_value x = 0)) eqn:Ev.
    2: { apply bool_decide_eq_false in Ev. cbn [assert_].
         assert (Hna : ∀ l, a ≠ LockSema l).
         { intros l E. destruct (up_owner l E) as [E' _]. apply Ev. unfold x. by rewrite E. }
         revert Hna Ev Ew. unfold x. case a as [n|l]; [right; by eauto|naive_solver]. }
    apply bool_decide_eq_true in Ev. cbn [assert_]. rewrite Ev.
    change (wrap64 (0 + 1)) with 1.
    set (s2 := set_sema a (mkSemaphore 1 (waiters x)) (level false s)).
    assert (Ex2 : sema_at a s2 = mkSemaphore 1 (waiters x)).
    { unfold s2. destruct a; cbn; by rewrite lookup_total_insert_eq. }
    rewrite Ex2. cbn [sema_value waiters assert_]. rewrite bool_decide_eq_true_2 by done.
    cbn [assert_]. unfold get_maxpriority.
    pose proof (maxpriority_index (prio_at s2) (waiters x) 0 0 0 (length (waiters x))) as Hlt.
    destruct (maxpriority_from (prio_at s2) (waiters x) 0 0 0) as [mi mp]. cbn [fst] in Hlt.
    destruct (lookup_lt_is_Some_2 (waiters x) mi) as [u Hu].
    { apply Hlt; [|lia]. destruct (waiters x); [done|cbn; lia]. }
    unfold deque_remove. rewrite Hu. cbn [assert_].
    set (ws := delete mi (waiters x)).
    assert (HP : waiters x ≡ₚ u :: ws) by (by apply delete_Permutation).
    assert (Hua : u ∈ waiters (sema_at a s)) by (fold x; rewrite HP; by left).
    destruct (i_waiting _ I _ _ Hua) as [(tu & Htu & Hbu) _].
    assert (Hrun : status (current_thread (kern s)) = Running) by (by eapply running_top).
    assert (Hut : u ≠ t) by (intros ->; by apply (not_waiting s a)).
    set (s3 := set_sema a _ s2).
    assert (Hk3 : kern s3 = kern (level false s)) by (unfold s3, s2; by rewrite !set_sema_kern).
    destruct (wake_up_run (kern s3) u tu) as (sc' & HW & HQ & Hwf'); rewrite ?Hk3;
      [apply wf_level, I|done|done|done|].
    rewrite Hk3 in HW, Hwf'. unfold on_kern at 1. rewrite Hk3, HW.
    set (k4 := with_scheduler sc' _) in *.
    unfold set_intr, on_kern, interrupt_set', hart_op. cbn [kern with_kern].
    rewrite interrupt_set_run by apply Hwf'.
    set (k5 := with_hart _ k4).
    assert (Hwf5 : wf k5) by (by apply wf_level).
    match goal with |- context [if ?b then [FSchedule; FUpRet ?o] else []] =>
      set (fs := (if b then [FSchedule; FUpRet o] else []) : list frame) end.
    assert (Hfs : Forall neutral fs ∧ Forall (frame_ok (threads (kern s))) fs ∧
                  (FUnreachable ∉ fs) ∧ has_down fs = false).
    { unfold fs. case_bool_decide; split_and!; try done; try (by repeat constructor);
        rewrite ?elem_of_cons; set_solver. }
    destruct Hfs as (? & ? & ? & ?).
    assert (Hst5 : stacks s3 = stacks s) by (unfold s3, s2; by rewrite !set_sema_stacks).
    assert (HL3 : locks s3 = locks (set_sema a (mkSemaphore 1 ws) s)).
    { unfold s3, s2. destruct a as [n|l]; [done|]. cbn. by rewrite insert_insert_eq, lookup_total_insert_eq. }
    eapply (inv_wake _ u ws fs); try done; cbn.
    + unfold s3, s2. rewrite !set_sema_sleepq. apply I.
    + intros b.
      trans (waiters (sema_at b s3)); [by destruct b|]. unfold s3. rewrite set_sema_waiters. case_decide as Eb; [done|].
      unfold s2. rewrite set_sema_waiters, decide_False by done. by rewrite sema_at_level.
    + by rewrite Hst5.
    + intros l. eapply (up_locks _ (mkSemaphore 1 ws) fs l); try done.
      * cbn [sema_value]. fold x. by rewrite Ev.
      * intros v. apply stk_push. cbn. by rewrite Hst5.
  - apply bool_decide_eq_false, dec_stable in Ew.
    set (s2 := set_sema a _ (level false s)).
    assert (Hk : kern s2 = kern (level false s)) by (unfold s2; by rewrite set_sema_kern).
    unfold set_intr, on_kern, interrupt_set', hart_op. rewrite Hk. cbn [kern level with_kern].
    rewrite interrupt_set_run by done. set (k5 := with_hart _ _).
    assert (HL : locks s2 = locks (set_sema a (mkSemaphore (wrap64 (sema_value x + 1)) (waiters x)) s))
      by (unfold s2; by destruct a).
    eapply inv_frame; try done; cbn.
    + by apply (wf_level _ (stimer (hart (kern s))) (wf_level _ false (i_wf _ I))).
    + unfold s2. rewrite set_sema_sleepq. apply I.
    + apply I.
    + intros b. trans (waiters (sema_at b s2)); [by destruct b|].
      unfold s2. rewrite set_sema_waiters.
      case_decide; [by subst|]. by rewrite sema_at_level.
    + unfold s2. by rewrite set_sema_stacks.
    + split; [done|by apply not_elem_of_nil|done|]. intros l HB. by eapply balanced_tail.
    + eapply not_idle; [done..|not_idle_frame].
    + intros l. eapply (up_locks _ (mkSemaphore (wrap64 (sema_value x + 1)) (waiters x)) [] l); try done.
      intros v. apply stk_push. cbn. unfold s2. by rewrite set_sema_stacks.
Qed.
End Up.

(** *** [schedule] *)

(** The idle thread keeps the processor busy: a switch away from a thread
    that cannot run finds another one. *)
Lemma someone_ready s :
  inv s → status (current_thread (kern s)) = Running ∨ queued (scheduler (kern s)) ≠ [].
Proof.
  intros I. destruct (i_idle _ I) as (th & Hth & Hb & Hd).
  destruct (wf_current _ (i_wf _ I)) as (c & Hc & Hcs).
  unfold current_thread. rewrite (thread_lookup _ _ _ Hc).
  destruct (status th) eqn:E; try done.
  - right. assert (Hq : 1 ∈ queued (scheduler (kern s))) by (apply (wf_ready _ (i_wf _ I)); eauto).
    destruct (queued _); [by apply not_elem_of_nil in Hq|done].
  - left. pose proof (wf_running _ (i_wf _ I) _ _ Hth E) as E1. rewrite <-E1 in Hc. congruence.
Qed.

Section Schedule.
Context (s : Sys Sc) (rest : list frame) (I : inv s).
Abbreviation t := (current (kern s)).
Context (Hst : stk s t = FSchedule :: rest).

(** The machine after a switch to the ready thread [n]. *)
Lemma inv_switch k n :
  wf k → n ≠ t → n ∈ queued (scheduler (kern s)) → current k = n →
  hart k = with_level false (hart (kern s)) → threads k = switched (kern s) n →
  inv (push_frames t [FScheduleRet (stimer (hart (kern s)))] rest (with_kern k s)).
Proof.
  intros Hwf Hn Hq Hcur Hh Hts. set (s' := push_frames _ _ _ _).
  destruct (wf_current _ (i_wf _ I)) as (c & Hc & Hcs).
  apply (wf_ready _ (i_wf _ I)) in Hq as (thn & Hthn & Hnr).
  assert (Hl : ∀ u, threads k !! u =
    if decide (u = t) then after_switch <$> threads (kern s) !! u
    else if decide (u = n) then with_status Running <$> threads (kern s) !! u
    else threads (kern s) !! u) by (intros u; rewrite Hts; by apply switched_lookup).
  assert (Hl' : ∀ u th, threads k !! u = Some th → ∃ th0, threads (kern s) !! u = Some th0 ∧
    (th = th0 ∧ u ≠ t ∧ u ≠ n ∨ u = t ∧ th = after_switch th0 ∨ u = n ∧ th = with_status Running th0)).
  { intros u th. rewrite Hl. repeat case_decide; subst.
    - rewrite Hc. intros [= <-]. eauto 6.
    - rewrite Hthn. intros [= <-]. eauto 6.
    - intros Hu. eauto 6. }
  assert (Hdom : ∀ u, is_Some (threads (kern s) !! u) ↔ is_Some (threads k !! u)).
  { intros u. rewrite Hl. repeat case_decide; by rewrite ?fmap_is_Some. }
  assert (Hs' : ∀ u, stk s' u = if decide (u = t)
      then FScheduleRet (stimer (hart (kern s))) :: rest else stk s u)
    by (intros u; by apply stk_push).
  assert (Hdata : ∀ u th th0, th = th0 ∧ u ≠ t ∧ u ≠ n ∨ u = t ∧ th = after_switch th0 ∨
      u = n ∧ th = with_status Running th0 →
      data_ok (threads (kern s)) th0 → data_ok (threads (kern s)) th).
  { intros u th th0 Hor Hd0. unfold after_switch in Hor.
    destruct Hor as [(-> & _)|[(_ & ->)|(_ & ->)]]; [done| |done]. by destruct (status th0). }
  assert (Hrest : Forall (frame_ok (threads (kern s))) rest).
  { pose proof (i_frames _ I t) as HF. rewrite Hst in HF. by apply Forall_cons in HF as [_ ?]. }
  assert (Hcth : status (current_thread k) = Running).
  { unfold current_thread. rewrite Hcur, (thread_lookup _ _ (with_status Running thn)); [done|].
    by rewrite Hl, decide_False, decide_True, Hthn. }
  assert (Hnocur : ∀ a, blocked_on (stk s t) a →
    blocked_on (FScheduleRet (stimer (hart (kern s))) :: rest) a).
  { intros a (g & o & r & E & _). rewrite Hst in E. injection E as <- ->.
    assert (Hoff : stimer (hart (kern s)) = false) by (apply (i_intr _ I); by rewrite Hst).
    rewrite Hoff. exists (FScheduleRet false), o, r. split; [done|by right]. }
  assert (Hblocked : ∀ u th, threads k !! u = Some th → status th = Blocked →
    ∃ th0, threads (kern s) !! u = Some th0 ∧ status th0 = Blocked).
  { intros u th Hu Hb. destruct (Hl' u th Hu) as (th0 & Hu0 & Hor). exists th0. split; [done|].
    unfold after_switch in Hor. destruct Hor as [(-> & _)|[(_ & ->)|(_ & ->)]]; [done| |done].
    destruct (status th0) eqn:E; cbn in Hb; congruence. }
  split; try done; cbn [s' kern push_frames with_stacks with_kern].
  - intros u th Hu. destruct (Hl' u th Hu) as (th0 & Hu0 & Hor).
    eapply (data_ok_mono (threads (kern s))); [intros v; apply Hdom|].
    eapply Hdata; [exact Hor|]. by eapply i_data.
  - destruct (i_idle _ I) as (th & Hth & Hb & Hd). rewrite Hl. repeat case_decide.
    + rewrite Hth. eexists. split; [reflexivity|]. unfold after_switch.
      destruct (status th) eqn:E; cbn; rewrite ?E; split; congruence.
    + rewrite Hth. eexists. by split.
    + by exists th.
  - rewrite Hs'. case_decide as E; [|apply I]. apply idle_push; [right; by eexists|].
    eapply idle_pop; [by left|]. rewrite <-Hst, <-E. apply I.
  - intros u. rewrite Hs'. case_decide; (eapply frames_ok_mono; [intros v; apply Hdom|]); [|apply I].
    by constructor.
  - intros u Hu. rewrite Hs'.
    assert (Hu0 : threads (kern s) !! u = None).
    { apply eq_None_not_Some. rewrite Hdom, Hu. by intros [??]. }
    case_decide; [congruence|by apply I].
  - intros u HU.
    assert (HU0 : FUnreachable ∈ stk s u).
    { rewrite Hs' in HU. case_decide; [|done]. subst u. rewrite Hst.
      apply elem_of_cons in HU as [?|?]; [done|by right]. }
    pose proof (i_dead _ I u HU0) as Hd. unfold thread in *.
    rewrite lookup_total_alt in Hd |- *. rewrite Hl. repeat case_decide; subst.
    + rewrite Hc in Hd |- *. cbn in *. unfold after_switch. by rewrite Hd.
    + rewrite Hthn in Hd. cbn in Hd. congruence.
    + done.
  - intros u. rewrite Hs'. case_decide; [|apply I].
    pose proof (i_shape _ I t) as Hsh. rewrite Hst in Hsh.
    destruct Hsh as [?|[[a Ha] ?]]; [by left|]. right. split; [|done].
    exists a. apply Hnocur. by rewrite Hst.
  - intros _. by rewrite Hh.
  - rewrite Hcth. done.
  - rewrite Hcth. done.
  - intros u th Hu Hb. destruct (Hblocked u th Hu Hb) as (th0 & Hu0 & Hb0).
    by destruct (i_blocked _ I _ _ Hu0 Hb0) as [a Ha]; exists a; destruct a.
  - intros a u Hu. assert (Hua : u ∈ waiters (sema_at a s)) by (by destruct a).
    destruct (i_waiting _ I _ _ Hua) as [(th & Hth & Hb) Hbl]. rewrite Hl, Hs'.
    repeat case_decide; subst.
    + rewrite Hth. split; [|by apply Hnocur]. exists th. split; [|done].
      cbn. unfold after_switch. by rewrite Hb.
    + rewrite Hthn in Hth. congruence.
    + split; [by exists th|done].
  - intros a. pose proof (i_nodup _ I a) as HN. by destruct a.
  - intros l u. rewrite Hs'. case_decide; [|apply I].
    destruct (balanced_top _ _ I _ l Hst) as (_ & HB & _).
    apply (neutral_sums l [FScheduleRet (stimer (hart (kern s)))] rest); [by repeat constructor|done].
  - intros l. eapply (lock_inv_push s); try done. apply I.
  - apply I.
Qed.

Lemma schedule_top_ok : exec_inv s FSchedule rest.
Proof.
  unfold exec_inv. cbn [exec]. unfold thread_schedule, on_kern. unmonad.
  destruct (manager_schedule_run (kern s) (i_wf _ I) (someone_ready s I))
    as (r & k & -> & Hwf & HT & Hr). destruct r as [old|].
  - destruct Hr as (-> & Hh & Hne & Hq & Hts & _). by apply (inv_switch k (current k)).
  - destruct Hr as (Hrun & Hts & Hcur & Hh & _).
    pose proof (i_shape _ I t) as Hsh. rewrite Hst in Hsh.
    eapply (inv_run s _ t rest); try done; cbn; rewrite ?Hts, ?Hh.
    + by left.
    + apply I.
    + done.
    + apply I.
    + pose proof (i_frames _ I t) as HF. rewrite Hst in HF. by apply Forall_cons in HF as [_ ?].
    + rewrite Hst. intros. by right.
    + intros E. eapply idle_pop; [by left|]. rewrite <-Hst, E. apply I.
    + destruct Hsh as [?|((a & g & o & r & E & Hg) & Hd)]; [by apply no_down_shape|].
      injection E as _ ->. by left.
    + intros Hd. apply (i_intr _ I). rewrite Hst. exact Hd.
    + intros l. by destruct (balanced_top _ _ I _ l Hst) as (_ & ? & _).
    + intros l. apply (lock_inv_push s _ t FSchedule [] rest); try done. apply I.
Qed.
End Schedule.

(** *** [spawn] and the timer *)

Section Step5.
Context (s : Sys Sc) (rest : list frame) (I : inv s).
Abbreviation t := (current (kern s)).

Lemma main_spawn_ok stk0 b main ops :
  stk s t = FMain (OSpawn stk0 b main :: ops) :: rest →
  exec_inv s (FMain (OSpawn stk0 b main :: ops)) rest.
Proof.
  intros Hst. pose proof (frame_ok_top _ _ I _ Hst) as [[Hp Hm] Hops].
  unfold exec_inv. cbn [exec exec_op]. unfold spawn, on_kern. unmonad.
  destruct (spawn_enter_run (kern s) stk0 b (i_wf _ I) Hp)
    as (k & -> & Hwf & HT & Hh & Hcur & _ & Hts). cbn [fst snd].
  set (u := TID (kern s)) in *.
  assert (Hfresh : threads (kern s) !! u = None).
  { destruct (threads (kern s) !! u) eqn:E; [|done].
    apply (wf_tid _ (i_wf _ I)) in E. unfold u in E. lia. }
  destruct (current_dom _ I) as [c Hc].
  assert (Hut : u ≠ t) by congruence.
  set (s1 := with_stacks (<[u := [FKernelThread main]]> (stacks (with_kern k s))) (with_kern k s)).
  assert (Hs1 : ∀ v, stk s1 v = if decide (v = u) then [FKernelThread main] else stk s v)
    by (intros v; by apply stk_push).
  assert (Hl : ∀ v, threads k !! v = if decide (v = u) then Some (build u stk0 b)
                                     else threads (kern s) !! v).
  { intros v. rewrite Hts. case_decide; subst; [by rewrite lookup_insert_eq|by rewrite lookup_insert_ne]. }
  assert (Hdom : ∀ v, is_Some (threads (kern s) !! v) → is_Some (threads k !! v)).
  { intros v. rewrite Hl. case_decide; [by eexists|done]. }
  assert (Hth : ∀ v, v ≠ u → thread k v = thread (kern s) v).
  { intros v Hv. unfold thread. by rewrite !lookup_total_alt, Hl, decide_False. }
  assert (I1 : inv s1).
  { split; cbn [s1 kern with_stacks with_kern]; rewrite ?Hcur; try apply I; try done.
    - intros v th. rewrite Hl. case_decide as Ev.
      + intros [= <-]. split_and!; [done|exact Hmin|done].
      + intros Hv. eapply data_ok_mono; [exact Hdom|]. by eapply i_data.
    - destruct (i_idle _ I) as (th & Hth1 & ?). exists th. rewrite Hl, decide_False; [done|].
      intros <-. congruence.
    - rewrite Hs1, decide_False; [apply I|]. intros <-.
      destruct (i_idle _ I) as (th & Hth1 & ?). congruence.
    - intros v. rewrite Hs1. case_decide; [by repeat constructor|].
      eapply frames_ok_mono; [exact Hdom|apply I].
    - intros v. rewrite Hl, Hs1. case_decide; [done|apply I].
    - intros v. rewrite Hs1. case_decide; [intros HU; by apply list_elem_of_singleton in HU|].
      rewrite Hth by done. apply I.
    - intros v. rewrite Hs1. case_decide; [by left|apply I].
    - rewrite Hs1, decide_False, Hh by done. apply I.
    - unfold current_thread. rewrite Hcur, Hth, Hs1, decide_False by done. apply I.
    - unfold current_thread. rewrite Hcur, Hth, Hs1, decide_False by done. apply I.
    - intros v th. rewrite Hl. case_decide; [by intros [= <-]|]. intros Hv Hb.
      destruct (i_blocked _ I _ _ Hv Hb) as [a Ha]. exists a. by destruct a.
    - intros a v Hv. assert (Hva : v ∈ waiters (sema_at a s)) by (by destruct a).
      destruct (i_waiting _ I _ _ Hva) as [(th & Hth1 & Hb) Hbl].
      assert (v ≠ u) by (intros ->; congruence). rewrite Hl, Hs1, !decide_False by done. eauto.
    - intros l v. rewrite Hs1. case_decide; [|apply I].
      apply (neutral_sums l [FKernelThread main] []); by repeat constructor.
    - intros l. destruct (i_lock _ I l) as [Ho Hho].
      split; [eapply own_ext; [|exact Ho]|eapply hold_ext; [|exact Hho]];
        intros v; cbv beta; rewrite Hs1; case_decide as Ev; try done;
        subst v; by rewrite (i_dom _ I u Hfresh). }
  assert (Hst1 : stk s1 (current (kern s1)) = FMain (OSpawn stk0 b main :: ops) :: rest).
  { cbn [s1 kern with_stacks with_kern]. rewrite Hcur, Hs1, decide_False by done. exact Hst. }
  assert (Hgoal : inv (push_frames (current (kern s1)) [FSchedule; FMain ops] rest s1)).
  { eapply (inv_pure s1); [done|exact Hst1|not_sched|new_tac| |by intros].
    intros E. by destruct (idle_main _ _ I1 _ _ Hst1 E). }
  cbn [s1 kern with_stacks with_kern] in Hgoal. rewrite Hcur in Hgoal. exact Hgoal.
Qed.

(** A timer interrupt, with nobody asleep. *)
Lemma timer_ok :
  stimer (hart (kern s)) = true →
  ∃ s', timer_interrupt s = Ret ([FSchedule], s') ∧ inv (push_frames t [FSchedule] (stk s t) s').
Proof.
  intros Hon. unfold timer_interrupt, tick. unmonad. cbn [with_ticks sleepq ticks].
  set (s1 := with_ticks _ s). assert (I1 : inv s1) by (destruct I; by split).
  rewrite set_intr_run by done. cbn [level sleepq with_kern s1 with_ticks kern].
  rewrite (i_sleepq _ I). cbn [length wake_sleepers]. unmonad.
  assert (I2 : inv (level false s1)) by (by apply inv_level_off).
  fold s1. change (mkSys ?a ?b ?c ?d ?e ?f ?g ?h) with (level false s1).
  rewrite set_intr_run by done. eexists. split; [reflexivity|].
  assert (Hnd : has_down (stk s t) = false).
  { destruct (has_down (stk s t)) eqn:E; [|done]. by rewrite (i_intr _ I E) in Hon. }
  assert (Hnb : status (current_thread (kern s)) = Running ∨ status (current_thread (kern s)) = Dying).
  { destruct (wf_current _ (i_wf _ I)) as (c & Hc & Hcs).
    unfold current_thread. rewrite (thread_lookup _ _ _ Hc).
    destruct (status c) eqn:E; [done|by left| |by right]. exfalso.
    destruct (i_blocked _ I _ _ Hc E) as [a Ha].
    destruct (i_waiting _ I _ _ Ha) as [_ (g & o & r & Es & _)]. rewrite Es in Hnd.
    cbn in Hnd. by rewrite orb_true_r in Hnd. }
  match goal with |- inv ?x => set (s2 := x) end.
  eapply (inv_run s s2 t (FSchedule :: stk s t)); try done.
  - destruct Hnb; [by left|by right].
  - cbn. destruct (i_wf _ I). by split.
  - cbn. apply I.
  - cbn. apply I.
  - cbn. constructor; [done|apply I].
  - intros HU. by apply elem_of_cons in HU as [?|?].
  - intros E. apply idle_push; [by left|]. rewrite E. apply (i_idle_stack _ I).
  - by left.
  - intros Hd. change (has_down (stk s t) = true) in Hd. congruence.
  - intros l. apply (neutral_sums l [FSchedule] (stk s t)); [by repeat constructor|apply I].
  - intros l. destruct (i_lock _ I l) as [Ho Hho].
    split; [eapply own_ext; [|exact Ho]|eapply hold_ext; [|exact Hho]];
      intros v; cbv beta; rewrite (stk_push s s2 t (FSchedule :: stk s t)) by done;
      case_decide; by subst.
Qed.
End Step5.

(** *** All frames *)

Lemma exec_ok s f rest :
  inv s → stk s (current (kern s)) = f :: rest → exec_inv s f rest.
Proof.
  intros I Hst. pose proof (frame_ok_top _ _ I _ Hst) as Hok.
  destruct f as [[|o ops]| | | | | |old| |p|a|a old|a|old|l|l|d a l|d l|l|l|c].
  - by apply main_nil_ok.
  - destruct o; try (by apply main_simple_ok); cbn in Hok.
    + by apply main_set_priority_ok.
    + by destruct Hok.
    + by destruct Hok.
    + by destruct Hok.
    + by apply main_spawn_ok.
    + by apply main_idle_ok.
  - by apply kernel_thread_top_ok.
  - apply exit_ok; [done..|]. intros E. eapply (not_idle s FExit); [done..|not_idle_frame|done].
  - exfalso. pose proof (running_top _ _ _ I Hst ltac:(done)) as Hr.
    assert (Hd : status (current_thread (kern s)) = Dying).
    { apply (i_dead _ I). rewrite Hst. by left. }
    congruence.
  - by apply idle_ok.
  - by apply schedule_top_ok.
  - by apply schedule_ret_ok.
  - done.
  - by apply set_setted_ok.
  - by apply down_top_ok.
  - by apply down_loop_top_ok.
  - by apply up_ok.
  - by apply up_ret_ok.
  - by apply acquire_ok.
  - by apply acquire_holder_ok.
  - by apply donate_ok.
  - by apply find_and_donate_ok.
  - by apply set_holder_ok.
  - by apply release_top_ok.
  - done.
Qed.

Lemma step_inv s s' : inv s → step s s' → inv s'.
Proof.
  intros I [Hs|Hs].
  - unfold step_thread in Hs. destruct (stk s (current (kern s))) as [|f rest] eqn:Hst; [done|].
    pose proof (exec_ok s f rest I Hst) as HE. unfold exec_inv in HE.
    destruct (exec f s) as [[fs s1]|p]; [|done]. by injection Hs as <-.
  - unfold step_timer in Hs. destruct (stimer (hart (kern s))) eqn:Hon; [|done].
    destruct (timer_ok s I Hon) as (s1 & HT & HI). rewrite HT in Hs. by injection Hs as <-.
Qed.

Lemma reachable_inv s s' : inv s → rtc step s s' → inv s'.
Proof. intros I Hr. induction Hr; [done|]. eauto using step_inv. Qed.

Lemma boot_inv bs istk h main sms :
  hart_ok h → ops_ok main → (∀ n, waiters (sms !!! n) = []) →
  ∃ s, boot bs istk h main sms = Ret s ∧ inv s.
Proof.
  intros Hh Hm Hw. unfold boot.
  destruct (manager_new_run (Sc := Sc) bs istk h Hh Hdef Hmin)
    as (k & -> & Hwf & Hcur & Hhk & _ & Hs0 & Hs1 & Hdom & Hsp).
  unmonad. eexists. split; [reflexivity|].
  set (s := mkSys _ _ _ _ _ _ _ _).
  assert (Hl : ∀ l, locks s !!! l = sleep_default) by done.
  assert (Hwait : ∀ a, waiters (sema_at a s) = []) by (intros [n|l]; [apply Hw|cbn [sema_at]; by rewrite Hl]).
  assert (Hstk : ∀ t, stk s t = if decide (t = 0) then [FMain main]
                            else if decide (t = 1) then [FKernelThread [OIdle]] else []).
  { intros t. unfold stk, s. cbn [stacks]. rewrite lookup_total_alt.
    case_decide as E0; [by subst|]. case_decide as E1; [by subst|].
    by rewrite lookup_insert_ne, lookup_singleton_ne by congruence. }
  destruct (wf_current _ Hwf) as (c & Hc & Hcs). rewrite Hcur in Hc.
  assert (Hct : status (current_thread k) = Running) by (unfold current_thread; by rewrite Hcur).
  assert (H0 : ∀ l t, sum (w_of l) (stk s t) = 0 ∧ sum (h_of l) (stk s t) = 0).
  { intros l t. rewrite Hstk. repeat case_decide; done. }
  destruct Hs1 as (th1 & Hth1 & Hr1).
  split; try done; cbn [s kern].
  - intros t th Ht. destruct (Hsp t th Ht) as (E1 & E2 & E3). unfold data_ok.
    rewrite E1, E2, E3. split_and!; [done|exact Hmin|done].
  - exists th1. by rewrite Hr1.
  - rewrite Hstk, decide_False, decide_True by done.
    apply (idle_base_in _ []); [done|]. unfold idle_base. rewrite !elem_of_cons. tauto.
  - intros t. rewrite Hstk. repeat case_decide; [|by repeat constructor|done].
    constructor; [exact Hm|done].
  - intros t Ht. rewrite Hstk, !decide_False; [done|congruence|congruence].
  - intros t HU. rewrite Hstk in HU.
    repeat case_decide; first [by apply list_elem_of_singleton in HU|by apply not_elem_of_nil in HU].
  - intros t. rewrite Hstk. left. by repeat case_decide.
  - rewrite Hcur, Hstk, decide_True by done. done.
  - rewrite Hct. done.
  - rewrite Hct. done.
  - intros t th Ht Hb. destruct (Hdom t th Ht) as [-> | ->]; [|congruence].
    unfold current_thread in Hct. rewrite Hcur, (thread_lookup _ _ _ Ht) in Hct. congruence.
  - intros a t Ht. rewrite Hwait in Ht. by apply not_elem_of_nil in Ht.
  - intros a. rewrite Hwait. apply NoDup_nil_2.
  - intros l t. rewrite Hstk. unfold balanced.
    repeat case_decide; cbn; unfold d_of; cbn; split_and!; (done || lia).
  - intros l. unfold lock_inv. rewrite Hl. split; [exists None; split; [done|]|];
      cbn; intros t; apply H0.
Qed.

(** ** The theorem *)

(** The thread is inside a section of lock [l]: it has passed [acquire] and
    the [release] of its guard is still to come. *)
Definition inside (l : Z) (st : list frame) : Prop :=
  ∃ pre post, st = pre ++ FRelease l :: post ∧
    Forall (λ f, w_of l f = 0 ∧ h_of l f = 0) pre.

Lemma bal_app_r g st st' : bal g (st ++ st') → bal g st'.
Proof. induction st as [|f st IH]; [done|]. intros [_ ?]. by apply IH. Qed.

Lemma inside_sums l st : balanced l st → inside l st → 0 < sum (w_of l) st ∧ 0 < sum (h_of l) st.
Proof.
  intros (B1 & B2 & _) (pre & post & -> & Hpre).
  rewrite !sum_app. cbn [sum w_of h_of]. rewrite bool_decide_eq_true_2 by done.
  apply bal_app_r in B1, B2. destruct B1 as [_ B1], B2 as [_ B2].
  apply bal_nonneg in B1, B2.
  rewrite (sum_zero _ pre), (sum_zero _ pre).
  - lia.
  - apply (Forall_impl _ _ _ Hpre). tauto.
  - apply (Forall_impl _ _ _ Hpre). tauto.
Qed.

Lemma inside_holder s l t : inv s → inside l (stk s t) → holder (locks s !!! l) = Some t.
Proof.
  intros I Hin. destruct (inside_sums l _ (i_balanced _ I l t) Hin) as [_ Hh].
  destruct (i_lock _ I l) as [_ Hl]. destruct (holder _) as [u|]; cbn in Hl.
  - destruct Hl as [_ Hl]. destruct (decide (t = u)); [congruence|].
    specialize (Hl t ltac:(done)). lia.
  - specialize (Hl t). lia.
Qed.

(** A state in which the promises hold. *)
Record safe (s : Sys Sc) : Prop := {
  (* at most one thread is inside a lock, and it is the holder *)
  s_mutex : ∀ l t u, inside l (stk s t) → inside l (stk s u) → t = u;
  s_holder : ∀ l t, inside l (stk s t) → holder (locks s !!! l) = Some t;
  (* one thread runs, and the ready queue is the ready threads, once each *)
  s_running : ∀ t th, threads (kern s) !! t = Some th → status th = Running → t = current (kern s);
  s_ready : ∀ t, t ∈ queued (scheduler (kern s)) ↔
    ∃ th, threads (kern s) !! t = Some th ∧ status th = Ready;
  s_once : NoDup (queued (scheduler (kern s)));
  (* a blocked thread waits for exactly one semaphore, and nobody else does *)
  s_blocked : ∀ t th, threads (kern s) !! t = Some th → status th = Blocked →
    ∃ a, t ∈ waiters (sema_at a s) ∧ ∀ b, t ∈ waiters (sema_at b s) → b = a;
  s_waiting : ∀ a t, t ∈ waiters (sema_at a s) →
    ∃ th, threads (kern s) !! t = Some th ∧ status th = Blocked;
  (* what runs next does not panic, but for the two cases of [may_panic] *)
  s_no_panic : ∀ p, step_thread s = Some (Panic p) →
    ∃ f rest, stk s (current (kern s)) = f :: rest ∧ may_panic s f p;
  s_timer : ∀ p, step_timer s ≠ Some (Panic p)
}.

Lemma inv_safe s : inv s → safe s.
Proof.
  intros I. split.
  - intros l t u Ht Hu. apply inside_holder in Ht, Hu; [congruence|done..].
  - intros l t. by apply inside_holder.
  - apply I.
  - apply I.
  - apply I.
  - intros t th Ht Hb. destruct (i_blocked _ I _ _ Ht Hb) as [a Ha]. exists a. split; [done|].
    intros b Hb'. destruct (i_waiting _ I _ _ Ha) as [_ (? & ? & ? & E1 & _)].
    destruct (i_waiting _ I _ _ Hb') as [_ (? & ? & ? & E2 & _)]. congruence.
  - intros a t Ht. by destruct (i_waiting _ I _ _ Ht) as [? _].
  - intros p Hp. unfold step_thread in Hp.
    destruct (stk s (current (kern s))) as [|f rest] eqn:Hst; [done|].
    exists f, rest. split; [done|]. pose proof (exec_ok s f rest I Hst) as HE.
    unfold exec_inv in HE. destruct (exec f s) as [[fs s1]|q]; [done|]. by injection Hp as <-.
  - intros p Hp. unfold step_timer in Hp. destruct (stimer (hart (kern s))) eqn:Hon; [|done].
    destruct (timer_ok s I Hon) as (s1 & HT & _). by rewrite HT in Hp.
Qed.

End Safe.

(** ** A run

    With the priority scheduler: the main thread takes lock 0, creates a thread
    of priority 40 that wants it too, and yields. *)
Definition demo_hart : Hart := mkHart true true true 0 [].

Definition demo_main : list op :=
  [OLocked 0 [OSpawn 0 (set_b_priority 40 builder_new) [OLocked 0 [OYield]]; OYield]; OYield].

Definition demo_run (main : list op) (l : list bool) : option (outcome (Sys PriorityScheduler)) :=
  match boot 4096 8192 demo_hart main ∅ with
  | Ret s => run_steps l s
  | Panic p => Some (Panic p)
  end.

Lemma run_steps_rtc {Sc} `{Schedule Sc} l (s s' : Sys Sc) :
  run_steps l s = Some (Ret s') → rtc step s s'.
Proof.
  revert s. induction l as [|b l IH]; intros s; cbn [run_steps]; [by intros [= ->]|].
  destruct b.
  - destruct (step_thread s) as [[s1|p]|] eqn:E; try done. intros Hr.
    eapply rtc_l; [by apply step_by_thread|by apply IH].
  - destruct (step_timer s) as [[s1|p]|] eqn:E; try done. intros Hr.
    eapply rtc_l; [by apply step_by_timer|by apply IH].
Qed.

Lemma ps_default_ok : prio_ok (Sc := PriorityScheduler) PRI_DEFAULT.
Proof. cbn. unfold pri_ok, PRI_DEFAULT. lia. Qed.
Lemma ps_min_ok : prio_ok (Sc := PriorityScheduler) PRI_MIN.
Proof. cbn. unfold pri_ok, PRI_MIN. lia. Qed.

