(* ===== verification/Wakeups.v ===== *)
(** * Waking threads up: [up] and the timer tick

    What [Semaphore::up] does on each branch and which waiter it chooses, and
    which sleepers a tick of the timer wakes, with the two ways in which they
    stop the kernel.  At the end, runs of the machine on concrete programs. *)

From S2P Require Import Prelude Intr Thread Scheduler Manager Sync SyncSafe.

Section Wakeups.
Context {Sc : Type} `{SI : Schedule Sc} `{SL : !ScheduleLaws Sc}.
Implicit Types s : Sys Sc.

(** ** [get_maxpriority] *)

(** The loop returns the last index of a greatest priority, when it starts
    with one of an earlier part [pre] of the queue. *)
Lemma maxpriority_from_spec prio pre ws mi mp :
  (∃ u, pre !! mi = Some u ∧ prio u = mp ∧
     ∀ j w, pre !! j = Some w → prio w ≤ mp ∧ ((mi < j)%nat → prio w < mp)) →
  let r := maxpriority_from prio ws (length pre) mi mp in
  ∃ u, (pre ++ ws) !! r.1 = Some u ∧ prio u = r.2 ∧
    ∀ j w, (pre ++ ws) !! j = Some w → prio w ≤ r.2 ∧ ((r.1 < j)%nat → prio w < r.2).
Proof.
  revert pre mi mp. induction ws as [|t ws IH]; intros pre mi mp (u & Hu & Hp & Hall); cbn zeta.
  { rewrite app_nil_r. by exists u. }
  cbn [maxpriority_from].
  replace (length pre + 1)%nat with (length (pre ++ [t])) by (rewrite length_app; cbn; lia).
  replace (pre ++ t :: ws) with ((pre ++ [t]) ++ ws) by (by rewrite <-app_assoc).
  assert (Hsnoc : ∀ j w, (pre ++ [t]) !! j = Some w → pre !! j = Some w ∨ j = length pre ∧ w = t).
  { intros j w Hj. apply lookup_app_Some in Hj as [?|[? Hj]]; [by left|].
    right. apply list_lookup_singleton_Some in Hj as [? ->]. split; [lia|done]. }
  case_bool_decide.
  - apply IH. exists t. split; [by rewrite lookup_app_r, Nat.sub_diag by lia|]. split; [done|].
    intros j w Hj. destruct (Hsnoc j w Hj) as [Hj'|[-> ->]].
    + destruct (Hall j w Hj'). apply lookup_lt_Some in Hj'. lia.
    + lia.
  - apply IH. exists u. split; [by apply lookup_app_l_Some|]. split; [done|].
    intros j w Hj. destruct (Hsnoc j w Hj) as [Hj'|[-> ->]]; [by apply Hall|lia].
Qed.

Lemma get_maxpriority_spec prio ws :
  ws ≠ [] → Forall (λ u, 0 ≤ prio u) ws →
  let r := get_maxpriority prio ws in
  ∃ u, ws !! r.1 = Some u ∧ prio u = r.2 ∧
    ∀ j w, ws !! j = Some w → prio w ≤ r.2 ∧ ((r.1 < j)%nat → prio w < r.2).
Proof.
  intros Hne HF. destruct ws as [|t ws]; [done|]. apply Forall_cons in HF as [Ht HF].
  unfold get_maxpriority. cbn [maxpriority_from]. rewrite bool_decide_eq_true_2 by done.
  apply (maxpriority_from_spec prio [t] ws 0 (prio t)). exists t. split_and!; [done..|].
  intros j w Hj. apply list_lookup_singleton_Some in Hj as [-> ->]. lia.
Qed.

(** ** [up] *)

Lemma level_back s b : hart_ok (hart (kern s)) →
  level (stimer (hart (kern s))) (level b s) = s.
Proof.
  intros Hh. unfold level, with_kern. cbn [kern hart with_hart].
  rewrite with_level_level, with_level_id by done. by destruct s as [[]].
Qed.

Lemma set_intr_wf b s : hart_ok (hart (kern s)) →
  set_intr b s = Ret (stimer (hart (kern s)), level b s).
Proof.
  intros Hh. unfold set_intr, on_kern, interrupt_set', hart_op.
  by rewrite interrupt_set_run.
Qed.

Lemma set_sema_level a x b s : set_sema a x (level b s) = level b (set_sema a x s).
Proof. by destruct a. Qed.

(** Waiters as the queue of a semaphore holds them. *)
Definition waiters_ok s (ws : list Z) : Prop :=
  Forall (λ u, u ≠ current (kern s) ∧ 0 ≤ prio_at s u ∧
    ∃ th, threads (kern s) !! u = Some th ∧ status th = Blocked) ws.

(** The branches of [up], with the state it leaves. *)
Lemma up_run s a :
  wf (kern s) → waiters_ok s (waiters (sema_at a s)) →
  let x := sema_at a s in
  let old := stimer (hart (kern s)) in
  (waiters x = [] →
     up a s = Ret ([], set_sema a (mkSemaphore (wrap64 (sema_value x + 1)) []) s)) ∧
  (waiters x ≠ [] → sema_value x ≠ 0 → up a s = Panic AssertFailed) ∧
  (waiters x ≠ [] → sema_value x = 0 → ∃ i u s',
     up a s = Ret (if bool_decide (prio_at s (current (kern s)) < prio_at s u)
                   then [FSchedule; FUpRet old] else [], s') ∧
     waiters x !! i = Some u ∧
     (∀ j w, waiters x !! j = Some w →
        prio_at s w ≤ prio_at s u ∧ ((i < j)%nat → prio_at s w < prio_at s u)) ∧
     s' = with_kern (kern s') (set_sema a (mkSemaphore 1 (delete i (waiters x))) s) ∧
     queued (scheduler (kern s')) ≡ₚ u :: queued (scheduler (kern s)) ∧
     threads (kern s') = on_thread u (with_status Ready) (threads (kern s)) ∧
     current (kern s') = current (kern s) ∧ hart (kern s') = hart (kern s) ∧
     wf (kern s')).
Proof.
  intros W Hws x old. pose proof (wf_hart _ W) as Hh.
  unfold up, cur. unmonad. rewrite set_intr_wf by done.
  rewrite sema_at_level. fold x old. split_and!.
  - intros Hx. rewrite Hx, bool_decide_eq_false_2 by auto.
    rewrite set_sema_level, set_intr_wf by (by rewrite <-set_sema_level, set_sema_kern).
    f_equal. f_equal. rewrite <-(set_sema_kern a (mkSemaphore (wrap64 (sema_value x + 1)) []) s) in Hh.
    rewrite <-(level_back (set_sema a (mkSemaphore (wrap64 (sema_value x + 1)) []) s) false Hh) at 2.
    unfold old. by rewrite set_sema_kern.
  - intros Hx Hv. by rewrite bool_decide_eq_true_2, bool_decide_eq_false_2 by done.
  - intros Hx Hv. rewrite bool_decide_eq_true_2, (bool_decide_eq_true_2 (sema_value x = 0)) by done.
    cbn [assert_]. rewrite Hv. change (wrap64 (0 + 1)) with 1.
    set (s2 := set_sema a (mkSemaphore 1 (waiters x)) (level false s)).
    assert (Ex2 : sema_at a s2 = mkSemaphore 1 (waiters x)).
    { unfold s2. destruct a; cbn; by rewrite lookup_total_insert_eq. }
    assert (Hk2 : kern s2 = kern (level false s)) by (unfold s2; by rewrite set_sema_kern).
    rewrite Ex2. cbn [sema_value waiters]. rewrite bool_decide_eq_true_2 by done. cbn [assert_].
    assert (Hpr : prio_at s2 = prio_at s) by (unfold prio_at; by rewrite Hk2).
    rewrite Hpr.
    pose proof (get_maxpriority_spec (prio_at s) (waiters x) Hx) as Hspec.
    cbn zeta in Hspec.
    destruct (get_maxpriority (prio_at s) (waiters x)) as [i mp]. cbn [fst snd] in Hspec.
    destruct Hspec as (u & Hu & Hp & Hall).
    { apply (Forall_impl _ _ _ Hws). tauto. }
    unfold waiters_ok in Hws. rewrite Forall_forall in Hws.
    destruct (Hws u) as (Huc & _ & th & Hth & Hb); [by eapply list_elem_of_lookup_2|].
    unfold deque_remove. rewrite Hu. set (ws := delete i (waiters x)).
    set (s3 := set_sema a _ s2).
    assert (Hk3 : kern s3 = kern (level false s)) by (unfold s3; by rewrite set_sema_kern, Hk2).
    destruct (wake_up_run (kern s3) u th) as (sc' & HW & HQ & Hwf'); rewrite ?Hk3;
      [by apply wf_level|done|done|done|].
    rewrite Hk3 in HW, Hwf'. unfold on_kern at 1. rewrite Hk3, HW.
    set (k4 := with_scheduler sc' _) in *. rewrite set_intr_wf by apply Hwf'.
    exists i, u. eexists. split_and!.
    + f_equal. f_equal. rewrite <-Hp. unfold prio_at, priority_of. cbn [kern with_kern k4 threads with_scheduler].
      cbn [threads with_threads].
      by rewrite (lookup_total_on_thread _ _ _ (current (kern s)) _ Hth), decide_False by congruence.
    + done.
    + intros j w Hj. rewrite Hp. by apply Hall.
    + unfold s3, s2. destruct a; cbn; unfold with_kern, with_semas, with_locks; cbn;
        by rewrite ?lookup_total_insert_eq, insert_insert_eq.
    + cbn. by rewrite HQ, Hk3.
    + done.
    + done.
    + cbn. unfold old. by rewrite with_level_level, with_level_id.
    + exact (wf_level k4 old Hwf').
Qed.

(** C19: [up] without waiters adds one to the value (modulo 2^64) and changes
    nothing else.  With waiters and a value of zero it sets the value to one,
    takes out of the queue the waiter of the highest effective priority that
    has waited longest, makes it ready, and calls [schedule] exactly when that
    priority is above the current thread's; the interrupt level is restored
    and the thread manager stays well formed.  With waiters and another value,
    as a second [up] finds before the thread woken by the first has run, the
    assertion on the count fails. *)
Theorem semaphore_up_correct s a :
  wf (kern s) → waiters_ok s (waiters (sema_at a s)) →
  let x := sema_at a s in
  let old := stimer (hart (kern s)) in
  (waiters x = [] →
     up a s = Ret ([], set_sema a (mkSemaphore (wrap64 (sema_value x + 1)) []) s)) ∧
  (waiters x ≠ [] → sema_value x ≠ 0 → up a s = Panic AssertFailed) ∧
  (waiters x ≠ [] → sema_value x = 0 → ∃ i u s',
     up a s = Ret (if bool_decide (prio_at s (current (kern s)) < prio_at s u)
                   then [FSchedule; FUpRet old] else [], s') ∧
     waiters x !! i = Some u ∧
     (∀ j w, waiters x !! j = Some w →
        prio_at s w ≤ prio_at s u ∧ ((i < j)%nat → prio_at s w < prio_at s u)) ∧
     sema_at a s' = mkSemaphore 1 (delete i (waiters x)) ∧
     queued (scheduler (kern s')) ≡ₚ u :: queued (scheduler (kern s)) ∧
     threads (kern s') = on_thread u (with_status Ready) (threads (kern s)) ∧
     current (kern s') = current (kern s) ∧ hart (kern s') = hart (kern s) ∧
     stacks s' = stacks s ∧ wf (kern s')).
Proof.
  intros W Hws x old. destruct (up_run s a W Hws) as (H1 & H2 & H3). split_and!; [done..|].
  intros Hx Hv. destruct (H3 Hx Hv) as (i & u & s' & E & Hi & Hm & Hs & ?). exists i, u, s'.
  split_and!; try tauto.
  - rewrite Hs. destruct a; cbn; by rewrite lookup_total_insert_eq.
  - rewrite Hs. apply set_sema_stacks.
Qed.

(** ** The heap of sleepers *)

Lemma heap_max_spec d q :
  heap_max d q ∈ d :: q ∧ ∀ e, e ∈ d :: q → sd_ticks (heap_max d q) ≤ sd_ticks e.
Proof.
  revert d. induction q as [|e q IH]; intros d; cbn.
  - split; [by left|]. intros e He. apply list_elem_of_singleton in He as ->. done.
  - assert (Hd : ∀ c : comparison, c = sd_cmp d e →
      match c with Lt => sd_ticks e < sd_ticks d | _ => sd_ticks d ≤ sd_ticks e end).
    { unfold sd_cmp. intros c ->. destruct (Z.compare_spec (sd_ticks e) (sd_ticks d)); lia. }
    specialize (Hd _ eq_refl). destruct (sd_cmp d e).
    + destruct (IH d) as [H1 H2]. split.
      * apply elem_of_cons in H1 as [H1|H1]; [rewrite H1; by left|by right; right].
      * intros c Hc. apply elem_of_cons in Hc as [-> |Hc]; [apply H2; by left|].
        apply elem_of_cons in Hc as [-> |Hc]; [|apply H2; by right].
        specialize (H2 d ltac:(by left)). lia.
    + destruct (IH e) as [H1 H2]. split; [by right|].
      intros c Hc. apply elem_of_cons in Hc as [-> |Hc]; [|by apply H2].
      specialize (H2 e ltac:(by left)). lia.
    + destruct (IH d) as [H1 H2]. split.
      * apply elem_of_cons in H1 as [H1|H1]; [rewrite H1; by left|by right; right].
      * intros c Hc. apply elem_of_cons in Hc as [-> |Hc]; [apply H2; by left|].
        apply elem_of_cons in Hc as [-> |Hc]; [|apply H2; by right].
        specialize (H2 d ltac:(by left)). lia.
Qed.

Lemma sd_eqb_iff a b : sd_eqb a b = true ↔ a = b.
Proof.
  unfold sd_eqb. rewrite andb_true_iff, !bool_decide_eq_true.
  destruct a, b; cbn. split; [by intros [-> ->]|by intros [= -> ->]].
Qed.

Lemma heap_remove_perm d q : d ∈ q → q ≡ₚ d :: heap_remove d q.
Proof.
  induction q as [|e q IH]; [by intros ?%not_elem_of_nil|]. intros Hd. cbn.
  destruct (sd_eqb d e) eqn:E; [apply sd_eqb_iff in E; by subst|].
  apply elem_of_cons in Hd as [-> |Hd].
  { assert (sd_eqb e e = true) by (by apply sd_eqb_iff). congruence. }
  rewrite (IH Hd) at 1. apply Permutation_swap.
Qed.

(** [pop] takes out a sleeper whose time is not after any other's. *)
Lemma heap_pop_spec q :
  match heap_pop q with
  | None => q = []
  | Some (d, q') => heap_peek q = Some d ∧ q ≡ₚ d :: q' ∧
      ∀ e, e ∈ q → sd_ticks d ≤ sd_ticks e
  end.
Proof.
  destruct q as [|d q]; [done|]. unfold heap_pop, heap_peek. cbn [mbind option_bind].
  destruct (heap_max_spec d q) as [H1 H2]. split_and!; [done| |done].
  by apply heap_remove_perm.
Qed.

(** ** [tick] *)

Definition due (now : Z) (d : SleepData) : Prop := sd_ticks d ≤ now.
#[local] Instance due_dec now d : Decision (due now d).
Proof. unfold due. apply _. Defined.

(** Sleepers that have blocked since they queued themselves, each once. *)
Definition sleepers_ok s (q : list SleepData) : Prop :=
  NoDup (map sd_thread q) ∧
  Forall (λ d, sd_thread d ≠ current (kern s) ∧
    ∃ th, threads (kern s) !! sd_thread d = Some th ∧ status th = Blocked) q.

(** The part of the state the loop of [tick] does not change. *)
Definition same_rest s s' : Prop :=
  current (kern s') = current (kern s) ∧ hart (kern s') = hart (kern s) ∧
  ticks s' = ticks s ∧ stacks s' = stacks s ∧ semas s' = semas s ∧ locks s' = locks s.

Lemma sleepers_ok_perm s q q' : q ≡ₚ q' → sleepers_ok s q → sleepers_ok s q'.
Proof. intros HP [H1 H2]. split; [by rewrite <-HP|by rewrite <-HP]. Qed.

Lemma filter_due_none now q :
  (∀ e, e ∈ q → ¬ due now e) → filter (due now) q = [] ∧ filter (λ d, ¬ due now d) q = q.
Proof.
  intros Hq. split; [apply filter_none|apply filter_all]; apply Forall_forall; auto.
Qed.

Lemma wake_sleepers_run n now s :
  length (sleepq s) = n → wf (kern s) → sleepers_ok s (sleepq s) →
  ∃ s', wake_sleepers n now s = Ret ((), s') ∧ wf (kern s') ∧ same_rest s s' ∧
    sleepq s' ≡ₚ filter (λ d, ¬ due now d) (sleepq s) ∧
    queued (scheduler (kern s')) ≡ₚ
      map sd_thread (filter (due now) (sleepq s)) ++ queued (scheduler (kern s)) ∧
    (∀ u, threads (kern s') !! u =
      if decide (u ∈ map sd_thread (filter (due now) (sleepq s)))
      then with_status Ready <$> threads (kern s) !! u else threads (kern s) !! u).
Proof.
  revert s. induction n as [|n IH]; intros s Hn W Hok; cbn [wake_sleepers].
  { apply length_zero_iff_nil in Hn. exists s. rewrite Hn. by split_and!. }
  unmonad. pose proof (heap_pop_spec (sleepq s)) as Hpop.
  destruct (heap_pop (sleepq s)) as [[d q']|]; [|by rewrite Hpop in Hn].
  destruct Hpop as (-> & HP & Hmin). case_bool_decide as Hd.
  - rewrite HP in Hn. cbn in Hn.
    pose proof (sleepers_ok_perm _ _ _ HP Hok) as [HN HF].
    cbn [map] in HN. apply NoDup_cons in HN as [Hdq HN].
    apply Forall_cons in HF as [(Hdc & th & Hth & Hb) HF].
    destruct (wake_up_run (kern s) (sd_thread d) th) as (sc & HW & HQ & W'); [done..|].
    unfold on_kern at 1. cbn [kern with_sleepq]. rewrite HW.
    set (k1 := with_scheduler sc _) in *. set (s1 := with_kern k1 _).
    assert (Hl : ∀ u, threads k1 !! u = if decide (u = sd_thread d)
                      then with_status Ready <$> threads (kern s) !! u else threads (kern s) !! u).
    { intros u. cbn. rewrite on_thread_lookup. by case_decide; subst. }
    destruct (IH s1) as (s' & HR & Hw & Hsame & Hsq & Hqu & Hts); [cbn; lia|done| |].
    { split; [done|]. rewrite Forall_forall in HF |- *. intros e He.
      destruct (HF e He) as (? & the & Hthe & ?). split; [done|]. exists the.
      cbn [kern s1 with_kern]. rewrite Hl, decide_False; [done|].
      intros E. apply Hdq. rewrite <-E. by apply list_elem_of_fmap_2. }
    exists s'. rewrite HR. cbn [sleepq s1 with_kern with_sleepq kern] in *.
    assert (Ef : filter (due now) (sleepq s) ≡ₚ d :: filter (due now) q').
    { rewrite HP. by rewrite filter_cons_True. }
    split_and!; try done.
    + rewrite Hsq, HP. by rewrite filter_cons_False by (intros Hnd; by apply Hnd).
    + rewrite Hqu, Ef. cbn [scheduler k1 with_scheduler]. rewrite HQ. cbn [map]. solve_Permutation.
    + intros u. rewrite Hts, Hl.
      assert (Eu : u ∈ map sd_thread (filter (due now) (sleepq s)) ↔
                   u = sd_thread d ∨ u ∈ map sd_thread (filter (due now) q'))
        by (rewrite Ef; cbn [map]; by rewrite elem_of_cons).
      assert (Hdn : sd_thread d ∉ map sd_thread (filter (due now) q')).
      { intros Hin. apply Hdq. apply list_elem_of_fmap in Hin as (e & -> & He).
        apply list_elem_of_filter in He as [_ He]. by apply list_elem_of_fmap_2. }
      destruct (decide (u = sd_thread d)) as [-> |Hne].
      * rewrite decide_False, decide_True by tauto. done.
      * destruct (decide (u ∈ map sd_thread (filter (due now) q'))).
        -- by rewrite decide_True by tauto.
        -- by rewrite decide_False by tauto.
  - destruct (filter_due_none now (sleepq s)) as [E1 E2].
    { intros e He Hde. specialize (Hmin e He). unfold due in Hde. lia. }
    exists s. rewrite E1, E2. by split_and!.
Qed.

(** C23: a tick of the timer counts, and wakes exactly the sleepers whose time
    has come: they become ready and are queued, the others stay in the heap,
    nobody else changes, the interrupt level is what it was and the next timer
    interrupt is asked for.  If the first sleeper that is due has not blocked
    yet, as when the interrupt comes between its entry into the heap and its
    call of [block], an assertion stops the kernel. *)
Theorem tick_correct s :
  wf (kern s) → - 2 ^ 63 ≤ ticks s < 2 ^ 63 - 1 →
  let now := ticks s + 1 in
  (sleepers_ok s (sleepq s) → ∃ s', tick s = Ret ((), s') ∧ wf (kern s') ∧ ticks s' = now ∧
    sleepq s' ≡ₚ filter (λ d, ¬ due now d) (sleepq s) ∧
    queued (scheduler (kern s')) ≡ₚ
      map sd_thread (filter (due now) (sleepq s)) ++ queued (scheduler (kern s)) ∧
    (∀ u, threads (kern s') !! u =
      if decide (u ∈ map sd_thread (filter (due now) (sleepq s)))
      then with_status Ready <$> threads (kern s) !! u else threads (kern s) !! u) ∧
    stimer (hart (kern s')) = stimer (hart (kern s)) ∧
    timer_calls (hart (kern s')) =
      wrap64 (time (hart (kern s)) + 1250000) :: timer_calls (hart (kern s)) ∧
    current (kern s') = current (kern s) ∧ stacks s' = stacks s) ∧
  (∀ d, heap_peek (sleepq s) = Some d → due now d →
     status (thread (kern s) (sd_thread d)) ≠ Blocked → tick s = Panic AssertFailed).
Proof.
  intros W Ht now. unfold tick. unmonad. cbn [with_ticks ticks sleepq].
  replace (wrap64 (ticks s + 1 + 2 ^ 63) - 2 ^ 63) with now
    by (unfold now; rewrite wrap_small by (split; lia); lia).
  set (s1 := with_ticks now s). assert (Hh1 : hart_ok (hart (kern s1))) by apply W.
  rewrite set_intr_wf by done. set (s2 := level false s1).
  assert (W2 : wf (kern s2)) by (by apply wf_level). cbn [sleepq ticks s2 level with_kern s1 with_ticks].
  fold s1 s2. split.
  - intros Hok. destruct (wake_sleepers_run (length (sleepq s)) now s2)
      as (s3 & -> & W3 & (Hc & Hh & Htk & Hst & _) & Hsq & Hqu & Hts); [done|done|exact Hok|].
    rewrite set_intr_wf by apply W3. unfold on_kern, hart_op, timer_next, clock, set_timer. unmonad.
    eexists. split; [reflexivity|]. cbn. split_and!; try done.
    + destruct W3. by split.
    + rewrite Hh. cbn. done.
  - intros d Hd Hdue Hnb. destruct (length (sleepq s)) eqn:El.
    { apply length_zero_iff_nil in El. by rewrite El in Hd. }
    cbn [wake_sleepers]. unmonad. cbn [sleepq s2 level with_kern s1 with_ticks]. rewrite Hd.
    rewrite bool_decide_eq_true_2 by done.
    pose proof (heap_pop_spec (sleepq s)) as Hpop.
    destruct (heap_pop (sleepq s)) as [[d' q']|]; [|by rewrite Hpop in Hd].
    destruct Hpop as (Hd' & _). rewrite Hd in Hd'. injection Hd' as <-.
    unfold on_kern at 1. cbn [kern with_sleepq]. by rewrite wake_up_panic.
Qed.
End Wakeups.

(** ** Runs *)

(** A thread of priority 40 waits for a semaphore; the main thread is about to
    raise it. *)
Definition up_main : list op :=
  [OSpawn 0 (set_b_priority 40 builder_new) [ODown (SemaAt 0)]; OUp (SemaAt 0)].

(** The state of a run that is known to succeed. *)
Lemma demo_run_inv main l :
  foldr (λ o P, op_ok (Sc := PriorityScheduler) o ∧ P) True main →
  match demo_run main l with Some (Ret s) => inv s | _ => True end.
Proof.
  intros Hm. destruct (boot_inv (Sc := PriorityScheduler) ps_default_ok ps_min_ok 4096 8192
    demo_hart main ∅ eq_refl Hm ltac:(done)) as (s0 & Hb & I).
  unfold demo_run. rewrite Hb. destruct (run_steps l s0) as [[s|p]|] eqn:Hr; [|done|done].
  eapply (reachable_inv ps_default_ok ps_min_ok); [exact I|]. eapply run_steps_rtc. exact Hr.
Qed.

Lemma up_main_ok : foldr (λ o P, op_ok (Sc := PriorityScheduler) o ∧ P) True up_main.
Proof. cbn. unfold pri_ok. repeat split; lia. Qed.

Lemma semaphore_up_witness :
  match demo_run up_main (replicate 8 true) with
  | Some (Ret s) => ∃ s', up (SemaAt 0) s = Ret ([FSchedule; FUpRet true], s') ∧
                     waiters (sema_at (SemaAt 0) s') = []
  | _ => False
  end.
Proof.
  assert (E : match demo_run up_main (replicate 8 true) with
    | Some (Ret s) => (waiters (sema_at (SemaAt 0) s), sema_value (sema_at (SemaAt 0) s),
        current (kern s), prio_at s 0, prio_at s 2, stimer (hart (kern s)))
        = ([2], 0, 0, 31, 40, true)
    | _ => False end) by (vm_compute; reflexivity).
  pose proof (demo_run_inv up_main (replicate 8 true) up_main_ok) as I.
  destruct (demo_run up_main (replicate 8 true)) as [[s|p]|]; [|destruct E|destruct E].
  assert (Ew : waiters (sema_at (SemaAt 0) s) = [2]) by congruence.
  assert (Ev : sema_value (sema_at (SemaAt 0) s) = 0) by congruence.
  assert (Ec : current (kern s) = 0) by congruence.
  assert (E0 : prio_at s 0 = 31) by congruence.
  assert (E2 : prio_at s 2 = 40) by congruence.
  assert (Eo : stimer (hart (kern s)) = true) by congruence.
  destruct (semaphore_up_correct s (SemaAt 0) (i_wf _ I)) as (_ & _ & H3).
  - rewrite Ew. apply Forall_singleton. rewrite Ec, E2. split; [lia|]. split; [lia|].
    destruct (i_waiting _ I (SemaAt 0) 2) as [Hb _]; [rewrite Ew; apply list_elem_of_singleton; reflexivity|].
    exact Hb.
  - destruct (H3 ltac:(rewrite Ew; discriminate) Ev) as (i & u & s' & HR & Hu & _ & Hs' & _).
    exists s'. rewrite Ew in Hu. apply list_lookup_singleton_Some in Hu as [-> <-].
    rewrite Ec, E0, E2, Eo in HR. split; [exact HR|]. rewrite Hs', Ew. reflexivity.
Defined.

(** The same blocked thread as a sleeper that is due at the next tick. *)
Lemma tick_witness :
  match demo_run up_main (replicate 8 true) with
  | Some (Ret s) => ∃ s', tick (with_sleepq [mkSleepData 1 2] s) = Ret ((), s') ∧
      sleepq s' = [] ∧ queued (scheduler (kern s')) ≡ₚ 2 :: queued (scheduler (kern s))
  | _ => False
  end.
Proof.
  assert (E : match demo_run up_main (replicate 8 true) with
    | Some (Ret s) => (waiters (sema_at (SemaAt 0) s), current (kern s), ticks s) = ([2], 0, 0)
    | _ => False end) by (vm_compute; reflexivity).
  pose proof (demo_run_inv up_main (replicate 8 true) up_main_ok) as I.
  destruct (demo_run up_main (replicate 8 true)) as [[s|p]|]; [|destruct E|destruct E].
  assert (Ew : waiters (sema_at (SemaAt 0) s) = [2]) by congruence.
  assert (Ec : current (kern s) = 0) by congruence.
  assert (Et : ticks s = 0) by congruence.
  destruct (tick_correct (with_sleepq [mkSleepData 1 2] s) (i_wf _ I)) as [H1 _].
  - cbn [ticks with_sleepq]. rewrite Et. lia.
  - destruct H1 as (s' & HT & _ & _ & Hq & Hr & _).
    + split; [apply NoDup_singleton|]. apply Forall_singleton. cbn [sd_thread kern with_sleepq].
      rewrite Ec. split; [lia|].
      destruct (i_waiting _ I (SemaAt 0) 2) as [Hb _]; [rewrite Ew; apply list_elem_of_singleton; reflexivity|].
      exact Hb.
    + exists s'. split; [exact HT|]. cbn [sleepq with_sleepq ticks] in Hq, Hr. rewrite Et in Hq, Hr.
      cbn [kern with_sleepq] in Hr. split; [|exact Hr]. apply Permutation_nil_r. exact Hq.
Defined.

(** Three runs that stop the kernel: a tick between the entry of a sleeper into
    the heap and its [block]; two [up]s in a row with two waiters; and a holder
    that releases a lock while another thread stands between its test of the
    holder and the use of it. *)
Lemma races_reached :
  demo_run [OSleep 1] [true; false] = Some (Panic AssertFailed) ∧
  demo_run [OSpawn 0 builder_new [ODown (SemaAt 0)]; OSpawn 0 builder_new [ODown (SemaAt 0)];
            OYield; OUp (SemaAt 0); OUp (SemaAt 0)] (replicate 40 true)
    = Some (Panic AssertFailed) ∧
  demo_run [OLocked 0 [OSpawn 0 builder_new [OLocked 0 []]]; OYield]
    (replicate 9 true ++ false :: replicate 30 true) = Some (Panic UnwrapNone).
Proof. vm_compute. split; [reflexivity|split; reflexivity]. Qed.
