(* ===== verification/Asm.v ===== *)
(** * Assembly: the context switch and the trap entries

    The [global_asm!] blocks of [thread/switch.rs], [trap.rs] and
    [thread/imp.rs], instruction by instruction, over the registers, the CSRs
    they use and a memory of 64-bit words; [Context] and [Context::new] of
    [thread/imp.rs] and [Frame] of [trap.rs] are layouts of that memory. *)

From S2P Require Import Prelude Thread.

(** ** Machine *)

Inductive csr : Type := Sstatus | Sepc | Sscratch | Stvec.

#[export] Instance csr_eq_dec : EqDecision csr.
Proof. solve_decision. Defined.

(** The symbols the code refers to. *)
Inductive label : Type :=
  | LTrapHandler | LTrapEntryU | LTrapEntryK | LScheduleTailWrapper
  | LKernelThread | LKernelThreadEntry.

Inductive instr : Type :=
  | Sd (rs : Z) (off : Z) (base : Z)      (* sd rs, off(base) *)
  | Ld (rd : Z) (off : Z) (base : Z)      (* ld rd, off(base) *)
  | Addi (rd rs : Z) (imm : Z)
  | Mv (rd rs : Z)
  | Csrr (rd : Z) (c : csr)
  | Csrw (c : csr) (rs : Z)
  | Csrrw (rd : Z) (c : csr) (rs : Z)
  | La (rd : Z) (l : label)
  | Call (l : label)
  | J (l : label)
  | Sret.

Record State : Type := mkState { x : Z → Z; csrs : csr → Z; mem : Z → Z }.

(** How a piece of code ends. *)
Inductive jump : Type := JCall (l : label) | JTo (l : label) | JSret.

Abbreviation ra := 1. Abbreviation sp := 2.
Abbreviation t0 := 5. Abbreviation t1 := 6. Abbreviation t2 := 7.
Abbreviation s0 := 8. Abbreviation s1 := 9.
Abbreviation a0 := 10. Abbreviation a1 := 11. Abbreviation a2 := 12.
Abbreviation s2 := 18. Abbreviation s3 := 19. Abbreviation s4 := 20. Abbreviation s5 := 21.
Abbreviation s6 := 22. Abbreviation s7 := 23. Abbreviation s8 := 24. Abbreviation s9 := 25.
Abbreviation s10 := 26. Abbreviation s11 := 27.

Definition upd {A} `{EqDecision A} (f : A → Z) (a : A) (v : Z) : A → Z :=
  λ b, if decide (b = a) then v else f b.

(** Register 0 is constantly zero. *)
Definition reg (s : State) (r : Z) : Z := if decide (r = 0) then 0 else x s r.

Definition set_reg (r v : Z) (s : State) : State := mkState (upd (x s) r v) (csrs s) (mem s).
Definition set_csr (c : csr) (v : Z) (s : State) : State := mkState (x s) (upd (csrs s) c v) (mem s).
Definition set_mem (a v : Z) (s : State) : State := mkState (x s) (csrs s) (upd (mem s) a v).

Definition ea (s : State) (base off : Z) : Z := wrap64 (reg s base + off).

Section Asm.
(** Where the linker puts the symbols. *)
Context (addr : label → Z).

Definition exec1 (i : instr) (s : State) : State :=
  match i with
  | Sd rs off base => set_mem (ea s base off) (reg s rs) s
  | Ld rd off base => set_reg rd (mem s (ea s base off)) s
  | Addi rd rs imm => set_reg rd (wrap64 (reg s rs + imm)) s
  | Mv rd rs => set_reg rd (reg s rs) s
  | Csrr rd c => set_reg rd (csrs s c) s
  | Csrw c rs => set_csr c (reg s rs) s
  | Csrrw rd c rs => set_csr c (reg s rs) (set_reg rd (csrs s c) s)
  | La rd l => set_reg rd (addr l) s
  | Call _ | J _ | Sret => s
  end.

(** Runs to the first transfer of control. *)
Fixpoint run (p : list instr) (s : State) : State * option jump :=
  match p with
  | [] => (s, None)
  | Call l :: _ => (s, Some (JCall l))
  | J l :: _ => (s, Some (JTo l))
  | Sret :: _ => (s, Some JSret)
  | i :: p => run p (exec1 i s)
  end.

(** ** [thread/switch.rs] *)
Definition switch : list instr := [
  Sd ra 0x0 a1; Ld ra 0x0 a2;
  Sd sp 0x8 a1; Ld sp 0x8 a2;
  Sd s0 0x10 a1; Ld s0 0x10 a2;
  Sd s1 0x18 a1; Ld s1 0x18 a2;
  Sd s2 0x20 a1; Ld s2 0x20 a2;
  Sd s3 0x28 a1; Ld s3 0x28 a2;
  Sd s4 0x30 a1; Ld s4 0x30 a2;
  Sd s5 0x38 a1; Ld s5 0x38 a2;
  Sd s6 0x40 a1; Ld s6 0x40 a2;
  Sd s7 0x48 a1; Ld s7 0x48 a2;
  Sd s8 0x50 a1; Ld s8 0x50 a2;
  Sd s9 0x58 a1; Ld s9 0x58 a2;
  Sd s10 0x60 a1; Ld s10 0x60 a2;
  Sd s11 0x68 a1; Ld s11 0x68 a2;
  J LScheduleTailWrapper
].

(** ** [kernel_thread_entry] of [thread/imp.rs] *)
Definition kernel_thread_entry : list instr := [ Mv a0 s0; J LKernelThread ].

(** ** [trap.rs] *)
Definition trap_entry_u : list instr := [
  Csrrw sp Sscratch sp;
  Addi sp sp (-34*8);
  Sd 1 (1*8) sp;
  Sd 3 (3*8) sp; Sd 4 (4*8) sp; Sd 5 (5*8) sp; Sd 6 (6*8) sp; Sd 7 (7*8) sp;
  Sd 8 (8*8) sp; Sd 9 (9*8) sp; Sd 10 (10*8) sp; Sd 11 (11*8) sp; Sd 12 (12*8) sp;
  Sd 13 (13*8) sp; Sd 14 (14*8) sp; Sd 15 (15*8) sp; Sd 16 (16*8) sp; Sd 17 (17*8) sp;
  Sd 18 (18*8) sp; Sd 19 (19*8) sp; Sd 20 (20*8) sp; Sd 21 (21*8) sp; Sd 22 (22*8) sp;
  Sd 23 (23*8) sp; Sd 24 (24*8) sp; Sd 25 (25*8) sp; Sd 26 (26*8) sp; Sd 27 (27*8) sp;
  Sd 28 (28*8) sp; Sd 29 (29*8) sp; Sd 30 (30*8) sp; Sd 31 (31*8) sp;
  Csrr t0 Sstatus; Csrr t1 Sepc; Csrr t2 Sscratch;
  Sd t0 (32*8) sp; Sd t1 (33*8) sp; Sd t2 (2*8) sp;
  Mv a0 sp;
  Call LTrapHandler
].

Definition trap_exit_u : list instr := [
  Ld t0 (32*8) sp; Ld t1 (33*8) sp; Ld t2 (2*8) sp;
  Csrw Sstatus t0; Csrw Sepc t1; Csrw Sscratch t2;
  La t0 LTrapEntryU; Csrw Stvec t0;
  Ld 1 (1*8) sp;
  Ld 3 (3*8) sp; Ld 4 (4*8) sp; Ld 5 (5*8) sp; Ld 6 (6*8) sp; Ld 7 (7*8) sp;
  Ld 8 (8*8) sp; Ld 9 (9*8) sp; Ld 10 (10*8) sp; Ld 11 (11*8) sp; Ld 12 (12*8) sp;
  Ld 13 (13*8) sp; Ld 14 (14*8) sp; Ld 15 (15*8) sp; Ld 16 (16*8) sp; Ld 17 (17*8) sp;
  Ld 18 (18*8) sp; Ld 19 (19*8) sp; Ld 20 (20*8) sp; Ld 21 (21*8) sp; Ld 22 (22*8) sp;
  Ld 23 (23*8) sp; Ld 24 (24*8) sp; Ld 25 (25*8) sp; Ld 26 (26*8) sp; Ld 27 (27*8) sp;
  Ld 28 (28*8) sp; Ld 29 (29*8) sp; Ld 30 (30*8) sp; Ld 31 (31*8) sp;
  Addi sp sp (34*8);
  Csrrw sp Sscratch sp;
  Sret
].

Definition trap_entry_k : list instr := [
  Addi sp sp (-34*8);
  Sd 1 (1*8) sp;
  Sd 3 (3*8) sp; Sd 4 (4*8) sp; Sd 5 (5*8) sp; Sd 6 (6*8) sp; Sd 7 (7*8) sp;
  Sd 8 (8*8) sp; Sd 9 (9*8) sp; Sd 10 (10*8) sp; Sd 11 (11*8) sp; Sd 12 (12*8) sp;
  Sd 13 (13*8) sp; Sd 14 (14*8) sp; Sd 15 (15*8) sp; Sd 16 (16*8) sp; Sd 17 (17*8) sp;
  Sd 18 (18*8) sp; Sd 19 (19*8) sp; Sd 20 (20*8) sp; Sd 21 (21*8) sp; Sd 22 (22*8) sp;
  Sd 23 (23*8) sp; Sd 24 (24*8) sp; Sd 25 (25*8) sp; Sd 26 (26*8) sp; Sd 27 (27*8) sp;
  Sd 28 (28*8) sp; Sd 29 (29*8) sp; Sd 30 (30*8) sp; Sd 31 (31*8) sp;
  Csrr t0 Sstatus; Csrr t1 Sepc;
  Sd t0 (32*8) sp; Sd t1 (33*8) sp;
  Mv a0 sp;
  Call LTrapHandler
].

Definition trap_exit_k : list instr := [
  Ld t0 (32*8) sp; Ld t1 (33*8) sp;
  Csrw Sstatus t0; Csrw Sepc t1;
  La t0 LTrapEntryK; Csrw Stvec t0;
  Ld 1 (1*8) sp;
  Ld 3 (3*8) sp; Ld 4 (4*8) sp; Ld 5 (5*8) sp; Ld 6 (6*8) sp; Ld 7 (7*8) sp;
  Ld 8 (8*8) sp; Ld 9 (9*8) sp; Ld 10 (10*8) sp; Ld 11 (11*8) sp; Ld 12 (12*8) sp;
  Ld 13 (13*8) sp; Ld 14 (14*8) sp; Ld 15 (15*8) sp; Ld 16 (16*8) sp; Ld 17 (17*8) sp;
  Ld 18 (18*8) sp; Ld 19 (19*8) sp; Ld 20 (20*8) sp; Ld 21 (21*8) sp; Ld 22 (22*8) sp;
  Ld 23 (23*8) sp; Ld 24 (24*8) sp; Ld 25 (25*8) sp; Ld 26 (26*8) sp; Ld 27 (27*8) sp;
  Ld 28 (28*8) sp; Ld 29 (29*8) sp; Ld 30 (30*8) sp; Ld 31 (31*8) sp;
  Addi sp sp (34*8);
  Sret
].
End Asm.

(** [struct Frame]: general registers, [sstatus], [sepc]. *)
Record Frame : Type := mkFrame { f_x : Z → Z; f_sstatus : Z; f_sepc : Z }.

(** The frame at address [F] ([repr(C)]). *)
Definition frame_at (m : Z → Z) (F : Z) : Frame :=
  mkFrame (λ i, m (F + 8 * i)) (m (F + 256)) (m (F + 264)).

Definition FRAME_SIZE : Z := 34 * 8.

(** [struct Context]: [ra], [sp] and the twelve callee-saved registers. *)
Record Context : Type := mkContext { c_ra : Z; c_sp : Z; c_s : Z → Z }.

Definition context_at (m : Z → Z) (c : Z) : Context :=
  mkContext (m c) (m (c + 8)) (λ i, m (c + 16 + 8 * i)).

(** [Context::new]; [entry_addr] is the address of [kernel_thread_entry]. *)
Definition context_new (entry_addr stack entry : Z) : Context :=
  mkContext entry_addr (stack + STACK_SIZE) (λ i, if decide (i = 0) then entry else 0).

(** The number of the register [s_i]. *)
Definition sreg (i : Z) : Z := if decide (i < 2) then 8 + i else 16 + i.

(** ** Straight-line code *)

Section Straight.
Context (addr : label → Z).

Definition straight (i : instr) : Prop :=
  match i with Call _ | J _ | Sret => False | _ => True end.

Definition exec_all (p : list instr) (s : State) : State := foldl (λ s i, exec1 addr i s) s p.

Lemma run_straight p q s :
  Forall straight p → run addr (p ++ q) s = run addr q (exec_all p s).
Proof.
  intros Hp. revert s. induction Hp as [|i p Hi Hp IH]; intros s; [done|].
  cbn [app]. change (exec_all (i :: p) s) with (exec_all p (exec1 addr i s)). rewrite <-IH. by destruct i.
Qed.

(** Runs of stores and of loads relative to one register. *)
Definition stores (base : Z) (l : list (Z * Z)) : list instr :=
  map (λ p, Sd p.1 p.2 base) l.
Definition loads (base : Z) (l : list (Z * Z)) : list instr :=
  map (λ p, Ld p.1 p.2 base) l.

Lemma stores_straight base l : Forall straight (stores base l).
Proof. by induction l; constructor. Qed.
Lemma loads_straight base l : Forall straight (loads base l).
Proof. by induction l; constructor. Qed.

Lemma upd_eq {A} `{EqDecision A} (f : A → Z) a v : upd f a v a = v.
Proof. unfold upd. by rewrite decide_True. Qed.
Lemma upd_ne {A} `{EqDecision A} (f : A → Z) a b v : b ≠ a → upd f a v b = f b.
Proof. intros. unfold upd. by rewrite decide_False. Qed.

Lemma exec_all_app p q s : exec_all (p ++ q) s = exec_all q (exec_all p s).
Proof. apply foldl_app. Qed.

Lemma stores_spec base l s F :
  reg s base = F → Forall (λ p, 0 ≤ F + p.2 < 2 ^ 64) l → NoDup (map snd l) →
  let s' := exec_all (stores base l) s in
  x s' = x s ∧ csrs s' = csrs s ∧
  (∀ r off, (r, off) ∈ l → mem s' (F + off) = reg s r) ∧
  (∀ a, (∀ p, p ∈ l → a ≠ F + p.2) → mem s' a = mem s a).
Proof.
  revert s. induction l as [|[r off] l IH]; intros s HF Hl Hnd; cbn zeta.
  { split_and!; try done. by intros r off ?%not_elem_of_nil. }
  apply Forall_cons in Hl as [Ho Hl]. cbn [map] in Hnd. apply NoDup_cons in Hnd as [Hno Hnd].
  cbn [snd] in Ho. set (s1 := exec1 addr (Sd r off base) s).
  assert (Hea : ea s base off = F + off) by (unfold ea; rewrite HF; by apply wrap_small).
  destruct (IH s1) as (Hx & Hc & Hin & Hout); [exact HF|done|done|].
  change (exec_all (stores base ((r, off) :: l)) s) with (exec_all (stores base l) s1).
  cbn [snd] in Hno. split_and!; [done|done| |].
  - intros r' off' [[= -> ->]|Hp]%elem_of_cons.
    + rewrite Hout.
      * cbn [s1 exec1 set_mem mem]. rewrite Hea. apply upd_eq.
      * intros p Hp E. apply Hno. replace off with p.2 by lia. by apply list_elem_of_fmap_2.
    + rewrite (Hin r' off' Hp). done.
  - intros a Ha. rewrite Hout.
    + cbn [s1 exec1 set_mem mem]. rewrite Hea. apply upd_ne.
      apply (Ha (r, off)). by left.
    + intros p Hp. apply Ha. by right.
Qed.

Lemma loads_spec base l s F :
  reg s base = F → Forall (λ p, p.1 ≠ base ∧ 0 ≤ F + p.2 < 2 ^ 64) l → NoDup (map fst l) →
  let s' := exec_all (loads base l) s in
  mem s' = mem s ∧ csrs s' = csrs s ∧
  (∀ r off, (r, off) ∈ l → x s' r = mem s (F + off)) ∧
  (∀ r, r ∉ map fst l → x s' r = x s r).
Proof.
  revert s. induction l as [|[r off] l IH]; intros s HF Hl Hnd; cbn zeta.
  { split_and!; try done. by intros r off ?%not_elem_of_nil. }
  apply Forall_cons in Hl as [[Hb Ho] Hl]. cbn [map] in Hnd. apply NoDup_cons in Hnd as [Hno Hnd].
  cbn [fst snd] in Hb, Ho, Hno. set (s1 := exec1 addr (Ld r off base) s).
  assert (Hea : ea s base off = F + off) by (unfold ea; rewrite HF; by apply wrap_small).
  destruct (IH s1) as (Hm & Hc & Hin & Hout); [|done|done|].
  { unfold reg in *. cbn [s1 exec1 set_reg x]. by rewrite upd_ne. }
  change (exec_all (loads base ((r, off) :: l)) s) with (exec_all (loads base l) s1).
  split_and!; [done|done| |].
  - intros r' off' [[= -> ->]|Hp]%elem_of_cons.
    + rewrite Hout by done. cbn [s1 exec1 set_reg x]. rewrite Hea. apply upd_eq.
    + by rewrite (Hin r' off' Hp).
  - intros r' Hr'. cbn [map fst] in Hr'. rewrite not_elem_of_cons in Hr'.
    destruct Hr' as [Hne Hr']. rewrite Hout by done. cbn [s1 exec1 set_reg x]. by apply upd_ne.
Qed.
End Straight.

(** ** The trap entries and exits *)

(** The registers of a frame but [x0] and [sp], with their offsets. *)
Definition frame_regs : list (Z * Z) :=
  map (λ i, (i, 8 * i)) (1 :: seqZ 3 29).

Lemma frame_regs_in i : 1 ≤ i < 32 → i ≠ 2 → (i, 8 * i) ∈ frame_regs.
Proof.
  intros Hi H2. unfold frame_regs. apply (list_elem_of_fmap_2 (λ i, (i, 8 * i))).
  destruct (decide (i = 1)) as [-> |]; [by left|]. right. apply elem_of_seqZ. lia.
Qed.

Lemma frame_regs_offs p : p ∈ frame_regs → p.2 = 8 * p.1 ∧ (p.1 = 1 ∨ 3 ≤ p.1 < 32).
Proof.
  intros Hp. apply list_elem_of_fmap in Hp as (i & -> & Hi). split; [done|].
  apply elem_of_cons in Hi as [-> |Hi]; [by left|]. right. apply elem_of_seqZ in Hi. cbn. lia.
Qed.

Lemma frame_regs_nodup : NoDup (map fst frame_regs) ∧ NoDup (map snd frame_regs).
Proof. split; apply (bool_decide_unpack _); vm_compute; exact I. Qed.

Lemma frame_regs_range F : 0 ≤ F → F + FRAME_SIZE ≤ 2 ^ 64 →
  Forall (λ p, p.1 ≠ 2 ∧ 0 ≤ F + p.2 < 2 ^ 64) frame_regs.
Proof.
  intros. apply Forall_forall. intros p Hp. apply frame_regs_offs in Hp as [-> ?].
  unfold FRAME_SIZE in *. lia.
Qed.

Section Traps.
Context (addr : label → Z).
Abbreviation run := (run addr).

(** What the entry code promises: the frame below the kernel stack [K], and
    nothing else of memory touched. *)
Definition saved (s s1 : State) (F : Z) (user_sp : Z) : Prop :=
  x s1 sp = F ∧ x s1 a0 = F ∧
  (∀ i, 1 ≤ i < 32 → i ≠ 2 → f_x (frame_at (mem s1) F) i = x s i) ∧
  f_sstatus (frame_at (mem s1) F) = csrs s Sstatus ∧
  f_sepc (frame_at (mem s1) F) = csrs s Sepc ∧
  csrs s1 Sscratch = user_sp ∧
  (∀ a, ¬ (F ≤ a < F + FRAME_SIZE) → mem s1 a = mem s a).

Lemma entry_u_split :
  trap_entry_u = [Csrrw sp Sscratch sp; Addi sp sp (-34*8)] ++ stores sp frame_regs ++
    [Csrr t0 Sstatus; Csrr t1 Sepc; Csrr t2 Sscratch] ++
    stores sp [(t0, 256); (t1, 264); (t2, 16)] ++ [Mv a0 sp; Call LTrapHandler].
Proof. reflexivity. Qed.

Lemma entry_k_split :
  trap_entry_k = [Addi sp sp (-34*8)] ++ stores sp frame_regs ++
    [Csrr t0 Sstatus; Csrr t1 Sepc] ++
    stores sp [(t0, 256); (t1, 264)] ++ [Mv a0 sp; Call LTrapHandler].
Proof. reflexivity. Qed.

Lemma exit_u_split :
  trap_exit_u = loads sp [(t0, 256); (t1, 264); (t2, 16)] ++
    [Csrw Sstatus t0; Csrw Sepc t1; Csrw Sscratch t2; La t0 LTrapEntryU; Csrw Stvec t0] ++
    loads sp frame_regs ++ [Addi sp sp (34*8); Csrrw sp Sscratch sp; Sret].
Proof. reflexivity. Qed.

Lemma exit_k_split :
  trap_exit_k = loads sp [(t0, 256); (t1, 264)] ++
    [Csrw Sstatus t0; Csrw Sepc t1; La t0 LTrapEntryK; Csrw Stvec t0] ++
    loads sp frame_regs ++ [Addi sp sp (34*8); Sret].
Proof. reflexivity. Qed.

(** The short runs of CSR instructions between the stores and the loads. *)
Lemma entry_u_head s :
  ∃ sA, exec_all addr [Csrrw sp Sscratch sp; Addi sp sp (-34*8)] s = sA ∧
    reg sA sp = wrap64 (csrs s Sscratch - FRAME_SIZE) ∧ (∀ i, i ≠ 2 → x sA i = x s i) ∧
    mem sA = mem s ∧ csrs sA Sscratch = x s sp ∧ csrs sA Sstatus = csrs s Sstatus ∧
    csrs sA Sepc = csrs s Sepc.
Proof.
  eexists. split; [reflexivity|]. split_and!; try done.
  intros i Hi. cbn. by rewrite !upd_ne.
Qed.

Lemma entry_k_head s :
  ∃ sA, exec_all addr [Addi sp sp (-34*8)] s = sA ∧
    reg sA sp = wrap64 (x s sp - FRAME_SIZE) ∧ (∀ i, i ≠ 2 → x sA i = x s i) ∧
    mem sA = mem s ∧ csrs sA = csrs s.
Proof.
  eexists. split; [reflexivity|]. split_and!; try done.
  intros i Hi. cbn. by rewrite !upd_ne.
Qed.

Lemma entry_csrs_u s :
  ∃ sA, exec_all addr [Csrr t0 Sstatus; Csrr t1 Sepc; Csrr t2 Sscratch] s = sA ∧
    reg sA sp = reg s sp ∧ reg sA t0 = csrs s Sstatus ∧ reg sA t1 = csrs s Sepc ∧
    reg sA t2 = csrs s Sscratch ∧ mem sA = mem s ∧ csrs sA = csrs s.
Proof. eexists. split; [reflexivity|]. by split_and!. Qed.

Lemma entry_csrs_k s :
  ∃ sA, exec_all addr [Csrr t0 Sstatus; Csrr t1 Sepc] s = sA ∧
    reg sA sp = reg s sp ∧ reg sA t0 = csrs s Sstatus ∧ reg sA t1 = csrs s Sepc ∧
    mem sA = mem s ∧ csrs sA = csrs s.
Proof. eexists. split; [reflexivity|]. by split_and!. Qed.

Lemma entry_tail s :
  ∃ r, run [Mv a0 sp; Call LTrapHandler] s = (r, Some (JCall LTrapHandler)) ∧
    x r sp = x s sp ∧ x r a0 = reg s sp ∧ mem r = mem s ∧ csrs r = csrs s.
Proof. eexists. split; [reflexivity|]. by split_and!. Qed.

Lemma exit_csrs_u s :
  ∃ sB, exec_all addr
      [Csrw Sstatus t0; Csrw Sepc t1; Csrw Sscratch t2; La t0 LTrapEntryU; Csrw Stvec t0] s = sB ∧
    reg sB sp = reg s sp ∧ mem sB = mem s ∧ csrs sB Sstatus = x s t0 ∧
    csrs sB Sepc = x s t1 ∧ csrs sB Sscratch = x s t2 ∧ csrs sB Stvec = addr LTrapEntryU.
Proof. eexists. split; [reflexivity|]. by split_and!. Qed.

Lemma exit_csrs_k s :
  ∃ sB, exec_all addr [Csrw Sstatus t0; Csrw Sepc t1; La t0 LTrapEntryK; Csrw Stvec t0] s = sB ∧
    reg sB sp = reg s sp ∧ mem sB = mem s ∧ csrs sB Sstatus = x s t0 ∧
    csrs sB Sepc = x s t1 ∧ csrs sB Sscratch = csrs s Sscratch ∧
    csrs sB Stvec = addr LTrapEntryK.
Proof. eexists. split; [reflexivity|]. by split_and!. Qed.

Lemma exit_u_tail s :
  ∃ r, run [Addi sp sp (34*8); Csrrw sp Sscratch sp; Sret] s = (r, Some JSret) ∧
    (∀ i, i ≠ 2 → x r i = x s i) ∧ x r sp = csrs s Sscratch ∧
    csrs r Sscratch = wrap64 (reg s sp + FRAME_SIZE) ∧ mem r = mem s ∧
    (∀ c, c ≠ Sscratch → csrs r c = csrs s c).
Proof.
  eexists. split; [reflexivity|]. split_and!; try done.
  - intros i Hi. cbn. by rewrite !upd_ne.
  - intros c Hc. cbn. by rewrite upd_ne.
Qed.

Lemma exit_k_tail s :
  ∃ r, run [Addi sp sp (34*8); Sret] s = (r, Some JSret) ∧
    (∀ i, i ≠ 2 → x r i = x s i) ∧ x r sp = wrap64 (reg s sp + FRAME_SIZE) ∧
    mem r = mem s ∧ csrs r = csrs s.
Proof.
  eexists. split; [reflexivity|]. split_and!; try done.
  intros i Hi. cbn. by rewrite !upd_ne.
Qed.

(** Saving the registers below [F + FRAME_SIZE], and then some more words. *)
Lemma save_spec s F :
  reg s sp = F → 0 ≤ F → F + FRAME_SIZE ≤ 2 ^ 64 →
  ∃ sB, exec_all addr (stores sp frame_regs) s = sB ∧
    x sB = x s ∧ csrs sB = csrs s ∧
    (∀ i, 1 ≤ i < 32 → i ≠ 2 → mem sB (F + 8 * i) = x s i) ∧
    (∀ a, ¬ (F ≤ a < F + FRAME_SIZE) → mem sB a = mem s a).
Proof.
  intros Hsp H0 HR. eexists. split; [reflexivity|].
  destruct (stores_spec addr sp frame_regs s F Hsp) as (Hx & Hc & Hin & Hout).
  { apply (Forall_impl _ _ _ (frame_regs_range F H0 HR)). by intros p [_ Hp]. }
  { apply frame_regs_nodup. }
  split_and!; [done|done| |].
  - intros i Hi H2. rewrite (Hin i (8 * i)) by (by apply frame_regs_in).
    unfold reg. by rewrite decide_False by lia.
  - intros a Ha. apply Hout. intros p Hp. apply frame_regs_offs in Hp as [-> ?].
    unfold FRAME_SIZE in *. lia.
Qed.

Lemma load_spec s F :
  reg s sp = F → 0 ≤ F → F + FRAME_SIZE ≤ 2 ^ 64 →
  ∃ sC, exec_all addr (loads sp frame_regs) s = sC ∧
    reg sC sp = F ∧ mem sC = mem s ∧ csrs sC = csrs s ∧
    (∀ i, 1 ≤ i < 32 → i ≠ 2 → x sC i = mem s (F + 8 * i)).
Proof.
  intros Hsp H0 HR. eexists. split; [reflexivity|].
  destruct (loads_spec addr sp frame_regs s F Hsp) as (Hm & Hc & Hin & Hout).
  { by apply frame_regs_range. }
  { apply frame_regs_nodup. }
  split_and!; [|done|done|].
  - unfold reg in *. rewrite Hout; [exact Hsp|]. intros Hp.
    apply list_elem_of_fmap in Hp as (p & E & Hp). apply frame_regs_offs in Hp. lia.
  - intros i Hi H2. apply Hin. by apply frame_regs_in.
Qed.

(** The words of the frame that are not general registers. *)
Lemma save_words s F l :
  reg s sp = F → 0 ≤ F → F + FRAME_SIZE ≤ 2 ^ 64 →
  Forall (λ p, p.2 = 16 ∨ p.2 = 256 ∨ p.2 = 264) l → NoDup (map snd l) →
  ∃ sD, exec_all addr (stores sp l) s = sD ∧ x sD = x s ∧ csrs sD = csrs s ∧
    (∀ r off, (r, off) ∈ l → mem sD (F + off) = reg s r) ∧
    (∀ a, a ≠ F + 16 → a ≠ F + 256 → a ≠ F + 264 → mem sD a = mem s a).
Proof.
  intros Hsp H0 HR Hl Hnd. eexists. split; [reflexivity|]. unfold FRAME_SIZE in *.
  destruct (stores_spec addr sp l s F Hsp) as (Hx & Hc & Hin & Hout); [|done|].
  { apply (Forall_impl _ _ _ Hl). intros p Hp. lia. }
  split_and!; [done..|]. intros a H1 H2 H3. apply Hout. intros p Hp.
  rewrite Forall_forall in Hl. destruct (Hl p Hp) as [-> |[-> | ->]]; done.
Qed.

Lemma load_words s F l :
  reg s sp = F → 0 ≤ F → F + FRAME_SIZE ≤ 2 ^ 64 →
  Forall (λ p, p.1 ≠ 2 ∧ (p.2 = 16 ∨ p.2 = 256 ∨ p.2 = 264)) l → NoDup (map fst l) →
  ∃ sA, exec_all addr (loads sp l) s = sA ∧ reg sA sp = F ∧ mem sA = mem s ∧
    csrs sA = csrs s ∧ (∀ r off, (r, off) ∈ l → x sA r = mem s (F + off)).
Proof.
  intros Hsp H0 HR Hl Hnd. eexists. split; [reflexivity|]. unfold FRAME_SIZE in *.
  destruct (loads_spec addr sp l s F Hsp) as (Hm & Hc & Hin & Hout); [|done|].
  { apply (Forall_impl _ _ _ Hl). intros p Hp. lia. }
  split_and!; [|done..]. unfold reg in *. rewrite Hout; [exact Hsp|].
  intros Hp. apply list_elem_of_fmap in Hp as (p & E & Hp).
  rewrite Forall_forall in Hl. by destruct (Hl p Hp).
Qed.

Lemma entry_u_run s K :
  csrs s Sscratch = K → FRAME_SIZE ≤ K < 2 ^ 64 →
  ∃ s1, run trap_entry_u s = (s1, Some (JCall LTrapHandler)) ∧
    saved s s1 (K - FRAME_SIZE) (x s sp) ∧
    f_x (frame_at (mem s1) (K - FRAME_SIZE)) 2 = x s sp.
Proof.
  intros HK HR. rewrite entry_u_split, run_straight by (repeat constructor).
  destruct (entry_u_head s) as (sA & -> & HspA & HxA & HmA & Hc1 & Hc2 & Hc3).
  rewrite HK, wrap_small in HspA by (unfold FRAME_SIZE in *; split; lia).
  set (F := K - FRAME_SIZE) in *.
  assert (H0 : 0 ≤ F ∧ F + FRAME_SIZE ≤ 2 ^ 64) by (unfold F; lia). destruct H0 as [H0 H1].
  rewrite run_straight by apply stores_straight.
  destruct (save_spec sA F HspA H0 H1) as (sB & -> & HxB & HcB & Hin & Hout).
  rewrite run_straight by (repeat constructor).
  destruct (entry_csrs_u sB) as (sC & -> & HspC & E0 & E1 & E2 & HmC & HcC).
  assert (HspB : reg sB sp = F) by (unfold reg in *; by rewrite HxB).
  rewrite HspB in HspC. rewrite HcB in E0, E1, E2. rewrite Hc2 in E0. rewrite Hc3 in E1. rewrite Hc1 in E2.
  rewrite run_straight by apply stores_straight.
  destruct (save_words sC F [(t0, 256); (t1, 264); (t2, 16)] HspC H0 H1)
    as (sD & -> & HxD & HcD & HinD & HoutD).
  { repeat constructor; cbn; tauto. }
  { apply (bool_decide_unpack _). vm_compute. exact I. }
  destruct (entry_tail sD) as (r & -> & Hr1 & Hr2 & Hr3 & Hr4).
  assert (HspD : reg sD sp = F) by (unfold reg in *; by rewrite HxD).
  exists r. split; [done|]. unfold saved, frame_at. cbn [f_x f_sstatus f_sepc].
  rewrite Hr1, Hr2, Hr3, Hr4, HcD, HcC, HcB. split; [split_and!|].
  - exact HspD.
  - exact HspD.
  - intros i Hi H2. rewrite HoutD, HmC, Hin by lia. by apply HxA.
  - rewrite (HinD t0 256) by (by left). exact E0.
  - rewrite (HinD t1 264) by (by right; left). exact E1.
  - exact Hc1.
  - intros a Ha. unfold FRAME_SIZE in Ha. rewrite HoutD, HmC, Hout, HmA by (unfold FRAME_SIZE; lia). done.
  - change (F + 8 * 2) with (F + 16). rewrite (HinD t2 16) by (by right; right; left). exact E2.
Qed.

Lemma entry_k_run s :
  FRAME_SIZE ≤ x s sp < 2 ^ 64 →
  ∃ s1, run trap_entry_k s = (s1, Some (JCall LTrapHandler)) ∧
    saved s s1 (x s sp - FRAME_SIZE) (csrs s Sscratch).
Proof.
  intros HR. rewrite entry_k_split, run_straight by (repeat constructor).
  destruct (entry_k_head s) as (sA & -> & HspA & HxA & HmA & HcA).
  rewrite wrap_small in HspA by (unfold FRAME_SIZE in *; split; lia).
  set (F := x s sp - FRAME_SIZE) in *.
  assert (H0 : 0 ≤ F ∧ F + FRAME_SIZE ≤ 2 ^ 64) by (unfold F; lia). destruct H0 as [H0 H1].
  rewrite run_straight by apply stores_straight.
  destruct (save_spec sA F HspA H0 H1) as (sB & -> & HxB & HcB & Hin & Hout).
  rewrite run_straight by (repeat constructor).
  destruct (entry_csrs_k sB) as (sC & -> & HspC & E0 & E1 & HmC & HcC).
  assert (HspB : reg sB sp = F) by (unfold reg in *; by rewrite HxB).
  rewrite HspB in HspC. rewrite HcB, HcA in E0, E1.
  rewrite run_straight by apply stores_straight.
  destruct (save_words sC F [(t0, 256); (t1, 264)] HspC H0 H1) as (sD & -> & HxD & HcD & HinD & HoutD).
  { repeat constructor; cbn; tauto. }
  { apply (bool_decide_unpack _). vm_compute. exact I. }
  destruct (entry_tail sD) as (r & -> & Hr1 & Hr2 & Hr3 & Hr4).
  assert (HspD : reg sD sp = F) by (unfold reg in *; by rewrite HxD).
  exists r. split; [done|]. unfold saved, frame_at. cbn [f_x f_sstatus f_sepc].
  rewrite Hr1, Hr2, Hr3, Hr4, HcD, HcC, HcB, HcA. split_and!.
  - exact HspD.
  - exact HspD.
  - intros i Hi H2. rewrite HoutD, HmC, Hin by lia. by apply HxA.
  - rewrite (HinD t0 256) by (by left). exact E0.
  - rewrite (HinD t1 264) by (by right; left). exact E1.
  - done.
  - intros a Ha. unfold FRAME_SIZE in Ha. rewrite HoutD, HmC, Hout, HmA by (unfold FRAME_SIZE; lia). done.
Qed.

(** What the exit code promises of the frame at [F] it finds at [sp]. *)
Definition restored (s2 r : State) (F : Z) (entry : label) : Prop :=
  (∀ i, 1 ≤ i < 32 → i ≠ 2 → x r i = f_x (frame_at (mem s2) F) i) ∧
  csrs r Sstatus = f_sstatus (frame_at (mem s2) F) ∧
  csrs r Sepc = f_sepc (frame_at (mem s2) F) ∧
  csrs r Stvec = addr entry ∧ mem r = mem s2.

Lemma exit_u_run s2 F :
  reg s2 sp = F → 0 ≤ F → F + FRAME_SIZE < 2 ^ 64 →
  ∃ r, run trap_exit_u s2 = (r, Some JSret) ∧ restored s2 r F LTrapEntryU ∧
    x r sp = f_x (frame_at (mem s2) F) 2 ∧ csrs r Sscratch = F + FRAME_SIZE.
Proof.
  intros Hsp H0 HR. assert (H1 : F + FRAME_SIZE ≤ 2 ^ 64) by lia.
  rewrite exit_u_split, run_straight by apply loads_straight.
  destruct (load_words s2 F [(t0, 256); (t1, 264); (t2, 16)] Hsp H0 H1)
    as (sA & -> & HspA & HmA & HcA & HinA).
  { repeat constructor; cbn; (done || tauto). }
  { apply (bool_decide_unpack _). vm_compute. exact I. }
  rewrite run_straight by (repeat constructor).
  destruct (exit_csrs_u sA) as (sB & -> & HspB & HmB & E0 & E1 & E2 & E3).
  rewrite HspA in HspB. rewrite (HinA t0 256) in E0 by (by left).
  rewrite (HinA t1 264) in E1 by (by right; left).
  rewrite (HinA t2 16) in E2 by (by right; right; left).
  rewrite run_straight by apply loads_straight.
  destruct (load_spec sB F HspB H0 H1) as (sC & -> & HspC & HmC & HcC & HinC).
  destruct (exit_u_tail sC) as (r & -> & Hr1 & Hr2 & Hr3 & Hr4 & Hr5).
  exists r. split; [done|]. unfold restored, frame_at. cbn [f_x f_sstatus f_sepc].
  rewrite Hr2, Hr3, Hr4, !Hr5, HcC, HmC, HmB, HmA by done. split; [split_and!|split].
  - intros i Hi H2. rewrite Hr1, HinC, HmB, HmA by done. done.
  - exact E0.
  - exact E1.
  - exact E3.
  - done.
  - exact E2.
  - rewrite HspC. apply wrap_small. unfold FRAME_SIZE in *. split; lia.
Qed.

Lemma exit_k_run s2 F :
  reg s2 sp = F → 0 ≤ F → F + FRAME_SIZE < 2 ^ 64 →
  ∃ r, run trap_exit_k s2 = (r, Some JSret) ∧ restored s2 r F LTrapEntryK ∧
    x r sp = F + FRAME_SIZE ∧ csrs r Sscratch = csrs s2 Sscratch.
Proof.
  intros Hsp H0 HR. assert (H1 : F + FRAME_SIZE ≤ 2 ^ 64) by lia.
  rewrite exit_k_split, run_straight by apply loads_straight.
  destruct (load_words s2 F [(t0, 256); (t1, 264)] Hsp H0 H1) as (sA & -> & HspA & HmA & HcA & HinA).
  { repeat constructor; cbn; (done || tauto). }
  { apply (bool_decide_unpack _). vm_compute. exact I. }
  rewrite run_straight by (repeat constructor).
  destruct (exit_csrs_k sA) as (sB & -> & HspB & HmB & E0 & E1 & E2 & E3).
  rewrite HspA in HspB. rewrite (HinA t0 256) in E0 by (by left).
  rewrite (HinA t1 264) in E1 by (by right; left).
  rewrite run_straight by apply loads_straight.
  destruct (load_spec sB F HspB H0 H1) as (sC & -> & HspC & HmC & HcC & HinC).
  destruct (exit_k_tail sC) as (r & -> & Hr1 & Hr2 & Hr3 & Hr4).
  exists r. split; [done|]. unfold restored, frame_at. cbn [f_x f_sstatus f_sepc].
  rewrite Hr2, Hr3, Hr4, HcC, HmC, HmB, HmA by done. split; [split_and!|split].
  - intros i Hi H2. rewrite Hr1, HinC, HmB, HmA by done. done.
  - exact E0.
  - exact E1.
  - exact E3.
  - done.
  - rewrite HspC. apply wrap_small. unfold FRAME_SIZE in *. split; lia.
  - by rewrite E2, HcA.
Qed.
End Traps.

(** ** The context switch *)

Section Switch.
Context (addr : label → Z).
Abbreviation run := (run addr).

(** Storing a register in the old context and loading it from the new one. *)
Definition swaps (l : list (Z * Z)) : list instr :=
  concat (map (λ p, [Sd p.1 p.2 a1; Ld p.1 p.2 a2]) l).

Lemma swaps_straight l : Forall straight (swaps l).
Proof. induction l; cbn; [done|]. by repeat constructor. Qed.

Definition CONTEXT_SIZE : Z := 8 * 14.

(** Two contexts in memory that do not overlap. *)
Definition contexts_ok (old new : Z) : Prop :=
  0 ≤ old ∧ old + CONTEXT_SIZE ≤ 2 ^ 64 ∧ 0 ≤ new ∧ new + CONTEXT_SIZE ≤ 2 ^ 64 ∧
  (old + CONTEXT_SIZE ≤ new ∨ new + CONTEXT_SIZE ≤ old).

Lemma swaps_spec l s old new :
  reg s a1 = old → reg s a2 = new → contexts_ok old new →
  Forall (λ p, p.1 ≠ 0 ∧ p.1 ≠ a1 ∧ p.1 ≠ a2 ∧ 0 ≤ p.2 < CONTEXT_SIZE) l →
  NoDup (map fst l) → NoDup (map snd l) →
  ∃ s', exec_all addr (swaps l) s = s' ∧ csrs s' = csrs s ∧
    (∀ r off, (r, off) ∈ l → x s' r = mem s (new + off) ∧ mem s' (old + off) = x s r) ∧
    (∀ r, r ∉ map fst l → x s' r = x s r) ∧
    (∀ a, (∀ p, p ∈ l → a ≠ old + p.2) → mem s' a = mem s a).
Proof.
  revert s. induction l as [|[r off] l IH]; intros s Ho Hn Hc Hl Hn1 Hn2.
  { exists s. split_and!; try done. by intros r off ?%not_elem_of_nil. }
  apply Forall_cons in Hl as [(Hr0 & Hr1 & Hr2 & Hoff) Hl]. cbn [map fst snd] in *.
  apply NoDup_cons in Hn1 as [Hnr Hn1]. apply NoDup_cons in Hn2 as [Hno Hn2].
  set (m := upd (mem s) (old + off) (x s r)).
  set (s1 := mkState (upd (x s) r (mem s (new + off))) (csrs s) m).
  destruct Hc as (C1 & C2 & C3 & C4 & C5). unfold CONTEXT_SIZE in *.
  assert (E : exec_all addr (swaps ((r, off) :: l)) s = exec_all addr (swaps l) s1).
  { change (swaps ((r, off) :: l)) with ([Sd r off a1; Ld r off a2] ++ swaps l).
    rewrite exec_all_app. f_equal. cbn. unfold set_mem, set_reg, ea. cbn.
    rewrite Ho. change (reg _ 12) with (reg s 12). rewrite Hn.
    assert (Hr : reg s r = x s r) by (unfold reg; by rewrite decide_False).
    rewrite Hr, (wrap_small 64 (old + off)), (wrap_small 64 (new + off)) by (split; lia).
    unfold s1. f_equal. f_equal. apply upd_ne. lia. }
  destruct (IH s1) as (s' & E' & Hcs & Hin & Hout & Hm); [| |by repeat split|done|done|done|].
  { unfold reg in *. cbn. by rewrite upd_ne. }
  { unfold reg in *. cbn. by rewrite upd_ne. }
  exists s'. rewrite E. split_and!; [done|done| | |].
  - intros r' off' [[= -> ->]|Hp]%elem_of_cons.
    + rewrite Hout by done. cbn [s1 x]. rewrite upd_eq. split; [done|].
      rewrite Hm; [apply upd_eq|]. intros p Hp Ep. apply Hno.
      replace off with p.2 by lia. by apply list_elem_of_fmap_2.
    + destruct (Hin r' off' Hp) as [-> ->]. rewrite Forall_forall in Hl.
      destruct (Hl _ Hp) as (_ & _ & _ & Ho'). cbn [fst snd s1 mem x] in *. split.
      * apply upd_ne. lia.
      * apply upd_ne. intros ->. apply Hnr. by apply (list_elem_of_fmap_2 fst _ (r, off')).
  - intros r' Hr'. rewrite not_elem_of_cons in Hr'. destruct Hr' as [Hne Hr'].
    rewrite Hout by done. by apply upd_ne.
  - intros a Ha. rewrite Hm by (intros p Hp; apply Ha; by right).
    apply upd_ne. apply (Ha (r, off)). by left.
Qed.

(** The registers of a context with their offsets. *)
Definition context_regs : list (Z * Z) :=
  (ra, 0) :: (sp, 8) :: map (λ i, (sreg i, 16 + 8 * i)) (seqZ 0 12).

Lemma switch_split : switch = swaps context_regs ++ [J LScheduleTailWrapper].
Proof. reflexivity. Qed.

Lemma context_regs_in i : 0 ≤ i < 12 → (sreg i, 16 + 8 * i) ∈ context_regs.
Proof.
  intros Hi. do 2 right. apply (list_elem_of_fmap_2 (λ i, (sreg i, 16 + 8 * i))).
  apply elem_of_seqZ. lia.
Qed.

(** What [switch] does to the registers and the two contexts. *)
Lemma switch_run s old new :
  reg s a1 = old → reg s a2 = new → contexts_ok old new →
  ∃ r, run switch s = (r, Some (JTo LScheduleTailWrapper)) ∧ csrs r = csrs s ∧
    mem r old = x s ra ∧ mem r (old + 8) = x s sp ∧
    (∀ i, 0 ≤ i < 12 → mem r (old + 16 + 8 * i) = x s (sreg i)) ∧
    x r ra = mem s new ∧ x r sp = mem s (new + 8) ∧
    (∀ i, 0 ≤ i < 12 → x r (sreg i) = mem s (new + 16 + 8 * i)) ∧
    x r a0 = x s a0 ∧
    (∀ a, ¬ (old ≤ a < old + CONTEXT_SIZE) → mem r a = mem s a).
Proof.
  intros Ho Hn Hc. rewrite switch_split, run_straight by apply swaps_straight.
  destruct (swaps_spec context_regs s old new Ho Hn Hc) as (r & -> & Hcs & Hin & Hout & Hm).
  { apply (bool_decide_unpack _). vm_compute. exact I. }
  { apply (bool_decide_unpack _). vm_compute. exact I. }
  { apply (bool_decide_unpack _). vm_compute. exact I. }
  exists r. split; [done|]. split; [done|].
  destruct (Hin ra 0) as [Hra Hra']; [by left|]. rewrite !Z.add_0_r in *.
  destruct (Hin sp 8) as [Hsp Hsp']; [by right; left|].
  split_and!; try done.
  - intros i Hi. destruct (Hin _ _ (context_regs_in i Hi)) as [_ E]. by rewrite <-Z.add_assoc.
  - intros i Hi. destruct (Hin _ _ (context_regs_in i Hi)) as [E _]. by rewrite <-Z.add_assoc.
  - apply Hout. apply (bool_decide_unpack (_ ∉ _)). vm_compute. exact I.
  - intros a Ha. apply Hm. intros p Hp. unfold CONTEXT_SIZE in Ha.
    assert (HF : Forall (λ p : Z * Z, 0 ≤ p.2 < 112) context_regs)
      by (apply (bool_decide_unpack _); vm_compute; exact I).
    rewrite Forall_forall in HF. specialize (HF p Hp). cbn in HF. lia.
Qed.
End Switch.

(** ** The theorems *)

(** C24: a trap from user mode.  The entry code leaves, right below the kernel
    stack that [sscratch] names, a frame of all registers, [sstatus] and [sepc],
    writes nothing outside it and passes it to the handler.  Whatever handler
    runs, if it comes back with the stack pointer it was given, the exit code
    returns with exactly the registers, [sstatus] and [sepc] of the frame as the
    handler left it, [sscratch] again the kernel stack and [stvec] the user
    entry; so a handler that leaves the frame alone is invisible to the program.
    The same for a trap from kernel mode, on the current stack. *)
Theorem trap_roundtrip addr s :
  (∀ K, csrs s Sscratch = K → FRAME_SIZE ≤ K < 2 ^ 64 →
   let F := K - FRAME_SIZE in
   ∃ s1, run addr trap_entry_u s = (s1, Some (JCall LTrapHandler)) ∧
     saved s s1 F (x s sp) ∧ f_x (frame_at (mem s1) F) 2 = x s sp ∧
     ∀ h : State → State, reg (h s1) sp = F →
       ∃ r, run addr trap_exit_u (h s1) = (r, Some JSret) ∧
         restored addr (h s1) r F LTrapEntryU ∧
         x r sp = f_x (frame_at (mem (h s1)) F) 2 ∧ csrs r Sscratch = K ∧
         ((∀ a, F ≤ a < K → mem (h s1) a = mem s1 a) →
          (∀ i, 1 ≤ i < 32 → x r i = x s i) ∧
          csrs r Sstatus = csrs s Sstatus ∧ csrs r Sepc = csrs s Sepc)) ∧
  (FRAME_SIZE ≤ x s sp < 2 ^ 64 →
   let F := x s sp - FRAME_SIZE in
   ∃ s1, run addr trap_entry_k s = (s1, Some (JCall LTrapHandler)) ∧
     saved s s1 F (csrs s Sscratch) ∧
     ∀ h : State → State, reg (h s1) sp = F →
       ∃ r, run addr trap_exit_k (h s1) = (r, Some JSret) ∧
         restored addr (h s1) r F LTrapEntryK ∧
         x r sp = x s sp ∧ csrs r Sscratch = csrs (h s1) Sscratch ∧
         ((∀ a, F ≤ a < x s sp → mem (h s1) a = mem s1 a) →
          (∀ i, 1 ≤ i < 32 → x r i = x s i) ∧
          csrs r Sstatus = csrs s Sstatus ∧ csrs r Sepc = csrs s Sepc)).
Proof.
  split.
  - intros K HK HR F. destruct (entry_u_run addr s K HK HR) as (s1 & HE & Hsav & H2).
    fold F in Hsav, H2. exists s1. split_and!; [done..|]. intros h Hh.
    destruct (exit_u_run addr (h s1) F Hh) as (r & HX & Hres & Hsp & Hss); [unfold F; lia..|].
    exists r. split_and!; [done..|unfold F in Hss; lia|]. intros Hkeep.
    destruct Hsav as (_ & _ & Hx & Hst & Hep & _). destruct Hres as (Rx & Rst & Rep & _).
    unfold frame_at in *. cbn [f_x f_sstatus f_sepc] in *. unfold F, FRAME_SIZE in *. split_and!.
    + intros i Hi. destruct (decide (i = 2)) as [-> |Hne].
      * rewrite Hsp, Hkeep by lia. exact H2.
      * rewrite Rx, Hkeep by lia. by apply Hx.
    + rewrite Rst, Hkeep by lia. exact Hst.
    + rewrite Rep, Hkeep by lia. exact Hep.
  - intros HR F. destruct (entry_k_run addr s HR) as (s1 & HE & Hsav).
    fold F in Hsav. exists s1. split_and!; [done..|]. intros h Hh.
    destruct (exit_k_run addr (h s1) F Hh) as (r & HX & Hres & Hsp & Hss); [unfold F; lia..|].
    assert (Hsp' : x r sp = x s sp) by (unfold F in Hsp; lia).
    exists r. split_and!; [done..|]. intros Hkeep.
    destruct Hsav as (_ & _ & Hx & Hst & Hep & _). destruct Hres as (Rx & Rst & Rep & _).
    unfold frame_at in *. cbn [f_x f_sstatus f_sepc] in *. unfold F, FRAME_SIZE in *. split_and!.
    + intros i Hi. destruct (decide (i = 2)) as [-> |Hne]; [done|].
      rewrite Rx, Hkeep by lia. by apply Hx.
    + rewrite Rst, Hkeep by lia. exact Hst.
    + rewrite Rep, Hkeep by lia. exact Hep.
Qed.

(** C25: [switch] saves [ra], [sp] and the callee-saved registers in the old
    context, takes them from the new one, forwards the first argument and writes
    nothing else; switching back later to a context nobody has written gives
    back what it saved; and the first switch to a context of [Context::new]
    reaches [kernel_thread_entry] on an empty stack, which calls [kernel_thread]
    with the thread's entry as argument. *)
Theorem switch_correct addr s old new :
  reg s a1 = old → reg s a2 = new → contexts_ok old new →
  ∃ r, run addr switch s = (r, Some (JTo LScheduleTailWrapper)) ∧
    mem r old = x s ra ∧ mem r (old + 8) = x s sp ∧
    (∀ i, 0 ≤ i < 12 → mem r (old + 16 + 8 * i) = x s (sreg i)) ∧
    x r ra = mem s new ∧ x r sp = mem s (new + 8) ∧
    (∀ i, 0 ≤ i < 12 → x r (sreg i) = mem s (new + 16 + 8 * i)) ∧
    x r a0 = x s a0 ∧
    (∀ a, ¬ (old ≤ a < old + CONTEXT_SIZE) → mem r a = mem s a) ∧
    (* back again *)
    (∀ s' other, reg s' a1 = other → reg s' a2 = old → contexts_ok other old →
       (∀ a, old ≤ a < old + CONTEXT_SIZE → mem s' a = mem r a) →
       ∃ r', run addr switch s' = (r', Some (JTo LScheduleTailWrapper)) ∧
         x r' ra = x s ra ∧ x r' sp = x s sp ∧
         (∀ i, 0 ≤ i < 12 → x r' (sreg i) = x s (sreg i))) ∧
    (* a new thread *)
    (∀ stack entry,
       mem s new = c_ra (context_new (addr LKernelThreadEntry) stack entry) →
       mem s (new + 8) = c_sp (context_new (addr LKernelThreadEntry) stack entry) →
       (∀ i, 0 ≤ i < 12 →
          mem s (new + 16 + 8 * i) = c_s (context_new (addr LKernelThreadEntry) stack entry) i) →
       x r ra = addr LKernelThreadEntry ∧ x r sp = stack + STACK_SIZE ∧
       ∃ r', run addr kernel_thread_entry r = (r', Some (JTo LKernelThread)) ∧
         x r' a0 = entry ∧ x r' sp = stack + STACK_SIZE).
Proof.
  intros Ho Hn Hc. destruct (switch_run addr s old new Ho Hn Hc)
    as (r & HR & Hcs & M1 & M2 & M3 & X1 & X2 & X3 & X4 & Hm).
  exists r. split_and!; try done.
  - intros s' other Ho' Hn' Hc' Hkeep.
    destruct (switch_run addr s' other old Ho' Hn' Hc') as (r' & HR' & _ & _ & _ & _ & Y1 & Y2 & Y3 & _).
    unfold CONTEXT_SIZE in *. exists r'. split_and!; [done| | |].
    + rewrite Y1, Hkeep by lia. exact M1.
    + rewrite Y2, Hkeep by lia. exact M2.
    + intros i Hi. rewrite Y3, Hkeep by lia. by apply M3.
  - intros stack entry N1 N2 N3. split_and!; [by rewrite X1, N1|by rewrite X2, N2|].
    eexists. split; [reflexivity|]. cbn. unfold reg. cbn. split.
    + rewrite upd_eq. change 8 with (sreg 0). rewrite X3 by lia. by rewrite (N3 0) by lia.
    + rewrite upd_ne by done. by rewrite X2, N2.
Qed.

(** A user program at 0x10000 whose kernel stack ends at 0x9000, with the
    handler of a system call that returns 7 and skips the [ecall]. *)
Definition demo_addr (l : label) : Z :=
  match l with LTrapEntryU => 4096 | LTrapEntryK => 8192 | LKernelThreadEntry => 12288 | _ => 0 end.

Definition demo_user : State :=
  mkState (λ i, 100 + i)
    (λ c, match c with Sscratch => 0x9000 | Sepc => 0x10000 | Sstatus => 32 | Stvec => 4096 end)
    (λ _, 0).

Definition demo_handler (s : State) : State :=
  let F := x s sp in
  set_mem (F + 80) 7 (set_mem (F + 264) (mem s (F + 264) + 4) s).

Lemma trap_roundtrip_witness :
  ∃ s1 r, run demo_addr trap_entry_u demo_user = (s1, Some (JCall LTrapHandler)) ∧
    run demo_addr trap_exit_u (demo_handler s1) = (r, Some JSret) ∧
    csrs r Sscratch = 0x9000.
Proof.
  destruct (trap_roundtrip demo_addr demo_user) as [Hu _].
  destruct (Hu 0x9000 eq_refl) as (s1 & HE & Hsav & _ & Hh); [split; [discriminate|reflexivity]|].
  destruct (Hh demo_handler) as (r & HX & _ & _ & Hss & _).
  - destruct Hsav as (Hsp & _). exact Hsp.
  - exists s1, r. split; [exact HE|]. split; [exact HX|exact Hss].
Defined.

(** The context of a new thread at 0x2000, and the current one's at 0x1000. *)
Definition demo_switch : State :=
  mkState (λ i, if decide (i = a1) then 0x1000 else if decide (i = a2) then 0x2000 else i)
    (λ _, 0)
    (λ a, if decide (a = 0x2000) then 12288 else if decide (a = 0x2008) then 0x8000 + STACK_SIZE
          else if decide (a = 0x2010) then 0x5555 else 0).

Lemma switch_correct_witness :
  ∃ r r', run demo_addr switch demo_switch = (r, Some (JTo LScheduleTailWrapper)) ∧
    run demo_addr kernel_thread_entry r = (r', Some (JTo LKernelThread)) ∧
    x r' a0 = 0x5555.
Proof.
  destruct (switch_correct demo_addr demo_switch 0x1000 0x2000 eq_refl eq_refl)
    as (r & HR & _ & _ & _ & _ & _ & _ & _ & _ & _ & Hnew).
  - unfold contexts_ok, CONTEXT_SIZE. lia.
  - destruct (Hnew 0x8000 0x5555 eq_refl eq_refl) as (_ & _ & r' & HR' & Ha & _).
    + intros i Hi. cbn [demo_switch mem context_new c_s]. repeat case_decide; (reflexivity || lia).
    + exists r, r'. split; [exact HR|]. split; [exact HR'|exact Ha].
Defined.

(** ** Types of instructions and states

    What the assembler accepts: registers from 0 to 31, and offsets and immediates
    of twelve bits.  A state is typed when every register, CSR and word of memory is
    a 64-bit number, and register 0 reads as zero. *)
Definition reg_ok (r : Z) : bool := bool_decide (0 ≤ r < 32).
Definition imm_ok (n : Z) : bool := bool_decide (-2048 ≤ n < 2048).

Definition instr_ok (i : instr) : bool :=
  match i with
  | Sd rs off base => reg_ok rs && imm_ok off && reg_ok base
  | Ld rd off base => reg_ok rd && imm_ok off && reg_ok base
  | Addi rd rs imm => reg_ok rd && reg_ok rs && imm_ok imm
  | Mv rd rs => reg_ok rd && reg_ok rs
  | Csrr rd _ => reg_ok rd
  | Csrw _ rs => reg_ok rs
  | Csrrw rd _ rs => reg_ok rd && reg_ok rs
  | La rd _ => reg_ok rd
  | Call _ | J _ | Sret => true
  end.

(** A listing: typed instructions up to one transfer of control, its last. *)
Fixpoint code_ok (p : list instr) : bool :=
  match p with
  | [] => false
  | [i] => match i with Call _ | J _ | Sret => true | _ => false end
  | i :: p => instr_ok i && match i with Call _ | J _ | Sret => false | _ => true end && code_ok p
  end.

Definition last_jump (p : list instr) : option jump :=
  match last p with
  | Some (Call l) => Some (JCall l) | Some (J l) => Some (JTo l) | Some Sret => Some JSret
  | _ => None
  end.

Record state_ok (s : State) : Prop := {
  sok_x r : 0 ≤ r < 32 → is_usize (reg s r);
  sok_csr c : is_usize (csrs s c);
  sok_mem a : is_usize (mem s a)
}.

Section Typing.
Context (addr : label → Z) (Haddr : ∀ l, is_usize (addr l)).

Lemma set_reg_ok r v s : state_ok s → is_usize v → state_ok (set_reg r v s).
Proof.
  intros [Hx Hc Hm] Hv. split; [|done|done]. intros q Hq. specialize (Hx q Hq).
  unfold reg, set_reg, upd in *. cbn. repeat case_decide; done.
Qed.

Lemma set_csr_ok c v s : state_ok s → is_usize v → state_ok (set_csr c v s).
Proof.
  intros [Hx Hc Hm] Hv. split; [exact Hx| |done]. intros d. unfold set_csr, upd. cbn. by case_decide.
Qed.

Lemma set_mem_ok a v s : state_ok s → is_usize v → state_ok (set_mem a v s).
Proof.
  intros [Hx Hc Hm] Hv. split; [exact Hx|done|]. intros b. unfold set_mem, upd. cbn. by case_decide.
Qed.

Lemma exec1_ok i s : instr_ok i = true → state_ok s → state_ok (exec1 addr i s).
Proof.
  unfold instr_ok, reg_ok. intros Hi Hs. pose proof Hs as [Hx Hc Hm].
  destruct i; cbn [exec1]; rewrite ?andb_true_iff, ?bool_decide_eq_true in Hi;
    repeat first [apply set_csr_ok | apply set_reg_ok | apply set_mem_ok]; try done;
    first [apply wrap_in_range; lia | apply Haddr | apply Hc | apply Hm | by apply Hx; destruct_and?].
Qed.

Lemma run_ok p s : code_ok p = true → state_ok s →
  state_ok (run addr p s).1 ∧ (run addr p s).2 = last_jump p ∧ is_Some (last_jump p).
Proof.
  revert s. induction p as [|i p IH]; intros s Hp Hs; [done|].
  destruct p as [|i' p]; [destruct i; try done; by split_and!|].
  assert (last_jump (i :: i' :: p) = last_jump (i' :: p)) as -> by done.
  change (code_ok (i :: i' :: p)) with
    (instr_ok i && match i with Call _ | J _ | Sret => false | _ => true end && code_ok (i' :: p)) in Hp.
  rewrite !andb_true_iff in Hp. destruct Hp as [[Hi Hj] Hp].
  specialize (IH (exec1 addr i s) Hp (exec1_ok i s Hi Hs)). by destruct i.
Qed.
End Typing.

(** The assembly of the kernel. *)
Definition listings : list (list instr) :=
  [switch; kernel_thread_entry; trap_entry_u; trap_exit_u; trap_entry_k; trap_exit_k].


