(* ===== verification/Virtio.v ===== *)
(** * The block device driver

    [device/virtio.rs]: initialising the device, the virtqueue of four
    descriptors and one request at a time.  Memory is what driver and device
    share: bytes at physical addresses, which the driver reaches [VM_OFFSET]
    higher, with the [repr(C)] layouts of the source.  The device is hardware
    and stays a parameter: [VirtioDevice] is what the driver can do with it,
    [VirtioLaws] what VIRTIO 1.2 promises (sections 4.2.2, 2.7 and 5.2.6).

    The device serves a request some time after it has been notified; then it
    raises the interrupt whose handler is [handle_interrupt].  The flag [early]
    of the operations says whether that happens before the requesting thread
    gets to [down] or while it waits there.  The theorem that this driver
    implements the block device of [Disk.v] is at the end. *)

From S2P Require Import Prelude Utils Bytes Disk.

(** ** Memory *)

Definition Ram : Type := Z → Z.

(** An [n]-byte little-endian field. *)
Fixpoint load (n : nat) (a : Z) (m : Ram) : Z :=
  match n with O => 0 | S n => m a + 256 * load n (a + 1) m end.

Definition store (n : nat) (a v : Z) (m : Ram) : Ram := λ b,
  if decide (a ≤ b < a + Z.of_nat n) then v / 256 ^ (b - a) mod 256 else m b.

(** The [n] bytes from [a] on. *)
Definition ram_bytes (a n : Z) (m : Ram) : bytes := m <$> seqZ a n.

(** ** The device: registers, as the driver sees them *)

Definition MAGIC_VALUE : Z := MMIO_BASE + 0x0.
Definition VERSION : Z := MMIO_BASE + 0x4.
Definition DEVICE_ID : Z := MMIO_BASE + 0x8.
Definition DEVICE_FEATURES : Z := MMIO_BASE + 0x10.
Definition DRIVER_FEATURES : Z := MMIO_BASE + 0x20.
Definition QUEUE_SEL : Z := MMIO_BASE + 0x30.
Definition QUEUE_NUM_MAX : Z := MMIO_BASE + 0x34.
Definition QUEUE_NUM : Z := MMIO_BASE + 0x38.
Definition QUEUE_READY : Z := MMIO_BASE + 0x44.
Definition QUEUE_NOTIFY : Z := MMIO_BASE + 0x50.
Definition INTERRUPT_STATUS : Z := MMIO_BASE + 0x60.
Definition INTERRUPT_ACK : Z := MMIO_BASE + 0x64.
Definition STATUS : Z := MMIO_BASE + 0x70.
Definition QUEUE_DESC_LOW : Z := MMIO_BASE + 0x80.
Definition QUEUE_DESC_HIGH : Z := MMIO_BASE + 0x84.
Definition QUEUE_DRIVER_LOW : Z := MMIO_BASE + 0x90.
Definition QUEUE_DRIVER_HIGH : Z := MMIO_BASE + 0x94.
Definition QUEUE_DEVICE_LOW : Z := MMIO_BASE + 0xa0.
Definition QUEUE_DEVICE_HIGH : Z := MMIO_BASE + 0xa4.
Definition CONFIG : Z := MMIO_BASE + 0x100.

(** [struct Status] *)
Definition ACKNOWLEDGE : Z := 1.
Definition DRIVER : Z := 2.
Definition DRIVER_OK : Z := 4.
Definition FEATURES_OK : Z := 8.

Definition QUEUE_SIZE : Z := 4.

(** [struct DescFlag] *)
Definition NEXT : Z := 1.
Definition WRITE : Z := 2.

(** What the driver can do with the device: read and write its registers, and
    wait until it has served what it was notified of. *)
Class VirtioDevice (D : Type) := {
  mmio_read : Z → D → Z;
  mmio_write : Z → Z → D → D;
  dev_serve : Ram → D → D * Ram
}.

(** [struct Virtio]; the three pointers are kernel addresses. *)
Record Virtio : Type := mkVirtio {
  desc_table : Z;
  avail : Z;
  used : Z;
  capacity : Z
}.

(** The driver's world: device, memory, the value of [USED_RING_NOTIFICATION],
    and the instance behind [Virtio::get] once it has been initialised. *)
Record VW (D : Type) : Type := mkVW {
  vw_dev : D;
  vw_ram : Ram;
  vw_notif : Z;
  vw_inst : option Virtio
}.
Arguments mkVW {D}. Arguments vw_dev {D}. Arguments vw_ram {D}.
Arguments vw_notif {D}. Arguments vw_inst {D}.

(** [enum BlkReqType] *)
Inductive BlkReqType : Type := In | Out.
Definition req_type_code (t : BlkReqType) : Z := match t with In => 0 | Out => 1 end.

Section Driver.
Context {D : Type} `{VirtioDevice D}.
Abbreviation W := (VW D).

Definition with_dev (f : D → D) (w : W) : W :=
  mkVW (f (vw_dev w)) (vw_ram w) (vw_notif w) (vw_inst w).
Definition with_ram (f : Ram → Ram) (w : W) : W :=
  mkVW (vw_dev w) (f (vw_ram w)) (vw_notif w) (vw_inst w).
Definition with_notif (n : Z) (w : W) : W :=
  mkVW (vw_dev w) (vw_ram w) n (vw_inst w).
Definition with_inst (v : Virtio) (w : W) : W :=
  mkVW (vw_dev w) (vw_ram w) (vw_notif w) (Some v).

(** [read_volatile] and [write_volatile] of a register. *)
Definition read_volatile (r : Z) : M W Z := gets (λ w, mmio_read r (vw_dev w)).
Definition write_volatile (r v : Z) : M W unit := modify (with_dev (mmio_write r v)).

(** An access to memory at a kernel address. *)
Definition read_mem (n : nat) (va : Z) : M W Z := gets (λ w, load n (va - VM_OFFSET) (vw_ram w)).
Definition write_mem (n : nat) (va v : Z) : M W unit :=
  modify (with_ram (store n (va - VM_OFFSET) v)).

(** ** Initialisation *)

(** Writing [Default::default()] to the three parts of the queue, and the two
    words that tell one of them to the device. *)
Definition zero_mem (n : nat) (va : Z) : M W unit := write_mem n va 0.

Definition tell_queue (low high va : Z) : M W unit :=
  write_volatile low (wrap32 (va - VM_OFFSET)) ;;
  write_volatile high (wrap32 (Z.shiftr (va - VM_OFFSET) 32)).

(** [Virtio::init], with the addresses the three [Box]es get. *)
Definition init (desc_at avail_at used_at : Z) : M W Virtio :=
  magic ← read_volatile MAGIC_VALUE ;
  lift (assert_ (bool_decide (magic = 0x74726976))) ;;
  version ← read_volatile VERSION ;
  lift (assert_ (bool_decide (version = 2))) ;;
  device_id ← read_volatile DEVICE_ID ;
  lift (assert_ (bool_decide (device_id = 2))) ;;
  let status := 0 in
  write_volatile STATUS status ;;
  let status := Z.lor status ACKNOWLEDGE in
  write_volatile STATUS status ;;
  let status := Z.lor status DRIVER in
  write_volatile STATUS status ;;
  _ ← read_volatile DEVICE_FEATURES ;
  write_volatile DRIVER_FEATURES 0 ;;
  let status := Z.lor status FEATURES_OK in
  write_volatile STATUS status ;;
  status ← read_volatile STATUS ;
  lift (assert_ (bool_decide (Z.land status FEATURES_OK = FEATURES_OK))) ;;
  cap ← read_volatile CONFIG ;
  write_volatile QUEUE_SEL 0 ;;
  ready ← read_volatile QUEUE_READY ;
  lift (assert_ (bool_decide (ready = 0))) ;;
  max_size ← read_volatile QUEUE_NUM_MAX ;
  lift (assert_ (bool_decide (QUEUE_SIZE ≤ wrap16 max_size))) ;;
  write_volatile QUEUE_NUM QUEUE_SIZE ;;
  zero_mem 64 desc_at ;;
  zero_mem 12 avail_at ;;
  zero_mem 36 used_at ;;
  tell_queue QUEUE_DESC_LOW QUEUE_DESC_HIGH desc_at ;;
  tell_queue QUEUE_DRIVER_LOW QUEUE_DRIVER_HIGH avail_at ;;
  tell_queue QUEUE_DEVICE_LOW QUEUE_DEVICE_HIGH used_at ;;
  write_volatile QUEUE_READY 1 ;;
  let status := Z.lor status DRIVER_OK in
  write_volatile STATUS status ;;
  mret (mkVirtio desc_at avail_at used_at cap).

(** [Virtio::get]: the first use initialises. *)
Definition virtio_get (desc_at avail_at used_at : Z) : M W Virtio :=
  i ← gets vw_inst ;
  match i with
  | Some v => mret v
  | None =>
      v ← init desc_at avail_at used_at ;
      modify (with_inst v) ;;
      mret v
  end.

(** ** The interrupt and its semaphore *)

(** [handle_interrupt] *)
Definition handle_interrupt : M W unit :=
  status ← read_volatile INTERRUPT_STATUS ;
  lift (assert_ (bool_decide (status = 1))) ;;
  n ← gets vw_notif ;
  modify (with_notif (wrap64 (n + 1))).

(** The device serves what it was notified of and interrupts. *)
Definition device_interrupt : M W unit :=
  modify (λ w, let '(d, m) := dev_serve (vw_ram w) (vw_dev w) in
               mkVW d m (vw_notif w) (vw_inst w)) ;;
  handle_interrupt.

(** [USED_RING_NOTIFICATION.down()]: the thread waits, and the device goes on,
    while the value is zero. *)
Definition notification_down : M W unit :=
  n ← gets vw_notif ;
  (if bool_decide (n = 0) then device_interrupt else mret ()) ;;
  n ← gets vw_notif ;
  if bool_decide (n = 0) then fail Deadlock else modify (with_notif (n - 1)).

(** ** Requests *)

(** [supply_buffer] *)
Definition supply_buffer (v : Virtio) (id : Z) : M W unit :=
  idx ← read_mem 2 (avail v + 2) ;
  write_mem 2 (avail v + 4 + 2 * (idx mod QUEUE_SIZE)) id ;;
  idx ← read_mem 2 (avail v + 2) ;
  write_mem 2 (avail v + 2) (wrap16 (idx + 1)) ;;
  write_volatile QUEUE_NOTIFY 0.

(** Entry [i] of the table becomes [Desc { addr, len, flag, next }], field by field;
    [va] is the kernel address of the buffer. *)
Definition set_desc (v : Virtio) (i va len flag next : Z) : M W unit :=
  write_mem 8 (desc_table v + 16 * i) (wrap64 (va - VM_OFFSET)) ;;
  write_mem 4 (desc_table v + 16 * i + 8) len ;;
  write_mem 2 (desc_table v + 16 * i + 12) flag ;;
  write_mem 2 (desc_table v + 16 * i + 14) next.

(** A [BlkReqHeader] and the status byte, on the stack of the caller. *)
Definition put_header (header_at : Z) (t : BlkReqType) (sector : Z) : M W unit :=
  write_mem 4 header_at (req_type_code t) ;;
  write_mem 4 (header_at + 4) 0 ;;
  write_mem 8 (header_at + 8) sector.

(** The length in entry [(idx - 1) % QUEUE_SIZE] of the used ring. *)
Definition last_used_len (v : Virtio) : M W Z :=
  idx ← read_mem 2 (used v + 2) ;
  read_mem 4 (used v + 4 + 8 * (wrap16 (idx - 1) mod QUEUE_SIZE) + 4).

Definition read_sector_impl (v : Virtio) (header_at status_at sector buf : Z) (early : bool) : M W unit :=
  put_header header_at In sector ;;
  write_mem 1 status_at 0xff ;;
  set_desc v 0 header_at 16 NEXT 1 ;;
  set_desc v 1 buf SECTOR_SIZE (Z.lor NEXT WRITE) 2 ;;
  set_desc v 2 status_at 1 WRITE 0 ;;
  supply_buffer v 0 ;;
  (if early then device_interrupt else mret ()) ;;
  notification_down ;;
  status ← read_mem 1 status_at ;
  lift (assert_ (bool_decide (status = 0))) ;;
  len ← last_used_len v ;
  lift (assert_ (bool_decide (len = SECTOR_SIZE + 1))) ;;
  write_volatile INTERRUPT_ACK 1.

Definition write_sector_impl (v : Virtio) (header_at status_at sector buf : Z) (early : bool) : M W unit :=
  put_header header_at Out sector ;;
  write_mem 1 status_at 0xff ;;
  set_desc v 0 header_at 16 NEXT 1 ;;
  set_desc v 1 buf SECTOR_SIZE NEXT 2 ;;
  set_desc v 2 status_at 1 WRITE 0 ;;
  supply_buffer v 0 ;;
  (if early then device_interrupt else mret ()) ;;
  notification_down ;;
  status ← read_mem 1 status_at ;
  lift (assert_ (bool_decide (status = 0))) ;;
  len ← last_used_len v ;
  lift (assert_ (bool_decide (len = 1))) ;;
  write_volatile INTERRUPT_ACK 1.

(** [Virtio::read_sector] and [Virtio::write_sector]; [at_] are the addresses of
    the queue, should this be the first use, and of the stack slots. *)
Record Slots : Type := mkSlots { desc_at : Z; avail_at : Z; used_at : Z; header_at : Z; status_at : Z }.

Definition virtio_read_sector (p : Slots) (sector buf : Z) (early : bool) : M W unit :=
  v ← virtio_get (desc_at p) (avail_at p) (used_at p) ;
  read_sector_impl v (header_at p) (status_at p) sector buf early.

Definition virtio_write_sector (p : Slots) (sector buf : Z) (early : bool) : M W unit :=
  v ← virtio_get (desc_at p) (avail_at p) (used_at p) ;
  write_sector_impl v (header_at p) (status_at p) sector buf early.
End Driver.

(** ** What the device promises

    [View] is the state of the transport that the specification speaks of: the
    registers the driver has written, the device's position in the available
    ring, its count of used buffers, and whether a notification is pending. *)
Record View : Type := mkView {
  v_status : Z;
  v_features : Z;
  v_ready : Z;
  v_num : Z;
  v_desc : Z;
  v_driver : Z;
  v_device : Z;
  v_isr : Z;
  v_last : Z;
  v_used : Z;
  v_notified : bool
}.

Definition set_low (a v : Z) : Z := a / 2 ^ 32 * 2 ^ 32 + v.
Definition set_high (a v : Z) : Z := a mod 2 ^ 32 + v * 2 ^ 32.

(** Section 4.2.2: what writing [x] to a register does, while queue 0 is
    selected; writing zero to [STATUS] resets the device. *)
Definition reg_write (r x : Z) (v : View) : View :=
  let 'mkView st fe re nu de dr dv isr la us no := v in
  if decide (r = STATUS) then
    if decide (x = 0) then mkView 0 0 0 0 0 0 0 0 0 0 false
    else mkView x fe re nu de dr dv isr la us no
  else if decide (r = DRIVER_FEATURES) then mkView st x re nu de dr dv isr la us no
  else if decide (r = QUEUE_NUM) then mkView st fe re x de dr dv isr la us no
  else if decide (r = QUEUE_READY) then mkView st fe x nu de dr dv isr la us no
  else if decide (r = QUEUE_DESC_LOW) then mkView st fe re nu (set_low de x) dr dv isr la us no
  else if decide (r = QUEUE_DESC_HIGH) then mkView st fe re nu (set_high de x) dr dv isr la us no
  else if decide (r = QUEUE_DRIVER_LOW) then mkView st fe re nu de (set_low dr x) dv isr la us no
  else if decide (r = QUEUE_DRIVER_HIGH) then mkView st fe re nu de (set_high dr x) dv isr la us no
  else if decide (r = QUEUE_DEVICE_LOW) then mkView st fe re nu de dr (set_low dv x) isr la us no
  else if decide (r = QUEUE_DEVICE_HIGH) then mkView st fe re nu de dr (set_high dv x) isr la us no
  else if decide (r = INTERRUPT_ACK) then mkView st fe re nu de dr dv (Z.ldiff isr x) la us no
  else if decide (r = QUEUE_NOTIFY) then mkView st fe re nu de dr dv isr la us true
  else v.

(** A descriptor as it lies in the table at [T]. *)
Record Desc : Type := mkDesc { d_addr : Z; d_len : Z; d_flag : Z; d_next : Z }.

Definition desc_of (T i : Z) (m : Ram) : Desc :=
  mkDesc (load 8 (T + 16 * i) m) (load 4 (T + 16 * i + 8) m)
    (load 2 (T + 16 * i + 12) m) (load 2 (T + 16 * i + 14) m).

(** The flags of the data buffer: the device writes it in a read. *)
Definition data_flag (t : BlkReqType) : Z :=
  match t with In => Z.lor NEXT WRITE | Out => NEXT end.

(** A block request as the device finds it in memory (sections 2.7.5 and
    5.2.6): the chain of three descriptors from [h] on. *)
Definition chain_at (T h : Z) (t : BlkReqType) (sector buf stat : Z) (m : Ram) : Prop :=
  let d0 := desc_of T h m in
  let d1 := desc_of T (d_next d0) m in
  let d2 := desc_of T (d_next d1) m in
  d_len d0 = 16 ∧ d_flag d0 = NEXT ∧
  load 4 (d_addr d0) m = req_type_code t ∧ load 8 (d_addr d0 + 8) m = sector ∧
  d_addr d1 = buf ∧ d_len d1 = SECTOR_SIZE ∧ d_flag d1 = data_flag t ∧
  d_addr d2 = stat ∧ d_len d2 = 1 ∧ d_flag d2 = WRITE.

(** Two ranges of memory that do not meet. *)
Definition apart (a n b k : Z) : Prop := a + n ≤ b ∨ b + k ≤ a.

(** The device is set up and has been told of the queue at [T], [A] and [U]. *)
Record live (T A U : Z) (v : View) : Prop := {
  lv_status : v_status v = 15;
  lv_features : v_features v = 0;
  lv_ready : v_ready v = 1;
  lv_num : v_num v = QUEUE_SIZE;
  lv_desc : v_desc v = T;
  lv_driver : v_driver v = A;
  lv_device : v_device v = U
}.

(** The state after a request has been served. *)
Definition served (v : View) : View :=
  let 'mkView st fe re nu de dr dv isr la us no := v in
  mkView st fe re nu de dr dv (Z.lor isr 1) (wrap16 (la + 1)) (wrap16 (us + 1)) false.

(** Two devices with the same contents. *)
Definition same_disk {D} `{BlockDevice D} (d d' : D) : Prop :=
  dev_capacity d' = dev_capacity d ∧ ∀ s, dev_get d' s = dev_get d s.

Class VirtioLaws (D : Type) `{VirtioDevice D} `{BlockDeviceLaws D} := {
  dev_view : D → View;
  (** Reading registers. *)
  read_status d : mmio_read STATUS d = v_status (dev_view d);
  read_ready d : mmio_read QUEUE_READY d = v_ready (dev_view d);
  read_isr d : mmio_read INTERRUPT_STATUS d = v_isr (dev_view d);
  read_config d : mmio_read CONFIG d = dev_capacity d;
  read_num_max r x d : mmio_read QUEUE_NUM_MAX (mmio_write r x d) = mmio_read QUEUE_NUM_MAX d;
  (** Writing them; a device accepts the negotiation of no features. *)
  write_view r x d :
    (r = QUEUE_SEL → x = 0) →
    (r = STATUS → Z.testbit x 3 = true → v_features (dev_view d) = 0) →
    dev_view (mmio_write r x d) = reg_write r x (dev_view d);
  write_disk r x d : same_disk d (mmio_write r x d);
  disk_ok d d' : same_disk d d' → dev_ok d → dev_ok d';
  (** Serving the next request of the available ring. *)
  serve_request T A U d m h t sector buf stat :
    let v := dev_view d in
    live T A U v → v_notified v = true →
    T mod 16 = 0 → A mod 2 = 0 → U mod 4 = 0 →
    in_range 16 (v_last v) → in_range 16 (v_used v) →
    load 2 A m = 0 → load 2 (A + 2) m = wrap16 (v_last v + 1) →
    load 2 (A + 4 + 2 * (v_last v mod QUEUE_SIZE)) m = h →
    chain_at T h t sector buf stat m →
    apart buf SECTOR_SIZE stat 1 → apart buf SECTOR_SIZE U 36 → apart stat 1 U 36 →
    (∀ a, in_range 8 (m a)) → dev_ok d →
    ∃ d' m', dev_serve m d = (d', m') ∧ dev_view d' = served v ∧
      load 2 (U + 2) m' = wrap16 (v_used v + 1) ∧
      (∀ a, in_range 8 (m' a)) ∧
      (∀ a, ¬ (U ≤ a < U + 36) → a ≠ stat →
        ¬ (t = In ∧ buf ≤ a < buf + SECTOR_SIZE) → m' a = m a) ∧
      let len := load 4 (U + 4 + 8 * (v_used v mod QUEUE_SIZE) + 4) m' in
      if bool_decide (0 ≤ sector < dev_capacity d) then
        load 1 stat m' = 0 ∧
        match t with
        | In => len = SECTOR_SIZE + 1 ∧ ram_bytes buf SECTOR_SIZE m' = dev_get d sector ∧
                same_disk d d'
        | Out => len = 1 ∧ same_disk (dev_put sector (ram_bytes buf SECTOR_SIZE m) d) d'
        end
      else load 1 stat m' ≠ 0 ∧ same_disk d d'
}.

Lemma run_bind {S A B} (m : M S A) (f : A → M S B) s a s' :
  m s = Ret (a, s') → (m ≫= f) s = f a s'.
Proof. unfold mbind, M_bind. by intros ->. Qed.

Lemma run_assert {S B} (b : bool) (f : unit → M S B) s :
  (lift (assert_ b) ≫= f) s = if b then f () s else Panic AssertFailed.
Proof. by destruct b. Qed.

(** ** Memory lemmas *)

Lemma load_ext n a m m' : (∀ b, a ≤ b < a + Z.of_nat n → m b = m' b) → load n a m = load n a m'.
Proof.
  revert a. induction n as [|n IH]; intros a Hm; [done|]. cbn [load].
  rewrite Hm by lia. f_equal. f_equal. apply IH. intros b Hb. apply Hm. lia.
Qed.

Lemma load_lo n a v m : 0 ≤ v < 256 ^ Z.of_nat n →
  (∀ b, a ≤ b < a + Z.of_nat n → m b = v / 256 ^ (b - a) mod 256) → load n a m = v.
Proof.
  revert a v. induction n as [|n IH]; intros a v Hv Hm; cbn [load]; [cbn in Hv; lia|].
  rewrite Nat2Z.inj_succ, Z.pow_succ_r in Hv by lia.
  rewrite Hm, Z.sub_diag, Z.pow_0_r, Z.div_1_r by lia.
  rewrite (IH (a + 1) (v / 256)).
  - rewrite (Z.div_mod v 256) at 3; lia.
  - split; [apply Z.div_pos; lia|]. apply Z.div_lt_upper_bound; lia.
  - intros b Hb. rewrite Hm by lia. replace (b - a) with (Z.succ (b - (a + 1))) by lia.
    rewrite Z.pow_succ_r, Z.div_div by (try apply Z.pow_pos_nonneg; lia). done.
Qed.

Lemma load_store_same n a v m : 0 ≤ v < 256 ^ Z.of_nat n → load n a (store n a v m) = v.
Proof. intros Hv. apply load_lo; [done|]. intros b Hb. unfold store. by rewrite decide_True. Qed.

Lemma store_other k b v m a : ¬ (b ≤ a < b + Z.of_nat k) → store k b v m a = m a.
Proof. intros. unfold store. by rewrite decide_False. Qed.

Lemma load_store_other n a k b v m :
  apart a (Z.of_nat n) b (Z.of_nat k) → load n a (store k b v m) = load n a m.
Proof. unfold apart. intros. apply load_ext. intros c Hc. apply store_other. lia. Qed.

(** The same for fields of regions that do not meet. *)
Lemma load_store_apart p n1 q n2 n a k b v m :
  apart p n1 q n2 → p ≤ a → a + Z.of_nat n ≤ p + n1 → q ≤ b → b + Z.of_nat k ≤ q + n2 →
  load n a (store k b v m) = load n a m.
Proof. unfold apart. intros. apply load_store_other. unfold apart. lia. Qed.

Lemma load_store_zero n a k b m : b ≤ a → a + Z.of_nat n ≤ b + Z.of_nat k →
  load n a (store k b 0 m) = 0.
Proof.
  intros. apply load_lo; [split; [done|apply Z.pow_pos_nonneg; lia]|].
  intros c Hc. unfold store. rewrite decide_True by lia. by rewrite !Zdiv_0_l.
Qed.

Lemma store_range k b v m : (∀ a, in_range 8 (m a)) → ∀ a, in_range 8 (store k b v m a).
Proof.
  intros Hm a. unfold store. case_decide; [|done]. apply Z.mod_pos_bound. lia.
Qed.

Lemma apart_sym a n b k : apart a n b k → apart b k a n.
Proof. unfold apart. lia. Qed.

Lemma apart_sub p n1 q n2 a n b k :
  apart p n1 q n2 → p ≤ a → a + n ≤ p + n1 → q ≤ b → b + k ≤ q + n2 → apart a n b k.
Proof. unfold apart. lia. Qed.

(** Two ranges lie in ranges that are known not to meet. *)
Ltac apart_tac :=
  match goal with
  | Ha : apart ?p ?n1 ?q ?n2 |- apart _ _ _ _ =>
      first [ apply (apart_sub p n1 q n2 _ _ _ _ Ha); lia
            | apply (apart_sub q n2 p n1 _ _ _ _ (apart_sym _ _ _ _ Ha)); lia ]
  | |- apart _ _ _ _ => unfold apart; lia
  end.

Lemma ram_bytes_ext a n m m' : (∀ b, a ≤ b < a + n → m b = m' b) → ram_bytes a n m = ram_bytes a n m'.
Proof.
  intros Hm. unfold ram_bytes. apply list_fmap_ext. intros i b Hb.
  apply lookup_seqZ in Hb. apply Hm. lia.
Qed.

Lemma ram_bytes_sector a m : (∀ b, in_range 8 (m b)) → is_sector (ram_bytes a SECTOR_SIZE m).
Proof.
  intros Hm. unfold ram_bytes. split.
  - unfold zlen. by rewrite length_fmap, length_seqZ.
  - apply Forall_fmap, Forall_forall. intros b _. apply Hm.
Qed.

Lemma ram_bytes_store k b v a n m : apart a n b (Z.of_nat k) →
  ram_bytes a n (store k b v m) = ram_bytes a n m.
Proof. unfold apart. intros. apply ram_bytes_ext. intros c Hc. apply store_other. lia. Qed.

(** ** One request *)

(** Physical address of a kernel address. *)
Definition phys (va : Z) : Z := va - VM_OFFSET.

(** A range the kernel maps one to one. *)
Definition in_kernel (va n : Z) : Prop := VM_OFFSET ≤ va ∧ va + n ≤ 2 ^ 64.

(** The queue and the stack slots of a request lie in kernel memory, aligned as
    the specification asks, and do not overlap. *)
Record slots_ok (p : Slots) : Prop := {
  so_T : in_kernel (desc_at p) 64;
  so_A : in_kernel (avail_at p) 12;
  so_U : in_kernel (used_at p) 36;
  so_H : in_kernel (header_at p) 16;
  so_S : in_kernel (status_at p) 1;
  so_alT : phys (desc_at p) mod 16 = 0;
  so_alA : phys (avail_at p) mod 2 = 0;
  so_alU : phys (used_at p) mod 4 = 0;
  so_TA : apart (phys (desc_at p)) 64 (phys (avail_at p)) 12;
  so_TU : apart (phys (desc_at p)) 64 (phys (used_at p)) 36;
  so_AU : apart (phys (avail_at p)) 12 (phys (used_at p)) 36;
  so_HT : apart (phys (header_at p)) 16 (phys (desc_at p)) 64;
  so_HA : apart (phys (header_at p)) 16 (phys (avail_at p)) 12;
  so_HU : apart (phys (header_at p)) 16 (phys (used_at p)) 36;
  so_HS : apart (phys (header_at p)) 16 (phys (status_at p)) 1;
  so_ST : apart (phys (status_at p)) 1 (phys (desc_at p)) 64;
  so_SA : apart (phys (status_at p)) 1 (phys (avail_at p)) 12;
  so_SU : apart (phys (status_at p)) 1 (phys (used_at p)) 36
}.

Record buffer_ok (p : Slots) (buf : Z) : Prop := {
  bo_B : in_kernel buf SECTOR_SIZE;
  bo_T : apart (phys buf) SECTOR_SIZE (phys (desc_at p)) 64;
  bo_A : apart (phys buf) SECTOR_SIZE (phys (avail_at p)) 12;
  bo_U : apart (phys buf) SECTOR_SIZE (phys (used_at p)) 36;
  bo_H : apart (phys buf) SECTOR_SIZE (phys (header_at p)) 16;
  bo_S : apart (phys buf) SECTOR_SIZE (phys (status_at p)) 1
}.

(** What the driver may write: the queue and its stack slots. *)
Definition driver_memory (p : Slots) (a : Z) : Prop :=
  phys (desc_at p) ≤ a < phys (desc_at p) + 64 ∨
  phys (avail_at p) ≤ a < phys (avail_at p) + 12 ∨
  phys (used_at p) ≤ a < phys (used_at p) + 36 ∨
  phys (header_at p) ≤ a < phys (header_at p) + 16 ∨
  a = phys (status_at p).

(** Writing a descriptor. *)
Definition desc_store (T i addr len flag next : Z) (m : Ram) : Ram :=
  store 2 (T + 16 * i + 14) next (store 2 (T + 16 * i + 12) flag
    (store 4 (T + 16 * i + 8) len (store 8 (T + 16 * i) addr m))).

Lemma desc_store_same T i addr len flag next m :
  in_range 64 addr → in_range 32 len → in_range 16 flag → in_range 16 next →
  desc_of T i (desc_store T i addr len flag next m) = mkDesc addr len flag next.
Proof.
  unfold in_range. intros. unfold desc_of, desc_store.
  repeat first [rewrite load_store_same by (cbn; lia) | rewrite load_store_other by (unfold apart; lia)].
  done.
Qed.

Lemma load_desc_store T i addr len flag next m n a :
  apart a (Z.of_nat n) T 64 → 0 ≤ i < 4 →
  load n a (desc_store T i addr len flag next m) = load n a m.
Proof.
  unfold apart. intros. unfold desc_store.
  by rewrite !load_store_other by (unfold apart; lia).
Qed.

Lemma desc_store_other T i j addr len flag next m : i ≠ j →
  desc_of T j (desc_store T i addr len flag next m) = desc_of T j m.
Proof.
  intros. unfold desc_of, desc_store.
  by repeat rewrite load_store_other by (unfold apart; lia).
Qed.

Lemma desc_of_store T i k b v m : 0 ≤ i < 4 → apart b (Z.of_nat k) T 64 →
  desc_of T i (store k b v m) = desc_of T i m.
Proof.
  unfold apart. intros. unfold desc_of.
  by rewrite !load_store_other by (unfold apart; lia).
Qed.

Lemma desc_store_frame T i addr len flag next m a : 0 ≤ i < 4 → ¬ (T ≤ a < T + 64) →
  desc_store T i addr len flag next m a = m a.
Proof. intros. unfold desc_store. by rewrite !store_other by lia. Qed.

Lemma desc_store_range T i addr len flag next m : (∀ a, in_range 8 (m a)) →
  ∀ a, in_range 8 (desc_store T i addr len flag next m a).
Proof. intros. by repeat apply store_range. Qed.

Section Requests.
Context {D : Type} `{VirtioLaws D}.
Abbreviation W := (VW D).

(** The two request functions up to the wait. *)
Definition submit (v : Virtio) (h st : Z) (t : BlkReqType) (sector buf : Z) {A} (k : M W A) : M W A :=
  put_header h t sector ;;
  write_mem 1 st 0xff ;;
  set_desc v 0 h 16 NEXT 1 ;;
  set_desc v 1 buf SECTOR_SIZE (data_flag t) 2 ;;
  set_desc v 2 st 1 WRITE 0 ;;
  supply_buffer v 0 ;;
  k.

Lemma put_header_run h t sector (w : W) :
  put_header h t sector w =
  Ret ((), with_ram (λ m, store 8 (phys h + 8) sector (store 4 (phys h + 4) 0
                           (store 4 (phys h) (req_type_code t) m))) w).
Proof.
  unfold phys. replace (h - VM_OFFSET + 8) with (h + 8 - VM_OFFSET) by lia.
  by replace (h - VM_OFFSET + 4) with (h + 4 - VM_OFFSET) by lia.
Qed.

Lemma set_desc_run v i va len flag next (w : W) : in_range 64 (phys va) →
  set_desc v i va len flag next w =
  Ret ((), with_ram (desc_store (phys (desc_table v)) i (phys va) len flag next) w).
Proof.
  intros Hr. unfold desc_store, phys in *.
  replace (desc_table v - VM_OFFSET + 16 * i) with (desc_table v + 16 * i - VM_OFFSET) by lia.
  replace (desc_table v + 16 * i - VM_OFFSET + 8) with (desc_table v + 16 * i + 8 - VM_OFFSET) by lia.
  replace (desc_table v + 16 * i - VM_OFFSET + 12) with (desc_table v + 16 * i + 12 - VM_OFFSET) by lia.
  replace (desc_table v + 16 * i - VM_OFFSET + 14) with (desc_table v + 16 * i + 14 - VM_OFFSET) by lia.
  unfold set_desc. by rewrite (wrap_small _ _ Hr).
Qed.

Lemma supply_buffer_run v id (w : W) A idx :
  A = phys (avail v) → idx = load 2 (A + 2) (vw_ram w) → 0 ≤ idx < 2 ^ 16 →
  supply_buffer v id w =
  Ret ((), with_dev (mmio_write QUEUE_NOTIFY 0)
    (with_ram (λ m, store 2 (A + 2) (wrap16 (idx + 1))
                      (store 2 (A + 4 + 2 * (idx mod QUEUE_SIZE)) id m)) w)).
Proof.
  intros HA Hidx Hi. pose proof (Z.mod_pos_bound idx QUEUE_SIZE eq_refl).
  assert (Ha : ∀ o, avail v + o - VM_OFFSET = A + o) by (intros; subst; unfold phys; lia).
  unfold supply_buffer, read_mem, write_mem, write_volatile, with_ram, with_dev. unmonad.
  cbn [vw_dev vw_ram vw_notif vw_inst]. rewrite <-(Z.add_assoc (avail v) 4), !Ha, <-Hidx.
  rewrite load_store_other, <-Hidx by (unfold apart; lia).
  by rewrite Z.add_assoc.
Qed.

Lemma data_flag_range t : in_range 16 (data_flag t).
Proof. by destruct t. Qed.

Lemma submit_spec p cap t sector buf {A} (k : M W A) w :
  slots_ok p → buffer_ok p buf → in_range 64 sector →
  let A0 := phys (avail_at p) in
  let last := load 2 (A0 + 2) (vw_ram w) in
  in_range 16 last → load 2 A0 (vw_ram w) = 0 → (∀ a, in_range 8 (vw_ram w a)) →
  ∃ m, submit (mkVirtio (desc_at p) (avail_at p) (used_at p) cap) (header_at p) (status_at p)
         t sector buf k w =
       k (mkVW (mmio_write QUEUE_NOTIFY 0 (vw_dev w)) m (vw_notif w) (vw_inst w)) ∧
    chain_at (phys (desc_at p)) 0 t sector (phys buf) (phys (status_at p)) m ∧
    load 2 A0 m = 0 ∧ load 2 (A0 + 2) m = wrap16 (last + 1) ∧
    load 2 (A0 + 4 + 2 * (last mod QUEUE_SIZE)) m = 0 ∧
    (∀ a, in_range 8 (m a)) ∧
    (∀ a, ¬ driver_memory p a → m a = vw_ram w a).
Proof.
  intros Hp Hb Hs A0 last Hl Hfl Hby.
  assert (Hph : in_range 64 (phys (header_at p)) ∧ in_range 64 (phys buf) ∧
                in_range 64 (phys (status_at p))).
  { destruct Hp, Hb. unfold in_kernel, in_range, phys, VM_OFFSET, VM_BASE, PM_BASE, SECTOR_SIZE in *. lia. }
  destruct Hph as (RH & RB & RS).
  pose proof (Z.mod_pos_bound last QUEUE_SIZE eq_refl) as Hmod. change (0 ≤ last mod QUEUE_SIZE < 4) in Hmod.
  set (m1 := store 8 (phys (header_at p) + 8) sector (store 4 (phys (header_at p) + 4) 0
               (store 4 (phys (header_at p)) (req_type_code t) (vw_ram w)))).
  set (m2 := store 1 (phys (status_at p)) 255 m1).
  set (T := phys (desc_at p)).
  set (m3 := desc_store T 0 (phys (header_at p)) 16 NEXT 1 m2).
  set (m4 := desc_store T 1 (phys buf) SECTOR_SIZE (data_flag t) 2 m3).
  set (m5 := desc_store T 2 (phys (status_at p)) 1 WRITE 0 m4).
  destruct Hp. destruct Hb. fold T in so_TA0, so_TU0, so_HT0, so_ST0, bo_T0. fold A0 in so_TA0, so_AU0, so_HA0, so_SA0, bo_A0.
  assert (Hm5 : ∀ n a, apart a (Z.of_nat n) T 64 → load n a m5 = load n a m2).
  { intros. unfold m5, m4, m3. by rewrite !load_desc_store. }
  assert (Hm2 : ∀ n a, A0 ≤ a → a + Z.of_nat n ≤ A0 + 12 → load n a m5 = load n a (vw_ram w)).
  { intros. rewrite Hm5 by apart_tac. unfold m2, m1. by rewrite !load_store_other by apart_tac. }
  assert (Hidx : load 2 (A0 + 2) m5 = last) by (apply Hm2; lia).
  exists (store 2 (A0 + 2) (wrap16 (last + 1)) (store 2 (A0 + 4 + 2 * (last mod QUEUE_SIZE)) 0 m5)).
  split_and!.
  - unfold submit. erewrite run_bind by apply put_header_run.
    erewrite run_bind by done.
    do 3 (erewrite run_bind by (by apply set_desc_run)).
    erewrite run_bind by (apply (supply_buffer_run _ _ _ A0 last); done).
    reflexivity.
  - assert (Hf : ∀ n a b, A0 ≤ b → b + 2 ≤ A0 + 12 → apart a (Z.of_nat n) A0 12 → ∀ m x,
      load n a (store 2 b x m) = load n a m) by (intros; apply load_store_other; apart_tac).
    assert (Hd : ∀ i b, 0 ≤ i < 4 → A0 ≤ b → b + 2 ≤ A0 + 12 → ∀ m x,
      desc_of T i (store 2 b x m) = desc_of T i m) by (intros; apply desc_of_store; [done|apart_tac]).
    assert (E0 : desc_of T 0 m5 = mkDesc (phys (header_at p)) 16 NEXT 1).
    { unfold m5, m4, m3. rewrite !desc_store_other, desc_store_same by done. done. }
    assert (E1 : desc_of T 1 m5 = mkDesc (phys buf) SECTOR_SIZE (data_flag t) 2).
    { unfold m5, m4. rewrite desc_store_other, desc_store_same by (done || apply data_flag_range). done. }
    assert (E2 : desc_of T 2 m5 = mkDesc (phys (status_at p)) 1 WRITE 0).
    { unfold m5. by rewrite desc_store_same. }
    unfold chain_at. cbv zeta. rewrite !(Hd 0), E0 by lia.
    cbn [d_addr d_len d_flag d_next]. rewrite !(Hd 1), E1 by lia.
    cbn [d_addr d_len d_flag d_next]. rewrite !(Hd 2), E2 by lia. cbn [d_addr d_len d_flag d_next].
    rewrite !Hf, !Hm5 by (lia || apart_tac). unfold m2, m1.
    rewrite !(load_store_other _ _ 1) by apart_tac.
    split_and!; try done.
    + rewrite !load_store_other by apart_tac. apply load_store_same. by destruct t.
    + by apply load_store_same.
  - rewrite !load_store_other by apart_tac. rewrite Hm2; [done|lia|lia].
  - apply load_store_same. apply Z.mod_pos_bound. lia.
  - rewrite load_store_other by apart_tac. by apply load_store_same.
  - by do 2 apply store_range; repeat apply desc_store_range; repeat apply store_range.
  - intros a Ha. unfold driver_memory in Ha. fold T A0 in Ha.
    rewrite !store_other by lia. unfold m5, m4, m3. rewrite !desc_store_frame by lia.
    unfold m2, m1. by rewrite !store_other by lia.
Qed.
(** Between requests: the device is set up with the queue of [p], nothing is
    outstanding, and the available ring stands where the device stands. *)
Record ready (p : Slots) (w : W) : Prop := {
  rd_inst : vw_inst w = Some (mkVirtio (desc_at p) (avail_at p) (used_at p)
                               (dev_capacity (vw_dev w)));
  rd_notif : vw_notif w = 0;
  rd_live : live (phys (desc_at p)) (phys (avail_at p)) (phys (used_at p)) (dev_view (vw_dev w));
  rd_isr : v_isr (dev_view (vw_dev w)) = 0;
  rd_last : load 2 (phys (avail_at p) + 2) (vw_ram w) = v_last (dev_view (vw_dev w));
  rd_last_range : in_range 16 (v_last (dev_view (vw_dev w)));
  rd_used_range : in_range 16 (v_used (dev_view (vw_dev w)));
  rd_flags : load 2 (phys (avail_at p)) (vw_ram w) = 0;
  rd_bytes : ∀ a, in_range 8 (vw_ram w a);
  rd_ok : dev_ok (vw_dev w)
}.

(** Waiting for the device, whether the interrupt comes first or not. *)
Lemma wait_run (early : bool) (w : W) d' m' {A} (k : M W A) :
  vw_notif w = 0 → dev_serve (vw_ram w) (vw_dev w) = (d', m') → v_isr (dev_view d') = 1 →
  ((if early then device_interrupt else mret ()) ;; notification_down ;; k) w =
  k (mkVW d' m' 0 (vw_inst w)).
Proof.
  intros Hn Hs Hi.
  assert (HI : device_interrupt w = Ret ((), mkVW d' m' 1 (vw_inst w))).
  { unfold device_interrupt, handle_interrupt, read_volatile, with_notif. unmonad. rewrite Hs.
    cbn [vw_dev vw_ram vw_notif vw_inst]. rewrite read_isr, Hi. unfold assert_.
    rewrite bool_decide_eq_true_2 by done. by rewrite Hn. }
  destruct early.
  - erewrite run_bind by exact HI. reflexivity.
  - erewrite run_bind by reflexivity. erewrite run_bind; [reflexivity|].
    unfold notification_down. erewrite run_bind by reflexivity. rewrite Hn.
    erewrite run_bind by exact HI. reflexivity.
Qed.

Lemma view_notify d : dev_view (mmio_write QUEUE_NOTIFY 0 d) =
  let 'mkView st fe re nu de dr dv isr la us no := dev_view d in
  mkView st fe re nu de dr dv isr la us true.
Proof. rewrite write_view by done. by destruct (dev_view d). Qed.

Lemma view_ack d : dev_view (mmio_write INTERRUPT_ACK 1 d) =
  let 'mkView st fe re nu de dr dv isr la us no := dev_view d in
  mkView st fe re nu de dr dv (Z.ldiff isr 1) la us no.
Proof. rewrite write_view by done. by destruct (dev_view d). Qed.

Lemma same_disk_trans (d1 d2 d3 : D) : same_disk d1 d2 → same_disk d2 d3 → same_disk d1 d3.
Proof. intros [C1 G1] [C2 G2]. split; [congruence|]. intros s. by rewrite G2, G1. Qed.

Lemma put_same_disk (d0 d1 : D) sector b :
  same_disk d0 d1 → dev_ok d0 → 0 ≤ sector < dev_capacity d0 → is_sector b →
  same_disk (dev_put sector b d0) (dev_put sector b d1) ∧
  dev_capacity (dev_put sector b d1) = dev_capacity d0 ∧ dev_ok (dev_put sector b d1).
Proof.
  intros [Hc Hg] Hok Hs Hb. assert (Hok1 : dev_ok d1) by (eapply disk_ok; [|done]; by split).
  destruct (dev_put_ok d0 sector b Hok Hs Hb) as [_ Hc0]. rewrite <-Hc in Hs |- *.
  destruct (dev_put_ok d1 sector b Hok1 Hs Hb) as [Ho1 Hc1].
  split_and!; [|done|done]. split; [congruence|]. intros s.
  by rewrite !dev_get_put, Hg by (done || by rewrite <-Hc).
Qed.

(** The device after a request is as good as before. *)
Lemma served_disk t sector b (d0 d1 d : D) :
  same_disk d0 d1 → dev_ok d0 → is_sector b →
  (if bool_decide (0 ≤ sector < dev_capacity d0)
   then match t with In => same_disk d1 d | Out => same_disk (dev_put sector b d1) d end
   else same_disk d1 d) →
  dev_capacity d = dev_capacity d0 ∧ dev_ok d.
Proof.
  intros H01 Hok Hb Hd.
  assert (Hsame : same_disk d1 d → dev_capacity d = dev_capacity d0 ∧ dev_ok d).
  { intros Hd1. pose proof (same_disk_trans _ _ _ H01 Hd1) as H02.
    split; [apply H02|by eapply disk_ok]. }
  case_bool_decide as Hc; [destruct t|]; auto.
  destruct (put_same_disk d0 d1 sector b H01 Hok Hc Hb) as (_ & Hcp & Hop).
  split; [rewrite <-Hcp; apply Hd|by eapply disk_ok].
Qed.

(** A request up to the check of its status: the device has served it. *)
Lemma request_run p t sector buf (early : bool) {A} (k : M W A) w :
  slots_ok p → buffer_ok p buf → in_range 64 sector → ready p w →
  let v := mkVirtio (desc_at p) (avail_at p) (used_at p) (dev_capacity (vw_dev w)) in
  let U := phys (used_at p) in
  let B := phys buf in
  ∃ d m,
    submit v (header_at p) (status_at p) t sector buf
      ((if early then device_interrupt else mret ()) ;; notification_down ;; k) w =
    k (mkVW d m 0 (vw_inst w)) ∧
    ready p (mkVW (mmio_write INTERRUPT_ACK 1 d) m 0 (vw_inst w)) ∧
    (∀ a, ¬ driver_memory p a → ¬ (t = In ∧ B ≤ a < B + SECTOR_SIZE) → m a = vw_ram w a) ∧
    load 2 (U + 2) m = wrap16 (v_used (dev_view (vw_dev w)) + 1) ∧
    let len := load 4 (U + 4 + 8 * (v_used (dev_view (vw_dev w)) mod QUEUE_SIZE) + 4) m in
    if bool_decide (0 ≤ sector < dev_capacity (vw_dev w)) then
      load 1 (phys (status_at p)) m = 0 ∧
      match t with
      | In => len = SECTOR_SIZE + 1 ∧ ram_bytes B SECTOR_SIZE m = dev_get (vw_dev w) sector ∧
              same_disk (vw_dev w) d
      | Out => len = 1 ∧ same_disk (dev_put sector (ram_bytes B SECTOR_SIZE (vw_ram w)) (vw_dev w)) d
      end
    else load 1 (phys (status_at p)) m ≠ 0.
Proof.
  intros Hp Hb Hs Hr v U B. destruct Hr as [Hi Hn Hlv Hisr Hl Hlr Hur Hfl Hby Hok].
  destruct (submit_spec p (dev_capacity (vw_dev w)) t sector buf
    ((if early then device_interrupt else mret ()) ;; notification_down ;; k) w Hp Hb Hs)
    as (m1 & Hrun & Hch & Hf1 & Hi1 & Hr1 & Hby1 & Hfr1); [by rewrite Hl|done|done|].
  rewrite Hl in Hi1, Hr1.
  set (d1 := mmio_write QUEUE_NOTIFY 0 (vw_dev w)) in *.
  pose proof (view_notify (vw_dev w)) as Hv1. fold d1 in Hv1.
  pose proof (write_disk QUEUE_NOTIFY 0 (vw_dev w)) as Hsd. fold d1 in Hsd.
  destruct (dev_view (vw_dev w)) as [st fe re nu de dr dv isr la us no] eqn:Ev.
  cbn [v_isr v_last v_used] in *. subst isr.
  assert (Hlv1 : live (phys (desc_at p)) (phys (avail_at p)) (phys (used_at p)) (dev_view d1)).
  { rewrite Hv1. by destruct Hlv. }
  destruct (serve_request (phys (desc_at p)) (phys (avail_at p)) (phys (used_at p)) d1 m1 0 t
    sector B (phys (status_at p))) as (d & m & Hserve & Hview & Hused & Hbm & Hframe & Hout);
    try (rewrite Hv1; done); try done; try apply Hp; try apply Hb.
  { by eapply disk_ok. }
  rewrite Hv1 in *. cbn [v_isr v_last v_used served] in *.
  assert (Hbuf : ram_bytes B SECTOR_SIZE m1 = ram_bytes B SECTOR_SIZE (vw_ram w)).
  { apply ram_bytes_ext. intros b Hbb. apply Hfr1. unfold driver_memory.
    destruct Hb. unfold apart, B in *. lia. }
  pose proof (ram_bytes_sector B (vw_ram w) Hby) as Hsec.
  rewrite (proj1 Hsd), Hbuf in Hout.
  assert (Hdd : dev_capacity d = dev_capacity (vw_dev w) ∧ dev_ok d).
  { apply (served_disk t sector _ (vw_dev w) d1 d Hsd Hok Hsec).
    case_bool_decide; [destruct t|]; tauto. }
  assert (HA : ∀ o, 0 ≤ o → o + 2 ≤ 12 →
    load 2 (phys (avail_at p) + o) m = load 2 (phys (avail_at p) + o) m1).
  { intros o Ho Ho'. apply load_ext. intros b Hbb. apply Hframe.
    - pose proof (so_AU _ Hp) as Hx. unfold apart in Hx. lia.
    - pose proof (so_SA _ Hp) as Hx. unfold apart in Hx. lia.
    - pose proof (bo_A _ _ Hb) as Hx. unfold apart, B in *. lia. }
  exists d, m. split; [|split; [|split; [|split; [done|]]]].
  - etrans; [exact Hrun|]. apply (wait_run early (mkVW d1 m1 (vw_notif w) (vw_inst w)) d m); [done|done|]. by rewrite Hview.
  - destruct (write_disk INTERRUPT_ACK 1 d) as [Hcap Hget].
    pose proof (view_ack d) as Hva. rewrite Hview in Hva.
    split; cbn [vw_dev vw_ram vw_notif vw_inst]; try rewrite Hva; cbn [v_isr v_last v_used].
    + by rewrite Hcap, (proj1 Hdd).
    + done.
    + by destruct Hlv.
    + done.
    + by rewrite HA by lia.
    + apply wrap_in_range. lia.
    + apply wrap_in_range. lia.
    + rewrite <-(Z.add_0_r (phys (avail_at p))), HA, Z.add_0_r by lia. done.
    + done.
    + eapply disk_ok; [by apply write_disk|apply Hdd].
  - intros a Ha Hna. rewrite Hframe; [by apply Hfr1|..].
    + intros ?. apply Ha. unfold driver_memory. tauto.
    + intros ->. apply Ha. unfold driver_memory. tauto.
    + exact Hna.
  - case_bool_decide as Hc; [|by destruct Hout]. destruct Hout as [Hst Hout].
    split; [done|]. destruct t.
    + destruct Hout as (? & Hd & Hs1). split_and!; [done|by rewrite Hd, (proj2 Hsd)|].
      by eapply same_disk_trans.
    + destruct Hout as (? & Hs1). split; [done|]. eapply same_disk_trans; [|done].
      by apply put_same_disk.
Qed.

(** What both functions do after the wait: they check status and length, and
    acknowledge the interrupt. *)
Definition check_used (v : Virtio) (st len : Z) : M W unit :=
  status ← read_mem 1 st ;
  lift (assert_ (bool_decide (status = 0))) ;;
  l ← last_used_len v ;
  lift (assert_ (bool_decide (l = len))) ;;
  write_volatile INTERRUPT_ACK 1.

Lemma finish_run p cap us (len : Z) (d : D) m inst :
  let v := mkVirtio (desc_at p) (avail_at p) (used_at p) cap in
  let U := phys (used_at p) in
  in_range 16 us → load 2 (U + 2) m = wrap16 (us + 1) →
  check_used v (status_at p) len (mkVW d m 0 inst) =
  if bool_decide (load 1 (phys (status_at p)) m = 0 ∧
                  load 4 (U + 4 + 8 * (us mod QUEUE_SIZE) + 4) m = len)
  then Ret ((), mkVW (mmio_write INTERRUPT_ACK 1 d) m 0 inst)
  else Panic AssertFailed.
Proof.
  intros v U Hus HU. unfold check_used, last_used_len, read_mem, write_volatile, with_dev. unmonad.
  cbn [vw_dev vw_ram vw_notif vw_inst used v]. fold (phys (status_at p)).
  assert (Ha : ∀ o, used_at p + o - VM_OFFSET = U + o) by (intros; unfold U, phys; lia).
  assert (E : wrap16 (wrap16 (us + 1) - 1) = us).
  { unfold wrap. rewrite Zminus_mod_idemp_l. replace (us + 1 - 1) with us by lia.
    by apply Z.mod_small. }
  unfold assert_. case_bool_decide as Hst; [|by rewrite bool_decide_eq_false_2 by tauto].
  cbn [vw_dev vw_ram vw_notif vw_inst]. rewrite (Ha 2), HU, E.
  rewrite <-!(Z.add_assoc (used_at p)), Ha, !(Z.add_assoc U).
  case_bool_decide as Hl; cbn [vw_dev vw_ram vw_notif vw_inst].
  - by rewrite bool_decide_eq_true_2.
  - by rewrite bool_decide_eq_false_2 by tauto.
Qed.

Lemma virtio_get_ready p w : ready p w →
  virtio_get (desc_at p) (avail_at p) (used_at p) w =
  Ret (mkVirtio (desc_at p) (avail_at p) (used_at p) (dev_capacity (vw_dev w)), w).
Proof. intros [Hi _ _ _ _ _ _ _ _ _]. unfold virtio_get, gets. unmonad. by rewrite Hi. Qed.
End Requests.

(** ** Initialisation *)

Section Init.
Context {D : Type} `{VirtioLaws D}.
Abbreviation W := (VW D).

(** The device the driver supports. *)
Definition genuine (d : D) : Prop :=
  mmio_read MAGIC_VALUE d = 0x74726976 ∧ mmio_read VERSION d = 2 ∧ mmio_read DEVICE_ID d = 2 ∧
  QUEUE_SIZE ≤ wrap16 (mmio_read QUEUE_NUM_MAX d).

#[export] Instance genuine_dec d : Decision (genuine d).
Proof. unfold genuine. apply _. Defined.

(** Before the first use. *)
Record fresh (w : W) : Prop := {
  fr_inst : vw_inst w = None;
  fr_notif : vw_notif w = 0;
  fr_bytes : ∀ a, in_range 8 (vw_ram w a);
  fr_ok : dev_ok (vw_dev w)
}.

Lemma set_low_high a : in_range 64 a →
  set_high (set_low 0 (wrap32 a)) (wrap32 (Z.shiftr a 32)) = a.
Proof.
  intros Ha. unfold set_high, set_low, wrap, in_range in *. rewrite Z.shiftr_div_pow2 by lia.
  rewrite Zdiv_0_l, Z.mul_0_l, Z.add_0_l, Zmod_mod.
  rewrite (Z.mod_small (a / 2 ^ 32)); [rewrite (Z.div_mod a (2 ^ 32)) at 3; lia|].
  split; [apply Z.div_pos; lia|apply Z.div_lt_upper_bound; lia].
Qed.

(** The device after the registers up to [FEATURES_OK] have been written, and
    after the rest of them. *)
Definition negotiated (d : D) : D :=
  mmio_write STATUS 11 (mmio_write DRIVER_FEATURES 0
    (mmio_write STATUS 3 (mmio_write STATUS 1 (mmio_write STATUS 0 d)))).

Definition told (low high va : Z) (d : D) : D :=
  mmio_write high (wrap32 (Z.shiftr (phys va) 32)) (mmio_write low (wrap32 (phys va)) d).

Definition set_up (p : Slots) (d : D) : D :=
  mmio_write STATUS 15 (mmio_write QUEUE_READY 1
    (told QUEUE_DEVICE_LOW QUEUE_DEVICE_HIGH (used_at p)
    (told QUEUE_DRIVER_LOW QUEUE_DRIVER_HIGH (avail_at p)
    (told QUEUE_DESC_LOW QUEUE_DESC_HIGH (desc_at p)
    (mmio_write QUEUE_NUM QUEUE_SIZE (mmio_write QUEUE_SEL 0 (negotiated d))))))).

Lemma write_view_eq r x d v v' :
  dev_view d = v → (r = QUEUE_SEL → x = 0) →
  (r = STATUS → Z.testbit x 3 = true → v_features v = 0) →
  reg_write r x v = v' → dev_view (mmio_write r x d) = v'.
Proof. intros <- ?? <-. by apply write_view. Qed.

(** The view after a chain of writes. *)
Ltac views :=
  lazymatch goal with
  | |- dev_view (mmio_write _ _ _) = _ =>
      first [eassumption | eapply write_view_eq; [views|done|done|reflexivity]]
  | _ => eassumption
  end.

Lemma negotiated_view d : dev_view (negotiated d) = mkView 11 0 0 0 0 0 0 0 0 0 false.
Proof.
  unfold negotiated.
  assert (Hv : dev_view (mmio_write STATUS 0 d) = mkView 0 0 0 0 0 0 0 0 0 0 false).
  { eapply write_view_eq; [reflexivity|done|done|]. by destruct (dev_view d). }
  views.
Qed.

Lemma set_up_view p d : slots_ok p → dev_view (set_up p d) =
  mkView 15 0 1 QUEUE_SIZE (phys (desc_at p)) (phys (avail_at p)) (phys (used_at p)) 0 0 0 false.
Proof.
  intros [HT HA HU _ _ _ _ _ _ _ _ _ _ _ _ _ _ _].
  pose proof (negotiated_view d) as Hv.
  assert (Hr : ∀ va n, 0 ≤ n → in_kernel va n → in_range 64 (phys va)).
  { intros. unfold in_kernel, phys, in_range, VM_OFFSET, VM_BASE, PM_BASE in *. lia. }
  etrans; [unfold set_up, told; views|].
  set (lh := λ va, set_high (set_low 0 (wrap32 (phys va))) (wrap32 (Z.shiftr (phys va) 32))).
  trans (mkView 15 0 1 QUEUE_SIZE (lh (desc_at p)) (lh (avail_at p)) (lh (used_at p)) 0 0 0 false).
  - reflexivity.
  - f_equal; apply set_low_high; (eapply Hr; [|eassumption]; lia).
Qed.

Lemma negotiated_disk d : same_disk d (negotiated d).
Proof. unfold negotiated. repeat (eapply same_disk_trans; [|apply write_disk]). by split. Qed.

Lemma set_up_disk p d : same_disk d (set_up p d).
Proof.
  unfold set_up, told. do 10 (eapply same_disk_trans; [|apply write_disk]). apply negotiated_disk.
Qed.

(** The queue, zeroed. *)
Definition zeroed (p : Slots) (m : Ram) : Ram :=
  store 36 (phys (used_at p)) 0 (store 12 (phys (avail_at p)) 0 (store 64 (phys (desc_at p)) 0 m)).

Lemma init_run p (w : W) :
  init (desc_at p) (avail_at p) (used_at p) w =
  if bool_decide (genuine (vw_dev w)) then
    Ret (mkVirtio (desc_at p) (avail_at p) (used_at p) (dev_capacity (vw_dev w)),
         mkVW (set_up p (vw_dev w)) (zeroed p (vw_ram w)) (vw_notif w) (vw_inst w))
  else Panic AssertFailed.
Proof.
  unfold init, genuine.
  do 3 (erewrite run_bind by reflexivity; rewrite run_assert;
        case_bool_decide; [|rewrite bool_decide_eq_false_2 by tauto; reflexivity]).
  do 7 (erewrite run_bind by reflexivity).
  set (w1 := mkVW (negotiated (vw_dev w)) (vw_ram w) (vw_notif w) (vw_inst w)).
  set (w2 := with_dev (mmio_write QUEUE_SEL 0) w1).
  assert (HS : mmio_read STATUS (vw_dev w1) = 11).
  { cbn [w1 vw_dev]. by rewrite read_status, negotiated_view. }
  assert (HR : mmio_read QUEUE_READY (vw_dev w2) = 0).
  { cbn [w2 w1 with_dev vw_dev]. rewrite read_ready.
    by rewrite (write_view_eq _ _ _ _ _ (negotiated_view (vw_dev w)) (λ _, eq_refl)
      (λ _ _, eq_refl) eq_refl). }
  assert (HN : mmio_read QUEUE_NUM_MAX (vw_dev w2) = mmio_read QUEUE_NUM_MAX (vw_dev w)).
  { cbn [w2 w1 with_dev vw_dev]. unfold negotiated. by rewrite !read_num_max. }
  assert (HC : mmio_read CONFIG (vw_dev w1) = dev_capacity (vw_dev w)).
  { cbn [w1 vw_dev]. rewrite read_config. apply negotiated_disk. }
  change (with_dev _ (with_dev _ _)) with w1. rewrite HS, run_assert.
  change (bool_decide _) with true at 1. cbv iota.
  erewrite run_bind by reflexivity. rewrite HC. erewrite run_bind by reflexivity.
  change (with_dev (mmio_write QUEUE_SEL 0) w1) with w2.
  erewrite run_bind by reflexivity. rewrite HR, run_assert. change (bool_decide (0 = 0)) with true. cbv iota.
  erewrite run_bind by reflexivity. rewrite HN, run_assert.
  case_bool_decide; [|rewrite bool_decide_eq_false_2 by tauto; reflexivity].
  rewrite bool_decide_eq_true_2 by tauto. reflexivity.
Qed.

(** The set-up device with a zeroed queue is ready. *)
Lemma set_up_ready p (w : W) :
  slots_ok p → fresh w →
  ready p (mkVW (set_up p (vw_dev w)) (zeroed p (vw_ram w)) 0
    (Some (mkVirtio (desc_at p) (avail_at p) (used_at p) (dev_capacity (vw_dev w))))).
Proof.
  intros Hp [_ _ Hby Hok]. destruct (set_up_disk p (vw_dev w)) as [Hc Hg].
  assert (HA : ∀ o, 0 ≤ o → o + 2 ≤ 12 → load 2 (phys (avail_at p) + o) (zeroed p (vw_ram w)) = 0).
  { intros o H1' H2'. unfold zeroed. pose proof (so_AU _ Hp).
    rewrite load_store_other by apart_tac. apply load_store_zero; lia. }
  split; cbn [vw_dev vw_ram vw_notif vw_inst]; rewrite ?set_up_view by done; try done.
  - by rewrite Hc.
  - rewrite HA by lia. done.
  - rewrite <-(Z.add_0_r (phys (avail_at p))). by apply HA.
  - unfold zeroed. by repeat apply store_range.
  - eapply disk_ok; [by apply set_up_disk|done].
Qed.
End Init.

(** ** The driver implements the block device *)

(** C5: once set up, the driver does for one sector what the block device of
    [Disk.v] does, wherever the interrupt falls: a read leaves in the buffer
    exactly the contents of the sector and changes nothing on the disk, a write
    puts exactly the buffer on the disk, neither touches other memory than the
    queue, its stack slots and (in a read) the buffer, both leave the driver
    ready for the next request, and a sector beyond the capacity panics. *)
Theorem virtio_implements_block_device {D} `{VirtioLaws D} p (w : VW D) sector buf early :
  slots_ok p → buffer_ok p buf → in_range 64 sector → ready p w →
  let B := phys buf in
  (match read_sector sector (vw_dev w) with
   | Ret (b, d) => ∃ w', virtio_read_sector p sector buf early w = Ret ((), w') ∧
       ready p w' ∧ ram_bytes B SECTOR_SIZE (vw_ram w') = b ∧ same_disk d (vw_dev w') ∧
       ∀ a, ¬ driver_memory p a → ¬ (B ≤ a < B + SECTOR_SIZE) → vw_ram w' a = vw_ram w a
   | Panic e => virtio_read_sector p sector buf early w = Panic e
   end) ∧
  (match write_sector sector (ram_bytes B SECTOR_SIZE (vw_ram w)) (vw_dev w) with
   | Ret (_, d) => ∃ w', virtio_write_sector p sector buf early w = Ret ((), w') ∧
       ready p w' ∧ same_disk d (vw_dev w') ∧
       ∀ a, ¬ driver_memory p a → vw_ram w' a = vw_ram w a
   | Panic e => virtio_write_sector p sector buf early w = Panic e
   end).
Proof.
  intros Hp Hb Hs Hr B. pose proof (rd_used_range _ _ Hr) as Hus.
  unfold virtio_read_sector, virtio_write_sector. split.
  - destruct (request_run p In sector buf early
      (check_used (mkVirtio (desc_at p) (avail_at p) (used_at p) (dev_capacity (vw_dev w)))
        (status_at p) (SECTOR_SIZE + 1)) w Hp Hb Hs Hr)
      as (d & m & Hrun & Hr' & Hfr & HU & Hout).
    unfold read_sector. unmonad. rewrite (virtio_get_ready p) by done.
    unfold assert_. case_bool_decide as Hc.
    + destruct Hout as (Hst & Hlen & Hbuf & Hsd).
      exists (mkVW (mmio_write INTERRUPT_ACK 1 d) m 0 (vw_inst w)). split_and!; [|done..| |].
      * etrans; [exact Hrun|]. etrans; [by eapply finish_run|]. by rewrite bool_decide_eq_true_2.
      * by eapply same_disk_trans, write_disk.
      * intros a Ha Hna. apply Hfr; [done|]. tauto.
    + etrans; [exact Hrun|]. etrans; [by eapply finish_run|]. rewrite bool_decide_eq_false_2; tauto.
  - destruct (request_run p Out sector buf early
      (check_used (mkVirtio (desc_at p) (avail_at p) (used_at p) (dev_capacity (vw_dev w)))
        (status_at p) 1) w Hp Hb Hs Hr)
      as (d & m & Hrun & Hr' & Hfr & HU & Hout).
    unfold write_sector. unmonad. rewrite (virtio_get_ready p) by done.
    unfold assert_. case_bool_decide as Hc.
    + destruct Hout as (Hst & Hlen & Hsd).
      exists (mkVW (mmio_write INTERRUPT_ACK 1 d) m 0 (vw_inst w)). split_and!; [|done..| |].
      * etrans; [exact Hrun|]. etrans; [by eapply finish_run|]. by rewrite bool_decide_eq_true_2.
      * by eapply same_disk_trans, write_disk.
      * intros a Ha. apply Hfr; [done|]. by intros [? _].
    + etrans; [exact Hrun|]. etrans; [by eapply finish_run|]. rewrite bool_decide_eq_false_2; tauto.
Qed.


(** ** A device that keeps the promises

    It serves the request at its position of the available ring at once, with
    the sectors in a function; the witnesses run the driver on it. *)
Record Model : Type := mkModel { m_view : View; m_cap : Z; m_get : Z → bytes }.

#[export] Instance model_block : BlockDevice Model := {
  dev_capacity := m_cap;
  dev_get := m_get;
  dev_put s b d := mkModel (m_view d) (m_cap d) (λ s', if bool_decide (s' = s) then b else m_get d s')
}.

#[export] Instance model_block_laws : BlockDeviceLaws Model.
Proof.
  refine {| dev_ok d := ∀ s, 0 ≤ s < m_cap d → is_sector (m_get d s) |}.
  - intros d s Hok. apply Hok.
  - intros d s b Hok Hs Hb. split; [|done]. intros s' Hs'. cbn in *. case_bool_decide; auto.
  - done.
Defined.

(** The bytes [b] at [a]. *)
Definition put_bytes (a : Z) (b : bytes) (m : Ram) : Ram := λ c,
  if decide (a ≤ c < a + zlen b) then b !!! Z.to_nat (c - a) else m c.

(** Status, length and memory before the used ring is written. *)
Definition model_answer (m : Ram) (d : Model) (code sector buf : Z) : Model * Ram * Z * Z :=
  if bool_decide (0 ≤ sector < m_cap d) then
    if decide (code = 0) then (d, put_bytes buf (m_get d sector) m, 0, SECTOR_SIZE + 1)
    else (dev_put sector (ram_bytes buf SECTOR_SIZE m) d, m, 0, 1)
  else (d, m, 1, 1).

Definition put_used (U used id len : Z) (m : Ram) : Ram :=
  store 2 (U + 2) (wrap16 (used + 1))
    (store 4 (U + 4 + 8 * (used mod QUEUE_SIZE) + 4) len
      (store 4 (U + 4 + 8 * (used mod QUEUE_SIZE)) id m)).

Definition model_serve (m : Ram) (d : Model) : Model * Ram :=
  let v := m_view d in
  let h := load 2 (v_driver v + 4 + 2 * (v_last v mod QUEUE_SIZE)) m in
  let d0 := desc_of (v_desc v) h m in
  let d1 := desc_of (v_desc v) (d_next d0) m in
  let d2 := desc_of (v_desc v) (d_next d1) m in
  let '(d', m', st, len) :=
    model_answer m d (load 4 (d_addr d0) m) (load 8 (d_addr d0 + 8) m) (d_addr d1) in
  (mkModel (served v) (m_cap d') (m_get d'),
   put_used (v_device v) (v_used v) h len (store 1 (d_addr d2) st m')).

#[export] Instance model_device : VirtioDevice Model := {
  mmio_read r d :=
    if decide (r = MAGIC_VALUE) then 0x74726976
    else if decide (r = VERSION) then 2
    else if decide (r = DEVICE_ID) then 2
    else if decide (r = QUEUE_NUM_MAX) then 1024
    else if decide (r = STATUS) then v_status (m_view d)
    else if decide (r = QUEUE_READY) then v_ready (m_view d)
    else if decide (r = INTERRUPT_STATUS) then v_isr (m_view d)
    else if decide (r = CONFIG) then m_cap d
    else 0;
  mmio_write r x d := mkModel (reg_write r x (m_view d)) (m_cap d) (m_get d);
  dev_serve := model_serve
}.

Lemma put_bytes_same a b m : ram_bytes a (zlen b) (put_bytes a b m) = b.
Proof.
  apply list_eq. intros i. unfold ram_bytes. rewrite list_lookup_fmap.
  destruct (decide (i < length b)%nat) as [Hi|Hi].
  - rewrite lookup_seqZ_lt by (unfold zlen; lia). cbn. unfold put_bytes.
    rewrite decide_True by (unfold zlen; lia). replace (a + Z.of_nat i - a) with (Z.of_nat i) by lia.
    rewrite Nat2Z.id. symmetry. by apply list_lookup_lookup_total_lt.
  - rewrite lookup_seqZ_ge by (unfold zlen; lia). cbn. symmetry. apply lookup_ge_None. lia.
Qed.

Lemma put_bytes_range a b m : is_bytes b → (∀ c, in_range 8 (m c)) →
  ∀ c, in_range 8 (put_bytes a b m c).
Proof.
  intros Hb Hm c. unfold put_bytes. case_decide; [|done].
  rewrite Forall_forall in Hb. apply Hb, list_elem_of_lookup_total_2. unfold zlen in *. lia.
Qed.

(** The used ring after a request. *)
Lemma put_used_spec U used id len m : in_range 32 len → in_range 16 used →
  let m' := put_used U used id len m in
  load 2 (U + 2) m' = wrap16 (used + 1) ∧
  load 4 (U + 4 + 8 * (used mod QUEUE_SIZE) + 4) m' = len ∧
  (∀ a n, apart a (Z.of_nat n) U 36 → load n a m' = load n a m) ∧
  (∀ a, ¬ (U ≤ a < U + 36) → m' a = m a) ∧
  ((∀ a, in_range 8 (m a)) → ∀ a, in_range 8 (m' a)).
Proof.
  intros Hl Hu m'. pose proof (Z.mod_pos_bound used QUEUE_SIZE eq_refl) as Hm.
  change (0 ≤ used mod QUEUE_SIZE < 4) in Hm. unfold m', put_used. split_and!.
  - apply load_store_same, Z.mod_pos_bound. lia.
  - rewrite load_store_other by (unfold apart; lia). by apply load_store_same.
  - unfold apart. intros a n Ha. by rewrite !load_store_other by (unfold apart; lia).
  - intros a Ha. by rewrite !store_other by lia.
  - intros. by repeat apply store_range.
Qed.

(** What the answer is, in either direction. *)
Lemma model_answer_spec m d t sector buf : dev_ok d → (∀ a, in_range 8 (m a)) →
  ∃ d' m' st len, model_answer m d (req_type_code t) sector buf = (d', m', st, len) ∧
    in_range 8 st ∧ in_range 32 len ∧ (∀ a, in_range 8 (m' a)) ∧
    (∀ a, ¬ (t = In ∧ buf ≤ a < buf + SECTOR_SIZE) → m' a = m a) ∧
    if bool_decide (0 ≤ sector < dev_capacity d) then
      st = 0 ∧
      match t with
      | In => len = SECTOR_SIZE + 1 ∧ ram_bytes buf SECTOR_SIZE m' = dev_get d sector ∧ d' = d
      | Out => len = 1 ∧ d' = dev_put sector (ram_bytes buf SECTOR_SIZE m) d
      end
    else st ≠ 0 ∧ d' = d.
Proof.
  intros Hok Hby. unfold model_answer. cbn [dev_capacity model_block].
  case_bool_decide as Hc; [destruct t|]; cbn [req_type_code decide].
  - destruct (Hok sector Hc) as [Hl Hb]. eexists _, _, _, _. split; [reflexivity|].
    split_and!; try done; try (cbn; lia).
    + by apply put_bytes_range.
    + intros a Ha. unfold put_bytes. cbn in Hl. rewrite Hl. rewrite decide_False; [done|].
      intros ?. by apply Ha.
    + cbn in Hl. rewrite <-Hl. apply put_bytes_same.
  - eexists _, _, _, _. split; [reflexivity|]. by split_and!.
  - eexists _, _, _, _. split; [reflexivity|]. by split_and!.
Qed.

#[export] Instance model_laws : VirtioLaws Model.
Proof.
  refine {| dev_view := m_view |}; try done.
  - intros d d' [Hc Hg] Hok s Hs. cbn in *. rewrite Hg. apply Hok. by rewrite <-Hc.
  - intros T A U d m h t sector buf stat v Hlv Hno _ _ _ Hla Hus Hf Hi Hr Hch B1 B2 B3 Hby Hok.
    destruct Hlv as [_ _ _ _ HT HA HU].
    destruct Hch as (_ & _ & Hcode & Hsec & Hbuf & _ & _ & Hstat & _ & _).
    destruct (model_answer_spec m d t sector buf Hok Hby)
      as (d' & m' & st & len & Ha & Hst & Hlen & Hby' & Hfr & Hres).
    set (m2 := store 1 stat st m').
    destruct (put_used_spec U (v_used v) h len m2 Hlen Hus) as (P1 & P2 & P3 & P4 & P5).
    exists (mkModel (served v) (m_cap d') (m_get d')), (put_used U (v_used v) h len m2).
    split.
    { cbn [dev_serve model_device]. unfold model_serve. fold v.
      by rewrite HT, HA, HU, Hr, Hcode, Hsec, Hbuf, Hstat, Ha. }
    split_and!; [done|done|by apply P5, store_range| |].
    + intros a H1 H2 H3. rewrite P4 by done. unfold m2. rewrite store_other by lia. by apply Hfr.
    + cbv zeta. rewrite P2.
      assert (Hs1 : load 1 stat (put_used U (v_used v) h len m2) = st).
      { rewrite P3 by done. by apply load_store_same. }
      rewrite Hs1. case_bool_decide.
      * destruct Hres as [-> Hres]. split; [done|]. destruct t.
        -- destruct Hres as (-> & Hd & ->). split_and!; [done| |done].
           rewrite <-Hd. etrans; [|by apply (ram_bytes_store 1 stat 0)].
           apply ram_bytes_ext. intros a Haa. apply P4. unfold apart in B2. lia.
        -- by destruct Hres as [-> ->].
      * by destruct Hres as [? ->].
Defined.

(** A disk of eight sectors, each filled with its number, and a queue at
    [0x80400000]. *)
Definition demo_slots : Slots :=
  mkSlots (VM_OFFSET + 0x80400000) (VM_OFFSET + 0x80400040) (VM_OFFSET + 0x80400080)
    (VM_OFFSET + 0x80500000) (VM_OFFSET + 0x80500010).

Definition demo_buffer : Z := VM_OFFSET + 0x80600000.

Definition demo_world : VW Model :=
  mkVW (mkModel (mkView 0 0 0 0 0 0 0 0 0 0 false) 8 (λ s, replicate 512 (s mod 256)))
    (λ _, 0) 0 None.

Lemma demo_slots_ok : slots_ok demo_slots.
Proof. split; try reflexivity; unfold in_kernel, apart; vm_compute; intuition discriminate. Qed.

Lemma demo_buffer_ok : buffer_ok demo_slots demo_buffer.
Proof. split; unfold in_kernel, apart; vm_compute; intuition discriminate. Qed.

Lemma demo_fresh : fresh demo_world.
Proof.
  split; try done. intros s Hs. change (is_sector (replicate 512 (s mod 256))).
  split; [reflexivity|]. apply Forall_replicate, Z.mod_pos_bound. lia.
Qed.


(** The world after the initialisation. *)
Definition demo_set_up : VW Model :=
  mkVW (set_up demo_slots (vw_dev demo_world)) (zeroed demo_slots (vw_ram demo_world)) 0
    (Some (mkVirtio (desc_at demo_slots) (avail_at demo_slots) (used_at demo_slots) 8)).

(** Reading sector 3 of it, with the interrupt before the wait. *)
Lemma virtio_implements_block_device_witness :
  ∃ w', virtio_read_sector demo_slots 3 demo_buffer true demo_set_up = Ret ((), w') ∧
    ram_bytes (phys demo_buffer) SECTOR_SIZE (vw_ram w') = replicate 512 3.
Proof.
  destruct (virtio_implements_block_device demo_slots demo_set_up 3 demo_buffer true
    demo_slots_ok demo_buffer_ok) as [Hrd _].
  - split; [discriminate|reflexivity].
  - exact (set_up_ready demo_slots demo_world demo_slots_ok demo_fresh).
  - destruct Hrd as (w' & E & _ & Hb & _). exists w'. split; [exact E|exact Hb].
Defined.
