(* ===== verification/Plic.v ===== *)
(** * The interrupt controller

    [device/plic.rs]: the registers of the RISC-V platform-level interrupt
    controller as the kernel addresses them.  The controller is hardware:
    [Plic] is reading and writing a register, [PlicLaws] what the PLIC
    specification says of the registers that configure it.  The theorem is that
    the address arithmetic keeps the registers apart, so that enabling and
    disabling one source changes that source only, and what [init] sets up. *)

From S2P Require Import Prelude Utils.

Class Plic (P : Type) := {
  plic_read : Z → P → Z * P;
  plic_write : Z → Z → P → P
}.

Definition VIRTIO0_ID : Z := 1.

(** ** Addresses *)

Definition get_priority_ptr (id : Z) : Z := PLIC_BASE + 0x4 * id.
Definition get_pending_ptr (id : Z) : Z := PLIC_BASE + 0x1000 + 0x4 * (id / 32).
Definition get_enable_ptr (hart_id id : Z) : Z :=
  PLIC_BASE + 0x2000 + 0x80 * (2 * hart_id + 1) + 0x4 * (id / 32).
Definition get_threshold_ptr (hart_id : Z) : Z := PLIC_BASE + 0x200000 + 0x1000 * (2 * hart_id + 1).
Definition get_completion_ptr (hart_id : Z) : Z :=
  PLIC_BASE + 0x200000 + 0x1000 * (2 * hart_id + 1) + 0x4.
Definition get_claim_ptr (hart_id : Z) : Z := get_completion_ptr hart_id.

(** The controller and the cell [HART_ID]. *)
Record PW (P : Type) : Type := mkPW { pw_plic : P; HART_ID : option Z }.
Arguments mkPW {P}. Arguments pw_plic {P}. Arguments HART_ID {P}.

Section Driver.
Context {P : Type} `{Plic P}.
Abbreviation W := (PW P).

Definition plic_read_volatile (a : Z) : M W Z := λ w,
  let '(v, p) := plic_read a (pw_plic w) in Ret (v, mkPW p (HART_ID w)).
Definition plic_write_volatile (a v : Z) : M W unit := modify (λ w,
  mkPW (plic_write a v (pw_plic w)) (HART_ID w)).

(** [*HART_ID.get()] *)
Definition hart_id : M W Z :=
  h ← gets HART_ID ; match h with Some h => mret h | None => fail Unreachable end.

Definition read_priority (id : Z) : M W Z := plic_read_volatile (get_priority_ptr id).
Definition write_priority (id val : Z) : M W unit := plic_write_volatile (get_priority_ptr id) val.

(** [1 << id % 32] in 32 bits *)
Definition id_bit (id : Z) : Z := Z.shiftl 1 (id mod 32).

Definition read_pending (id : Z) : M W bool :=
  v ← plic_read_volatile (get_pending_ptr id) ; mret (negb (Z.land v (id_bit id) =? 0)).

Definition read_enable (id : Z) : M W bool :=
  h ← hart_id ;
  v ← plic_read_volatile (get_enable_ptr h id) ; mret (negb (Z.land v (id_bit id) =? 0)).

Definition set_enable (id : Z) : M W unit :=
  h ← hart_id ;
  prev ← plic_read_volatile (get_enable_ptr h id) ;
  plic_write_volatile (get_enable_ptr h id) (Z.lor prev (id_bit id)).

Definition clear_enable (id : Z) : M W unit :=
  h ← hart_id ;
  prev ← plic_read_volatile (get_enable_ptr h id) ;
  plic_write_volatile (get_enable_ptr h id) (Z.land prev (bnot 32 (id_bit id))).

Definition read_threshold : M W Z := h ← hart_id ; plic_read_volatile (get_threshold_ptr h).
Definition write_threshold (val : Z) : M W unit :=
  h ← hart_id ; plic_write_volatile (get_threshold_ptr h) val.

Definition read_claim : M W Z := h ← hart_id ; plic_read_volatile (get_claim_ptr h).
Definition write_completion (val : Z) : M W unit :=
  h ← hart_id ; plic_write_volatile (get_completion_ptr h) val.

(** [init]; a [OnceCell] keeps its first value. *)
Definition plic_init (hart : Z) : M W unit :=
  modify (λ w, mkPW (pw_plic w) (Some (default hart (HART_ID w)))) ;;
  write_threshold 0 ;;
  write_priority VIRTIO0_ID 1 ;;
  set_enable VIRTIO0_ID.
End Driver.

(** ** What the controller promises

    Its memory map has room for 1023 sources and 15872 contexts.  A priority, a
    threshold and a word of enable bits read back as written, and writing one
    leaves the others; priorities and thresholds are at least one bit wide, and
    the enable bit of source 0, which does not exist, is always zero. *)
Definition source (id : Z) : Prop := 1 ≤ id < 1024.

Inductive register (a : Z) : Prop :=
  | reg_priority id : source id → a = get_priority_ptr id → register a
  | reg_enable h id : 0 ≤ h < 7936 → source id → a = get_enable_ptr h id → register a
  | reg_threshold h : 0 ≤ h < 7936 → a = get_threshold_ptr h → register a.

Definition legal (a v : Z) : Prop :=
  if decide (PLIC_BASE + 0x2000 ≤ a < PLIC_BASE + 0x200000) then
    in_range 32 v ∧ ((a - PLIC_BASE) mod 0x80 = 0 → Z.testbit v 0 = false)
  else 0 ≤ v ≤ 1.

Class PlicLaws (P : Type) `{Plic P} := {
  reg_value : Z → P → Z;
  read_register a p : register a → plic_read a p = (reg_value a p, p);
  write_register a v p b : register a → legal a v → register b →
    reg_value b (plic_write a v p) = if decide (b = a) then v else reg_value b p;
  enable_legal h id p : 0 ≤ h < 7936 → source id →
    legal (get_enable_ptr h id) (reg_value (get_enable_ptr h id) p)
}.

(** ** Addresses do not collide *)

Lemma register_enable h id : 0 ≤ h < 7936 → source id → register (get_enable_ptr h id).
Proof. intros. by apply (reg_enable _ h id). Qed.

Lemma enable_ptr_inj h id h' id' : 0 ≤ h < 7936 → 0 ≤ h' < 7936 → source id → source id' →
  get_enable_ptr h id = get_enable_ptr h' id' → h = h' ∧ id / 32 = id' / 32.
Proof.
  unfold source, get_enable_ptr. intros.
  pose proof (Z.div_lt_upper_bound id 32 32). pose proof (Z.div_lt_upper_bound id' 32 32).
  pose proof (Z.div_pos id 32). pose proof (Z.div_pos id' 32). lia.
Qed.

Lemma enable_ptr_range h id : 0 ≤ h < 7936 → source id →
  PLIC_BASE + 0x2000 ≤ get_enable_ptr h id < PLIC_BASE + 0x200000.
Proof.
  unfold source, get_enable_ptr. intros.
  pose proof (Z.div_lt_upper_bound id 32 32). pose proof (Z.div_pos id 32). lia.
Qed.

Lemma priority_ptr_range id : source id →
  PLIC_BASE < get_priority_ptr id < PLIC_BASE + 0x2000.
Proof. unfold source, get_priority_ptr. lia. Qed.

Lemma threshold_ptr_range h : 0 ≤ h < 7936 → PLIC_BASE + 0x200000 < get_threshold_ptr h.
Proof. unfold get_threshold_ptr. lia. Qed.

Lemma id_bit_testbit id k : 0 ≤ k → Z.testbit (id_bit id) k = bool_decide (k = id mod 32).
Proof.
  intros Hk. pose proof (Z.mod_pos_bound id 32 eq_refl). unfold id_bit.
  rewrite Z.shiftl_1_l, Z.pow2_bits_eqb by lia.
  case_bool_decide; [apply Z.eqb_eq|apply Z.eqb_neq]; lia.
Qed.

Lemma land_id_bit v id : negb (Z.land v (id_bit id) =? 0) = Z.testbit v (id mod 32).
Proof.
  pose proof (Z.mod_pos_bound id 32 eq_refl).
  destruct (Z.testbit v (id mod 32)) eqn:E.
  - apply negb_true_iff, Z.eqb_neq. intros H0.
    apply (f_equal (λ z, Z.testbit z (id mod 32))) in H0.
    rewrite Z.land_spec, E, id_bit_testbit, Z.bits_0, bool_decide_eq_true_2 in H0 by lia. done.
  - apply negb_false_iff, Z.eqb_eq, Z.bits_inj'. intros k Hk.
    rewrite Z.land_spec, id_bit_testbit, Z.bits_0 by done. case_bool_decide; [|by rewrite andb_false_r].
    subst. by rewrite E.
Qed.

Lemma set_id_bit v id k : 0 ≤ k < 32 →
  Z.testbit (Z.lor v (id_bit id)) k = bool_decide (k = id mod 32) || Z.testbit v k.
Proof. intros. rewrite Z.lor_spec, id_bit_testbit by lia. by rewrite orb_comm. Qed.

Lemma clear_id_bit v id k : 0 ≤ k < 32 →
  Z.testbit (Z.land v (bnot 32 (id_bit id))) k = negb (bool_decide (k = id mod 32)) && Z.testbit v k.
Proof.
  intros. rewrite Z.land_spec. unfold bnot, wrap.
  rewrite Z.mod_pow2_bits_low, Z.lnot_spec, id_bit_testbit by lia. by rewrite andb_comm.
Qed.

Lemma in_range_32_bits v : 0 ≤ v → (∀ k, 32 ≤ k → Z.testbit v k = false) → in_range 32 v.
Proof.
  intros H0 Hk. split; [done|]. destruct (decide (v = 0)) as [->|]; [done|].
  apply Z.log2_lt_pow2; [lia|]. destruct (Z.lt_ge_cases (Z.log2 v) 32) as [|Hge]; [done|].
  specialize (Hk _ Hge). rewrite Z.bit_log2 in Hk by lia. done.
Qed.

Lemma in_range_32_high v k : in_range 32 v → 32 ≤ k → Z.testbit v k = false.
Proof.
  intros [H0 Hv] Hk. destruct (decide (v = 0)) as [->|]; [apply Z.bits_0|].
  apply Z.bits_above_log2; [done|]. pose proof (Z.log2_lt_pow2 v 32). lia.
Qed.

Section Correct.
Context {P : Type} `{PlicLaws P}.
Abbreviation W := (PW P).

Definition enabled (h id : Z) (w : W) : bool :=
  Z.testbit (reg_value (get_enable_ptr h id) (pw_plic w)) (id mod 32).

(** The registers other than those named are as they were. *)
Definition others_kept (touched : Z → Prop) (w w' : W) : Prop :=
  ∀ a, register a → ¬ touched a → reg_value a (pw_plic w') = reg_value a (pw_plic w).

Lemma read_enable_run h id w : 0 ≤ h < 7936 → source id → HART_ID w = Some h →
  read_enable id w = Ret (enabled h id w, w).
Proof.
  intros Hh Hid Hw. unfold read_enable, hart_id, plic_read_volatile. unmonad. rewrite Hw.
  rewrite read_register by by apply register_enable. rewrite land_id_bit. by destruct w.
Qed.

(** Writing the word of enable bits that holds [id]. *)
Lemma enable_write h id v w : 0 ≤ h < 7936 → source id →
  legal (get_enable_ptr h id) v →
  let w' := mkPW (plic_write (get_enable_ptr h id) v (pw_plic w)) (HART_ID w) in
  others_kept (λ a, a = get_enable_ptr h id) w w' ∧
  ∀ h' id', 0 ≤ h' < 7936 → source id' →
    enabled h' id' w' =
      if bool_decide (h' = h ∧ id' / 32 = id / 32) then Z.testbit v (id' mod 32)
      else enabled h' id' w.
Proof.
  intros Hh Hid Hv w'. split.
  - intros a Ha Hna. unfold w'. cbn. rewrite write_register by (done || by apply register_enable).
    by rewrite decide_False.
  - intros h' id' Hh' Hid'. unfold enabled, w'. cbn.
    rewrite write_register by (done || by apply register_enable). case_decide as E.
    + apply enable_ptr_inj in E as [-> E]; try done. by rewrite bool_decide_eq_true_2.
    + rewrite bool_decide_eq_false_2; [done|]. intros [-> Eq]. apply E. unfold get_enable_ptr.
      by rewrite Eq.
Qed.

Lemma legal_enable h id v : 0 ≤ h < 7936 → source id →
  legal (get_enable_ptr h id) v ↔
  in_range 32 v ∧ (id / 32 = 0 → Z.testbit v 0 = false).
Proof.
  intros Hh Hid. unfold legal. rewrite decide_True by by apply enable_ptr_range.
  assert (E : (get_enable_ptr h id - PLIC_BASE) mod 0x80 = 4 * (id / 32)).
  { unfold get_enable_ptr, source in *.
    replace (PLIC_BASE + 0x2000 + 0x80 * (2 * h + 1) + 4 * (id / 32) - PLIC_BASE)
      with (4 * (id / 32) + (64 + 2 * h + 1) * 0x80) by lia.
    rewrite Z_mod_plus_full. apply Z.mod_small.
    pose proof (Z.div_lt_upper_bound id 32 32). pose proof (Z.div_pos id 32). lia. }
  rewrite E. split; intros [? Hb]; (split; [done|]); intros ?; apply Hb; lia.
Qed.

Lemma legal_set h id v : 0 ≤ h < 7936 → source id → legal (get_enable_ptr h id) v →
  legal (get_enable_ptr h id) (Z.lor v (id_bit id)) ∧
  legal (get_enable_ptr h id) (Z.land v (bnot 32 (id_bit id))).
Proof.
  intros Hh Hid. rewrite !legal_enable by done. intros [Hv Hb0].
  pose proof (Z.mod_pos_bound id 32 eq_refl) as Hm. pose proof (proj1 Hv).
  assert (Hid0 : id / 32 = 0 → 0 ≠ id mod 32).
  { intros E. pose proof (Z.div_mod id 32). unfold source in Hid. lia. }
  split; split.
  - apply in_range_32_bits; [apply Z.lor_nonneg; unfold id_bit; rewrite Z.shiftl_nonneg; lia|].
    intros k Hk. rewrite Z.lor_spec, id_bit_testbit, in_range_32_high by (done || lia).
    by rewrite bool_decide_eq_false_2 by lia.
  - intros E. rewrite set_id_bit, bool_decide_eq_false_2 by (lia || auto). auto.
  - apply in_range_32_bits; [apply Z.land_nonneg; by left|].
    intros k Hk. by rewrite Z.land_spec, in_range_32_high.
  - intros E. rewrite clear_id_bit, Hb0 by (lia || done). apply andb_false_r.
Qed.

(** [set_enable] and [clear_enable] change the bit of their source. *)
Lemma enable_run h id w (b : bool) : 0 ≤ h < 7936 → source id → HART_ID w = Some h →
  ∃ w', (if b then set_enable id w else clear_enable id w) = Ret ((), w') ∧
    HART_ID w' = HART_ID w ∧
    others_kept (λ a, a = get_enable_ptr h id) w w' ∧
    ∀ h' id', 0 ≤ h' < 7936 → source id' →
      enabled h' id' w' = if bool_decide (h' = h ∧ id' = id) then b else enabled h' id' w.
Proof.
  intros Hh Hid Hw.
  set (a := get_enable_ptr h id). set (v := reg_value a (pw_plic w)).
  assert (Hl : legal a v) by by apply enable_legal.
  destruct (legal_set h id v Hh Hid Hl) as [HS HC].
  set (v' := if b then Z.lor v (id_bit id) else Z.land v (bnot 32 (id_bit id))).
  assert (Hl' : legal a v') by by destruct b.
  exists (mkPW (plic_write a v' (pw_plic w)) (HART_ID w)).
  destruct (enable_write h id v' w Hh Hid Hl') as [Ho He]. split_and!; [|done|done|].
  - assert (Hr : plic_read a (pw_plic w) = (v, pw_plic w)).
    { apply read_register. by apply register_enable. }
    unfold v'. destruct b; unfold set_enable, clear_enable, hart_id, plic_read_volatile;
      unmonad; rewrite Hw; fold a; by rewrite Hr, <-Hw.
  - intros h' id' Hh' Hid'. rewrite He by done.
    pose proof (Z.mod_pos_bound id' 32 eq_refl) as Hm.
    assert (Hiff : id' = id ↔ id' / 32 = id / 32 ∧ id' mod 32 = id mod 32).
    { pose proof (Z.div_mod id' 32). pose proof (Z.div_mod id 32). split; [by intros ->|lia]. }
    assert (Hv' : Z.testbit v' (id' mod 32) =
      if bool_decide (id' mod 32 = id mod 32) then b else Z.testbit v (id' mod 32)).
    { unfold v'. destruct b; [rewrite set_id_bit by done|rewrite clear_id_bit by done];
        by case_bool_decide. }
    destruct (decide (h' = h ∧ id' = id)) as [[-> ->]|E2].
    + by rewrite Hv', !bool_decide_eq_true_2 by done.
    + rewrite (bool_decide_eq_false_2 (h' = h ∧ id' = id)) by done.
      destruct (decide (h' = h ∧ id' / 32 = id / 32)) as [[-> E]|E1];
        [rewrite bool_decide_eq_true_2 by done|by rewrite bool_decide_eq_false_2].
      rewrite Hv', bool_decide_eq_false_2 by naive_solver.
      unfold enabled, v, a, get_enable_ptr. by rewrite E.
Qed.

Lemma legal_level a v : ¬ (PLIC_BASE + 0x2000 ≤ a < PLIC_BASE + 0x200000) → 0 ≤ v ≤ 1 → legal a v.
Proof. intros. unfold legal. by rewrite decide_False. Qed.

Lemma source_virtio : source VIRTIO0_ID.
Proof. done. Qed.

(** The first two writes of [init]. *)
Lemma init_levels h p : 0 ≤ h < 7936 →
  let p' := plic_write (get_priority_ptr VIRTIO0_ID) 1 (plic_write (get_threshold_ptr h) 0 p) in
  reg_value (get_threshold_ptr h) p' = 0 ∧ reg_value (get_priority_ptr VIRTIO0_ID) p' = 1 ∧
  ∀ h' id', 0 ≤ h' < 7936 → source id' →
    reg_value (get_enable_ptr h' id') p' = reg_value (get_enable_ptr h' id') p.
Proof.
  intros Hh p'. pose proof (threshold_ptr_range h Hh) as HT.
  pose proof (priority_ptr_range _ source_virtio) as HP.
  assert (RT : register (get_threshold_ptr h)) by by apply (reg_threshold _ h).
  assert (RP : register (get_priority_ptr VIRTIO0_ID)) by by apply (reg_priority _ VIRTIO0_ID).
  assert (LT : legal (get_threshold_ptr h) 0) by (apply legal_level; lia).
  assert (LP : legal (get_priority_ptr VIRTIO0_ID) 1) by (apply legal_level; lia).
  unfold p'. split_and!.
  - rewrite write_register, decide_False by (done || lia).
    by rewrite write_register, decide_True.
  - by rewrite write_register, decide_True.
  - intros h' id' Hh' Hid'. pose proof (enable_ptr_range h' id' Hh' Hid').
    pose proof (register_enable h' id' Hh' Hid').
    by rewrite !write_register, !decide_False by (done || lia).
Qed.

Lemma plic_init_run h w : 0 ≤ h < 7936 → HART_ID w = None →
  plic_init h w = set_enable VIRTIO0_ID
    (mkPW (plic_write (get_priority_ptr VIRTIO0_ID) 1
            (plic_write (get_threshold_ptr h) 0 (pw_plic w))) (Some h)).
Proof. intros _ Hw. unfold plic_init. unmonad. by rewrite Hw. Qed.
(** What [init] leaves. *)
Lemma plic_init_done h w : 0 ≤ h < 7936 → HART_ID w = None →
  ∃ w', plic_init h w = Ret ((), w') ∧ HART_ID w' = Some h ∧
    read_threshold w' = Ret (0, w') ∧ read_priority VIRTIO0_ID w' = Ret (1, w') ∧
    read_enable VIRTIO0_ID w' = Ret (true, w') ∧
    (∀ h' id', 0 ≤ h' < 7936 → source id' → (h', id') ≠ (h, VIRTIO0_ID) →
       enabled h' id' w' = enabled h' id' w).
Proof.
  intros Hh Hw.
  rewrite plic_init_run by done.
  destruct (init_levels h (pw_plic w) Hh) as (VT & VP & VE).
  set (w1 := mkPW _ (Some h)).
  destruct (enable_run h VIRTIO0_ID w1 true Hh source_virtio eq_refl) as (w' & E & HwE & Ho & He).
  exists w'. pose proof (threshold_ptr_range h Hh) as HT.
  pose proof (priority_ptr_range _ source_virtio) as HP.
  pose proof (enable_ptr_range h _ Hh source_virtio) as HE.
  assert (RT : register (get_threshold_ptr h)) by by apply (reg_threshold _ h).
  assert (RP : register (get_priority_ptr VIRTIO0_ID)) by by apply (reg_priority _ VIRTIO0_ID).
  split_and!; [done|done| | | |].
  + unfold read_threshold, hart_id, plic_read_volatile. unmonad. rewrite HwE. cbn [w1 HART_ID].
    rewrite read_register by done.
    rewrite Ho by (done || lia). cbn [w1 pw_plic]. rewrite VT. by destruct w'.
  + unfold read_priority, plic_read_volatile. rewrite read_register by done.
    rewrite Ho by (done || lia). cbn [w1 pw_plic]. rewrite VP. by destruct w'.
  + rewrite (read_enable_run h) by done. rewrite He by done. by rewrite bool_decide_eq_true_2.
  + intros h' id' Hh' Hid' Hne. rewrite He by done.
    rewrite bool_decide_eq_false_2 by naive_solver. unfold enabled. cbn [w1 pw_plic].
    by rewrite VE.
Qed.
End Correct.

(** ** The theorem *)


(** ** A controller that keeps the promises

    A memory of registers in which the bit of source 0 reads as zero. *)
Definition masked (a v : Z) : Z :=
  if decide (PLIC_BASE + 0x2000 ≤ a < PLIC_BASE + 0x200000) then
    if decide ((a - PLIC_BASE) mod 0x80 = 0) then Z.clearbit (wrap32 v) 0 else wrap32 v
  else v.

#[export] Instance memory_plic : Plic (Z → Z) := {
  plic_read a p := (masked a (p a), p);
  plic_write a v p := λ b, if decide (b = a) then v else p b
}.

Lemma masked_legal a v : legal a v → masked a v = v.
Proof.
  unfold legal, masked. case_decide; [|done]. intros [Hv Hb]. rewrite wrap_small by done.
  case_decide as E; [|done]. apply Z.bits_inj'. intros k Hk. rewrite Z.clearbit_eqb.
  destruct (Z.eqb_spec 0 k) as [<- |]; [rewrite Hb by done; done|]. by rewrite andb_true_r.
Qed.

Lemma legal_masked a v : PLIC_BASE + 0x2000 ≤ a < PLIC_BASE + 0x200000 → legal a (masked a v).
Proof.
  intros Ha. unfold legal, masked. rewrite !decide_True by done.
  assert (Hw : in_range 32 (wrap32 v)) by (apply wrap_in_range; lia).
  case_decide; [|done]. split; [|intros _; apply Z.clearbit_eq].
  apply in_range_32_bits.
  - rewrite Z.clearbit_spec'. apply Z.ldiff_nonneg. left. apply Hw.
  - intros k Hk. rewrite Z.clearbit_eqb, in_range_32_high by done. done.
Qed.

#[export] Instance memory_plic_laws : PlicLaws (Z → Z).
Proof.
  refine {| reg_value a p := masked a (p a) |}; [done| |].
  - intros a v p b _ Hl _. cbn. case_decide as E; [|done]. subst. by apply masked_legal.
  - intros h id p Hh Hid. apply legal_masked. by apply enable_ptr_range.
Defined.

