(* ===== verification/Trap.v ===== *)
(** * The trap handler

    [trap_handler] of [trap.rs] with [trap/syscall.rs] and [trap/pagefault.rs].
    The handler works on the frame that the entry code of [Asm.v] has left in
    memory, and on the parts of the kernel it calls: the threads of [Sync.v], the
    disk driver of [Virtio.v], the interrupt controller of [Plic.v] and the page
    tables of [PageTable.v].  Calls that may switch threads are returned as
    frames of the machine of [Sync.v]. *)

From S2P Require Import Prelude Utils Malloc Intr Thread Scheduler Manager Sync PageTable Disk Virtio Plic Asm.

(** [scause] *)
Inductive Exception : Type :=
  | UserEnvCall | InstructionFault | IllegalInstruction
  | LoadPageFault | StorePageFault | InstructionPageFault | OtherException.

Inductive Cause : Type :=
  | CException (e : Exception)
  | SupervisorTimer
  | SupervisorExternal
  | OtherInterrupt.

(** The part of the machine and the kernel that the handler touches: the memory
    with the frame, [stvec], [sstatus.SIE], [satp], and the components. *)
Record TK (Sc D P K : Type) : Type := mkTK {
  tk_mem : Z → Z;
  tk_stvec : label;
  tk_sie : bool;
  tk_satp : Z;
  tk_sys : Sys Sc;
  tk_disk : VW D;
  tk_plic : PW P;
  tk_pt : K
}.
Arguments mkTK {Sc D P K}. Arguments tk_mem {Sc D P K}. Arguments tk_stvec {Sc D P K}.
Arguments tk_sie {Sc D P K}. Arguments tk_satp {Sc D P K}. Arguments tk_sys {Sc D P K}.
Arguments tk_disk {Sc D P K}. Arguments tk_plic {Sc D P K}. Arguments tk_pt {Sc D P K}.

(** The addresses of the labels in the assembly of [mem/userbuf.rs]. *)
Record UserLabels : Type := mkUserLabels {
  knrl_read_usr_byte_pc : Z;
  knrl_read_usr_exit : Z;
  knrl_write_usr_byte_pc : Z;
  knrl_write_usr_exit : Z
}.

(** [syscall_handler]; an [isize]. *)
Definition syscall_handler (_id : Z) (_args : list Z) : Z := -1.

Section Handler.
Context {Sc D P K : Type} `{Schedule Sc} `{VirtioDevice D} `{Plic P} `{PageSource K}.
Context (F : Type) `{Bitflags F} (lab : UserLabels).
Abbreviation T := (TK Sc D P K).

Definition tk_set_mem (f : (Z → Z) → Z → Z) (s : T) : T :=
  mkTK (f (tk_mem s)) (tk_stvec s) (tk_sie s) (tk_satp s) (tk_sys s) (tk_disk s) (tk_plic s) (tk_pt s).
Definition tk_set_stvec (l : label) (s : T) : T :=
  mkTK (tk_mem s) l (tk_sie s) (tk_satp s) (tk_sys s) (tk_disk s) (tk_plic s) (tk_pt s).
Definition tk_set_sie (b : bool) (s : T) : T :=
  mkTK (tk_mem s) (tk_stvec s) b (tk_satp s) (tk_sys s) (tk_disk s) (tk_plic s) (tk_pt s).

(** Running an operation of a component. *)
Definition on_sys {A} (m : M (Sys Sc) A) : M T A := λ s,
  '(a, x) ← m (tk_sys s) ;
  Ret (a, mkTK (tk_mem s) (tk_stvec s) (tk_sie s) (tk_satp s) x (tk_disk s) (tk_plic s) (tk_pt s)).
Definition on_disk {A} (m : M (VW D) A) : M T A := λ s,
  '(a, x) ← m (tk_disk s) ;
  Ret (a, mkTK (tk_mem s) (tk_stvec s) (tk_sie s) (tk_satp s) (tk_sys s) x (tk_plic s) (tk_pt s)).
Definition on_plic {A} (m : M (PW P) A) : M T A := λ s,
  '(a, x) ← m (tk_plic s) ;
  Ret (a, mkTK (tk_mem s) (tk_stvec s) (tk_sie s) (tk_satp s) (tk_sys s) (tk_disk s) x (tk_pt s)).
Definition on_pt {A} (m : M K A) : M T A := λ s,
  '(a, x) ← m (tk_pt s) ;
  Ret (a, mkTK (tk_mem s) (tk_stvec s) (tk_sie s) (tk_satp s) (tk_sys s) (tk_disk s) (tk_plic s) x).

(** The fields of the frame at [fr] ([Asm.frame_at]). *)
Definition get_x (fr i : Z) : M T Z := gets (λ s, tk_mem s (fr + 8 * i)).
Definition set_x (fr i v : Z) : M T unit := modify (tk_set_mem (λ m, Asm.upd m (fr + 8 * i) v)).
Definition get_sstatus (fr : Z) : M T Z := gets (λ s, tk_mem s (fr + 256)).
Definition get_sepc (fr : Z) : M T Z := gets (λ s, tk_mem s (fr + 264)).
Definition set_sepc (fr v : Z) : M T unit := modify (tk_set_mem (λ m, Asm.upd m (fr + 264) v)).

(** [set_strap_entry] and [sstatus::set_sie] *)
Definition set_strap_entry : M T unit := modify (tk_set_stvec LTrapEntryK).
Definition set_sie : M T unit := modify (tk_set_sie true).

(** [sstatus.spp()]: whether the trap came from supervisor mode. *)
Definition spp (sstatus : Z) : bool := Z.testbit sstatus 8.

(** [userproc::exit] *)
Definition userproc_exit (_value : Z) : M T (list frame) := mret [FExit].

(** [pagefault::handler]; [present] only goes to the log. *)
Definition pagefault_handler (fr : Z) (fault : Exception) (addr : Z) : M T (list frame) :=
  sstatus ← get_sstatus fr ;
  let privilege := spp sstatus in
  satp ← gets tk_satp ;
  e ← on_pt (table ← effective_pagetable satp ; get_pte F table addr) ;
  let present := match e with Some e => is_valid (F := F) e | None => false end in
  set_sie ;;
  (match fault with
   | StorePageFault | LoadPageFault | InstructionPageFault => mret ()
   | _ => fail Explicit
   end) ;;
  if (privilege : bool) then
    sepc ← get_sepc fr ;
    if bool_decide (sepc = knrl_read_usr_byte_pc lab) then
      set_x fr 11 1 ;; set_sepc fr (knrl_read_usr_exit lab) ;; mret []
    else if bool_decide (sepc = knrl_write_usr_byte_pc lab) then
      set_x fr 11 1 ;; set_sepc fr (knrl_write_usr_exit lab) ;; mret []
    else fail Explicit
  else userproc_exit (-1).

(** [trap_handler]: the frames are what the thread goes on with before it
    returns to the exit code. *)
Definition trap_handler (fr : Z) (scause : Cause) (stval : Z) : M T (list frame) :=
  set_strap_entry ;;
  match scause with
  | CException UserEnvCall =>
      id ← get_x fr 17 ;
      a0 ← get_x fr 10 ; a1 ← get_x fr 11 ; a2 ← get_x fr 12 ;
      set_sie ;;
      sepc ← get_sepc fr ;
      set_sepc fr (wrap64 (sepc + 4)) ;;
      set_x fr 10 (wrap64 (syscall_handler id [a0; a1; a2])) ;;
      mret []
  | SupervisorTimer =>
      on_sys tick ;;
      set_sie ;;
      mret [FSchedule]
  | SupervisorExternal =>
      id ← on_plic read_claim ;
      (if bool_decide (id = 0) then fail Explicit
       else if bool_decide (id = VIRTIO0_ID) then on_disk handle_interrupt
       else fail Explicit) ;;
      on_plic (write_completion id) ;;
      mret []
  | CException InstructionFault | CException IllegalInstruction => fail Explicit
  | CException LoadPageFault => pagefault_handler fr LoadPageFault stval
  | CException StorePageFault => pagefault_handler fr StorePageFault stval
  | CException InstructionPageFault => pagefault_handler fr InstructionPageFault stval
  | CException OtherException | OtherInterrupt => fail Unimplemented
  end.
End Handler.

(** ** What the handler does to a frame *)

Section Frames.
Context {Sc D P K : Type} `{Schedule Sc} `{VirtioDevice D} `{Plic P} `{PageSourceLaws K}.
Context {F : Type} `{BitflagsLaws F} (lab : UserLabels).
Abbreviation T := (TK Sc D P K).

(** The page table in [satp] is one the kernel has built. *)
Definition table_ok (s : T) : Prop :=
  ∃ root, effective_pagetable (tk_satp s) (tk_pt s) = Ret (root, tk_pt s) ∧
    pt_wf (F := F) (tk_pt s) root.

(** [s'] differs from [s] in the frame, [stvec] and [SIE] alone. *)
Definition handled (s s' : T) (m : Z → Z) : Prop :=
  s' = tk_set_mem (λ _, m) (tk_set_sie true (tk_set_stvec LTrapEntryK s)).

(** The call of [get_pte] that decides the text of the log line. *)
Lemma present_run (s : T) addr : table_ok s →
  ∃ e, on_pt (table ← effective_pagetable (tk_satp s) ; get_pte F table addr) s = Ret (e, s).
Proof.
  intros (root & HR & (Tr & held & Hpt)). eexists.
  unfold on_pt. unfold mbind, outcome_bind, M_bind. rewrite HR.
  rewrite (get_pte_spec _ _ _ _ addr Hpt). by destruct s.
Qed.

Definition page_fault (f : Exception) : Prop :=
  f = LoadPageFault ∨ f = StorePageFault ∨ f = InstructionPageFault.

(** A page fault: an access of [mem/userbuf.rs] goes on behind the access with
    [a1] set, any other supervisor fault panics, a user thread exits. *)
Lemma fault_run (s : T) fr f addr : page_fault f → table_ok s →
  let sepc := tk_mem s (fr + 264) in
  let patched exit := Asm.upd (Asm.upd (tk_mem s) (fr + 8 * 11) 1) (fr + 264) exit in
  if spp (tk_mem s (fr + 256)) then
    if bool_decide (sepc = knrl_read_usr_byte_pc lab) then
      ∃ s', trap_handler F lab fr (CException f) addr s = Ret ([], s') ∧
        handled s s' (patched (knrl_read_usr_exit lab))
    else if bool_decide (sepc = knrl_write_usr_byte_pc lab) then
      ∃ s', trap_handler F lab fr (CException f) addr s = Ret ([], s') ∧
        handled s s' (patched (knrl_write_usr_exit lab))
    else trap_handler F lab fr (CException f) addr s = Panic Explicit
  else ∃ s', trap_handler F lab fr (CException f) addr s = Ret ([FExit], s').
Proof.
  intros Hf Ht. cbv zeta.
  set (s1 := tk_set_stvec LTrapEntryK s).
  assert (Ht1 : table_ok s1) by done.
  destruct (present_run s1 addr Ht1) as [e He].
  assert (HH : trap_handler F lab fr (CException f) addr s = pagefault_handler F lab fr f addr s1).
  { by destruct Hf as [-> | [-> | ->]]. }
  rewrite HH. unfold pagefault_handler.
  erewrite run_bind by reflexivity. erewrite run_bind by reflexivity.
  erewrite run_bind by exact He. erewrite run_bind by reflexivity.
  erewrite run_bind by (destruct Hf as [-> | [-> | ->]]; reflexivity).
  change (tk_mem s1) with (tk_mem s).
  destruct (spp (tk_mem s (fr + 256))); [|eexists; reflexivity].
  erewrite run_bind by reflexivity. change (tk_mem (tk_set_sie true s1)) with (tk_mem s).
  case_bool_decide; [eexists; split; reflexivity|].
  case_bool_decide; [eexists; split; reflexivity|reflexivity].
Qed.

(** A system call: [a0] and [sepc] of the frame change. *)
Lemma syscall_run (s : T) fr addr :
  ∃ s', trap_handler F lab fr (CException UserEnvCall) addr s = Ret ([], s') ∧
    handled s s' (Asm.upd (Asm.upd (tk_mem s) (fr + 264) (wrap64 (tk_mem s (fr + 264) + 4)))
                   (fr + 8 * 10) (2 ^ 64 - 1)).
Proof. eexists. split; reflexivity. Qed.
End Frames.

(** C27: a system call, from the [ecall] back to the user program.  The entry
    code hands the handler the frame; the handler returns without switching and
    with interrupts on; and from any state with its stack pointer and memory the
    exit code resumes the program behind the [ecall] with -1 in [a0], every other
    register and [sstatus] as they were and [sscratch] again the kernel stack. *)
Theorem syscall_roundtrip {Sc D P K} `{Schedule Sc} `{VirtioDevice D} `{Plic P} `{PageSourceLaws K}
    {F} `{BitflagsLaws F} lab addr s kstack :
  csrs s Sscratch = kstack → FRAME_SIZE ≤ kstack < 2 ^ 64 →
  ∃ s1, run addr trap_entry_u s = (s1, Some (JCall LTrapHandler)) ∧
    ∀ (tk : TK Sc D P K) stval, tk_mem tk = mem s1 →
    ∃ tk', trap_handler F lab (x s1 a0) (CException UserEnvCall) stval tk = Ret ([], tk') ∧
      tk_sie tk' = true ∧ tk_sys tk' = tk_sys tk ∧
      ∀ s2, reg s2 sp = x s1 a0 → mem s2 = tk_mem tk' →
        ∃ r, run addr trap_exit_u s2 = (r, Some JSret) ∧
          (∀ i, 1 ≤ i < 32 → x r i = if decide (i = a0) then 2 ^ 64 - 1 else x s i) ∧
          csrs r Sepc = wrap64 (csrs s Sepc + 4) ∧ csrs r Sstatus = csrs s Sstatus ∧
          csrs r Sscratch = kstack.
Proof.
  intros Hk HR. destruct (entry_u_run addr s kstack Hk HR) as (s1 & HE & Hsav & Hx2).
  exists s1. split; [done|]. intros tk stval Hm.
  destruct Hsav as (Hsp & Ha0 & Hx & Hst & Hep & _). set (fr := kstack - FRAME_SIZE) in *.
  destruct (syscall_run (F := F) lab tk (x s1 a0) stval) as (tk' & HH & Hd). unfold handled in Hd. subst tk'.
  eexists. split; [exact HH|]. split; [done|]. split; [done|].
  intros s2 Hs2 Hm2. rewrite Ha0, Hm in *. cbn [tk_mem tk_set_mem tk_set_sie tk_set_stvec] in Hm2.
  destruct (exit_u_run addr s2 fr Hs2) as (r & HX & (Rx & Rst & Rep & _) & Hrsp & Hss); [unfold fr; lia..|].
  exists r. split; [done|]. unfold frame_at in *. cbn [f_x f_sstatus f_sepc] in *.
  rewrite Hm2 in Rx, Rst, Rep, Hrsp.
  split_and!; [| | |unfold fr in Hss; lia].
  - intros i Hi. destruct (decide (i = 2)) as [-> |Hne].
    + rewrite Hrsp, !Asm.upd_ne by lia. exact Hx2.
    + rewrite Rx by done. destruct (decide (i = a0)) as [-> |]; [apply Asm.upd_eq|].
      rewrite !Asm.upd_ne by lia. by apply Hx.
  - rewrite Rep, Asm.upd_ne, Asm.upd_eq by lia. by rewrite Hep.
  - rewrite Rst, !Asm.upd_ne by lia. exact Hst.
Qed.

(** A machine with the devices and the heap of the other witnesses. *)
Definition demo_tk (satp : Z) (h : Heap) (m : Z → Z) : TK Fcfs Model (Z → Z) Heap :=
  mkTK m LTrapEntryU false satp
    (mkSys (mkKernel (mkHart true true true 0 []) 2 ∅ sched_default 0 [] None) ∅ ∅ ∅ 0 0 [] ∅)
    demo_world (mkPW (λ _ : Z, 0) None) h.

Definition demo_labels : UserLabels := mkUserLabels 0x1008 0x100C 0x2008 0x200C.

(** The program of [Asm.demo_user], on a page table that [demo_table_ok] gives. *)
Lemma demo_tk_ok : ∃ satp h, ∀ m, table_ok (F := byte_flags) (demo_tk satp h m).
Proof.
  destruct demo_table_ok as (root & h & _ & _ & (T & held & Hpt) & _).
  destruct (satp_roundtrip h held root (pi_held _ _ _ _ Hpt)) as (satp & _ & He).
  { exact (pi_tables _ _ _ _ Hpt [] root (pt_root _ _ _ (pi_tree _ _ _ _ Hpt))). }
  exists satp, h. intros m. exists root. split; [exact He|]. exists T, held. exact Hpt.
Qed.

Lemma syscall_roundtrip_witness : ∃ satp h s1 tk' r,
  run demo_addr trap_entry_u demo_user = (s1, Some (JCall LTrapHandler)) ∧
  trap_handler byte_flags demo_labels (x s1 a0) (CException UserEnvCall) 0
    (demo_tk satp h (mem s1)) = Ret ([], tk') ∧
  run demo_addr trap_exit_u (mkState (x s1) (csrs s1) (tk_mem tk')) = (r, Some JSret) ∧
  x r a0 = 2 ^ 64 - 1 ∧ csrs r Sepc = 0x10004.
Proof.
  destruct demo_tk_ok as (satp & h & _).
  destruct (syscall_roundtrip (Sc := Fcfs) (D := Model) (P := Z → Z) (K := Heap) (F := byte_flags)
    demo_labels demo_addr demo_user 0x9000) as (s1 & HE & Hh); [reflexivity|split; [discriminate|reflexivity]|].
  destruct (Hh (demo_tk satp h (mem s1)) 0 eq_refl) as (tk' & HH & _ & _ & Hr).
  destruct (Hr (mkState (x s1) (csrs s1) (tk_mem tk'))) as (r & HX & Hx & Hep & _).
  - vm_compute in HE. injection HE as <-. by vm_compute.
  - reflexivity.
  - exists satp, h, s1, tk', r. split; [exact HE|]. split; [exact HH|]. split; [exact HX|].
    split; [|exact Hep]. etrans; [apply Hx; split; [discriminate|reflexivity]|reflexivity].
Defined.
