(* ===== verification/UserBuf.v ===== *)
(** * Accesses to user memory

    [mem/userbuf.rs]: reading and writing one byte of user memory from the
    kernel.  The two assembly functions are run instruction by instruction; an
    access that faults takes the kernel's trap entry, the page fault handler of
    [Trap.v] and the trap exit of [Asm.v], and goes on where the handler has sent
    it.  The theorem is that a bad pointer is an error and never a panic. *)

From S2P Require Import Prelude Utils Malloc Intr Thread Scheduler Manager Sync PageTable Disk Virtio Plic Asm Trap.

(** The instructions of the two functions. *)
Inductive uinstr : Type :=
  | UMv (rd rs : Z)
  | ULi (rd v : Z)
  | ULb (rd rs : Z)        (* lb rd, (rs) *)
  | USb (rs2 rs1 : Z)      (* sb rs2, (rs1) *)
  | URet.

(** The two functions: instructions with their addresses, the labels at theirs. *)
Record Code : Type := mkCode { code_entry : Z; code_entry2 : Z; code_mv : Z; code_ret : Z }.

Definition knrl_read_usr_byte (lab : UserLabels) (c : Code) : list (Z * uinstr) := [
  (code_entry c, UMv t1 a1);
  (code_entry2 c, ULi a1 0);
  (knrl_read_usr_byte_pc lab, ULb t0 a0);
  (knrl_read_usr_exit lab, USb t0 t1);
  (code_mv c, UMv a0 a1);
  (code_ret c, URet)
].

Definition knrl_write_usr_byte (lab : UserLabels) (c : Code) : list (Z * uinstr) := [
  (code_entry c, UMv t1 a1);
  (code_entry2 c, ULi a1 0);
  (knrl_write_usr_byte_pc lab, USb t1 a0);
  (knrl_write_usr_exit lab, UMv a0 a1);
  (code_ret c, URet)
].

(** Memory byte by byte under the current page table: what a load finds, and
    whether a store is allowed; neither means a page fault. *)
Record Bytes8 : Type := mkBytes8 { b_load : Z → option Z; b_store : Z → bool }.

Definition put_byte (a v : Z) (m : Bytes8) : Bytes8 :=
  mkBytes8 (λ b, if decide (b = a) then Some v else b_load m b) (b_store m).

(** [lb] extends the sign. *)
Definition sext8 (v : Z) : Z := wrap64 (if bool_decide (v < 128) then v else v - 256).

Inductive uresult : Type :=
  | UNext (s : State) (m : Bytes8)
  | UFault (f : Exception) (addr : Z).

Definition uexec (i : uinstr) (s : State) (m : Bytes8) : uresult :=
  match i with
  | UMv rd rs => UNext (set_reg rd (reg s rs) s) m
  | ULi rd v => UNext (set_reg rd v s) m
  | ULb rd rs =>
      match b_load m (reg s rs) with
      | Some v => UNext (set_reg rd (sext8 v) s) m
      | None => UFault LoadPageFault (reg s rs)
      end
  | USb rs2 rs1 =>
      if b_store m (reg s rs1) then UNext s (put_byte (reg s rs1) (reg s rs2 mod 256) m)
      else UFault StorePageFault (reg s rs1)
  | URet => UNext s m
  end.

Section UserBuf.
Context {Sc D P K : Type} `{Schedule Sc} `{VirtioDevice D} `{Plic P} `{PageSource K}.
Context (F : Type) `{Bitflags F} (lab : UserLabels) (addr : label → Z).
Abbreviation T := (TK Sc D P K).

(** The compiled [trap_handler] may leave any registers but the stack pointer. *)
Context (clobber : State → State).

Definition with_mem (m : Z → Z) (s : State) : State := mkState (x s) (csrs s) m.

(** A trap at [pc] from kernel mode, up to the [sret]: the hardware sets [sepc]
    and [sstatus.SPP], the rest is the code of [trap.rs]. *)
Definition kernel_trap (pc : Z) (f : Exception) (stval : Z) (s : State) (tk : T) :
    outcome (list frame * (State * T)) :=
  let s0 := set_csr Sepc pc (set_csr Sstatus (Z.setbit (csrs s Sstatus) 8) s) in
  let s1 := (run addr trap_entry_k s0).1 in
  '(fs, tk') ← trap_handler F lab (x s1 a0) (CException f) stval (tk_set_mem (λ _, mem s1) tk) ;
  Ret (fs, ((run addr trap_exit_k (clobber (with_mem (tk_mem tk') s1))).1, tk')).

(** The code from address [pc] on. *)
Fixpoint code_from (pc : Z) (c : list (Z * uinstr)) : list (Z * uinstr) :=
  match c with
  | [] => []
  | (a, i) :: c' => if bool_decide (a = pc) then c else code_from pc c'
  end.

(** Runs to the [ret]; [fuel] bounds the instructions, faults included.  The
    frames are those of a handler that does not come back. *)
Fixpoint urun (fuel : nat) (code c : list (Z * uinstr)) (s : State) (m : Bytes8) (tk : T) :
    outcome (list frame * (State * Bytes8 * T)) :=
  match fuel, c with
  | S fuel, (pc, i) :: c' =>
      match i, uexec i s m with
      | URet, _ => Ret ([], (s, m, tk))
      | _, UNext s' m' => urun fuel code c' s' m' tk
      | _, UFault f va =>
          '(fs, (s', tk')) ← kernel_trap pc f va s tk ;
          match fs with
          | [] => urun fuel code (code_from (csrs s' Sepc) code) s' m tk'
          | _ => Ret (fs, (s', m, tk'))
          end
      end
  | _, _ => Panic OutOfFuel
  end.

(** A call with two arguments. *)
Definition call2 (fuel : nat) (code : list (Z * uinstr)) (arg0 arg1 : Z) (s : State) (m : Bytes8)
    (tk : T) : outcome (list frame * (State * Bytes8 * T)) :=
  urun fuel code code (set_reg a1 arg1 (set_reg a0 arg0 s)) m tk.

(** [read_user_byte]; [byte] is the address of its local variable. *)
Definition read_user_byte (fuel : nat) (c : Code) (user_src byte : Z) (s : State) (m : Bytes8) (tk : T) :
    outcome (result Z * (State * Bytes8 * T)) :=
  if in_kernel_space user_src then Ret (Err BadPtr, (s, m, tk))
  else
    let m := put_byte byte 0 m in
    '(_, (s', m', tk')) ← call2 fuel (knrl_read_usr_byte lab c) user_src byte s m tk ;
    if bool_decide (wrap8 (reg s' a0) = 0)
    then Ret (Ok (default 0 (b_load m' byte)), (s', m', tk'))
    else Ret (Err BadPtr, (s', m', tk')).

(** [write_user_byte] *)
Definition write_user_byte (fuel : nat) (c : Code) (user_src value : Z) (s : State) (m : Bytes8) (tk : T) :
    outcome (result unit * (State * Bytes8 * T)) :=
  if in_kernel_space user_src then Ret (Err BadPtr, (s, m, tk))
  else
    '(_, (s', m', tk')) ← call2 fuel (knrl_write_usr_byte lab c) user_src value s m tk ;
    if bool_decide (wrap8 (reg s' a0) = 0)
    then Ret (Ok (), (s', m', tk')) else Ret (Err BadPtr, (s', m', tk')).
End UserBuf.

(** ** A fault of one of the two accesses *)

Section Faults.
Context {Sc D P K : Type} `{Schedule Sc} `{VirtioDevice D} `{Plic P} `{PageSourceLaws K}.
Context {F : Type} `{BitflagsLaws F} (lab : UserLabels) (addr : label → Z).
Abbreviation T := (TK Sc D P K).

(** The calling convention: the handler gives back the stack pointer, and the
    memory is what it left. *)
Definition abi (clobber : State → State) : Prop :=
  ∀ s, reg (clobber s) sp = reg s sp ∧ mem (clobber s) = mem s.

(** The kernel stack has room for a frame. *)
Definition stack_ok (s : State) : Prop := FRAME_SIZE ≤ x s sp < 2 ^ 64.

Lemma spp_trap v : spp (Z.setbit v 8) = true.
Proof. unfold spp. by rewrite Z.setbit_eq. Qed.

Lemma kernel_trap_run clobber pc exit f va s (tk : T) :
  abi clobber → stack_ok s → page_fault f → table_ok (F := F) tk →
  knrl_read_usr_byte_pc lab ≠ knrl_write_usr_byte_pc lab →
  (pc, exit) ∈ [(knrl_read_usr_byte_pc lab, knrl_read_usr_exit lab);
                (knrl_write_usr_byte_pc lab, knrl_write_usr_exit lab)] →
  ∃ s' tk', kernel_trap F lab addr clobber pc f va s tk = Ret ([], (s', tk')) ∧
    csrs s' Sepc = exit ∧ x s' a1 = 1 ∧ (∀ i, 1 ≤ i < 32 → i ≠ a1 → x s' i = x s i) ∧
    table_ok (F := F) tk' ∧ tk_sys tk' = tk_sys tk.
Proof.
  intros Habi Hst Hf Ht Hne Hpc. unfold kernel_trap.
  set (s0 := set_csr Sepc pc (set_csr Sstatus (Z.setbit (csrs s Sstatus) 8) s)).
  destruct (entry_k_run addr s0 Hst) as (s1 & -> & Hsp & Ha0 & Hx & Hss & Hep & _ & _).
  cbn [fst]. set (fr := x s0 sp - FRAME_SIZE) in *. change (x s0 sp) with (x s sp) in fr.
  unfold frame_at in *. cbn [f_x f_sstatus f_sepc] in *.
  set (tk1 := tk_set_mem (λ _, mem s1) tk).
  assert (Ht1 : table_ok (F := F) tk1) by exact Ht.
  assert (HH : ∃ tk', trap_handler F lab (x s1 a0) (CException f) va tk1 = Ret ([], tk') ∧
    handled tk1 tk' (Asm.upd (Asm.upd (mem s1) (fr + 8 * 11) 1) (fr + 264) exit)).
  { rewrite Ha0. pose proof (fault_run (F := F) lab tk1 fr f va Hf Ht1) as Hr. cbv zeta in Hr.
    change (tk_mem tk1) with (mem s1) in Hr. rewrite Hss, Hep in Hr.
    change (csrs s0 Sstatus) with (Z.setbit (csrs s Sstatus) 8) in Hr. rewrite spp_trap in Hr.
    change (csrs s0 Sepc) with pc in Hr.
    apply elem_of_cons in Hpc as [[= -> ->]|Hpc].
    - by rewrite bool_decide_eq_true_2 in Hr.
    - apply list_elem_of_singleton in Hpc as [= -> ->].
      rewrite bool_decide_eq_false_2, bool_decide_eq_true_2 in Hr by done. exact Hr. }
  destruct HH as (tk' & -> & Hd). unfold handled in Hd. subst tk'.
  cbn [mbind outcome_bind tk_mem tk_set_mem tk_set_sie tk_set_stvec].
  set (m' := Asm.upd _ (fr + 264) exit). destruct (Habi (with_mem m' s1)) as [Hsp2 Hm2].
  destruct (exit_k_run addr (clobber (with_mem m' s1)) fr) as (r & -> & (Rx & _ & Rep & _) & Rsp & _).
  { rewrite Hsp2. unfold reg. by rewrite decide_False. }
  { unfold fr, stack_ok in *. lia. }
  { unfold fr, stack_ok, FRAME_SIZE in *. lia. }
  unfold frame_at in *. cbn [f_x f_sstatus f_sepc with_mem mem] in *. rewrite Hm2 in Rx, Rep.
  eexists r, _. split; [reflexivity|]. cbn [fst]. split_and!; [|..|exact Ht|done].
  - rewrite Rep. apply Asm.upd_eq.
  - rewrite Rx by lia. unfold m'. by rewrite Asm.upd_ne, Asm.upd_eq by lia.
  - intros i Hi Hi1. destruct (decide (i = 2)) as [-> |Hi2]; [rewrite Rsp; unfold fr; lia|].
    rewrite Rx by done. unfold m'. rewrite !Asm.upd_ne by lia. by apply Hx.
Qed.
End Faults.

(** ** The two calls *)

Section Calls.
Context {Sc D P K : Type} `{Schedule Sc} `{VirtioDevice D} `{Plic P} `{PageSourceLaws K}.
Context {F : Type} `{BitflagsLaws F} (lab : UserLabels) (addr : label → Z).
Context (clobber : State → State) (c1 c2 : Code).
Abbreviation T := (TK Sc D P K).

(** The instructions lie at different addresses. *)
Definition code_ok : Prop :=
  NoDup ((knrl_read_usr_byte lab c1 ++ knrl_write_usr_byte lab c2).*1).

(** What the callee keeps: the return address, the stack pointer and the saved
    registers. *)
Definition kept (s s' : State) : Prop :=
  x s' ra = x s ra ∧ x s' sp = x s sp ∧ ∀ i, 0 ≤ i < 12 → x s' (sreg i) = x s (sreg i).

Lemma kept_by s s' : (∀ i, 1 ≤ i < 32 → i ∉ [t0; t1; a0; a1] → x s' i = x s i) → kept s s'.
Proof.
  intros Hx. split_and!; [apply Hx..|].
  1-4: repeat first [lia | set_solver].
  intros i Hi. apply Hx; unfold sreg; case_decide; [lia|lia|..];
    rewrite !not_elem_of_cons; repeat split; try lia; apply not_elem_of_nil.
Qed.

Context (Habi : abi clobber) (Hcode : code_ok).

Lemma labels_ne : knrl_read_usr_byte_pc lab ≠ knrl_write_usr_byte_pc lab.
Proof.
  revert Hcode. unfold code_ok. cbn. rewrite !NoDup_cons, !not_elem_of_cons. tauto.
Qed.

Lemma sext8_byte v : 0 ≤ v < 256 → sext8 v mod 256 = v.
Proof.
  intros Hv. unfold sext8, wrap64. case_bool_decide.
  - rewrite (Z.mod_small v (2 ^ 64)), Z.mod_small; lia.
  - replace (v - 256) with (v + (2 ^ 64 - 256) + -1 * 2 ^ 64) by lia.
    rewrite Z.mod_add, (Z.mod_small (v + _) (2 ^ 64)) by lia.
    replace (v + (2 ^ 64 - 256)) with (v + (2 ^ 56 - 1) * 256) by lia.
    rewrite Z.mod_add, Z.mod_small; lia.
Qed.

(** After a fault the code goes on behind the access. *)
Lemma code_from_app pc i l1 l2 :
  NoDup (l1 ++ (pc, i) :: l2).*1 → code_from pc (l1 ++ (pc, i) :: l2) = (pc, i) :: l2.
Proof.
  induction l1 as [|[q j] l1 IH]; cbn; [by rewrite bool_decide_eq_true_2|].
  rewrite NoDup_cons. intros [Hq HN]. rewrite bool_decide_eq_false_2; [by apply IH|].
  intros ->. apply Hq. rewrite fmap_app. apply elem_of_app. right. left.
Qed.

Lemma after_read : code_from (knrl_read_usr_exit lab) (knrl_read_usr_byte lab c1) =
  drop 3 (knrl_read_usr_byte lab c1).
Proof.
  refine (code_from_app _ _ (take 3 (knrl_read_usr_byte lab c1)) _ _).
  cbn [app take knrl_read_usr_byte]. revert Hcode. unfold code_ok. rewrite fmap_app.
  intros HN%NoDup_app. apply HN.
Qed.

Lemma after_write : code_from (knrl_write_usr_exit lab) (knrl_write_usr_byte lab c2) =
  drop 3 (knrl_write_usr_byte lab c2).
Proof.
  refine (code_from_app _ _ (take 3 (knrl_write_usr_byte lab c2)) _ _).
  cbn [app take knrl_write_usr_byte]. revert Hcode. unfold code_ok. rewrite fmap_app.
  intros HN%NoDup_app. apply HN.
Qed.

(** The result of a call is [r] and the callee-saved registers are kept. *)
Definition returned (s s' : State) (r : Z) : Prop := x s' a0 = r ∧ kept s s'.

Lemma read_mapped_run fuel u b v s m (tk : T) :
  b_load m u = Some v → 0 ≤ v < 256 → b_store m b = true →
  ∃ s', call2 F lab addr clobber (6 + fuel) (knrl_read_usr_byte lab c1) u b s m tk =
    Ret ([], (s', put_byte b v m, tk)) ∧ returned s s' 0.
Proof.
  intros Hl Hv Hb. eexists. split.
  - unfold call2, knrl_read_usr_byte. cbn -[set_reg reg sext8 code_from Z.modulo].
    change (reg (set_reg a1 0 _) a0) with u. rewrite Hl. cbn -[set_reg reg sext8 Z.modulo].
    change (reg (set_reg t0 _ _) t1) with b. rewrite Hb. cbn -[set_reg reg sext8 Z.modulo].
    change (reg (set_reg t0 (sext8 v) _) t0) with (sext8 v). rewrite sext8_byte by done.
    reflexivity.
  - split; [reflexivity|]. apply kept_by. intros i Hi. rewrite !not_elem_of_cons. intros Hne.
    cbn -[Asm.upd]. rewrite !Asm.upd_ne by tauto. done.
Qed.
Lemma read_fault_run fuel u b s m (tk : T) :
  b_load m u = None → b_store m b = true → stack_ok s → table_ok (F := F) tk →
  ∃ s' tk' w, call2 F lab addr clobber (6 + fuel) (knrl_read_usr_byte lab c1) u b s m tk =
    Ret ([], (s', put_byte b w m, tk')) ∧ returned s s' 1 ∧ tk_sys tk' = tk_sys tk.
Proof.
  intros Hl Hb Hst Ht.
  set (s1 := set_reg a1 0 (set_reg t1 b (set_reg a1 b (set_reg a0 u s)))).
  destruct (kernel_trap_run lab addr clobber (knrl_read_usr_byte_pc lab) (knrl_read_usr_exit lab)
    LoadPageFault u s1 tk) as (s' & tk' & HK & Hep & Ha1 & Hx & _ & Hsys);
    [done|exact Hst|by left|done|exact labels_ne|left|].
  eexists _, tk', _. split; [|split; [|exact Hsys]].
  - unfold call2. unfold knrl_read_usr_byte at 2.
    cbn -[set_reg reg kernel_trap code_from Z.modulo knrl_read_usr_byte].
    change (reg (set_reg a1 0 _) a0) with u. rewrite Hl.
    match goal with |- context [kernel_trap _ _ _ _ _ _ _ ?t _] => change t with s1 end.
    rewrite HK. cbn -[set_reg reg code_from Z.modulo knrl_read_usr_byte].
    rewrite Hep, after_read. cbn -[set_reg reg Z.modulo].
    replace (reg s' t1) with b by (unfold reg; rewrite decide_False by done; by rewrite Hx).
    rewrite Hb. reflexivity.
  - split; [cbn; unfold reg; by rewrite decide_False by done|].
    apply kept_by. intros i Hi. rewrite !not_elem_of_cons. intros Hne.
    cbn -[Asm.upd]. rewrite Asm.upd_ne, Hx by tauto. cbn -[Asm.upd].
    by rewrite !Asm.upd_ne by tauto.
Qed.

Lemma write_mapped_run fuel u v s m (tk : T) : b_store m u = true →
  ∃ s', call2 F lab addr clobber (6 + fuel) (knrl_write_usr_byte lab c2) u v s m tk =
    Ret ([], (s', put_byte u (v mod 256) m, tk)) ∧ returned s s' 0.
Proof.
  intros Hb. eexists. split.
  - unfold call2, knrl_write_usr_byte. cbn -[set_reg reg code_from Z.modulo].
    change (reg (set_reg a1 0 _) a0) with u. rewrite Hb. cbn -[set_reg reg Z.modulo].
    change (reg (set_reg a1 0 _) t1) with v. reflexivity.
  - split; [reflexivity|]. apply kept_by. intros i Hi. rewrite !not_elem_of_cons. intros Hne.
    cbn -[Asm.upd]. rewrite !Asm.upd_ne by tauto. done.
Qed.

Lemma write_fault_run fuel u v s m (tk : T) :
  b_store m u = false → stack_ok s → table_ok (F := F) tk →
  ∃ s' tk', call2 F lab addr clobber (6 + fuel) (knrl_write_usr_byte lab c2) u v s m tk =
    Ret ([], (s', m, tk')) ∧ returned s s' 1 ∧ tk_sys tk' = tk_sys tk.
Proof.
  intros Hb Hst Ht.
  set (s1 := set_reg a1 0 (set_reg t1 v (set_reg a1 v (set_reg a0 u s)))).
  destruct (kernel_trap_run lab addr clobber (knrl_write_usr_byte_pc lab) (knrl_write_usr_exit lab)
    StorePageFault u s1 tk) as (s' & tk' & HK & Hep & Ha1 & Hx & _ & Hsys);
    [done|exact Hst|by right; left|done|exact labels_ne|right; left|].
  eexists _, tk'. split; [|split; [|exact Hsys]].
  - unfold call2. unfold knrl_write_usr_byte at 2.
    cbn -[set_reg reg kernel_trap code_from Z.modulo knrl_write_usr_byte].
    change (reg (set_reg a1 0 _) a0) with u. rewrite Hb.
    match goal with |- context [kernel_trap _ _ _ _ _ _ _ ?t _] => change t with s1 end.
    rewrite HK. cbn -[set_reg reg code_from Z.modulo knrl_write_usr_byte].
    rewrite Hep, after_write. cbn -[set_reg reg Z.modulo]. reflexivity.
  - split; [cbn; unfold reg; by rewrite decide_False by done|].
    apply kept_by. intros i Hi. rewrite !not_elem_of_cons. intros Hne.
    cbn -[Asm.upd]. rewrite Asm.upd_ne, Hx by tauto. cbn -[Asm.upd].
    by rewrite !Asm.upd_ne by tauto.
Qed.
End Calls.

(** C6: an access to user memory never panics and never runs on.  A kernel
    address is refused before it is touched.  Otherwise reading a mapped byte
    gives that byte and writing a writable one stores it; an address that faults
    goes through the trap entry, the page fault handler and the trap exit and
    comes back as [BadPtr].  Nothing but the target byte (the local variable, for
    a read) changes, the callee-saved registers, the stack pointer and the return
    address are kept, and so is the state of the threads. *)
Theorem user_access_correct {Sc D P K} `{Schedule Sc} `{VirtioDevice D} `{Plic P} `{PageSourceLaws K}
    {F} `{BitflagsLaws F} lab addr clobber c1 c2 fuel u byte v s m (tk : TK Sc D P K) :
  abi clobber → code_ok lab c1 c2 → stack_ok s → table_ok (F := F) tk →
  b_store m byte = true → in_kernel_space byte = true → 0 ≤ v < 256 →
  (∀ a w, b_load m a = Some w → 0 ≤ w < 256) →
  if in_kernel_space u then
    read_user_byte F lab addr clobber (6 + fuel) c1 u byte s m tk = Ret (Err BadPtr, (s, m, tk)) ∧
    write_user_byte F lab addr clobber (6 + fuel) c2 u v s m tk = Ret (Err BadPtr, (s, m, tk))
  else
    (∃ s' m' tk', read_user_byte F lab addr clobber (6 + fuel) c1 u byte s m tk =
       Ret (match b_load m u with Some w => Ok w | None => Err BadPtr end, (s', m', tk')) ∧
       kept s s' ∧ (∀ a, a ≠ byte → b_load m' a = b_load m a) ∧ b_store m' = b_store m ∧
       tk_sys tk' = tk_sys tk) ∧
    (∃ s' tk', write_user_byte F lab addr clobber (6 + fuel) c2 u v s m tk =
       Ret (if b_store m u then (Ok (), (s', put_byte u v m, tk')) else (Err BadPtr, (s', m, tk'))) ∧
       kept s s' ∧ tk_sys tk' = tk_sys tk).
Proof.
  intros Habi Hc Hst Ht Hb Hk Hv Hby. unfold read_user_byte, write_user_byte.
  destruct (in_kernel_space u) eqn:Eu; [done|].
  assert (Hub : u ≠ byte) by congruence.
  assert (Hl0 : b_load (put_byte byte 0 m) u = b_load m u) by (cbn; by rewrite decide_False).
  split.
  - destruct (b_load m u) as [w|] eqn:El.
    + destruct (read_mapped_run (F := F) lab addr clobber c1 fuel u byte w s (put_byte byte 0 m) tk)
        as (s' & -> & Hr & Hkept); [done|by eapply Hby|done|].
      eexists s', _, tk. cbn -[put_byte]. unfold reg. rewrite decide_False, Hr by done.
      split; [cbn; by rewrite decide_True|]. split_and!; [done| |done|done].
      intros a Ha. cbn. by rewrite !decide_False.
    + destruct (read_fault_run (F := F) lab addr clobber c1 c2 Habi Hc fuel u byte s (put_byte byte 0 m) tk)
        as (s' & tk' & w & -> & (Hr & Hkept) & Hsys); [done..|].
      eexists s', _, tk'. cbn -[put_byte]. unfold reg. rewrite decide_False, Hr by done.
      split; [reflexivity|]. split_and!; [done| |done|done].
      intros a Ha. cbn. by rewrite !decide_False.
  - destruct (b_store m u) eqn:Es.
    + destruct (write_mapped_run (F := F) lab addr clobber c2 fuel u v s m tk Es) as (s' & -> & Hr & Hkept).
      eexists s', tk. cbn -[put_byte Z.modulo]. unfold reg. rewrite decide_False, Hr by done.
      rewrite Z.mod_small by lia. done.
    + destruct (write_fault_run (F := F) lab addr clobber c1 c2 Habi Hc fuel u v s m tk)
        as (s' & tk' & -> & (Hr & Hkept) & Hsys); [done..|].
      eexists s', tk'. cbn. unfold reg. rewrite decide_False, Hr by done. done.
Qed.

(** A mapped byte that reads 200, and an address that faults; the buffer is on
    the kernel's stack. *)
Definition demo_code (a ret : Z) : Code := mkCode a (a + 4) (a + 0x10) ret.

Definition demo_kernel_state : State :=
  mkState (λ _, VM_OFFSET + 0x9000) (λ _, 0) (λ _, 0).

Definition demo_bytes : Bytes8 :=
  mkBytes8 (λ a, if decide (a = 0x10000) then Some 200 else None) in_kernel_space.

Lemma user_access_witness : ∃ satp h s1 m1 tk1 s2 m2 tk2,
  read_user_byte byte_flags demo_labels demo_addr id 6 (demo_code 0x1000 0x1014) 0x10000 (VM_OFFSET + 0x9100)
    demo_kernel_state demo_bytes (demo_tk satp h (λ _, 0)) = Ret (Ok 200, (s1, m1, tk1)) ∧
  read_user_byte byte_flags demo_labels demo_addr id 6 (demo_code 0x1000 0x1014) 0x20000 (VM_OFFSET + 0x9100)
    demo_kernel_state demo_bytes (demo_tk satp h (λ _, 0)) = Ret (Err BadPtr, (s2, m2, tk2)).
Proof.
  destruct demo_tk_ok as (satp & h & Ht).
  assert (Hall : abi id ∧ code_ok demo_labels (demo_code 0x1000 0x1014) (demo_code 0x2000 0x2010) ∧
    stack_ok demo_kernel_state ∧ (∀ a w, b_load demo_bytes a = Some w → 0 ≤ w < 256)).
  { split; [done|]. split; [|split].
    - unfold code_ok. cbn. rewrite !NoDup_cons, !not_elem_of_cons. repeat split; try discriminate; try apply not_elem_of_nil. apply NoDup_nil_2.
    - by vm_compute.
    - intros a w. cbn. case_decide; [|done]. intros [= <-]. lia. }
  destruct Hall as (Ha & Hc & Hs & Hb).
  destruct (user_access_correct (F := byte_flags) demo_labels demo_addr id (demo_code 0x1000 0x1014) (demo_code 0x2000 0x2010)
    0 0x10000 (VM_OFFSET + 0x9100) 0 demo_kernel_state demo_bytes (demo_tk satp h (λ _, 0)))
    as [(s1 & m1 & tk1 & E1 & _) _]; [done..|lia|done|].
  destruct (user_access_correct (F := byte_flags) demo_labels demo_addr id (demo_code 0x1000 0x1014) (demo_code 0x2000 0x2010)
    0 0x20000 (VM_OFFSET + 0x9100) 0 demo_kernel_state demo_bytes (demo_tk satp h (λ _, 0)))
    as [(s2 & m2 & tk2 & E2 & _) _]; [done..|lia|done|].
  exists satp, h, s1, m1, tk1, s2, m2, tk2. split; [exact E1|exact E2].
Defined.
