(* ===== verification/Fair.v ===== *)
(** * Every ready thread is served

    Bounded waiting: over any history of registrations and calls of [schedule]
    on a scheduler, and over repeated calls of [Manager::schedule], a queued
    thread of the highest priority comes up after as many choices as there are
    threads of its priority in front of it. *)

From S2P Require Import Prelude Intr Thread Scheduler Manager.

(** ** Histories of a scheduler *)

Inductive event : Type :=
  | ERegister (v : View) (t : Z)
  | ESchedule (v : View).

Definition ev_view (e : event) : View := match e with ERegister v _ => v | ESchedule v => v end.

Section History.
Context {Sc : Type} `{Schedule Sc}.

(** The threads chosen, in their order. *)
Fixpoint history (evs : list event) (s : Sc) : outcome (list Z * Sc) :=
  match evs with
  | [] => mret ([], s)
  | ERegister v t :: evs => s ← register v t s ; history evs s
  | ESchedule v :: evs =>
      '(next, s) ← schedule v s ;
      '(out, s) ← history evs s ;
      mret (match next with Some t => t :: out | None => out end, s)
  end.

Fixpoint registered (evs : list event) : list Z :=
  match evs with
  | [] => []
  | ERegister _ t :: evs => t :: registered evs
  | ESchedule _ :: evs => registered evs
  end.

Fixpoint schedules (evs : list event) : nat :=
  match evs with
  | [] => 0
  | ERegister _ _ :: evs => schedules evs
  | ESchedule _ :: evs => S (schedules evs)
  end.
End History.

(** With priorities that stay what they are and that the scheduler can file, no
    history fails. *)
Lemma history_total {Sc} `{ScheduleLaws Sc} (pr : Z → Z) evs s :
  Forall (λ e, (∀ t, prio (ev_view e) t = pr t) ∧
               match e with ERegister _ t => prio_ok (pr t) | _ => True end) evs →
  sched_ok s → Forall (λ t, prio_ok (pr t)) (queued s) →
  ∃ out s', history evs s = Ret (out, s').
Proof.
  intros He. revert s. induction He as [|[v t|v] evs [Hv Ht] _ IH]; intros s Hs Hq; cbn [history].
  - by do 2 eexists.
  - destruct (register_ok v t s Hs) as (s' & HR & Hs' & HP); [by rewrite Hv|].
    unfold mbind, outcome_bind. rewrite HR. apply IH; [done|]. rewrite HP. by constructor.
  - destruct (schedule_ok v s Hs) as (next & s' & HR & Hs' & HP).
    { eapply Forall_impl; [exact Hq|]. intros t. by rewrite Hv. }
    unfold mbind, outcome_bind at 1. rewrite HR.
    destruct (IH s' Hs') as (out & s2 & ->); [|by do 2 eexists].
    destruct next as [t|]; [|by rewrite (proj1 HP)]. rewrite HP in Hq. by inversion Hq.
Qed.

(** ** First come, first served *)

Lemma fcfs_total evs s : ∃ out s', history evs (s : Fcfs) = Ret (out, s').
Proof.
  revert s. induction evs as [|[v t|v] evs IH]; intros s; cbn; [by do 2 eexists|apply IH|].
  destruct (fcfs_schedule s) as [next s1]. cbn. destruct (IH s1) as (out & s2 & ->).
  by do 2 eexists.
Qed.

Lemma fcfs_served evs q i t :
  rev q !! i = Some t → (i < schedules evs)%nat →
  ∃ out s', history evs (mkFcfs q) = Ret (out, s') ∧ out !! i = Some t.
Proof.
  revert q i. induction evs as [|[v u|v] evs IH]; intros q i Hi Hn; cbn [schedules] in Hn; [lia| |].
  - cbn. apply (IH (u :: q)); [|done]. cbn. by apply lookup_app_l_Some.
  - cbn. unfold fcfs_schedule. cbn [fcfs_queue].
    destruct q as [|x q _] using rev_ind; [done|]. rewrite pop_back_snoc.
    rewrite rev_app_distr in Hi. cbn in Hi. destruct i as [|i]; cbn in Hi.
    + destruct (fcfs_total evs (mkFcfs q)) as (out & s' & ->). by do 2 eexists.
    + destruct (IH q i) as (out & s' & -> & Ho); [done|lia|]. by do 2 eexists.
Qed.

(** ** By priority *)

Section ByPriority.
Context (pr : Z → Z) (p : Z).

(** The threads are filed by [pr], and none has a priority above [p]. *)
Definition filed (s : PriorityScheduler) : Prop :=
  ps_ok s ∧ (∀ j q, pri_ok j → bucket j s = Ret q → Forall (λ t, pr t = j) q) ∧
  Forall (λ t, pr t ≤ p) (ps_queued s).

(** Events under which the priorities stay, and in which nothing of a priority
    above [p] is registered or runs. *)
Definition calm (e : event) : Prop :=
  (∀ t, prio (ev_view e) t = pr t) ∧
  match e with ERegister _ t => pri_ok (pr t) ∧ pr t ≤ p | ESchedule v => pr (v_current v) ≤ p end.

Lemma filed_settled v s : filed s → (∀ t, prio v t = pr t) → ∀ j, pri_ok j → settled v j s.
Proof.
  intros (_ & Hf & _) Hv j Hj q Hq. eapply Forall_impl; [by apply Hf|]. intros t. by rewrite Hv.
Qed.

Lemma filed_pri_ok s : filed s → Forall (λ t, pri_ok (pr t)) (ps_queued s).
Proof.
  intros (Hs & Hf & _). apply Forall_forall. intros t Ht.
  apply elem_of_concat in Ht as (b & Htb & Hb). apply list_elem_of_lookup in Hb as [i Hi].
  pose proof (lookup_lt_Some _ _ _ Hi) as Hl. unfold ps_ok in Hs.
  assert (Hp : pri_ok (Z.of_nat i)) by (unfold pri_ok; lia).
  assert (Hbi : bucket (Z.of_nat i) s = Ret b) by (apply bucket_lookup; by rewrite Nat2Z.id).
  pose proof (Hf _ _ Hp Hbi) as HF. rewrite Forall_forall in HF. by rewrite (HF t Htb).
Qed.

(** Registration files a thread at the front of its bucket. *)
Lemma filed_register v s t : filed s → (∀ u, prio v u = pr u) → pri_ok (pr t) → pr t ≤ p →
  ∃ s', ps_register v t s = Ret s' ∧ filed s' ∧ ∀ q, pri_ok p → bucket p s = Ret q →
    bucket p s' = Ret (if decide (pr t = p) then t :: q else q).
Proof.
  intros (Hs & Hf & Hle) Hv Hp Htp. destruct (bucket_ok s (pr t) Hs Hp) as [b Hb].
  destruct (ps_register_run v t s Hs) as (s' & HR & Hs' & HP); [by rewrite Hv|].
  exists s'. split; [done|]. unfold ps_register, mbind, outcome_bind in HR.
  rewrite Hv, Hb in HR. injection HR as <-. split; [split; [done|split]|].
  - intros j q Hj. rewrite bucket_set_bucket by done. case_bool_decide as E; [|by apply Hf].
    intros [= <-]. subst j. constructor; [done|by apply Hf].
  - rewrite HP. by constructor.
  - intros q Hpp Hq. rewrite bucket_set_bucket by done. case_decide as E.
    + rewrite bool_decide_eq_true_2 by done. rewrite E in Hb. assert (b = q) as -> by congruence. done.
    + by rewrite bool_decide_eq_false_2.
Qed.

(** The choice falls on the thread of priority [p] that has waited longest. *)
Lemma filed_schedule v s q t : filed s → (∀ u, prio v u = pr u) → pr (v_current v) ≤ p → pri_ok p →
  bucket p s = Ret (q ++ [t]) →
  ∃ s', ps_schedule v s = Ret (Some t, s') ∧ filed s' ∧ bucket p s' = Ret q ∧ s' = set_bucket p q s.
Proof.
  intros HF Hv Hc Hp Hb. pose proof HF as (Hs & Hf & Hle).
  assert (Ht : pr t = p) by (pose proof (Hf p _ Hp Hb) as HH; apply Forall_app in HH as [_ HH]; by inversion HH).
  unfold ps_schedule, mbind, outcome_bind. rewrite update_priority_settled; [|done|by apply filed_settled].
  assert (Hpick : ∀ n, p < Z.of_nat n ≤ 64 → pick v n s = Ret (Some t, set_bucket p q s)).
  { induction n as [|n IH]; intros Hn; [unfold pri_ok in Hp; lia|]. cbn [pick].
    destruct (decide (Z.of_nat n = p)) as [E|E].
    - rewrite E, Hb. unfold mbind, outcome_bind. rewrite pop_back_snoc, !Hv, Ht.
      rewrite bool_decide_eq_false_2 by lia. done.
    - assert (Hpn : pri_ok (Z.of_nat n)) by (unfold pri_ok in *; lia).
      destruct (bucket_ok s _ Hs Hpn) as [b Hbn]. unfold mbind, outcome_bind. rewrite Hbn.
      assert (b = []) as ->; [|apply IH; lia].
      destruct b as [|u b]; [done|]. pose proof (Hf _ _ Hpn Hbn) as HH. inversion HH as [|? ? Hu _]. subst.
      rewrite Forall_forall in Hle. specialize (Hle u (queued_bucket _ _ _ u Hbn ltac:(left))). lia. }
  eexists. split; [apply Hpick; unfold pri_ok in *; lia|].
  pose proof (queued_set_bucket s p _ q Hb) as HP.
  split; [split; [by apply set_bucket_ok|split]|split; [|done]].
  - intros j b Hj. rewrite bucket_set_bucket by done. case_bool_decide as E; [|by apply Hf].
    intros [= <-]. subst j. pose proof (Hf p _ Hp Hb) as HH. by apply Forall_app in HH as [HH _].
  - pose proof (queued_Forall_bucket _ _ _ _ Hb Hle) as Hq. apply Forall_app in Hq as [Hq _].
    assert (Hx : Forall (λ u, pr u ≤ p) (q ++ ps_queued s)) by by apply Forall_app.
    rewrite <- HP in Hx. by apply Forall_app in Hx as [_ Hx].
  - rewrite bucket_set_bucket by done. by rewrite bool_decide_eq_true_2.
Qed.

(** Nothing queued, nothing chosen. *)
Lemma filed_schedule_empty v s : filed s → (∀ u, prio v u = pr u) → ps_queued s = [] →
  ps_schedule v s = Ret (None, s).
Proof.
  intros HF Hv Hq. pose proof HF as (Hs & _).
  pose proof (filed_settled v s HF Hv) as Hset.
  unfold ps_schedule, mbind, outcome_bind. rewrite update_priority_settled by done.
  pose proof (pick_run v 64 s Hs ltac:(lia) Hset ltac:(intros; lia)) as Hpick.
  destruct (pick v 64 s) as [[[t|] s2]|]; [|by destruct Hpick as [-> _]|done].
  destruct Hpick as (_ & HP & _). rewrite Hq in HP. by apply Permutation_nil_l in HP.
Qed.
End ByPriority.

Lemma ps_served pr p evs s q i t :
  filed pr p s → Forall (calm pr p) evs → pri_ok p → bucket p s = Ret q →
  rev q !! i = Some t → (i < schedules evs)%nat →
  ∃ out s', history evs s = Ret (out, s') ∧ out !! i = Some t.
Proof.
  intros HF He Hp. revert s q i HF.
  induction He as [|[v u|v] evs [Hv Hu] He IH]; intros s q i HF Hb Hi Hn; cbn [schedules] in Hn; [lia| |].
  - destruct Hu as [Hu1 Hu2]. destruct (filed_register pr p v s u) as (s' & HR & HF' & Hb'); [done..|].
    cbn [history]. change (register v u s) with (ps_register v u s).
    unfold mbind, outcome_bind. rewrite HR. eapply IH; [done|by eapply Hb'| |done].
    case_decide; [|done]. cbn. by apply lookup_app_l_Some.
  - destruct q as [|x q _] using rev_ind; [done|]. rewrite rev_app_distr in Hi. cbn in Hi.
    destruct (filed_schedule pr p v s q x) as (s' & HS & HF' & Hb' & _); [done..|].
    cbn [history]. change (schedule v s) with (ps_schedule v s).
    unfold mbind, outcome_bind at 1. rewrite HS. destruct i as [|i]; cbn in Hi.
    + destruct (history_total pr evs s') as (out & s2 & ->);
        [|by apply HF'|by eapply filed_pri_ok|by do 2 eexists].
      eapply Forall_impl; [exact He|]. intros [] [? Hc]; split; [done| |done|done]. by destruct Hc.
    + destruct (IH s' q i) as (out & s2 & -> & Ho); [done..|lia|]. by do 2 eexists.
Qed.

(** No waiting thread is passed over for ever.  The thread [i] places behind
    the head of its queue is the choice number [i] of the calls of [schedule]
    to come, whatever is registered in between: under [Fcfs] always; under
    [PriorityScheduler] while the priorities stay what they are and no thread of
    a higher priority is queued, registered or running. *)
Theorem scheduling_liveness evs i t :
  (i < schedules evs)%nat →
  (∀ s, rev (fcfs_queue s) !! i = Some t →
     ∃ out s', history evs s = Ret (out, s') ∧ out !! i = Some t) ∧
  (∀ pr p s q, filed pr p s → Forall (calm pr p) evs → pri_ok p →
     bucket p s = Ret q → rev q !! i = Some t →
     ∃ out s', history evs s = Ret (out, s') ∧ out !! i = Some t).
Proof.
  intros Hi. split.
  - intros [q] Hq. by apply fcfs_served.
  - intros pr p s q HF He Hp Hb Ht. by eapply ps_served.
Qed.

(** ** Equal priorities *)

(** The scheduler with the one queue [q], at priority [p]. *)
Definition one_queue (p : Z) (q : list Z) : PriorityScheduler := set_bucket p q ps_default.

Lemma default_bucket p : pri_ok p → bucket p ps_default = Ret [].
Proof.
  unfold pri_ok, bucket, ps_default. cbn [buckets]. intros Hp. by rewrite lookup_replicate_2 by lia.
Qed.

Lemma one_queue_bucket p q : pri_ok p → bucket p (one_queue p q) = Ret q.
Proof. intros Hp. unfold one_queue. rewrite bucket_set_bucket by done. by rewrite bool_decide_eq_true_2. Qed.

Lemma one_queue_set p q q' : set_bucket p q' (one_queue p q) = one_queue p q'.
Proof. unfold one_queue, set_bucket. cbn [buckets]. by rewrite list_insert_insert_eq. Qed.

Lemma one_queue_filed p q : pri_ok p → filed (λ _, p) p (one_queue p q).
Proof.
  intros Hp. split; [by apply set_bucket_ok|split].
  - intros j b Hj. unfold one_queue. rewrite bucket_set_bucket by done.
    case_bool_decide as E; [intros _; by apply Forall_forall|].
    rewrite default_bucket by done. by intros [= <-].
  - by apply Forall_forall.
Qed.

Lemma one_queue_nil p : pri_ok p → ps_queued (one_queue p []) = [].
Proof.
  intros Hp. pose proof (queued_set_bucket ps_default p [] []) as HP. cbn [app] in HP.
  apply Permutation_nil_r. apply HP.
  by apply default_bucket.
Qed.

Lemma equal_priorities_run p evs q :
  pri_ok p → Forall (λ e, ∀ t, prio (ev_view e) t = p) evs →
  ∃ out q', history evs (one_queue p q) = Ret (out, one_queue p q') ∧
    history evs (mkFcfs q) = Ret (out, mkFcfs q').
Proof.
  intros Hp He. revert q. induction He as [|[v t|v] evs Hv _ IH]; intros q.
  - by do 2 eexists.
  - destruct (IH (t :: q)) as (out & q' & H1 & H2). exists out, q'. cbn [history]. split; [|exact H2].
    change (register v t (one_queue p q)) with (ps_register v t (one_queue p q)).
    cbn [ev_view] in Hv. unfold ps_register, mbind, outcome_bind. rewrite Hv, one_queue_bucket by done.
    cbn. by rewrite one_queue_set.
  - cbn [history]. change (schedule v (one_queue p q)) with (ps_schedule v (one_queue p q)).
    change (schedule v (mkFcfs q)) with (Ret (fcfs_schedule (mkFcfs q))).
    destruct q as [|x q _] using rev_ind.
    + rewrite (filed_schedule_empty (λ _, p) p) by (try done; by apply one_queue_filed || by apply one_queue_nil).
      destruct (IH []) as (out & q' & H1 & H2). exists out, q'. unfold mbind, outcome_bind. cbn [fcfs_schedule pop_back rev fcfs_queue].
      by rewrite H1, H2.
    + destruct (filed_schedule (λ _, p) p v (one_queue p (q ++ [x])) q x) as (s' & HS & _ & _ & ->);
        [by apply one_queue_filed|done|done|done|by apply one_queue_bucket|].
      unfold fcfs_schedule. cbn [fcfs_queue]. rewrite pop_back_snoc. rewrite one_queue_set in HS.
      destruct (IH q) as (out & q' & H1 & H2). exists (x :: out), q'. unfold mbind, outcome_bind.
      by rewrite HS, H1, H2.
Qed.

(** C18: with equal priorities the two schedulers are the same one: in any
    history from their start in which all threads have the priority [p] < 64,
    whatever runs or is registered, [PriorityScheduler] chooses the threads that
    [Fcfs] chooses, in the same order, and has the same threads left waiting in
    the same order. *)
Theorem equal_priorities_equivalent p evs :
  pri_ok p → Forall (λ e, ∀ t, prio (ev_view e) t = p) evs →
  ∃ out s s', history evs (sched_default : PriorityScheduler) = Ret (out, s) ∧
    history evs (sched_default : Fcfs) = Ret (out, s') ∧
    bucket p s = Ret (fcfs_queue s') ∧ ps_queued s ≡ₚ fcfs_queue s'.
Proof.
  intros Hp He. destruct (equal_priorities_run p evs [] Hp He) as (out & q & H1 & H2).
  exists out, (one_queue p q), (mkFcfs q). split_and!.
  - rewrite <-H1. f_equal. unfold one_queue. symmetry. apply set_bucket_same.
    by apply default_bucket.
  - exact H2.
  - by apply one_queue_bucket.
  - pose proof (queued_set_bucket (one_queue p q) p q []) as HP. rewrite one_queue_set, one_queue_nil in HP by done.
    rewrite <-HP by (by apply one_queue_bucket). by rewrite app_nil_r.
Qed.

(** ** The thread manager *)

(** [schedule] with its choice made; a running thread is registered again. *)
Lemma manager_schedule_choice {Sc} `{ScheduleLaws Sc} (k : Kernel Sc) t s :
  wf k → status (current_thread k) = Running → schedule (view k) (scheduler k) = Ret (Some t, s) →
  queued (scheduler k) ≡ₚ t :: queued s → sched_ok s →
  ∃ r k', manager_schedule k = Ret (r, k') ∧ wf k' ∧ current k' = t ∧ threads k' = switched k t ∧
    register (view k') (current k) s = Ret (scheduler k').
Proof.
  intros W Hrun HS HP Hs. destruct (wf_current _ W) as (c & Hc & _).
  assert (Hq : t ∈ queued (scheduler k)) by (rewrite HP; left).
  assert (Hne : t ≠ current k) by (intros ->; by apply (current_not_queued k)).
  destruct (schedule_tail_run k t s W Hq Hs HP) as (k' & HT & W' & _ & Hcur & Hth & _).
  exists (Some (stimer (hart k))), k'. split; [|split; [exact W'|split; [done|split; [done|]]]].
  - pose proof (thread_lookup _ _ _ Hc) as Hct. unfold current_thread in *. rewrite Hct in *.
    pose proof Hq as Hq'. apply (wf_ready _ W) in Hq' as (n & Hn & Hns).
    unfold manager_schedule, interrupt_set', hart_op. unmonad.
    rewrite interrupt_set_run by apply W. unfold sched_schedule. change (view (with_hart _ k)) with (view k).
    change (scheduler (with_hart _ k)) with (scheduler k). rewrite HS.
    unfold with_hart, with_scheduler, current_thread, thread, with_current, set_status, update, with_threads in *.
    unmonad. cbn [hart TID threads scheduler current all active] in *.
    rewrite Hct, (overflow_wf k (current k)), bool_decide_eq_true_2 by done.
    cbn [assert_ orb negb threads]. rewrite (lookup_total_correct _ _ n), bool_decide_eq_true_2 by done.
    rewrite (overflow_wf k t) by done. cbn [assert_ negb].
    unfold mret, M_ret in *. cbn [hart TID threads scheduler current all active]. by rewrite HT.
  - revert HT. unfold schedule_tail, hart_op, interrupt_get. unmonad.
    cbn [assert_ hart with_level stimer negb]. unfold with_hart.
    cbn [hart TID threads scheduler current all active].
    assert (Hc1 : on_thread t (with_status Running) (threads k) !! current k = Some c)
      by (by rewrite on_thread_lookup, decide_False).
    rewrite (thread_lookup _ _ c) by done.
    unfold current_thread in Hrun. rewrite (thread_lookup _ _ _ Hc) in Hrun. rewrite Hrun.
    unfold set_status, update, with_threads, sched_register. unmonad.
    cbn [hart TID threads scheduler current all active view]. unfold view at 1. cbn [threads current].
    destruct (register _ _ _) as [s'|] eqn:E; [|done]. intros [= <-]. exact E.
Qed.

Section Rounds.
Abbreviation K := (Kernel PriorityScheduler).

(** The calls of [Manager::schedule], as the timer makes them: the threads that
    run one after the other. *)
Fixpoint rounds (n : nat) (k : K) : outcome (list Z * K) :=
  match n with
  | O => mret ([], k)
  | S n =>
      '(_, k) ← manager_schedule k ;
      '(out, k') ← rounds n k ;
      mret (current k :: out, k')
  end.

Lemma rounds_S n k : rounds (S n) k =
  '(_, k) ← manager_schedule k ; '(out, k') ← rounds n k ; mret (current k :: out, k').
Proof. done. Qed.

(** A switch changes no priority. *)
Lemma prio_switched (k k' : K) t u : threads k' = switched k t → prio (view k') u = prio (view k) u.
Proof.
  intros Ht. unfold prio, priority_of, view. cbn [v_threads]. rewrite Ht, !lookup_total_alt.
  unfold switched. rewrite !on_thread_lookup.
  repeat case_decide; subst; destruct (threads k !! _) as [th|]; cbn; try done;
    unfold after_switch; cbn; by destruct (status th).
Qed.

(** The kernel between two rounds: the current thread runs, the others are filed
    by their priorities, and none has a priority above [p]. *)
Record steady (p : Z) (k : K) (q : list Z) : Prop := {
  st_wf : wf k;
  st_running : status (current_thread k) = Running;
  st_filed : filed (prio (view k)) p (scheduler k);
  st_current : prio (view k) (current k) ≤ p;
  st_bucket : bucket p (scheduler k) = Ret q
}.

Lemma filed_ext pr pr' p s : (∀ t, pr' t = pr t) → filed pr p s → filed pr' p s.
Proof.
  intros He (Hs & Hf & Hle). split; [done|split].
  - intros j q Hj Hq. eapply Forall_impl; [by apply Hf|]. intros t. by rewrite He.
  - eapply Forall_impl; [exact Hle|]. intros t. by rewrite He.
Qed.

Lemma steady_round p k q t : pri_ok p → steady p k (q ++ [t]) →
  ∃ r k', manager_schedule k = Ret (r, k') ∧ current k' = t ∧
    steady p k' (if decide (prio (view k) (current k) = p) then current k :: q else q).
Proof.
  intros Hp [W Hrun HF Hc Hb].
  destruct (filed_schedule _ p (view k) _ q t HF (λ _, eq_refl) Hc Hp Hb) as (s & HS & HF' & Hb' & _).
  pose proof HF as (Hok & Hfile & Hle).
  destruct (schedule_ok (view k) (scheduler k)) as (next & s0 & HS0 & Hs0 & HP);
    [exact Hok|exact (filed_pri_ok _ _ _ HF)|].
  change (schedule (view k) (scheduler k)) with (ps_schedule (view k) (scheduler k)) in HS0.
  rewrite HS in HS0. injection HS0 as <- <-.
  destruct (manager_schedule_choice k t s W Hrun HS HP Hs0) as (r & k' & HM & W' & Hcur & Hth & HR).
  exists r, k'. split; [done|]. split; [done|].
  assert (Hpr : ∀ u, prio (view k') u = prio (view k) u) by (intros u; by eapply prio_switched).
  destruct (wf_current _ W) as (c & Ec & _).
  assert (Hcp : pri_ok (prio (view k) (current k))).
  { rewrite (prio_view _ _ _ Ec). by apply (wf_prio _ W _ _ Ec). }
  destruct (filed_register _ p (view k') s (current k) HF' Hpr Hcp Hc) as (s' & HR' & HF2 & Hb2).
  change (register (view k') (current k) s) with (ps_register (view k') (current k) s) in HR.
  rewrite HR' in HR. injection HR as ->. split; [done| | | |by apply Hb2].
  - assert (Hn : t ∈ queued (scheduler k)) by (rewrite HP; left).
    apply (wf_ready _ W) in Hn as (n & Hn & _).
    unfold current_thread, thread. rewrite Hcur, Hth, lookup_total_alt, switched_lookup.
    + rewrite decide_False, decide_True by (try done; intros ->; by apply (current_not_queued k W); rewrite HP; left).
      by rewrite Hn.
    + intros ->. apply (current_not_queued k W). rewrite HP. left.
  - by eapply filed_ext.
  - rewrite Hcur, Hpr. rewrite Forall_forall in Hle. apply Hle.
    change (t ∈ queued (scheduler k)). rewrite HP. left.
Qed.

Lemma rounds_steady p i : ∀ k q t, pri_ok p → steady p k q → rev q !! i = Some t →
  ∃ out k', rounds (S i) k = Ret (out, k') ∧ current k' = t ∧ (∃ q', steady p k' q') ∧
    out = take (S i) (rev q).
Proof.
  induction i as [|i IH]; intros k q t Hp Hst Hi.
  all: destruct q as [|x q _] using rev_ind; [done|]; rewrite rev_app_distr in *; cbn in Hi.
  all: destruct (steady_round p k q x Hp Hst) as (r & k1 & HM & Hc & Hst1).
  - injection Hi as ->. exists [t], k1. cbn [rounds]. unfold mbind, outcome_bind. rewrite HM.
    cbn. rewrite Hc. by split_and!; [..|eexists|].
  - destruct (IH k1 _ t Hp Hst1) as (out & k2 & HR & Hc2 & Hst2 & ->).
    { case_decide; [|done]. cbn. by apply lookup_app_l_Some. }
    eexists _, k2. rewrite rounds_S. unfold mbind, outcome_bind at 1. rewrite HM.
    rewrite HR. cbn [outcome_bind]. unfold mbind. split_and!; [reflexivity|done|done|].
    rewrite Hc. cbn. f_equal. pose proof (lookup_lt_Some _ _ _ Hi) as Hl.
    case_decide; [|done]. cbn. rewrite take_app_le by (cbn in *; lia). done.
Qed.
End Rounds.

(** C17: every ready thread of the highest priority runs.  From any kernel whose
    current thread runs, while only the timer calls [Manager::schedule], the
    ready threads of the highest priority run one after the other in the order
    in which they became ready, none twice before all have run once: the thread
    [i] places behind the head runs after [i + 1] calls, no call fails, and the
    kernel is then in a state of the same kind. *)
Theorem round_robin p (k : Kernel PriorityScheduler) q i t :
  pri_ok p → wf k → status (current_thread k) = Running →
  filed (prio (view k)) p (scheduler k) → prio (view k) (current k) ≤ p →
  bucket p (scheduler k) = Ret q → rev q !! i = Some t →
  ∃ k' q', rounds (S i) k = Ret (take (S i) (rev q), k') ∧ current k' = t ∧ wf k' ∧
    status (current_thread k') = Running ∧ filed (prio (view k')) p (scheduler k') ∧
    bucket p (scheduler k') = Ret q'.
Proof.
  intros Hp W Hr HF Hc Hb Hi.
  destruct (rounds_steady p i k q t Hp ltac:(by split) Hi) as (out & k' & HR & Hk & [q' [W' R' F' _ B']] & ->).
  exists k', q'. by split_and!.
Qed.

(** ** Concrete runs *)

Definition filed_check (pr : Z → Z) (p : Z) (s : PriorityScheduler) : bool :=
  Nat.eqb (length (buckets s)) 64 &&
  forallb (λ iq : nat * list Z, forallb (λ t, (pr t =? Z.of_nat iq.1) && (pr t <=? p)) iq.2)
    (imap pair (buckets s)).

Lemma filed_check_ok pr p s : filed_check pr p s = true → filed pr p s.
Proof.
  unfold filed_check. rewrite andb_true_iff, Nat.eqb_eq, forallb_forall. intros [Hl Hf].
  assert (Hb : ∀ i q, buckets s !! i = Some q → Forall (λ t, pr t = Z.of_nat i ∧ pr t ≤ p) q).
  { intros i q Hi. apply Forall_forall. intros t Ht.
    specialize (Hf (i, q)). rewrite forallb_forall in Hf. cbn in Hf.
    assert (H1 : List.In (i, q) (imap pair (buckets s))).
    { apply list_elem_of_In, list_elem_of_lookup. exists i. by rewrite list_lookup_imap, Hi. }
    apply list_elem_of_In in Ht. specialize (Hf H1 t Ht).
    apply andb_true_iff in Hf as [E1%Z.eqb_eq E2%Z.leb_le]. done. }
  split; [done|split].
  - intros j q Hj Hq%bucket_lookup. eapply Forall_impl; [by apply Hb|].
    intros t [Ht _]. unfold pri_ok in Hj. lia.
  - apply Forall_forall. intros t Ht. apply elem_of_concat in Ht as (b & Htb & Hbb).
    apply list_elem_of_lookup in Hbb as [i Hi]. specialize (Hb i b Hi).
    rewrite Forall_forall in Hb. by apply Hb.
Qed.

(** Thread 3 waits behind thread 2, which is registered again in between. *)
Definition demo_events : list event :=
  [ESchedule demo_view; ERegister demo_view 2; ESchedule demo_view].

Lemma scheduling_liveness_witness :
  ∃ s', history demo_events demo_scheduler = Ret ([2; 3], s').
Proof.
  destruct (scheduling_liveness demo_events 1 3) as [_ Hp]; [vm_compute; lia|].
  destruct (Hp (prio demo_view) 40 demo_scheduler [3; 2]) as (out & s' & HR & Ho).
  - apply filed_check_ok. by vm_compute.
  - repeat constructor; by vm_compute.
  - by vm_compute.
  - by vm_compute.
  - done.
  - exists s'.
    assert (E : match history demo_events demo_scheduler with Ret (o, _) => o | Panic _ => [] end = [2; 3])
      by (by vm_compute).
    rewrite HR in E |- *. by subst out.
Defined.

(** The kernel after its start, with two threads of the default priority. *)
Definition demo_kernel : outcome (Kernel PriorityScheduler) :=
  k ← manager_new 0x1000 0x2000 (mkHart true true true 0 []) ;
  '(_, k) ← spawn_enter 0x3000 builder_new k ;
  '(_, k) ← spawn_enter 0x4000 builder_new k ;
  mret k.

Lemma demo_kernel_wf : ∃ k, demo_kernel = Ret k ∧ wf k.
Proof.
  unfold demo_kernel.
  destruct (manager_new_run (Sc := PriorityScheduler) 0x1000 0x2000 (mkHart true true true 0 []))
    as (k & -> & W & _); [by vm_compute..|].
  destruct (spawn_enter_run k 0x3000 builder_new W) as (k1 & E1 & W1 & _); [by vm_compute|].
  destruct (spawn_enter_run k1 0x4000 builder_new W1) as (k2 & E2 & W2 & _); [by vm_compute|].
  exists k2. split; [|done]. cbn [mbind outcome_bind]. rewrite E1. cbn [mbind outcome_bind]. by rewrite E2.
Qed.

Lemma round_robin_witness : ∃ k k', demo_kernel = Ret k ∧ rounds 2 k = Ret ([2; 3], k') ∧ current k' = 3.
Proof.
  destruct demo_kernel_wf as (k & E & W).
  assert (Hall : match demo_kernel with
    | Ret k => bool_decide (status (current_thread k) = Running) &&
        filed_check (prio (view k)) 31 (scheduler k) && (prio (view k) (current k) <=? 31) &&
        match bucket 31 (scheduler k) with Ret q => bool_decide (q = [3; 2]) | Panic _ => false end
    | Panic _ => false end = true) by (by vm_compute).
  rewrite E in Hall. apply andb_true_iff in Hall as [Hall Hb].
  apply andb_true_iff in Hall as [Hall Hc%Z.leb_le].
  apply andb_true_iff in Hall as [Hr%bool_decide_eq_true Hf%filed_check_ok].
  destruct (round_robin 31 k [3; 2] 1 3) as (k' & q' & HR & Hk & _); [by vm_compute|done..| |done|].
  { destruct (bucket 31 (scheduler k)); [|done]. apply bool_decide_eq_true in Hb. by subst. }
  exists k, k'. split; [exact E|]. split; [exact HR|exact Hk].
Defined.

(** A machine all of whose threads have the same priority. *)
Definition level_view : View := mkView ∅ 0.

Lemma equal_priorities_witness :
  ∃ s s', history [ERegister level_view 5; ERegister level_view 6; ESchedule level_view] ps_default = Ret ([5], s) ∧
    history [ERegister level_view 5; ERegister level_view 6; ESchedule level_view] (mkFcfs []) = Ret ([5], s').
Proof.
  set (evs := [_; _; _]).
  destruct (equal_priorities_equivalent (priority inhabitant) evs) as (out & s & s' & H1 & H2 & _).
  - by vm_compute.
  - repeat constructor.
  - assert (E : match history evs (mkFcfs []) with Ret (o, _) => o | Panic _ => [] end = [5]) by done.
    change (history evs (mkFcfs []) = Ret (out, s')) in H2. rewrite H2 in E. subst out.
    exists s, s'. split; [exact H1|exact H2].
Defined.
