(* ===== verification/UserPool.v ===== *)
(** * The pool of user pages

    [UserPool] of [mem/palloc.rs]: the second instance of the page allocator,
    behind the pages of user programs.  [UserPool] is what the loader and the
    page tables use of it, with the bytes of the pages; [UserPoolLaws] what they
    rely on.  The buddy allocator of [Palloc.v] discharges the laws. *)

From S2P Require Import Prelude Utils InMemList Blocks Palloc PallocClients PallocFrame Malloc.

Class UserPool (U : Type) := {
  alloc_pages : Z → M U Z;
  dealloc_pages : Z → Z → M U unit;
  user_read : Z → U → Z;        (* the byte at a kernel address *)
  user_write : Z → Z → U → U    (* a store of one byte *)
}.

(** [up_held u T]: the allocator is sound and the single pages [T] are the
    client's. *)
Class UserPoolLaws (U : Type) `{UserPool U} := {
  up_held : U → gset Z → Prop;
  up_page u T a : up_held u T → a ∈ T →
    (PG_SIZE | a) ∧ VM_OFFSET ≤ a ∧ a + PG_SIZE ≤ 2 ^ 64;
  up_alloc u T : up_held u T →
    (∃ p, alloc_pages 1 u = Panic p ∧ p ≠ OutOfFuel) ∨
    ∃ a u', alloc_pages 1 u = Ret (a, u') ∧ (a ∉ T) ∧ up_held u' ({[a]} ∪ T) ∧
      ∀ b x, b ∈ T → b ≤ x < b + PG_SIZE → user_read x u' = user_read x u;
  up_free u T a : up_held u T → a ∈ T →
    ∃ u', dealloc_pages a 1 u = Ret ((), u') ∧ up_held u' (T ∖ {[a]}) ∧
      ∀ b x, b ∈ T → b ≠ a → b ≤ x < b + PG_SIZE → user_read x u' = user_read x u;
  up_write u T a x v : up_held u T → a ∈ T → a ≤ x < a + PG_SIZE → 0 ≤ v < 256 →
    up_held (user_write x v u) T ∧
    ∀ b y, b ∈ T → b ≤ y < b + PG_SIZE →
      user_read y (user_write x v u) = if decide (y = x) then v else user_read y u;
}.

(** ** Bytes of a word *)

Definition get_byte (w j : Z) : Z := Z.land (Z.shiftr w (8 * j)) 255.
Definition set_byte (w j v : Z) : Z :=
  Z.lor (Z.ldiff w (Z.shiftl 255 (8 * j))) (Z.shiftl v (8 * j)).

Lemma get_set_byte w j k v : 0 ≤ j → 0 ≤ k → 0 ≤ v < 256 →
  get_byte (set_byte w j v) k = if decide (k = j) then v else get_byte w k.
Proof.
  intros Hj Hk Hv. apply Z.bits_inj'. intros n Hn.
  assert (E : ∀ u, Z.testbit (get_byte u k) n = Z.testbit u (n + 8 * k) && bool_decide (n < 8)).
  { intros u. unfold get_byte. change 255 with (Z.ones 8).
    rewrite Z.land_spec, Z.shiftr_spec by lia. f_equal.
    case_bool_decide; [by rewrite Z.ones_spec_low by lia|by rewrite Z.ones_spec_high by lia]. }
  assert (Hhi : 8 ≤ n → Z.testbit v n = false).
  { intros. rewrite <-(Z.mod_small v (2 ^ 8)) by lia. apply Z.mod_pow2_bits_high. lia. }
  rewrite E. unfold set_byte. change 255 with (Z.ones 8).
  rewrite Z.lor_spec, Z.ldiff_spec, !Z.shiftl_spec by lia.
  destruct (decide (k = j)) as [-> |Ek].
  - replace (n + 8 * j - 8 * j) with n by lia. case_bool_decide.
    + rewrite Z.ones_spec_low by lia. by rewrite andb_false_r, orb_false_l, andb_true_r.
    + rewrite andb_false_r. symmetry. apply Hhi. lia.
  - rewrite E. case_bool_decide; [|by rewrite !andb_false_r]. f_equal.
    assert (Hlo : ∀ u, (∀ i, 8 ≤ i → Z.testbit u i = false) → Z.testbit u (n + 8 * k - 8 * j) = false).
    { intros u Hu. destruct (decide (n + 8 * k - 8 * j < 0)); [by apply Z.testbit_neg_r|apply Hu; lia]. }
    rewrite (Hlo (Z.ones 8)), (Hlo v).
    + by rewrite andb_true_r, orb_false_r.
    + intros i Hi. rewrite <-(Z.mod_small v (2 ^ 8)) by lia. apply Z.mod_pow2_bits_high. lia.
    + intros i Hi. apply Z.ones_spec_high. lia.
Qed.

(** ** The buddy allocator *)

(** Where the list heads of the allocator lie. *)
Class PoolLayout := { up_base : Z }.

Section pool.
Context `{PoolLayout}.
Abbreviation U := BuddyAllocator.

Definition word_of (x : Z) : Z := x - x mod 8.

#[export] Instance buddy_user_pool : UserPool U := {
  alloc_pages n := alloc up_base n;
  dealloc_pages p n := dealloc up_base p n;
  user_read x u := get_byte (default 0 (ba_mem u !! word_of x)) (x mod 8);
  user_write x v u := mkBuddy
    (alter (λ w, set_byte w (x mod 8) v) (word_of x) (ba_mem u)) (total u) (allocated u)
}.

(** The outstanding requests of a client that holds single pages. *)
Definition singles (T : gset Z) : list (Z * Z) := (λ a, (a, 1)) <$> elements T.

Definition buddy_held (u : U) (T : gset Z) : Prop :=
  ∃ region, client_inv up_base region u (singles T) ∧ ∀ a, a ∈ region → VM_OFFSET ≤ a.

Lemma out_pages_singles T : out_pages (singles T) = elements T.
Proof.
  unfold singles. induction (elements T) as [|a l IH]; [done|].
  by rewrite fmap_cons, out_pages_cons, block_pages_one, IH.
Qed.

Lemma pool_client_perm region s outs outs' :
  outs ≡ₚ outs' → client_inv up_base region s outs → client_inv up_base region s outs'.
Proof.
  intros Hp [(fls & Hb & Hr) Hreg Hal Hall Hpg]. split; [|done| | |done].
  - exists fls. split; [done|]. by rewrite Hr, Hp.
  - intros p n Hin. apply Hal. by rewrite Hp.
  - by rewrite Hall, Hp.
Qed.

Lemma held_region u T region a : client_inv up_base region u (singles T) → a ∈ T → a ∈ region.
Proof.
  intros Hc Ha. destruct (ci_fls _ _ _ _ Hc) as (fls & _ & ->).
  rewrite out_pages_singles. apply elem_of_app. left. by apply elem_of_elements.
Qed.

(** The word of a byte of a page. *)
Lemma word_in_page a x : (PG_SIZE | a) → a ≤ x < a + PG_SIZE →
  word_of x = a + 8 * ((word_of x - a) / 8) ∧ 0 ≤ (word_of x - a) / 8 < 512.
Proof.
  rewrite PG_SIZE_pow2. intros [q ->] Hx. unfold word_of.
  pose proof (Z.div_mod x 8 ltac:(lia)). pose proof (Z.mod_pos_bound x 8 ltac:(lia)).
  replace (x - x mod 8 - q * 2 ^ 12) with ((x / 8 - q * 512) * 8) by lia.
  rewrite Z.div_mul by lia. lia.
Qed.

(** Pages of the client do not meet what the allocator owns. *)
Lemma not_pool_word region u T fls b x :
  client_inv up_base region u (singles T) → region ≡ₚ elements T ++ pages fls →
  b ∈ T → b ≤ x < b + PG_SIZE → ¬ pool_word up_base (pages fls) (word_of x).
Proof.
  intros Hc Hr Hb Hx. pose proof (held_region u T region b Hc Hb) as Hbr.
  pose proof (ci_pg _ _ _ _ Hc b Hbr) as Hal.
  destruct (word_in_page b x Hal Hx) as [Ew Hk]. pose proof PG_SIZE_pow2 as HPG.
  intros [Hh|(pg & Hpg & Hin)].
  - apply (ro_heads _ _ _ (ci_region _ _ _ _ Hc) _ b Hh Hbr). lia.
  - assert (Hpr : pg ∈ region) by (rewrite Hr; apply elem_of_app; by right).
    destruct (ci_pg _ _ _ _ Hc pg Hpr) as [q Hq], Hal as [r Hr']. rewrite HPG in *.
    assert (pg = b) as -> by lia.
    pose proof (ro_nodup _ _ _ (ci_region _ _ _ _ Hc)) as Hnd. rewrite Hr in Hnd.
    apply NoDup_app in Hnd as (_ & Hd & _). apply (Hd b); [by apply elem_of_elements|done].
Qed.

Lemma user_read_frame u u' x :
  ba_mem u' !! word_of x = ba_mem u !! word_of x → user_read x u' = user_read x u.
Proof. cbn. by intros ->. Qed.

Lemma singles_insert T a : (a ∉ T) → singles ({[a]} ∪ T) ≡ₚ (a, 1) :: singles T.
Proof. intros Ha. unfold singles. by rewrite elements_union_singleton. Qed.

Lemma singles_remove T a : a ∈ T → singles T ≡ₚ (a, 1) :: singles (T ∖ {[a]}).
Proof.
  intros Ha. rewrite <-singles_insert by set_solver.
  by rewrite <-(union_difference_singleton_L a T Ha).
Qed.

Lemma up_alloc_buddy u T : buddy_held u T →
  (∃ p, alloc_pages 1 u = Panic p ∧ p ≠ OutOfFuel) ∨
  ∃ a u', alloc_pages 1 u = Ret (a, u') ∧ (a ∉ T) ∧ buddy_held u' ({[a]} ∪ T) ∧
    ∀ b x, b ∈ T → b ≤ x < b + PG_SIZE → user_read x u' = user_read x u.
Proof.
  intros (region & Hc & Hlo). destruct (ci_fls _ _ _ _ Hc) as (fls & Hb & Hr).
  change (alloc_pages 1 u) with (alloc up_base 1 u).
  destruct (alloc up_base 1 u) as [[a u']|p] eqn:E.
  - right. exists a, u'. split; [done|].
    pose proof (client_alloc_inv up_base region 1 a u u' _ Hc ltac:(lia) E) as Hc'.
    assert (Ha : a ∉ T).
    { intros Ha. destruct (ci_fls _ _ _ _ Hc') as (fls' & _ & Hr').
      pose proof (ro_nodup _ _ _ (ci_region _ _ _ _ Hc')) as Hnd. rewrite Hr' in Hnd.
      rewrite out_pages_cons, block_pages_one, out_pages_singles in Hnd.
      cbn in Hnd. apply NoDup_cons in Hnd as [Hn _]. apply Hn, elem_of_app. left.
      by apply elem_of_elements. }
    split; [done|]. split.
    + exists region. split; [|done]. eapply pool_client_perm; [symmetry; by apply singles_insert|done].
    + intros b x Hbt Hx. apply user_read_frame. destruct u as [m t al].
      rewrite out_pages_singles in Hr.
      eapply (alloc_frame up_base m fls 1 t al a u'); [apply Hb|lia|done|].
      by eapply not_pool_word.
  - left. exists p. split; [done|].
    destruct (alloc_inv up_base u fls 1 Hb ltac:(lia)) as [[_ Ha]|(_ & q & s' & fls' & Ha & _)];
      rewrite Ha in E; by inversion E.
Qed.

Lemma up_free_buddy u T a : buddy_held u T → a ∈ T →
  ∃ u', dealloc_pages a 1 u = Ret ((), u') ∧ buddy_held u' (T ∖ {[a]}) ∧
    ∀ b x, b ∈ T → b ≠ a → b ≤ x < b + PG_SIZE → user_read x u' = user_read x u.
Proof.
  intros (region & Hc & Hlo) Ha. pose proof (singles_remove T a Ha) as Ho.
  destruct (client_dealloc_total up_base region 1 a u _ _ Hc Ho) as (u' & E & Hc').
  exists u'. split; [done|]. split; [by exists region|].
  intros b x Hb Hne Hx. apply user_read_frame. destruct u as [m t al].
  destruct (ci_fls _ _ _ _ Hc) as (fls & Hbi & Hr).
  pose proof (client_block_ok up_base region _ _ _ _ _ fls Hc Ho Hr) as Hbo.
  eapply (dealloc_frame up_base m fls 1 a t al u'); [apply Hbi|lia|done|done|].
  rewrite out_pages_singles in Hr. rewrite block_pages_one.
  intros [Hh|(pg & [->|Hpg]%elem_of_cons & Hin)].
  - by eapply (not_pool_word region (mkBuddy m t al) T fls b x Hc Hr Hb Hx); left.
  - pose proof (held_region _ _ _ _ Hc Hb) as Hbr. pose proof (held_region _ _ _ _ Hc Ha) as Har.
    destruct (word_in_page b x (ci_pg _ _ _ _ Hc b Hbr) Hx) as [Ew Hk].
    destruct (ci_pg _ _ _ _ Hc a Har) as [q Hq], (ci_pg _ _ _ _ Hc b Hbr) as [r Hr'].
    apply Hne. pose proof PG_SIZE_pow2 as HPG. rewrite HPG in *. lia.
  - eapply (not_pool_word region (mkBuddy m t al) T fls b x Hc Hr Hb Hx). right. by exists pg.
Qed.

Lemma word_of_byte x y : word_of y = word_of x → y mod 8 = x mod 8 → y = x.
Proof. unfold word_of. lia. Qed.

Lemma up_write_buddy u T a x v : buddy_held u T → a ∈ T → a ≤ x < a + PG_SIZE → 0 ≤ v < 256 →
  buddy_held (user_write x v u) T ∧
  ∀ b y, b ∈ T → b ≤ y < b + PG_SIZE →
    user_read y (user_write x v u) = if decide (y = x) then v else user_read y u.
Proof.
  intros (region & Hc & Hlo) Ha Hx Hv. pose proof (held_region _ _ _ _ Hc Ha) as Har.
  destruct (word_in_page a x (ci_pg _ _ _ _ Hc a Har) Hx) as [Ew Hk].
  pose proof (ro_mapped _ _ _ (ci_region _ _ _ _ Hc) a Har _ Hk) as [w Hw]. rewrite <-Ew in Hw.
  assert (Hm : alter (λ w, set_byte w (x mod 8) v) (word_of x) (ba_mem u) =
               <[word_of x := set_byte w (x mod 8) v]> (ba_mem u)).
  { apply map_eq. intros k. destruct (decide (k = word_of x)) as [-> |Hne].
    - by rewrite lookup_alter_eq, lookup_insert_eq, Hw.
    - by rewrite lookup_alter_ne, lookup_insert_ne. }
  split.
  - exists region. split; [|done]. cbn. rewrite Hm, Ew.
    apply client_write_inv; [done| |done].
    rewrite out_pages_singles. by apply elem_of_elements.
  - intros b y Hb Hy. cbn. rewrite Hm.
    destruct (decide (word_of y = word_of x)) as [Eq|Hne].
    + rewrite Eq, lookup_insert_eq, Hw. cbn. rewrite get_set_byte by (try done; apply Z.mod_pos_bound; lia).
      destruct (decide (y = x)) as [-> |Hyx]; [by rewrite decide_True|].
      rewrite decide_False; [done|]. intros Em. by apply Hyx, word_of_byte.
    + rewrite lookup_insert_ne by done. rewrite decide_False; [done|]. by intros ->.
Qed.

Lemma up_page_buddy u T a : buddy_held u T → a ∈ T →
  (PG_SIZE | a) ∧ VM_OFFSET ≤ a ∧ a + PG_SIZE ≤ 2 ^ 64.
Proof.
  intros (region & Hc & Hlo) Ha. pose proof (held_region _ _ _ _ Hc Ha) as Har.
  split; [by apply (ci_pg _ _ _ _ Hc)|]. split; [by apply Hlo|].
  by apply (ro_range _ _ _ (ci_region _ _ _ _ Hc)).
Qed.

#[export] Instance buddy_user_pool_laws : UserPoolLaws U := {
  up_held := buddy_held;
  up_page := up_page_buddy;
  up_alloc := up_alloc_buddy;
  up_free := up_free_buddy;
  up_write := up_write_buddy
}.
End pool.
