(* ===== verification/Load.v ===== *)
(** * Loading user programs

    [userproc/load.rs], and [PageTable::destroy]: an executable is read from a
    file, its segments are copied into pages of the user pool and mapped into a
    clone of the kernel's page table.  The files are those of [Fs.v], the tables
    those of [PageTable.v], what a table owns that of [Owned.v], the pages those of
    [UserPool.v].  The [elf_rs] crate is a parameter. *)

From S2P Require Import Prelude Utils Bytes Io Fs InMemList Palloc PallocClients Malloc PageTable Owned UserPool.
From S2P Require Import Intr Thread Scheduler Manager Asm.

(** ** The [elf_rs] crate *)

Inductive ProgramType : Type := LOAD | OtherType.

Record ProgramHeaderEntry : Type := mkPhdr {
  ph_type : ProgramType;
  ph_execute : bool;       (* flags().contains(ProgramHeaderFlags::EXECUTE) *)
  ph_write : bool;
  ph_offset : Z;
  ph_vaddr : Z;
  ph_filesz : Z;
  ph_memsz : Z
}.

Record Elf64File : Type := mkElf64 { program_headers : list ProgramHeaderEntry; entry_point : Z }.
Inductive Elf : Type := Elf32 | Elf64 (e : Elf64File).

Class ElfCrate := from_bytes : bytes → option Elf.

#[export] Instance ProgramType_eq_dec : EqDecision ProgramType.
Proof. solve_decision. Defined.

Record ExecInfo : Type := mkExecInfo { exec_entry : Z; init_sp : Z }.

(** ** Address spaces *)

(** The page tables and the user pool, which lie in different parts of the RAM. *)
Record AW (K U : Type) : Type := mkAW { aw_pt : K; aw_user : U }.
Arguments mkAW {K U}. Arguments aw_pt {K U}. Arguments aw_user {K U}.

Section Loader.
Context {K U : Type} `{PageSource K} `{UserPool U} (F : Type) `{Bitflags F}.
Abbreviation A := (AW K U).

Definition on_pt {B} (m : M K B) : M A B := λ s,
  '(b, k) ← m (aw_pt s) ; Ret (b, mkAW k (aw_user s)).
Definition on_user {B} (m : M U B) : M A B := λ s,
  '(b, u) ← m (aw_user s) ; Ret (b, mkAW (aw_pt s) u).

(** [PageTable::destroy].  A leaf that is not global is a page, or a run of
    pages, of the user pool; what is below a global entry is the kernel's. *)
Fixpoint destroy_imp (level : nat) (pgt : Z) : M A unit :=
  for_each (seqZ 0 NENTRY) (λ k,
    e ← on_pt (ps_read (pgt + 8 * k)) ;
    if is_valid (F := F) e && negb (is_global (F := F) e) then
      let va := into_va (entry_pa e) in
      if is_leaf (F := F) e then
        on_user (dealloc_pages va (Z.shiftl 1 (9 * Z.of_nat level)))
      else
        t ← on_pt (from_raw va) ;
        match level with
        | O => fail AssertFailed
        | Datatypes.S level => destroy_imp level t
        end
    else mret ()) ;;
  on_pt (kfree_page pgt).

Definition destroy (root : Z) : M A unit := destroy_imp 2 root.

(** Stores of consecutive bytes. *)
Fixpoint put_bytes (a : Z) (l : bytes) (u : U) : U :=
  match l with
  | [] => u
  | v :: l => put_bytes (a + 1) l (user_write a v u)
  end.

(** [&filebuf[lo..hi]] *)
Definition subslice (b : bytes) (lo hi : Z) : outcome bytes :=
  if bool_decide (lo ≤ hi ≤ zlen b) then Ret (slice lo (hi - lo) b) else Panic IndexOutOfBounds.

(** The flags of a segment. *)
Definition segment_flags (phdr : ProgramHeaderEntry) : F :=
  let leaf_flag := fl_union (fl_union flag_V flag_U) flag_R in
  let leaf_flag := if ph_execute phdr then fl_union leaf_flag flag_X else leaf_flag in
  if ph_write phdr then fl_union leaf_flag flag_W else leaf_flag.

(** The body of the loop of [load_segment]: a page at [uaddr], with the [readsz]
    bytes at [readpos] and zeros behind them. *)
Definition load_page (filebuf : bytes) (root : Z) (leaf_flag : F) (uaddr readpos readsz : Z) : M A unit :=
  buf ← on_user (alloc_pages 1) ;
  src ← lift (subslice filebuf readpos (wrap64 (readpos + readsz))) ;
  on_user (modify (put_bytes buf src)) ;;
  on_user (modify (put_bytes (buf + readsz) (zeros (PG_SIZE - readsz)))) ;;
  pa ← lift (from_va buf) ;
  on_pt (map F root pa uaddr 1 leaf_flag).

(** The loop from page [p] on, [n] turns; [readpos] and [readbytes] are its
    variables, and it ends with the latter. *)
Fixpoint load_pages (filebuf : bytes) (root ubase : Z) (leaf_flag : F) (n : nat)
    (p readpos readbytes : Z) : M A Z :=
  match n with
  | O => mret readbytes
  | Datatypes.S n =>
      let readsz := Z.min readbytes PG_SIZE in
      load_page filebuf root leaf_flag (wrap64 (ubase + p * PG_SIZE)) readpos readsz ;;
      load_pages filebuf root ubase leaf_flag n (p + 1)
        (wrap64 (readpos + readsz)) (readbytes - readsz)
  end.

Definition load_segment (filebuf : bytes) (root : Z) (phdr : ProgramHeaderEntry) : M A unit :=
  lift (assert_ (bool_decide (ph_type phdr = LOAD))) ;;
  let fileoff := ph_offset phdr in
  let readpos := Z.land fileoff (bnot 64 PG_MASK) in
  let leaf_flag := segment_flags phdr in
  let ubase := Z.land (ph_vaddr phdr) (bnot 64 PG_MASK) in
  let pageoff := Z.land (ph_vaddr phdr) PG_MASK in
  lift (assert_ (bool_decide (Z.land fileoff PG_MASK = pageoff))) ;;
  pages ← lift (div_round_up (wrap64 (pageoff + ph_memsz phdr)) PG_SIZE) ;
  let readbytes := wrap64 (ph_filesz phdr + pageoff) in
  readbytes ← load_pages filebuf root ubase leaf_flag (Z.to_nat pages) 0 readpos readbytes ;
  lift (assert_ (bool_decide (readbytes = 0))).

Definition init_user_stack (root init_sp : Z) : M A unit :=
  lift (assert_ (bool_decide (init_sp mod PG_SIZE = 0))) ;;
  stack_va ← on_user (alloc_pages 1) ;
  stack_pa ← lift (from_va stack_va) ;
  let stack_page_begin := floor (wrap64 (init_sp - 1)) in
  let flags := fl_union (fl_union (fl_union flag_V flag_R) flag_W) flag_U in
  on_pt (map F root stack_pa stack_page_begin PG_SIZE flags).
End Loader.
Arguments put_bytes {U _}.

(** ** The executable file *)

(** The loader's world: an open file, and the address spaces. *)
Record LW (W V K U : Type) : Type := mkLW { lw_file : W * File V; lw_space : AW K U }.
Arguments mkLW {W V K U}. Arguments lw_file {W V K U}. Arguments lw_space {W V K U}.

Section Executable.
Context {W V K U : Type} `{Vnode W V} `{PageSource K} `{UserPool U} (F : Type) `{Bitflags F} `{ElfCrate}.
Abbreviation L := (LW W V K U).

Definition on_file {B} (m : M (W * File V) B) : M L B := λ s,
  '(b, f) ← m (lw_file s) ; Ret (b, mkLW f (lw_space s)).
Definition on_space {B} (m : M (AW K U) B) : M L B := λ s,
  '(b, a) ← m (lw_space s) ; Ret (b, mkLW (lw_file s) a).

(** [load_elf]; [vec_at] is the address of the vector it reads the file into.
    What [read] returns is not looked at. *)
Definition load_elf (vec_at root : Z) : M L (result ExecInfo) :=
  _ ←? on_file rewind ;
  n ←? on_file len ;
  '(r, buf) ← on_file (Io.read (mkBuf vec_at (zeros n))) ;
  match r with
  | Err e => mret (Err e)
  | Ok _ =>
      match from_bytes buf with
      | Some (Elf64 elf) =>
          for_each (filter (λ p, ph_type p = LOAD) (program_headers elf))
            (λ p, on_space (load_segment F buf root p)) ;;
          mret (Ok (mkExecInfo (entry_point elf) 0x80500000))
      | Some Elf32 | None => mret (Err UnknownFormat)
      end
  end.

Definition load_executable (vec_at root : Z) : M L (result ExecInfo) :=
  exec_info ←? load_elf vec_at root ;
  on_space (init_user_stack F root (init_sp exec_info)) ;;
  on_file deny_write ;;
  mret (Ok exec_info).
End Executable.

(** ** One page *)

Lemma zlen_cons {B} (x : B) l : zlen (x :: l) = zlen l + 1.
Proof. unfold zlen. cbn. lia. Qed.

Section Pages.
Context {K U : Type} `{PageSourceLaws K} `{UserPoolLaws U} {F : Type} `{BitflagsLaws F}.
Abbreviation A := (AW K U).

(** A page table and user pages, of which [T] are in use. *)
Record space_ok (s : A) (root : Z) (T : gset Z) : Prop := {
  so_table : pt_wf (F := F) (aw_pt s) root;
  so_pages : up_held (aw_user s) T
}.

(** The pages of [T] keep their bytes. *)
Definition same_bytes (T : gset Z) (u u' : U) : Prop :=
  ∀ b x, b ∈ T → b ≤ x < b + PG_SIZE → user_read x u' = user_read x u.

Lemma same_bytes_refl T u : same_bytes T u u.
Proof. done. Qed.

Lemma same_bytes_trans T T' u u' u'' :
  T ⊆ T' → same_bytes T u u' → same_bytes T' u' u'' → same_bytes T u u''.
Proof. unfold same_bytes. intros HT E1 E2 b x Hb Hx. rewrite (E2 b x) by auto. by apply (E1 b). Qed.

Lemma put_bytes_spec T a0 l : ∀ a u, up_held u T → a0 ∈ T → a0 ≤ a → a + zlen l ≤ a0 + PG_SIZE →
  is_bytes l →
  up_held (put_bytes a l u) T ∧
  ∀ b y, b ∈ T → b ≤ y < b + PG_SIZE → user_read y (put_bytes a l u) =
    if decide (a ≤ y < a + zlen l) then l !!! Z.to_nat (y - a) else user_read y u.
Proof.
  induction l as [|v l IH]; intros a u Hu Ha0 Hlo Hhi Hl; cbn [put_bytes].
  - split; [done|]. intros b y _ _. rewrite decide_False; [done|]. cbn. unfold zlen. cbn. lia.
  - rewrite zlen_cons in *. apply Forall_cons in Hl as [Hv Hl]. pose proof (zlen_nonneg l).
    destruct (up_write u T a0 a v Hu Ha0 ltac:(lia) Hv) as [Hu' Hw].
    destruct (IH (a + 1) (user_write a v u)) as [Hu2 Hr]; [done|done|lia|lia|done|].
    split; [done|]. intros b y Hb Hy. rewrite (Hr b y Hb Hy).
    destruct (decide (y = a)) as [-> |Hne].
    + rewrite decide_False by lia. rewrite (Hw b a Hb Hy), !decide_True by lia.
      by rewrite Z.sub_diag.
    + destruct (decide (a + 1 ≤ y < a + 1 + zlen l)).
      * rewrite decide_True by lia. replace (Z.to_nat (y - a)) with (S (Z.to_nat (y - (a + 1)))) by lia. done.
      * rewrite decide_False by lia. rewrite (Hw b y Hb Hy). by rewrite decide_False.
Qed.

(** The page of an address of user space. *)
Lemma vpn_user va : 0 ≤ va < 2 ^ 38 → vpn va = va / PG_SIZE.
Proof.
  intros Hva. unfold vpn. rewrite PG_SIZE_pow2, Z.mod_small; [done|].
  split; [by apply Z.div_pos; lia|apply Z.div_lt_upper_bound; lia].
Qed.

(** The page [page], mapped at [va] with [f]; its bytes. *)
Definition backed (s : A) (root va page : Z) (f : F) : Prop :=
  mapping (F := F) (aw_pt s) root va = Some (entry_new (from_pa (page - VM_OFFSET)) f).

(** The bytes from [lo] to [hi] are mapped with [f], to pages that are in [T] and
    were not in [T0], and are those of [byte]. *)
Definition image (s : A) (root : Z) (T0 T : gset Z) (lo hi : Z) (f : F) (byte : Z → Z) : Prop :=
  ∀ va, lo ≤ va < hi → ∃ page, page ∈ T ∧ (page ∉ T0) ∧ backed s root va page f ∧
    user_read (page + va mod PG_SIZE) (aw_user s) = byte va.

(** Mappings outside [lo, hi) stay, those of the kernel among them. *)
Definition same_mappings (s s' : A) (root lo hi : Z) : Prop :=
  ∀ va, (0 ≤ va < 2 ^ 38 ∧ ¬ (lo ≤ va < hi)) ∨ VM_OFFSET ≤ va < 2 ^ 64 →
    mapping (F := F) (aw_pt s') root va = mapping (F := F) (aw_pt s) root va.

Lemma same_mappings_trans s1 s2 s3 root lo mid hi :
  lo ≤ mid ≤ hi → same_mappings s1 s2 root lo mid → same_mappings s2 s3 root mid hi →
  same_mappings s1 s3 root lo hi.
Proof.
  unfold same_mappings. intros Hm E1 E2 va Hva. rewrite E2 by lia. apply E1. lia.
Qed.

Lemma image_stable s s' root T0 T T' lo hi f byte :
  T ⊆ T' → (∀ b, b ∈ T → (PG_SIZE | b)) →
  (∀ va, lo ≤ va < hi → mapping (F := F) (aw_pt s') root va = mapping (F := F) (aw_pt s) root va) →
  same_bytes T (aw_user s) (aw_user s') →
  image s root T0 T lo hi f byte → image s' root T0 T' lo hi f byte.
Proof.
  intros HT Hal Hm Hb Hi va Hva. destruct (Hi va Hva) as (page & Hp & Hnew & Hbk & Hr).
  exists page. split; [auto|]. split; [done|]. split; [unfold backed in *; by rewrite Hm|].
  rewrite <-Hr. apply (Hb page); [done|].
  pose proof (Z.mod_pos_bound va PG_SIZE ltac:(rewrite PG_SIZE_pow2; lia)). lia.
Qed.

Lemma image_fresh s root T0 T1 T lo hi f byte :
  T0 ⊆ T1 → image s root T1 T lo hi f byte → image s root T0 T lo hi f byte.
Proof.
  intros HT Hi va Hva. destruct (Hi va Hva) as (page & Hp & Hnew & Hbk). exists page.
  split; [done|]. split; [auto|done].
Qed.

(** The pages [T] in use are those of [root], with the tables that go with them,
    and [T0]. *)
Definition owns (s : A) (root : Z) (held0 T0 T : gset Z) : Prop := ∃ P Tu held,
  T = P ∪ T0 ∧ P ## T0 ∧ user_space (F := F) (aw_pt s) root held0 P Tu held.

(** Loading into a range without mappings adds what it allocates to what [root]
    owns. *)
Definition keeps_owning (s s' : A) (root : Z) (T T' : gset Z) (lo hi : Z) : Prop := ∀ held0 T0,
  owns s root held0 T0 T → (∀ va, lo ≤ va < hi → mapping (F := F) (aw_pt s) root va = None) →
  owns s' root held0 T0 T'.

(** One page at a page of user space is a legal run for [map]. *)
Lemma user_page_args (a uaddr : Z) (f : F) : (PG_SIZE | a) → VM_OFFSET ≤ a → a + PG_SIZE ≤ 2 ^ 64 →
  (PG_SIZE | uaddr) → 0 ≤ uaddr → uaddr + PG_SIZE ≤ 2 ^ 38 → Z.testbit (bits f) 0 = true →
  map_args (mkPhysAddr (a - VM_OFFSET)) uaddr 1 f.
Proof.
  intros Ha Hlo Hhi Hu H0' Hlow Hf. pose proof PG_SIZE_pow2 as HPG. rewrite VM_OFFSET_mask in *.
  change (pages_of 1) with 1 in *.
  split; cbn [pa_value]; change (pages_of 1) with 1; [|done|lia|lia|lia| |done].
  - apply Z.divide_sub_r; [done|]. rewrite HPG. by exists (2 ^ 52 - 2 ^ 26).
  - rewrite vpn_user by lia. rewrite HPG in *.
    assert (uaddr / 2 ^ 12 < 2 ^ 26) by (apply Z.div_lt_upper_bound; lia). lia.
Qed.

Lemma not_in_user_run uaddr va : (PG_SIZE | uaddr) → 0 ≤ uaddr → uaddr + PG_SIZE ≤ 2 ^ 38 →
  (0 ≤ va < 2 ^ 38 ∧ ¬ (uaddr ≤ va < uaddr + PG_SIZE)) ∨ VM_OFFSET ≤ va < 2 ^ 64 →
  ¬ in_run uaddr 1 va.
Proof.
  pose proof PG_SIZE_pow2 as HPG. intros [q ->] H0' Hlow Hva. unfold in_run. rewrite HPG in *.
  rewrite (vpn_user (q * 2 ^ 12)) by lia. rewrite HPG, Z.div_mul by lia.
  destruct Hva as [[Hr Hn]|Hk].
  - rewrite vpn_user by lia. rewrite HPG. pose proof (Z.div_mod va (2 ^ 12)).
    pose proof (Z.mod_pos_bound va (2 ^ 12)). lia.
  - rewrite vpn_kernel by done. rewrite VM_OFFSET_mask in Hk.
    assert (2 ^ 52 - 2 ^ 26 ≤ va / 2 ^ 12) by (apply Z.div_le_lower_bound; lia). lia.
Qed.

Lemma same_page_div uaddr va : (PG_SIZE | uaddr) → uaddr ≤ va < uaddr + PG_SIZE →
  va / PG_SIZE = uaddr / PG_SIZE.
Proof.
  rewrite PG_SIZE_pow2. intros [q ->] Hva. rewrite Z.div_mul by lia.
  symmetry. apply Z.div_unique with (va - q * 2 ^ 12); lia.
Qed.

(** Mapping a page that is new. *)
Lemma owns_map (s : A) root T a uaddr size (f : F) kt ut :
  map_args (mkPhysAddr (a - VM_OFFSET)) uaddr size f → pages_of size = 1 → user_leaf f →
  (PG_SIZE | a) → VM_OFFSET ≤ a → a + PG_SIZE ≤ 2 ^ 64 → a ∉ T →
  uaddr + PG_SIZE ≤ 2 ^ 38 →
  map F root (mkPhysAddr (a - VM_OFFSET)) uaddr size f (aw_pt s) = Ret ((), kt) →
  keeps_owning s (mkAW kt ut) root T ({[a]} ∪ T) uaddr (uaddr + PG_SIZE).
Proof.
  intros Hargs Hone Hf Hal Hlo Hhi Ha Hlow E held0 T0 (P & Tu & held & -> & Hd & US) Hm.
  rewrite not_elem_of_union in Ha.
  destruct (user_space_map (aw_pt s) kt root held0 P Tu held a uaddr size f US) as (Tu' & held' & US');
    [split; [done|rewrite Hone; lia]|done|done|done|done|done|by destruct Ha| |done|].
  { apply Hm. rewrite PG_SIZE_pow2. lia. }
  exists ({[a]} ∪ P), Tu', held'. split; [by rewrite union_assoc_L|]. split; [|done].
  apply disjoint_union_l. split; [|done]. intros x ->%elem_of_singleton Hx; by destruct Ha.
Qed.

Lemma owns_fresh s root held0 T0 T : owns s root held0 T0 T → T0 ⊆ T.
Proof. intros (P & ? & ? & -> & _). apply union_subseteq_r. Qed.

(** [load_page]: a fresh page with the bytes of the file and zeros. *)
Lemma load_page_spec d root f uaddr readpos readsz (s : A) T :
  space_ok s root T → is_bytes d → zlen d < 2 ^ 63 →
  0 ≤ readpos → 0 ≤ readsz ≤ PG_SIZE → readpos + readsz ≤ zlen d →
  (PG_SIZE | uaddr) → 0 ≤ uaddr → uaddr + PG_SIZE ≤ 2 ^ 38 → user_leaf f →
  (∃ pn, load_page F d root f uaddr readpos readsz s = Panic pn ∧ pn ≠ OutOfFuel) ∨
  ∃ s' T', load_page F d root f uaddr readpos readsz s = Ret ((), s') ∧ space_ok s' root T' ∧
    T ⊆ T' ∧ same_bytes T (aw_user s) (aw_user s') ∧
    same_mappings s s' root uaddr (uaddr + PG_SIZE) ∧ keeps_owning s s' root T T' uaddr (uaddr + PG_SIZE) ∧
    image s' root T T' uaddr (uaddr + PG_SIZE) f
      (λ va, if decide (va - uaddr < readsz) then d !!! Z.to_nat (readpos + (va - uaddr)) else 0).
Proof.
  intros [Hpt Hu] Hd Hdl Hrp Hrs Hle Hal H0' Hlow Hf. pose proof PG_SIZE_pow2 as HPG.
  unfold load_page, on_user, on_pt. unmonad.
  destruct (up_alloc (aw_user s) T Hu) as [(pn & E & Hpn)|(a & u1 & E & Ha & Hu1 & Hk1)];
    rewrite E; [left; eauto|]. cbn [aw_pt aw_user].
  unfold subslice. rewrite wrap_small by (unfold in_range; lia).
  rewrite bool_decide_eq_true_2 by lia. cbn [aw_pt aw_user].
  set (src := slice readpos _ d). set (T1 := {[a]} ∪ T) in *.
  assert (Ha1 : a ∈ T1) by (apply elem_of_union; left; by apply elem_of_singleton).
  assert (Hsub : T ⊆ T1) by apply union_subseteq_r.
  assert (Hsl : zlen src = readsz) by (unfold src; rewrite zlen_slice; lia).
  destruct (up_page u1 T1 a Hu1) as (Hpa & Hlo & Hhi); [done|].
  destruct (put_bytes_spec T1 a src a u1 Hu1) as [Hu2 Hr2]; [done|lia|lia|by apply is_bytes_slice|].
  destruct (put_bytes_spec T1 a (zeros (PG_SIZE - readsz)) (a + readsz) _ Hu2) as [Hu3 Hr3];
    [done|lia|rewrite zlen_zeros; lia|apply is_bytes_zeros|].
  rewrite zlen_zeros in Hr3 by lia. rewrite Hsl in Hr2.
  rewrite from_va_kernel by lia. cbn [aw_pt aw_user].
  assert (Hargs : map_args (mkPhysAddr (a - VM_OFFSET)) uaddr 1 f) by (apply user_page_args; try done; apply Hf).
  destruct (map_mapping (aw_pt s) root _ uaddr 1 f Hpt Hargs) as [(pn & Emap & Hpn)|(k' & Emap & Hpt' & Hin & Hout)];
    rewrite Emap; [left; eauto|right].
  change (pages_of 1) with 1 in *. eexists _, T1. split; [reflexivity|].
  assert (Hrd : ∀ y, a ≤ y < a + PG_SIZE → user_read y (put_bytes (a + readsz) (zeros (PG_SIZE - readsz)) (put_bytes a src u1)) =
    if decide (y - a < readsz) then src !!! Z.to_nat (y - a) else 0).
  { intros y Hy. rewrite (Hr3 a y Ha1 Hy). destruct (decide (y - a < readsz)).
    - rewrite decide_False by lia. rewrite (Hr2 a y Ha1 Hy). by rewrite decide_True by lia.
    - rewrite decide_True by lia. unfold zeros. apply lookup_total_replicate_2. lia. }
  split; [by split|]. split; [done|]. split; [|split; [|split; [by apply owns_map with (size := 1) (f := f)|]]].
  - intros b y Hb Hy. cbn [aw_user].
    assert (Hb1 : b ∈ T1) by auto.
    assert (Hne : b ≠ a) by (intros ->; done).
    destruct (up_page u1 T1 b Hu1) as ([r Er] & _); [done|]. destruct Hpa as [q Eq]. rewrite HPG in *.
    rewrite (Hr3 b y Hb1 Hy), decide_False by lia.
    rewrite (Hr2 b y Hb1 Hy), decide_False by lia. by apply (Hk1 b).
  - intros va Hva. cbn [aw_pt]. apply Hout. by apply not_in_user_run.
  - intros va Hva. exists a. split; [done|]. split; [done|].
    assert (Ev : va / PG_SIZE = uaddr / PG_SIZE) by (by apply same_page_div).
    assert (Em : va mod PG_SIZE = va - uaddr).
    { destruct Hal as [r ->]. rewrite HPG in *. rewrite Z.div_mul in Ev by lia.
      pose proof (Z.div_mod va (2 ^ 12)). lia. }
    split.
    + unfold backed. cbn [aw_pt]. rewrite Hin.
      * cbn [pa_value]. rewrite !vpn_user by lia. rewrite Ev. do 2 f_equal. unfold from_pa. f_equal. lia.
      * unfold in_run. rewrite !vpn_user by lia. lia.
    + cbn [aw_user]. rewrite Hrd by lia. rewrite Em. replace (a + (va - uaddr) - a) with (va - uaddr) by lia.
      destruct (decide (va - uaddr < readsz)); [|done].
      unfold src. rewrite !list_lookup_total_alt, lookup_slice by lia.
      rewrite bool_decide_eq_true_2 by lia. do 2 f_equal. lia.
Qed.

(** ** A segment *)

Lemma image_app s root T0 T lo mid hi f byte byte' byte'' :
  image s root T0 T lo mid f byte → image s root T0 T mid hi f byte' →
  (∀ va, lo ≤ va < mid → byte va = byte'' va) → (∀ va, mid ≤ va < hi → byte' va = byte'' va) →
  image s root T0 T lo hi f byte''.
Proof.
  intros H1' H2' E1 E2 va Hva. destruct (decide (va < mid)).
  - rewrite <-E1 by lia. apply H1'. lia.
  - rewrite <-E2 by lia. apply H2'. lia.
Qed.

Lemma held_aligned u T : up_held u T → ∀ b, b ∈ T → (PG_SIZE | b).
Proof. intros Hu b Hb. by apply (up_page u T b Hu Hb). Qed.

Lemma keeps_owning_trans (s1 s2 s3 : A) root T1 T2 T3 lo mid hi :
  0 ≤ lo ∧ lo ≤ mid ≤ hi ∧ hi ≤ 2 ^ 38 → keeps_owning s1 s2 root T1 T2 lo mid → same_mappings s1 s2 root lo mid →
  keeps_owning s2 s3 root T2 T3 mid hi → keeps_owning s1 s3 root T1 T3 lo hi.
Proof.
  intros Hm K1 E1 K2 held0 T0 Ho Hn. apply K2; [apply K1; [done|]|].
  - intros va Hva. apply Hn. lia.
  - intros va Hva. rewrite E1 by lia. apply Hn. lia.
Qed.

(** The bytes from [readpos] on, [readbytes] of them, placed at [lo]. *)
Definition placed (d : bytes) (lo readpos readbytes va : Z) : Z :=
  if decide (va - lo < readbytes) then d !!! Z.to_nat (readpos + (va - lo)) else 0.

Lemma load_pages_spec d root f ubase n : ∀ p readpos readbytes (s : A) T,
  space_ok s root T → is_bytes d → zlen d < 2 ^ 63 →
  0 ≤ p → 0 ≤ readpos → 0 ≤ readbytes → readpos + readbytes ≤ zlen d →
  (PG_SIZE | ubase) → 0 ≤ ubase → ubase + (p + Z.of_nat n) * PG_SIZE ≤ 2 ^ 38 →
  user_leaf f →
  let lo := ubase + p * PG_SIZE in let hi := ubase + (p + Z.of_nat n) * PG_SIZE in
  (∃ pn, load_pages F d root ubase f n p readpos readbytes s = Panic pn ∧ pn ≠ OutOfFuel) ∨
  ∃ s' T', load_pages F d root ubase f n p readpos readbytes s =
      Ret (Z.max 0 (readbytes - Z.of_nat n * PG_SIZE), s') ∧ space_ok s' root T' ∧
    T ⊆ T' ∧ same_bytes T (aw_user s) (aw_user s') ∧ same_mappings s s' root lo hi ∧
    keeps_owning s s' root T T' lo hi ∧ image s' root T T' lo hi f (placed d lo readpos readbytes).
Proof.
  pose proof PG_SIZE_pow2 as HPG.
  induction n as [|n IH]; intros p rp rb s T Hs Hd Hdl Hp Hrp Hrb Hle Hal H0' Hlow Hf lo hi.
  - right. exists s, T. cbn [load_pages]. replace (Z.max 0 (rb - Z.of_nat 0 * PG_SIZE)) with rb by lia.
    split; [done|]. split; [done|]. split; [done|]. split; [done|]. split; [by intros va _|].
    split; [by intros held0 T0 ? _|]. intros va Hva. unfold lo, hi in Hva. lia.
  - cbn [load_pages]. set (readsz := Z.min rb PG_SIZE).
    assert (Hrs : 0 ≤ readsz ≤ PG_SIZE) by lia.
    assert (Hlo : 0 ≤ lo ∧ lo + PG_SIZE ≤ 2 ^ 38 ∧ lo + PG_SIZE ≤ hi) by (unfold lo, hi in *; lia).
    rewrite (wrap_small 64 (ubase + p * PG_SIZE)) by (unfold in_range; fold lo; lia). fold lo.
    assert (Hal' : (PG_SIZE | lo)) by (apply Z.divide_add_r; [done|apply Z.divide_factor_r]).
    unfold mbind, M_bind.
    destruct (load_page_spec d root f lo rp readsz s T)
      as [(pn & -> & Hpn)|(s1 & T1 & -> & Hs1 & HT1 & Hb1 & Hm1 & Ho1 & Hi1)]; [done..|lia|done|lia|done|lia|lia|done|left; eauto|].
    rewrite wrap_small by (unfold in_range; lia).
    destruct (IH (p + 1) (rp + readsz) (rb - readsz) s1 T1)
      as [(pn & -> & Hpn)|(s2 & T2 & -> & Hs2 & HT2 & Hb2 & Hm2 & Ho2 & Hi2)]; [done..|lia|lia|lia|lia|done|done|lia|done|left; eauto|right].
    replace (ubase + (p + 1) * PG_SIZE) with (lo + PG_SIZE) in * by (unfold lo; lia).
    replace (ubase + (p + 1 + Z.of_nat n) * PG_SIZE) with hi in * by (unfold hi; lia).
    exists s2, T2. split; [f_equal; f_equal; lia|]. split; [done|]. split; [by etrans|].
    split; [by eapply same_bytes_trans|]. split; [eapply same_mappings_trans; [|done|done]; lia|].
    split; [eapply keeps_owning_trans; [|exact Ho1|exact Hm1|exact Ho2]; lia|].
    eapply image_app; [|exact (image_fresh _ _ _ _ _ _ _ _ _ HT1 Hi2)|..].
    + eapply (image_stable s1 s2 root T T1 T2); [done|by apply (held_aligned (aw_user s1)), Hs1| |exact Hb2|exact Hi1].
      intros va Hva. apply Hm2. lia.
    + intros va Hva. cbn beta. unfold placed. destruct (decide (va - lo < readsz)).
      * by rewrite decide_True by lia.
      * by rewrite decide_False by lia.
    + intros va Hva. unfold placed. destruct (decide (va - lo < rb)).
      * rewrite decide_True by lia. do 2 f_equal. lia.
      * by rewrite decide_False by lia.
Qed.

(** A segment that the file holds and that fits into user space. *)
Record seg_ok (d : bytes) (p : ProgramHeaderEntry) : Prop := {
  sg_load : ph_type p = LOAD;
  sg_pos : 0 ≤ ph_offset p ∧ 0 ≤ ph_filesz p ∧ 0 ≤ ph_vaddr p;
  sg_congruent : ph_offset p mod PG_SIZE = ph_vaddr p mod PG_SIZE;
  sg_file : ph_offset p + ph_filesz p ≤ zlen d;
  sg_memory : ph_filesz p ≤ ph_memsz p;
  sg_user : ph_vaddr p + ph_memsz p ≤ 2 ^ 38
}.

(** Its pages, from [seg_lo] to [seg_hi]. *)
Definition seg_lo (p : ProgramHeaderEntry) : Z := ph_vaddr p - ph_vaddr p mod PG_SIZE.
Definition seg_hi (p : ProgramHeaderEntry) : Z :=
  (ph_vaddr p + ph_memsz p + PG_SIZE - 1) / PG_SIZE * PG_SIZE.

(** The byte at [va]: of the file up to [filesz], zero behind that.  The page
    of the first byte begins with what precedes it in the file. *)
Definition seg_byte (d : bytes) (p : ProgramHeaderEntry) (va : Z) : Z :=
  if decide (va < ph_vaddr p + ph_filesz p) then d !!! Z.to_nat (ph_offset p + (va - ph_vaddr p)) else 0.

Lemma land_page_mask n : is_usize n →
  Z.land n PG_MASK = n mod PG_SIZE ∧ Z.land n (bnot 64 PG_MASK) = n - n mod PG_SIZE.
Proof.
  intros Hn. split; [by apply (Z.land_ones n 12)|].
  pose proof (land_bnot_low n 12 ltac:(lia) Hn) as E. rewrite PG_SIZE_pow2. exact E.
Qed.

Lemma div_round_up_page n : 0 ≤ n → n + PG_SIZE ≤ 2 ^ 64 →
  div_round_up n PG_SIZE = Ret ((n + PG_SIZE - 1) / PG_SIZE).
Proof.
  rewrite PG_SIZE_pow2. intros Hn Hov. unfold div_round_up.
  rewrite is_power_of_two_pow2 by lia. cbn [assert_ mbind outcome_bind].
  rewrite round_up_pow2 by (try unfold in_range; lia). cbn [mbind outcome_bind].
  by rewrite Z.div_mul by lia.
Qed.

Lemma segment_flags_user p : user_leaf (segment_flags F p).
Proof.
  assert (HV : bits (F := F) flag_V = 1) by (unfold flag_V; by rewrite bits_truncate).
  assert (HU : bits (F := F) flag_U = 16) by (unfold flag_U; by rewrite bits_truncate).
  assert (HR : bits (F := F) flag_R = 2) by (unfold flag_R; by rewrite bits_truncate).
  assert (HW : bits (F := F) flag_W = 4) by (unfold flag_W; by rewrite bits_truncate).
  assert (HX : bits (F := F) flag_X = 8) by (unfold flag_X; by rewrite bits_truncate).
  unfold user_leaf, segment_flags.
  destruct (ph_execute p), (ph_write p); rewrite !bits_union, HV, HU, HR, ?HW, ?HX; by vm_compute.
Qed.

Lemma seg_bounds p : 0 ≤ ph_vaddr p → 0 ≤ ph_memsz p → ph_vaddr p + ph_memsz p ≤ 2 ^ 38 →
  0 ≤ seg_lo p ≤ ph_vaddr p ∧ ph_vaddr p < seg_lo p + PG_SIZE ∧ (PG_SIZE | seg_lo p) ∧
  ph_vaddr p + ph_memsz p ≤ seg_hi p ≤ 2 ^ 38 ∧ seg_lo p ≤ seg_hi p ∧
  seg_hi p = seg_lo p + (ph_vaddr p mod PG_SIZE + ph_memsz p + PG_SIZE - 1) / PG_SIZE * PG_SIZE.
Proof.
  intros Hv Hm Hu. unfold seg_lo, seg_hi. rewrite PG_SIZE_pow2.
  pose proof (Z.mod_pos_bound (ph_vaddr p) (2 ^ 12) ltac:(lia)).
  pose proof (Z.div_mod (ph_vaddr p) (2 ^ 12) ltac:(lia)) as Ed.
  pose proof (ceil_div_bounds (ph_vaddr p + ph_memsz p) (2 ^ 12) ltac:(lia)) as [? ?].
  set (q := ph_vaddr p / 2 ^ 12) in *. set (r := ph_vaddr p mod 2 ^ 12) in *.
  replace (ph_vaddr p + ph_memsz p + 2 ^ 12 - 1) with ((r + ph_memsz p + 2 ^ 12 - 1) + q * 2 ^ 12) in * by lia.
  rewrite Z.div_add in * by lia.
  assert ((r + ph_memsz p + 2 ^ 12 - 1) / 2 ^ 12 < 2 ^ 26 - q + 1) by (apply Z.div_lt_upper_bound; lia).
  assert (0 ≤ (r + ph_memsz p + 2 ^ 12 - 1) / 2 ^ 12) by (apply Z.div_pos; lia).
  split_and!; try lia. exists q. lia.
Qed.

Lemma load_segment_spec d root p (s : A) T :
  space_ok s root T → is_bytes d → zlen d < 2 ^ 63 → seg_ok d p →
  (∃ pn, load_segment F d root p s = Panic pn ∧ pn ≠ OutOfFuel) ∨
  ∃ s' T', load_segment F d root p s = Ret ((), s') ∧ space_ok s' root T' ∧
    T ⊆ T' ∧ same_bytes T (aw_user s) (aw_user s') ∧ same_mappings s s' root (seg_lo p) (seg_hi p) ∧
    keeps_owning s s' root T T' (seg_lo p) (seg_hi p) ∧
    image s' root T T' (seg_lo p) (seg_hi p) (segment_flags F p) (seg_byte d p).
Proof.
  intros Hs Hd Hdl [Hl (Ho & Hfz & Hv) Hc Hfl Hm Hu].
  pose proof PG_SIZE_pow2 as HPG.
  destruct (seg_bounds p Hv ltac:(lia) Hu) as (Hlo & Hlt & Hal & Hhi & _ & Ehi).
  pose proof (Z.mod_pos_bound (ph_vaddr p) PG_SIZE ltac:(lia)) as Hr.
  pose proof (Z.mod_le (ph_offset p) PG_SIZE Ho ltac:(lia)) as Hor.
  unfold load_segment. unmonad. rewrite bool_decide_eq_true_2 by done. cbn [assert_].
  destruct (land_page_mask (ph_vaddr p)) as [-> ->]; [unfold in_range; lia|].
  destruct (land_page_mask (ph_offset p)) as [-> ->]; [unfold in_range; lia|].
  rewrite bool_decide_eq_true_2 by done. cbn [assert_].
  rewrite !wrap_small by (unfold in_range; lia). fold (seg_lo p).
  rewrite div_round_up_page by lia. set (n := (_ + PG_SIZE - 1) / PG_SIZE) in *.
  assert (Hn0 : 0 ≤ n) by (apply Z.div_pos; lia).
  assert (Hn : Z.of_nat (Z.to_nat n) = n) by lia.
  destruct (load_pages_spec d root (segment_flags F p) (seg_lo p) (Z.to_nat n) 0
    (ph_offset p - ph_offset p mod PG_SIZE) (ph_filesz p + ph_vaddr p mod PG_SIZE) s T)
    as [(pn & -> & Hpn)|(s' & T' & -> & Hs' & HT & Hb & Hmm & Hown & Hi)];
    [done..|lia|lia|lia|lia|done|lia|rewrite Hn; lia|apply segment_flags_user|left; eauto|right].
  rewrite Hn in *. rewrite Z.mul_0_l, Z.add_0_r, Z.add_0_l, <- Ehi in *.
  rewrite Z.max_l by (unfold seg_lo in *; lia). cbn [assert_]. rewrite bool_decide_eq_true_2 by done. cbn [assert_].
  exists s', T'. split_and!; try done.
  eapply (image_app _ _ _ _ _ (seg_hi p) _ _ _ (seg_byte d p)); [exact Hi|intros va Hva; lia| |intros va Hva; lia].
  intros va Hva. unfold placed, seg_byte, seg_lo in *.
  destruct (decide (va < ph_vaddr p + ph_filesz p)).
  - rewrite decide_True by lia. do 2 f_equal. lia.
  - by rewrite decide_False by lia.
Qed.

(** ** All segments, and the stack *)

(** Segments on different pages. *)
Definition seg_apart (p q : ProgramHeaderEntry) : Prop := seg_hi p ≤ seg_lo q ∨ seg_hi q ≤ seg_lo p.

Definition in_segment (p : ProgramHeaderEntry) (va : Z) : Prop := seg_lo p ≤ va < seg_hi p.

(** Mappings outside the segments [ps] stay. *)
Definition same_outside (ps : list ProgramHeaderEntry) (s s' : A) (root : Z) : Prop :=
  ∀ va, (0 ≤ va < 2 ^ 38 ∧ Forall (λ p, ¬ in_segment p va) ps) ∨ VM_OFFSET ≤ va < 2 ^ 64 →
    mapping (F := F) (aw_pt s') root va = mapping (F := F) (aw_pt s) root va.

Lemma load_segments_spec d root ps : ∀ (s : A) T,
  space_ok s root T → is_bytes d → zlen d < 2 ^ 63 → Forall (seg_ok d) ps → ForallOrdPairs seg_apart ps →
  (∃ pn, for_each ps (load_segment F d root) s = Panic pn ∧ pn ≠ OutOfFuel) ∨
  ∃ s' T', for_each ps (load_segment F d root) s = Ret ((), s') ∧ space_ok s' root T' ∧
    T ⊆ T' ∧ same_bytes T (aw_user s) (aw_user s') ∧ same_outside ps s s' root ∧
    (∀ held0 T0, owns s root held0 T0 T →
       (∀ va, Exists (λ p, in_segment p va) ps → mapping (F := F) (aw_pt s) root va = None) → owns s' root held0 T0 T') ∧
    Forall (λ p, image s' root T T' (seg_lo p) (seg_hi p) (segment_flags F p) (seg_byte d p)) ps.
Proof.
  induction ps as [|p ps IH]; intros s T Hs Hd Hdl Hok Hap; cbn [for_each].
  - right. exists s, T. by split_and!.
  - inversion_clear Hok as [|? ? Hp Hps]. inversion_clear Hap as [|? ? Hap1 Hap2].
    unfold mbind, M_bind.
    destruct (load_segment_spec d root p s T Hs Hd Hdl Hp)
      as [(pn & -> & Hpn)|(s1 & T1 & -> & Hs1 & HT1 & Hb1 & Hm1 & Ho1 & Hi1)]; [left; eauto|].
    destruct (IH s1 T1 Hs1 Hd Hdl Hps Hap2)
      as [(pn & -> & Hpn)|(s2 & T2 & -> & Hs2 & HT2 & Hb2 & Hm2 & Ho2 & Hi2)]; [left; eauto|right].
    exists s2, T2. split; [done|]. split; [done|]. split; [by etrans|].
    split; [by eapply same_bytes_trans|]. split; [|split].
    + intros va Hva. rewrite Hm2; [apply Hm1|].
      * destruct Hva as [[Hr Hn]|]; [left|by right]. inversion_clear Hn. by split.
      * destruct Hva as [[Hr Hn]|]; [left|by right]. by inversion_clear Hn.
    + intros held0 T0 Ho Hn. apply Ho2; [apply Ho1; [done|]|].
      * intros va Hva. apply Hn. by left.
      * intros va Hva. rewrite Hm1; [apply Hn; by right|]. left.
        apply Exists_exists in Hva as (q & Hq & Hva). rewrite !Forall_forall in *.
        pose proof (Hps q Hq) as [_ (_ & ? & Hv) _ _ ? Hu].
        destruct (seg_bounds q Hv ltac:(lia) Hu) as (? & _ & _ & ? & _).
        specialize (Hap1 q Hq). unfold seg_apart, in_segment in *. lia.
    + constructor; [|by eapply Forall_impl; [exact Hi2|intros q; by apply image_fresh]].
      eapply image_stable; [exact HT2|by apply (held_aligned (aw_user s1)), Hs1| |exact Hb2|exact Hi1].
      intros va Hva. apply Hm2. left. destruct Hp as [_ (_ & ? & Hv) _ _ ? Hu].
      destruct (seg_bounds p Hv ltac:(lia) Hu) as (? & _ & _ & ? & _). split; [lia|].
      eapply Forall_impl; [exact Hap1|]. intros q Hq. unfold seg_apart, in_segment in *. lia.
Qed.

(** The page of the stack. *)
Definition stack_lo : Z := 0x804FF000.
Definition stack_hi : Z := 0x80500000.
Definition stack_flags : F := fl_union (fl_union (fl_union flag_V flag_R) flag_W) flag_U.

Lemma init_user_stack_spec root (s : A) T : space_ok s root T →
  (∃ pn, init_user_stack F root stack_hi s = Panic pn ∧ pn ≠ OutOfFuel) ∨
  ∃ s' T' page, init_user_stack F root stack_hi s = Ret ((), s') ∧ space_ok s' root T' ∧
    T ⊆ T' ∧ same_bytes T (aw_user s) (aw_user s') ∧ same_mappings s s' root stack_lo stack_hi ∧
    keeps_owning s s' root T T' stack_lo stack_hi ∧ page ∈ T' ∧ (page ∉ T) ∧ ∀ va, stack_lo ≤ va < stack_hi → backed s' root va page stack_flags.
Proof.
  intros [Hpt Hu]. unfold init_user_stack, on_user, on_pt. unmonad.
  change (bool_decide (stack_hi mod PG_SIZE = 0)) with true. cbn [assert_].
  destruct (up_alloc (aw_user s) T Hu) as [(pn & E & Hpn)|(a & u1 & E & Ha & Hu1 & Hk1)];
    rewrite E; [left; eauto|]. cbn [aw_pt aw_user].
  assert (Ha1 : a ∈ {[a]} ∪ T) by (apply elem_of_union; left; by apply elem_of_singleton).
  destruct (up_page u1 _ a Hu1 Ha1) as (Hpa & Hlo & Hhi). pose proof PG_SIZE_pow2 as HPG.
  rewrite from_va_kernel by lia. cbn [aw_pt aw_user].
  change (floor (wrap64 (stack_hi - 1))) with stack_lo.
  assert (Hal : (PG_SIZE | stack_lo)) by (by exists 0x804FF).
  assert (Hflag : user_leaf stack_flags).
  { unfold user_leaf, stack_flags, flag_V, flag_R, flag_W, flag_U. rewrite !bits_union, !bits_truncate. by vm_compute. }
  destruct (user_page_args a stack_lo stack_flags Hpa Hlo Hhi Hal ltac:(done) ltac:(done) ltac:(apply Hflag)) as [M1 M2 M3 M4 M5 M6 M7].
  destruct (map_mapping (aw_pt s) root (mkPhysAddr (a - VM_OFFSET)) stack_lo PG_SIZE stack_flags Hpt)
    as [(pn & Em & Hpn)|(k' & Em & Hpt' & Hin & Hout)]; [by split|unfold stack_flags in Em; rewrite Em; left; eauto|unfold stack_flags in Em; rewrite Em; right].
  change (pages_of PG_SIZE) with 1 in *. eexists _, _, a. split; [reflexivity|].
  split; [by split|]. split; [apply union_subseteq_r|]. split; [exact Hk1|].
  split; [|split; [|split; [done|split; [done|]]]].
  - intros va Hva. cbn [aw_pt]. apply Hout. by apply not_in_user_run.
  - apply (owns_map s root T a stack_lo PG_SIZE stack_flags); try done; by split.
  - intros va Hva. unfold backed. cbn [aw_pt].
    assert (Hva2 : va / PG_SIZE = stack_lo / PG_SIZE) by (apply same_page_div; [done|]; unfold stack_lo, stack_hi in *; lia).
    rewrite Hin; [|unfold in_run; rewrite !vpn_user by (unfold stack_lo, stack_hi in *; lia); lia].
    rewrite !vpn_user by (unfold stack_lo, stack_hi in *; lia). cbn [pa_value]. rewrite Hva2.
    do 2 f_equal. unfold from_pa. f_equal. lia.
Qed.
End Pages.

(** ** The executable *)

Section Program.
Context {W V K U : Type} `{VnodeLaws W V} `{PageSourceLaws K} `{UserPoolLaws U} {F : Type} `{BitflagsLaws F}.
Context `{ElfCrate}.

(** What one call of [read] may deliver of [data] into a zeroed buffer. *)
Definition delivered (data d : bytes) : Prop :=
  ∃ n, 0 < n ≤ zlen data ∧ d = slice 0 n data ++ zeros (zlen data - n).

Lemma delivered_length data d : delivered data d → zlen d = zlen data.
Proof.
  intros (n & Hn & ->). rewrite zlen_app, zlen_slice, zlen_zeros; lia.
Qed.

Lemma delivered_bytes data d : is_bytes data → delivered data d → is_bytes d.
Proof.
  intros Hb (n & Hn & ->). apply is_bytes_app. split; [by apply is_bytes_slice|apply is_bytes_zeros].
Qed.

Definition loadable (e : Elf64File) : list ProgramHeaderEntry :=
  filter (λ p, ph_type p = LOAD) (program_headers e).

(** An executable that fits: its segments lie in the file and on different pages
    of user space below the stack. *)
Record exec_ok (d : bytes) (e : Elf64File) : Prop := {
  xo_segments : Forall (seg_ok d) (loadable e);
  xo_apart : ForallOrdPairs seg_apart (loadable e);
  xo_stack : Forall (λ p, seg_hi p ≤ stack_lo) (loadable e)
}.

(** Reading the file, from wherever its cursor is. *)
Lemma read_file_run vec (f : W * File V) :
  st_ok f → st_data f ≠ [] → st_buf f (mkBuf vec (zeros (zlen (st_data f)))) →
  ∃ f1 f2 n d, rewind f = Ret (Ok (), f1) ∧ len f1 = Ret (Ok (zlen (st_data f)), f1) ∧
    Io.read (mkBuf vec (zeros (zlen (st_data f)))) f1 = Ret ((Ok n, d), f2) ∧
    delivered (st_data f) d ∧ becomes f (st_data f) n f2.
Proof.
  intros Hok Hne Hbuf. pose proof (zlen_ne_nil _ Hne) as Hpos.
  destruct (seek_spec (Start 0) f Hok ltac:(cbn; lia)) as (f1 & Hs & Hb1). cbn [seek_target] in Hs, Hb1.
  pose proof Hb1 as (Hok1 & Hd1 & Hp1 & Ho1).
  destruct (read_some f1 (mkBuf vec (zeros (zlen (st_data f)))) Hok1) as (n & f2 & Hn & Hle & Hr & Hb2).
  { by eapply st_buf_only. }
  { cbn [b_data]. intros E. apply (f_equal zlen) in E. rewrite zlen_zeros in E by lia. change (zlen (@nil Z)) with 0 in E. lia. }
  { rewrite Hp1, Hd1. done. }
  cbn [b_data] in *. rewrite zlen_zeros in Hn by lia. rewrite Hd1, Hp1 in *.
  exists f1, f2, n, (slice 0 n (st_data f) ++ zdrop n (zeros (zlen (st_data f)))). split_and!.
  - unfold rewind. unfold mbind, M_bind. by rewrite Hs.
  - rewrite <-Hd1. by apply len_spec.
  - exact Hr.
  - exists n. split; [lia|]. f_equal. unfold zdrop, zeros. rewrite drop_replicate. f_equal. lia.
  - replace n with (0 + n) by lia. by eapply becomes_trans.
Qed.

Abbreviation run vec root f s := (load_executable F vec root (mkLW f s)).

Lemma on_space_run {B} (m : M (AW K U) B) (f : W * File V) s : on_space m (mkLW f s) =
  match m s with Ret (b, s') => Ret (b, mkLW f s') | Panic p => Panic p end.
Proof. unfold on_space, mbind, outcome_bind. cbn [lw_space lw_file]. by destruct (m s) as [[]|]. Qed.

(** [load_elf] once the file is read. *)
Lemma load_elf_run vec root (f : W * File V) (s : AW K U) :
  st_ok f → st_data f ≠ [] → st_buf f (mkBuf vec (zeros (zlen (st_data f)))) →
  ∃ d f', delivered (st_data f) d ∧ (∃ n, becomes f (st_data f) n f') ∧
    load_elf F vec root (mkLW f s) =
      match from_bytes d with
      | Some (Elf64 e) =>
          match for_each (loadable e) (load_segment F d root) s with
          | Ret (_, s') => Ret (Ok (mkExecInfo (entry_point e) stack_hi), mkLW f' s')
          | Panic p => Panic p
          end
      | _ => Ret (Err UnknownFormat, mkLW f' s)
      end.
Proof.
  intros Hok Hne Hbuf.
  destruct (read_file_run vec f Hok Hne Hbuf) as (f1 & f2 & n & d & E1 & E2 & E3 & Hd & Hb).
  exists d, f2. split; [done|]. split; [by exists n|].
  unfold load_elf, on_file. unmonad. cbn [lw_file lw_space]. rewrite E1. cbn [lw_file lw_space].
  rewrite E2. cbn [lw_file lw_space]. rewrite E3. cbn [lw_file lw_space].
  destruct (from_bytes d) as [[|e]|]; [done| |done]. fold (loadable e).
  assert (HL : ∀ ps s0, for_each ps (λ p, on_space (load_segment F d root p)) (mkLW f2 s0) =
    match for_each ps (load_segment F d root) s0 with
    | Ret (_, s') => Ret ((), mkLW f2 s') | Panic p => Panic p end).
  { intros ps. induction ps as [|p ps IH]; intros s0; [done|]. cbn [for_each].
    unfold mbind, M_bind. rewrite on_space_run.
    destruct (load_segment F d root p s0) as [[[] s1]|]; [|done]. apply IH. }
  rewrite HL. by destruct (for_each (loadable e) (load_segment F d root) s) as [[[] s']|].
Qed.

(** Loading the segments and making the stack. *)
Definition load_program (d : bytes) (root : Z) (e : Elf64File) : M (AW K U) unit :=
  for_each (loadable e) (load_segment F d root) ;; init_user_stack F root stack_hi.

(** What [load_executable] comes to, once the file has delivered [d]. *)
Lemma load_executable_run vec root (f : W * File V) (s : AW K U) :
  st_ok f → st_data f ≠ [] → st_buf f (mkBuf vec (zeros (zlen (st_data f)))) →
  (∀ w, v_ok w (vnode f.2) → ∃ w', vnode_deny_write (vnode f.2) w = Ret ((), w')) →
  ∃ d f', delivered (st_data f) d ∧
    match from_bytes d with
    | Some (Elf64 e) => file_deny f'.2 = true ∧
        run vec root f s = match load_program d root e s with
          | Ret (_, s') => Ret (Ok (mkExecInfo (entry_point e) stack_hi), mkLW f' s')
          | Panic p => Panic p
          end
    | _ => file_deny f'.2 = file_deny f.2 ∧ run vec root f s = Ret (Err UnknownFormat, mkLW f' s)
    end.
Proof.
  intros Hok Hne Hbuf Hdeny.
  destruct (load_elf_run vec root f s Hok Hne Hbuf) as (d & f1 & Hd & (n & Hb) & E).
  pose proof Hb as (_ & _ & _ & _ & _ & Edeny). cbn [snd] in Edeny.
  unfold load_executable. unmonad. rewrite E.
  destruct (from_bytes d) as [[|e]|] eqn:Ee; [exists d, f1; by rewrite Ee| |exists d, f1; by rewrite Ee].
  destruct f1 as [w1 f1]. destruct Hb as (Hok1 & _ & _ & Ho).
  destruct Ho as (_ & Ev & _). cbn [fst snd] in Ev.
  destruct (Hdeny w1) as (w2 & Ew); [rewrite <-Ev; apply Hok1|].
  exists d, (w2, mkFile (vnode f.2) (file_pos f1) true). split; [done|]. rewrite Ee. split; [done|].
  unfold load_program. unfold mbind, M_bind.
  destruct (for_each (loadable e) (load_segment F d root) s) as [[[] s1]|]; [|done].
  unfold on_space. unmonad. cbn [lw_file lw_space init_sp].
  destruct (init_user_stack F root stack_hi s1) as [[[] s2]|]; [|done]. cbn [lw_file lw_space].
  unfold on_file, deny_write, on_vnode. unmonad. cbn [lw_file lw_space vnode].
  by rewrite Ev, Ew.
Qed.

(** An address space [s'] in which the program [e], from the file [d], has been
    loaded over [s]: every byte of every segment is mapped, with the permissions
    of its header, to a page that no other address space has, and reads as the
    file's byte, or zero behind the file's part; the stack page is mapped for
    reading and writing, to a page of its own; a table that had no user mappings
    owns exactly what was allocated; every other user mapping and all mappings of
    the kernel are those of [s], and no page in use before has changed. *)
Record loaded (d : bytes) (e : Elf64File) (root : Z) (T : gset Z) (s s' : AW K U) : Prop := {
  ld_space : ∃ T1 T' page, space_ok (F := F) s' root T' ∧ T ⊆ T1 ∧ T1 ⊆ T' ∧
    Forall (λ p, image s' root T T1 (seg_lo p) (seg_hi p) (segment_flags F p) (seg_byte d p)) (loadable e) ∧
    page ∈ T' ∧ (page ∉ T1) ∧
    (∀ va, stack_lo ≤ va < stack_hi → backed s' root va page (stack_flags (F := F))) ∧
    ∀ held0 T0, owns s root held0 T0 T → (∀ va, 0 ≤ va < 2 ^ 38 → mapping (F := F) (aw_pt s) root va = None) →
      owns (F := F) s' root held0 T0 T';
  ld_other : ∀ va, (0 ≤ va < 2 ^ 38 ∧ Forall (λ p, ¬ in_segment p va) (loadable e) ∧ ¬ (stack_lo ≤ va < stack_hi)) ∨
                 VM_OFFSET ≤ va < 2 ^ 64 →
    mapping (F := F) (aw_pt s') root va = mapping (F := F) (aw_pt s) root va;
  ld_bytes : same_bytes T (aw_user s) (aw_user s')
}.

Lemma load_program_spec d root e (s : AW K U) T :
  space_ok (F := F) s root T → is_bytes d → zlen d < 2 ^ 63 → exec_ok d e →
  (∃ pn, load_program d root e s = Panic pn ∧ pn ≠ OutOfFuel) ∨
  ∃ s', load_program d root e s = Ret ((), s') ∧ loaded d e root T s s'.
Proof.
  intros Hs Hd Hdl [Hseg Hap Hstk]. unfold load_program. unfold mbind, M_bind.
  destruct (load_segments_spec d root (loadable e) s T Hs Hd Hdl Hseg Hap)
    as [(pn & -> & Hpn)|(s1 & T1 & -> & Hs1 & HT1 & Hb1 & Hm1 & Ho1 & Hi1)]; [left; eauto|].
  destruct (init_user_stack_spec root s1 T1 Hs1)
    as [(pn & -> & Hpn)|(s2 & T2 & page & -> & Hs2 & HT2 & Hb2 & Hm2 & Ho2 & Hp & Hnp & Hst)]; [left; eauto|right].
  exists s2. split; [done|]. split.
  - exists T1, T2, page. split_and!; [done|done|done| |done|done|exact Hst|].
    2: { intros held0 T0 Ho Hn.
         assert (Hin : ∀ p va, p ∈ loadable e → in_segment p va → 0 ≤ va < 2 ^ 38).
         { intros p va Hp' Hva. rewrite Forall_forall in Hseg. pose proof (Hseg p Hp') as [_ (_ & ? & Hv) _ _ ? Hu].
           destruct (seg_bounds p Hv ltac:(lia) Hu) as (? & _ & _ & ? & _). unfold in_segment in Hva. lia. }
         apply Ho2; [apply Ho1; [done|]|].
         - intros va (p & Hp' & Hva)%Exists_exists. apply Hn. by apply (Hin p).
         - intros va Hva. assert (0 ≤ va < 2 ^ 38) by (unfold stack_lo, stack_hi in Hva; lia).
           rewrite Hm1; [by apply Hn|]. left. split; [done|]. apply Forall_forall. intros p Hp' Hva'.
           rewrite Forall_forall in Hstk. specialize (Hstk p Hp'). unfold in_segment in Hva'. lia. }
    apply Forall_forall. intros p Hp'. rewrite !Forall_forall in *.
    pose proof (Hseg p Hp') as [_ (_ & ? & Hv) _ _ ? Hu].
    destruct (seg_bounds p Hv ltac:(lia) Hu) as (? & _ & _ & ? & _).
    intros va Hva. destruct (Hi1 p Hp' va Hva) as (q & Hq & Hnq & Hbk & Hrd). exists q.
    split; [done|]. split; [done|]. split.
    + unfold backed in *. rewrite Hm2; [done|]. left. specialize (Hstk p Hp'). lia.
    + rewrite <-Hrd. apply (Hb2 q); [done|].
      pose proof (Z.mod_pos_bound va PG_SIZE ltac:(rewrite PG_SIZE_pow2; lia)). lia.
  - intros va Hva. rewrite Hm2 by tauto. apply Hm1. tauto.
  - by eapply same_bytes_trans.
Qed.

(** [load_executable], on a readable nonempty file and any sound page tables
    and user pages.  What is not a 64-bit ELF file is an error and leaves the
    address space and the pages alone.  An executable whose segments fit is
    loaded, or an allocator is exhausted and panics; then every byte of every
    segment is mapped, with the permissions of its header, to a page that no
    other address space has, and reads as the file's byte, or zero behind the
    file's part; the stack page below 0x80500000 is mapped for reading and
    writing; every other user mapping and all mappings of the kernel are what
    they were, and no page in use before has changed; the entry point is that of
    the file and the file is closed to writers. *)
Theorem load_executable_correct vec root (f : W * File V) (s : AW K U) T :
  st_ok f → st_data f ≠ [] → is_bytes (st_data f) →
  st_buf f (mkBuf vec (zeros (zlen (st_data f)))) →
  (∀ w, v_ok w (vnode f.2) → ∃ w', vnode_deny_write (vnode f.2) w = Ret ((), w')) →
  space_ok (F := F) s root T →
  ∃ d, delivered (st_data f) d ∧
    match from_bytes d with
    | Some (Elf64 e) => exec_ok d e →
        (∃ pn, run vec root f s = Panic pn ∧ pn ≠ OutOfFuel) ∨
        ∃ f' s', run vec root f s = Ret (Ok (mkExecInfo (entry_point e) stack_hi), mkLW f' s') ∧
          file_deny f'.2 = true ∧ loaded d e root T s s'
    | _ => ∃ f', run vec root f s = Ret (Err UnknownFormat, mkLW f' s)
    end.
Proof.
  intros Hok Hne Hby Hbuf Hdeny Hs.
  destruct (load_executable_run vec root f s Hok Hne Hbuf Hdeny) as (d & f' & Hd & E).
  exists d. split; [done|]. destruct (from_bytes d) as [[|e]|]; [destruct E; eauto| |destruct E; eauto].
  destruct E as [Hf E]. intros Hx. destruct (st_bounds f Hok) as [_ Hlen]. rewrite E.
  destruct (load_program_spec d root e s T Hs) as [(pn & -> & Hpn)|(s' & -> & Hl)]; [|by rewrite (delivered_length _ _ Hd)|done|left; eauto|right; eauto].
  by eapply delivered_bytes.
Qed.
End Program.

(** ** Malformed segments *)

Section Malformed.
Context {K U : Type} `{PageSource K} `{UserPool U} {F : Type} `{Bitflags F}.

Lemma subslice_returns b lo hi r : subslice b lo hi = Ret r → lo ≤ hi ≤ zlen b.
Proof. unfold subslice. by case_bool_decide. Qed.

(** A page is loaded only from bytes that the file has. *)
Lemma load_page_returns d root (f : F) uaddr rp readsz (s s' : AW K U) :
  load_page F d root f uaddr rp readsz s = Ret ((), s') → rp ≤ wrap64 (rp + readsz) ≤ zlen d.
Proof.
  unfold load_page, on_user. unmonad.
  destruct (alloc_pages 1 (aw_user s)) as [[a u]|]; [|done].
  destruct (subslice d rp _) eqn:E; [|done]. intros _. by eapply subslice_returns.
Qed.

Lemma load_pages_returns d root ubase (f : F) n : ∀ p rp rb (s s' : AW K U) rb',
  zlen d < 2 ^ 63 → 0 ≤ rp < 2 ^ 64 → 0 ≤ rb →
  load_pages F d root ubase f n p rp rb s = Ret (rb', s') →
  rb' = Z.max 0 (rb - Z.of_nat n * PG_SIZE) ∧ (0 < rb - rb' → rp + (rb - rb') ≤ zlen d).
Proof.
  pose proof PG_SIZE_pow2 as HPG.
  induction n as [|n IH]; intros p rp rb s s' rb' Hd Hrp Hrb; cbn [load_pages].
  - intros [= <- _]. lia.
  - unfold mbind, M_bind. set (readsz := Z.min rb PG_SIZE).
    destruct (load_page F d root f _ rp readsz s) as [[[] s1]|] eqn:E; [|done].
    apply load_page_returns in E. intros E2.
    assert (Hsum : wrap64 (rp + readsz) = rp + readsz).
    { apply wrap_small. unfold in_range. destruct (decide (rp + readsz < 2 ^ 64)); [lia|exfalso].
      assert (Ew : wrap64 (rp + readsz) = rp + readsz - 2 ^ 64).
      { unfold wrap. symmetry. apply Z.mod_unique with 1; lia. }
      lia. }
    rewrite Hsum in *. apply IH in E2; lia.
Qed.

(** [load_segment] does not load a malformed segment.  A segment of another
    type, one whose file offset and address differ within a page, one that
    reaches beyond the end of the file, and one whose file part does not fit
    into its memory part's pages, each panic, whatever the state of the page
    table and of the pools: a bad executable stops the kernel, where
    [load_executable] has an error to return. *)
Theorem malformed_segment_panics d root p (s : AW K U) :
  zlen d < 2 ^ 63 → 0 ≤ ph_offset p < 2 ^ 64 → 0 ≤ ph_vaddr p < 2 ^ 64 →
  0 ≤ ph_filesz p < 2 ^ 63 → 0 ≤ ph_memsz p < 2 ^ 63 →
  ph_type p ≠ LOAD ∨ ph_offset p mod PG_SIZE ≠ ph_vaddr p mod PG_SIZE ∨
  (0 < ph_filesz p ∧ zlen d < ph_offset p + ph_filesz p) ∨
  (ph_vaddr p mod PG_SIZE + ph_memsz p + PG_SIZE - 1) / PG_SIZE * PG_SIZE <
    ph_vaddr p mod PG_SIZE + ph_filesz p →
  ∃ pn, load_segment F d root p s = Panic pn.
Proof.
  intros Hd Ho Hv Hfz Hmz Hbad. pose proof PG_SIZE_pow2 as HPG.
  pose proof (Z.mod_pos_bound (ph_vaddr p) PG_SIZE ltac:(lia)) as Hr.
  pose proof (Z.mod_le (ph_offset p) PG_SIZE ltac:(lia) ltac:(lia)) as Hor.
  pose proof (Z.mod_pos_bound (ph_offset p) PG_SIZE ltac:(lia)) as Hor2.
  destruct (load_segment F d root p s) as [[[] s']|pn] eqn:E; [exfalso|by exists pn].
  revert E. unfold load_segment. unmonad.
  case_bool_decide as Hl; [|done]. cbn [assert_].
  destruct (land_page_mask (ph_vaddr p)) as [-> ->]; [done|].
  destruct (land_page_mask (ph_offset p)) as [-> ->]; [done|].
  case_bool_decide as Hc; [|done]. cbn [assert_].
  rewrite !wrap_small by (unfold in_range; lia). rewrite div_round_up_page by lia.
  destruct (load_pages F d root _ _ _ 0 _ _ s) as [[rb s1]|] eqn:EL; [|done].
  case_bool_decide as Hz; [|done]. intros _. subst rb.
  apply load_pages_returns in EL as [E1 E2]; [|lia..].
  set (n := (_ + PG_SIZE - 1) / PG_SIZE) in *.
  assert (Hn0 : 0 ≤ n) by (apply Z.div_pos; lia). rewrite Z2Nat.id in E1 by done.
  destruct Hbad as [?|[?|[[? ?]|?]]]; [done|done| |]; lia.
Qed.
End Malformed.

(** ** A concrete program *)

(** Two bytes of code on a page of their own, with six zero bytes behind them. *)
Definition demo_phdr : ProgramHeaderEntry := mkPhdr LOAD true false 0 0x10000 4 8.
Definition demo_elf : Elf64File := mkElf64 [demo_phdr] 0x10000.
#[local] Instance demo_crate : ElfCrate := λ b,
  match b with 127 :: _ => Some (Elf64 demo_elf) | _ => None end.

#[local] Existing Instances InMem.mem_vnode InMem.mem_spec InMem.mem_laws.

#[local] Instance demo_pool : PoolLayout := { up_base := demo_base }.

Definition demo_file : InMem.MemFs * File nat :=
  (InMem.mkMemFs {[ 0%nat := mkBuf 4096 [127; 2; 3; 4] ]} [0%nat], mkFile 0%nat 3 false).

Definition demo_load : outcome (result ExecInfo * LW InMem.MemFs nat Heap BuddyAllocator) :=
  t ← demo_table ;
  u ← insert_range demo_base demo_start demo_end (Palloc.empty demo_memory) ;
  load_executable byte_flags 8192 t.1 (mkLW demo_file (mkAW t.2 u.2)).

(** A page table and a user pool to load it into. *)
Lemma demo_space : ∃ root h u, demo_table = Ret (root, h) ∧
  insert_range demo_base demo_start demo_end (Palloc.empty demo_memory) = Ret ((), u) ∧
  space_ok (F := byte_flags) (mkAW h u) root ∅.
Proof.
  destruct demo_table_ok as (root & h & E & _ & Hwf & _). destruct demo_client as (u & Eu & Hc).
  exists root, h, u. split; [done|]. split; [done|]. split; [exact Hwf|].
  exists demo_region. split; [|].
  - unfold singles. by rewrite elements_empty.
  - intros a Ha. rewrite demo_region_eq in Ha. apply list_elem_of_fmap in Ha as (k & -> & Hk).
    rewrite !elem_of_cons, elem_of_nil in Hk. unfold VM_OFFSET, VM_BASE, PM_BASE. lia.
Qed.

Lemma demo_exec_ok d : delivered [127; 2; 3; 4] d → from_bytes d = Some (Elf64 demo_elf) ∧ exec_ok d demo_elf.
Proof.
  intros Hd. pose proof (delivered_length _ _ Hd) as Hl. destruct Hd as (n & Hn & ->). split.
  - unfold slice, ztake, zdrop. cbn [Z.to_nat drop]. destruct (Z.to_nat n) eqn:E; [lia|]. done.
  - assert (HE : loadable demo_elf = [demo_phdr]) by reflexivity.
    split; rewrite HE; [|repeat constructor|].
    + apply Forall_singleton. split; rewrite ?Hl; by vm_compute.
    + apply Forall_singleton. by vm_compute.
Qed.

Lemma load_executable_witness : ∃ info f s, demo_load = Ret (Ok info, mkLW f s) ∧
  exec_entry info = 0x10000 ∧ file_deny f.2 = true.
Proof.
  destruct demo_space as (root & h & u & E & Eu & Hs).
  assert (Hrun : returns demo_load = true) by (by vm_compute).
  unfold demo_load in Hrun |- *. rewrite E, Eu in Hrun. rewrite E, Eu.
  unfold mbind, outcome_bind in Hrun |- *. cbn [fst snd] in Hrun |- *.
  destruct (load_executable_correct (F := byte_flags) 8192 root demo_file (mkAW h u) ∅) as (d & Hd & HC).
  - split; [split; [by eexists|reflexivity]|split; [discriminate|reflexivity]].
  - done.
  - by apply is_bytes_forallb.
  - exact I.
  - intros w _. by exists w.
  - exact Hs.
  - destruct (demo_exec_ok d Hd) as [Ee Hx]. rewrite Ee in HC.
    destruct (HC Hx) as [(pn & Ep & _)|(f' & s' & Er & Hf & _)]; [by rewrite Ep in Hrun|].
    eexists _, f', s'. split; [exact Er|]. split; [reflexivity|exact Hf].
Defined.

(** A segment that claims more bytes than the file has. *)
Lemma malformed_segment_witness : ∃ root h u pn,
  load_segment byte_flags [127; 2; 3; 4] root (mkPhdr LOAD true false 0 0x10000 5 8) (mkAW (K := Heap) h u) = Panic pn.
Proof.
  destruct demo_space as (root & h & u & _). exists root, h, u.
  apply (malformed_segment_panics (F := byte_flags) [127; 2; 3; 4] root (mkPhdr LOAD true false 0 0x10000 5 8) (mkAW h u)).
  1-5: split; (reflexivity || discriminate).
  right. right. left. split; reflexivity.
Defined.
