(* ===== verification/Userproc.v ===== *)
(** * User processes

    [userproc.rs], with what becomes of a page table: [PageTable::destroy] frees
    exactly the tables and pages that a table owns, [execute] starts a thread in
    a freshly loaded address space or gives everything back, [start] enters the
    program, and [Drop for Thread] frees what a thread had. *)

From S2P Require Import Prelude Utils Bytes Io Fs InMemList Palloc PallocClients Malloc PageTable Owned UserPool.
From S2P Require Import Intr Thread Scheduler Manager Asm Load.

(** ** Destroying a page table *)

Section Destroy.
Context {K U : Type} `{PageSourceLaws K} `{UserPoolLaws U} {F : Type} `{BitflagsLaws F}.
Abbreviation A := (AW K U).

(** [s'] is [s] with the tables [ts] and the pages [ps] given back. *)
Definition freed (held : gset Z) (T : gset Z) (ts ps : list Z) (s s' : A) : Prop :=
  ps_held (aw_pt s') (held ∖ list_to_set ts) ∧ up_held (aw_user s') (T ∖ list_to_set ps) ∧
  (∀ b x, b ∈ held ∖ list_to_set ts → b ≤ x < b + PG_SIZE →
     ps_mem (aw_pt s') !! x = ps_mem (aw_pt s) !! x) ∧
  same_bytes (T ∖ list_to_set ps) (aw_user s) (aw_user s').

Lemma freed_nil held T s : ps_held (aw_pt s) held → up_held (aw_user s) T → freed held T [] [] s s.
Proof. intros Hh Hu. unfold freed. rewrite !list_to_set_nil, !difference_empty_L. by split_and!. Qed.

Lemma freed_app held T ts ts' ps ps' s1 s2 s3 :
  freed held T ts ps s1 s2 → freed (held ∖ list_to_set ts) (T ∖ list_to_set ps) ts' ps' s2 s3 →
  freed held T (ts ++ ts') (ps ++ ps') s1 s3.
Proof.
  unfold freed. rewrite !list_to_set_app_L, !difference_difference_l_L.
  intros (A1 & A2 & A3 & A4) (B1 & B2 & B3 & B4). split_and!; [done|done| |].
  - intros b x Hb Hx. rewrite (B3 b x Hb Hx). apply (A3 b x); [set_solver|done].
  - intros b x Hb Hx. rewrite (B4 b x Hb Hx). apply (A4 b x); [set_solver|done].
Qed.

(** What is owned depends on the words of the owned tables only. *)
Definition agree (ts : list Z) (m m' : memory) : Prop :=
  ∀ b k, b ∈ ts → 0 ≤ k < 512 → m' !! (b + 8 * k) = m !! (b + 8 * k).

Lemma owned_entries_frame sub sub' last m m' pgt ks : ∀ ts ps,
  (∀ k, k ∈ ks → m' !! (pgt + 8 * k) = m !! (pgt + 8 * k)) → agree ts m m' →
  (∀ a ts1 ps1, sub a = Some (ts1, ps1) → agree ts1 m m' → sub' a = Some (ts1, ps1)) →
  owned_entries (F := F) sub last m pgt ks = Some (ts, ps) →
  owned_entries (F := F) sub' last m' pgt ks = Some (ts, ps).
Proof.
  induction ks as [|k ks IH]; intros ts ps Hk Hts Hsub; cbn [owned_entries]; [done|].
  rewrite (Hk k) by left. destruct (m !! (pgt + 8 * k)) as [e|]; [|done]. cbn [mbind option_bind].
  intros E. apply bind_Some in E as ([ts1 ps1] & E1 & E). apply bind_Some in E as ([ts2 ps2] & E2 & E).
  cbn [fst snd] in E. injection E as <- <-.
  assert (Ha1 : agree ts1 m m') by (intros b j Hb; apply Hts, elem_of_app; by left).
  assert (Ha2 : agree ts2 m m') by (intros b j Hb; apply Hts, elem_of_app; by right).
  apply bind_Some. exists (ts1, ps1). split.
  - unfold entry_owned in *. repeat case_match; try done. by apply Hsub.
  - apply bind_Some. exists (ts2, ps2). split; [|done]. apply IH; [|done..].
    intros j Hj. apply Hk. by right.
Qed.

Lemma owned_of_frame level : ∀ m m' a ts ps, agree ts m m' →
  owned_of (F := F) level m a = Some (ts, ps) → owned_of (F := F) level m' a = Some (ts, ps).
Proof.
  induction level as [|level IH]; intros m m' a ts ps Hts; cbn [owned_of];
    intros E; apply bind_Some in E as ([ts1 ps1] & E1 & [= <- <-]);
    apply bind_Some; exists (ts1, ps1); (split; [|done]).
  all: assert (Ha : ∀ k, k ∈ seqZ 0 NENTRY → m' !! (a + 8 * k) = m !! (a + 8 * k))
    by (intros k Hk%elem_of_seqZ; apply Hts; [apply elem_of_app; right; by left|unfold NENTRY in Hk; lia]).
  all: assert (Hts1 : agree ts1 m m') by (intros b j Hb; apply Hts, elem_of_app; by left).
  - by apply (owned_entries_frame (λ _, None) (λ _, None) true m m').
  - apply (owned_entries_frame (owned_of level m) (owned_of level m') false m m'); [done|done| |done].
    intros b ts2 ps2 E2 H2'. by apply (IH m).
Qed.

(** The table itself comes last. *)
Lemma owned_of_root level m a ts ps : owned_of (F := F) level m a = Some (ts, ps) → a ∈ ts.
Proof.
  destruct level; cbn [owned_of]; intros E; apply bind_Some in E as (r & _ & [= <- <-]);
    apply elem_of_app; right; by left.
Qed.

(** What [destroy_imp] does to a table of level [level]. *)
Definition destroys (level : nat) : Prop := ∀ a (s : A) held T ts ps,
  ps_held (aw_pt s) held → up_held (aw_user s) T →
  owned_of (F := F) level (ps_mem (aw_pt s)) a = Some (ts, ps) →
  NoDup ts → list_to_set ts ⊆ held → NoDup ps → list_to_set ps ⊆ T →
  ∃ s', destroy_imp F level a s = Ret ((), s') ∧ freed held T ts ps s s'.

(** The body of its loop. *)
Definition destroy_entry (level : nat) (pgt k : Z) : M A unit :=
  e ← on_pt (ps_read (pgt + 8 * k)) ;
  if is_valid (F := F) e && negb (is_global (F := F) e) then
    let va := into_va (entry_pa e) in
    if is_leaf (F := F) e then on_user (dealloc_pages va (Z.shiftl 1 (9 * Z.of_nat level)))
    else
      t ← on_pt (from_raw va) ;
      match level with
      | O => fail AssertFailed
      | Datatypes.S level => destroy_imp F level t
      end
  else mret ().

Lemma destroy_imp_eq level pgt : destroy_imp (K := K) (U := U) F level pgt =
  (for_each (seqZ 0 NENTRY) (destroy_entry level pgt) ;; on_pt (kfree_page pgt)).
Proof. by destruct level. Qed.

(** One entry, when what is below it can be destroyed. *)
Lemma destroy_entry_spec level pgt k e (s : A) held T ts ps :
  match level with O => True | Datatypes.S l => destroys l end →
  ps_held (aw_pt s) held → up_held (aw_user s) T →
  ps_mem (aw_pt s) !! (pgt + 8 * k) = Some e →
  entry_owned (F := F) (match level with O => λ _, None | Datatypes.S l => owned_of (F := F) l (ps_mem (aw_pt s)) end)
    (match level with O => true | _ => false end) e = Some (ts, ps) →
  NoDup ts → list_to_set ts ⊆ held → NoDup ps → list_to_set ps ⊆ T →
  ∃ s', destroy_entry level pgt k s = Ret ((), s') ∧ freed held T ts ps s s'.
Proof.
  intros Hsub Hh Hu He E Nts Sts Nps Sps. unfold entry_owned in E. unfold destroy_entry, on_pt, ps_read. unmonad.
  rewrite He. destruct s as [kt us]. cbn [aw_pt aw_user] in *.
  destruct (is_valid e && negb (is_global e)).
  2: { injection E as <- <-. eexists. split; [done|]. by apply freed_nil. }
  destruct (is_leaf e).
  - destruct level as [|l]; [|done]. injection E as <- <-. set (va := into_va (entry_pa e)) in *.
    assert (Hva : va ∈ T) by (apply Sps, elem_of_list_to_set; by left).
    destruct (up_free us T va Hu Hva) as (u' & Ef & Hu' & Hk). unfold on_user. unmonad.
    cbn [aw_pt aw_user]. change (Z.shiftl 1 (9 * Z.of_nat 0)) with 1. rewrite Ef.
    eexists. split; [done|]. unfold freed. cbn [aw_pt aw_user]. rewrite list_to_set_nil, difference_empty_L.
    assert (El : list_to_set [va] = ({[va]} : gset Z)) by (cbn; by rewrite union_empty_r_L).
    rewrite El. split_and!; [done|done|done|].
    intros b x [Hb Hne]%elem_of_difference Hx. apply (Hk b x); [done| |done].
    intros ->. by apply Hne, elem_of_singleton.
  - destruct level as [|l]; [done|]. set (va := into_va (entry_pa e)) in *.
    assert (Hva : va ∈ held) by (apply Sts, elem_of_list_to_set; by eapply owned_of_root).
    rewrite from_raw_spec by (by apply (ps_page kt held va Hh)). cbn [aw_pt aw_user].
    by apply (Hsub va (mkAW kt us) held T ts ps).
Qed.

Lemma destroy_entries_spec level pgt ks : ∀ (s : A) held T ts ps,
  match level with O => True | Datatypes.S l => destroys l end →
  ps_held (aw_pt s) held → up_held (aw_user s) T → pgt ∈ held → (∀ k, k ∈ ks → 0 ≤ k < 512) →
  owned_entries (F := F) (match level with O => λ _, None | Datatypes.S l => owned_of l (ps_mem (aw_pt s)) end)
    (match level with O => true | _ => false end) (ps_mem (aw_pt s)) pgt ks = Some (ts, ps) →
  NoDup (ts ++ [pgt]) → list_to_set ts ⊆ held → NoDup ps → list_to_set ps ⊆ T →
  ∃ s', for_each ks (destroy_entry level pgt) s = Ret ((), s') ∧ freed held T ts ps s s'.
Proof.
  induction ks as [|k ks IH]; intros s held T ts ps Hsub Hh Hu Hpg Hks E Nts Sts Nps Sps; cbn [owned_entries for_each] in *.
  { injection E as <- <-. exists s. split; [done|]. by apply freed_nil. }
  destruct (ps_mem (aw_pt s) !! (pgt + 8 * k)) as [e|] eqn:He; [|done]. cbn [mbind option_bind] in E.
  apply bind_Some in E as ([ts1 ps1] & E1 & E). apply bind_Some in E as ([ts2 ps2] & E2 & E).
  cbn [fst snd] in E. injection E as <- <-.
  rewrite list_to_set_app_L in Sts, Sps. rewrite <-(assoc_L (++)) in Nts.
  apply NoDup_app in Nts as (N1 & D1 & N2). apply NoDup_app in Nps as (P1 & DP & P2).
  destruct (destroy_entry_spec level pgt k e s held T ts1 ps1) as (s1 & R1 & F1);
    [done..|set_solver|done|set_solver|].
  pose proof F1 as (Hh1 & Hu1 & Hk1 & _).
  assert (Hnot : ∀ b, b ∈ ts2 ++ [pgt] → b ∈ held → b ∈ held ∖ list_to_set ts1).
  { intros b Hb Hbh. apply elem_of_difference. split; [done|]. intros Hb1%elem_of_list_to_set. by apply (D1 b). }
  assert (Hag : agree (ts2 ++ [pgt]) (ps_mem (aw_pt s)) (ps_mem (aw_pt s1))).
  { intros b j Hb Hj. apply (Hk1 b); [|rewrite PG_SIZE_pow2; lia]. apply Hnot; [done|].
    apply elem_of_app in Hb as [Hb|Hb].
    - apply Sts, elem_of_union. right. by apply elem_of_list_to_set.
    - apply list_elem_of_singleton in Hb as ->. done. }
  assert (Hag2 : agree ts2 (ps_mem (aw_pt s)) (ps_mem (aw_pt s1))).
  { intros b j Hb. apply Hag, elem_of_app. by left. }
  destruct (IH s1 (held ∖ list_to_set ts1) (T ∖ list_to_set ps1) ts2 ps2) as (s2 & R2 & F2); [done|done|done| | | |done| |done| |].
  - apply Hnot; [apply elem_of_app; right; by left|done].
  - intros j Hj. apply Hks. by right.
  - eapply (owned_entries_frame _ _ _ (ps_mem (aw_pt s))); [|exact Hag2| |exact E2].
    + intros j Hj. apply Hag; [apply elem_of_app; right; by left|]. apply Hks. by right.
    + intros a ts3 ps3. destruct level; [done|]. intros E3 Ha3. by apply (owned_of_frame _ (ps_mem (aw_pt s))).
  - intros b Hb. apply Hnot; [apply elem_of_app; left; by apply elem_of_list_to_set in Hb|set_solver].
  - intros b Hb. apply elem_of_difference. split; [set_solver|].
    intros Hb1%elem_of_list_to_set. apply elem_of_list_to_set in Hb. by apply (DP b).
  - exists s2. split; [unfold mbind, M_bind; by rewrite R1|]. by eapply freed_app.
Qed.

(** Freeing the table at the end. *)
Lemma destroy_step level a (s : A) held T ts1 ps1 :
  match level with O => True | Datatypes.S l => destroys l end →
  ps_held (aw_pt s) held → up_held (aw_user s) T →
  owned_entries (F := F) (match level with O => λ _, None | Datatypes.S l => owned_of l (ps_mem (aw_pt s)) end)
    (match level with O => true | _ => false end) (ps_mem (aw_pt s)) a (seqZ 0 NENTRY) = Some (ts1, ps1) →
  NoDup (ts1 ++ [a]) → list_to_set (ts1 ++ [a]) ⊆ held → NoDup ps1 → list_to_set ps1 ⊆ T →
  ∃ s', destroy_imp F level a s = Ret ((), s') ∧ freed held T (ts1 ++ [a]) ps1 s s'.
Proof.
  intros Hsub Hh Hu E1 Nts Sts Nps Sps. rewrite destroy_imp_eq. rewrite list_to_set_app_L in Sts.
  assert (Ha : a ∈ held) by (apply Sts, elem_of_union; right; apply elem_of_list_to_set; by left).
  destruct (destroy_entries_spec level a (seqZ 0 NENTRY) s held T ts1 ps1) as (s1 & R1 & F1);
    [exact Hsub|exact Hh|exact Hu|exact Ha|intros k Hk%elem_of_seqZ; unfold NENTRY in Hk; lia
    |exact E1|exact Nts|intros x Hx; apply Sts, elem_of_union; by left|exact Nps|exact Sps|].
  pose proof F1 as (Hh1 & Hu1 & _ & _).
  assert (Ha1 : a ∈ held ∖ list_to_set ts1).
  { apply elem_of_difference. split; [done|]. intros Hx%elem_of_list_to_set.
    apply NoDup_app in Nts as (_ & Hd & _). apply (Hd a Hx). by left. }
  destruct (ps_free (aw_pt s1) _ a Hh1 Ha1) as (k2 & Rf & Hh2 & Hk2).
  exists (mkAW k2 (aw_user s1)). split; [unfold mbind, M_bind; rewrite R1; unfold on_pt; unmonad; by rewrite Rf|].
  rewrite <-(app_nil_r ps1). eapply freed_app; [exact F1|].
  assert (El : list_to_set [a] = ({[a]} : gset Z)) by (cbn; by rewrite union_empty_r_L).
  unfold freed. rewrite El, list_to_set_nil, difference_empty_L. cbn [aw_pt aw_user]. split_and!; try done.
  intros b x [Hb Hne]%elem_of_difference Hx. apply (Hk2 b x); [done| |done].
  intros ->. by apply Hne, elem_of_singleton.
Qed.

Lemma destroys_all level : destroys level.
Proof.
  induction level as [|level IH]; intros a s held T ts ps Hh Hu E Nts Sts Nps Sps;
    cbn [owned_of] in E; apply bind_Some in E as ([ts1 ps1] & E1 & [= <- <-]).
  - exact (destroy_step 0 a s held T ts1 ps1 I Hh Hu E1 Nts Sts Nps Sps).
  - exact (destroy_step (Datatypes.S level) a s held T ts1 ps1 IH Hh Hu E1 Nts Sts Nps Sps).
Qed.
End Destroy.

(** ** Processes *)

(** The loader's world and the threads. *)
Record EW (W V K U Sc : Type) : Type := mkEW { ew_load : LW W V K U; ew_kern : Kernel Sc }.
Arguments mkEW {W V K U Sc}. Arguments ew_load {W V K U Sc}. Arguments ew_kern {W V K U Sc}.

Section Process.
Context {W V K U Sc : Type} `{Vnode W V} `{PageSource K} `{UserPool U} `{Schedule Sc}.
Context (F : Type) `{Bitflags F} `{ElfCrate} (addr : label → Z).
Abbreviation E := (EW W V K U Sc).

Definition on_load {B} (m : M (LW W V K U) B) : M E B := λ s,
  '(b, l) ← m (ew_load s) ; Ret (b, mkEW l (ew_kern s)).
Definition on_kernel {B} (m : M (Kernel Sc) B) : M E B := λ s,
  '(b, k) ← m (ew_kern s) ; Ret (b, mkEW (ew_load s) k).

(** The frame that [execute] makes for the program. *)
Definition initial_frame (info : ExecInfo) : Frame :=
  mkFrame (λ i, if decide (i = 2) then init_sp info else 0) 0 (exec_entry info).

(** The file goes out of scope. *)
Definition file_go : M (W * File V) unit := λ '(w, f), '(_, w) ← file_drop f w ; Ret ((), (w, f)).

(** [execute], up to the call of [schedule] in [spawn]; [kernel] is the kernel's
    table, [stack] what [kalloc] returns for the thread and [proc] stands for the
    [UserProc].  The frame is what the closure of the new thread owns. *)
Definition execute (kernel vec_at stack proc : Z) : M E (Z * option Frame) :=
  pt ← on_load (on_space (on_pt (pt_clone kernel))) ;
  r ← on_load (load_executable F vec_at pt) ;
  match r with
  | Err _ => on_load (on_space (destroy F pt)) ;; on_load (on_file file_go) ;; mret (-1, None)
  | Ok exec_info =>
      tid ← on_kernel (spawn_enter stack (set_b_userproc proc (set_b_pagetable pt builder_new))) ;
      mret (tid, Some (initial_frame exec_info))
  end.

(** [wait] *)
Definition wait (_tid : Z) : option Z := Some (-1).

(** [start], with its frame at [fr]: [sstatus.SPP] becomes [User], the frame gets
    [sstatus], and the exit code runs on the frame. *)
Definition start (fr : Z) (s : State) : State * option jump :=
  let s := set_csr Sstatus (Z.clearbit (csrs s Sstatus) 8) s in
  let s := set_mem (fr + 256) (csrs s Sstatus) s in
  run addr trap_exit_u (set_reg sp fr s).
End Process.

(** [Drop for Thread]: its kernel stack, and its page table. *)
Definition thread_drop `{HeapLayout} {U} `{UserPool U} (F : Type) `{Bitflags F} (t : Thread) : M (AW Heap U) unit :=
  on_pt (kfree (stack t) STACK_SIZE STACK_ALIGN) ;;
  match pagetable t with
  | Some pt => destroy F pt
  | None => mret ()
  end.

(** C28: [start] takes the frame of a new program, as [execute] made it, to user
    mode: the exit code ends in [sret] with the entry point of the program in
    [sepc], the top of its stack in [sp], every other register zero, the previous
    mode set to user, the top of the kernel stack in [sscratch] and the trap vector
    of user mode. *)
Theorem start_enters_user addr fr info s :
  (∀ i, 1 ≤ i < 32 → mem s (fr + 8 * i) = f_x (initial_frame info) i) →
  mem s (fr + 264) = exec_entry info → 0 ≤ fr → fr + FRAME_SIZE < 2 ^ 64 →
  ∃ r, start addr fr s = (r, Some JSret) ∧ csrs r Sepc = exec_entry info ∧ x r sp = init_sp info ∧
    (∀ i, 1 ≤ i < 32 → i ≠ 2 → x r i = 0) ∧ Z.testbit (csrs r Sstatus) 8 = false ∧
    csrs r Sscratch = fr + FRAME_SIZE ∧ csrs r Stvec = addr LTrapEntryU.
Proof.
  intros Hx Hep H0' Hhi. unfold start.
  set (s1 := set_reg sp fr _).
  destruct (exit_u_run addr s1 fr) as (r & HR & (Rx & Rst & Rep & Rtv & _) & Rsp & Rss); [|done..|].
  { unfold s1, reg, set_reg. cbn [x]. rewrite decide_False by done. apply Asm.upd_eq. }
  exists r. split; [exact HR|]. unfold frame_at in *. cbn [f_x f_sstatus f_sepc] in *.
  unfold s1 in *. cbn [mem set_reg set_mem set_csr csrs] in *.
  split_and!; [| | | |done|done].
  - rewrite Rep, Asm.upd_ne by lia. done.
  - rewrite Rsp, Asm.upd_ne by lia. rewrite Hx by lia. done.
  - intros i Hi Hne. rewrite Rx by done. rewrite Asm.upd_ne by lia. rewrite Hx by done.
    cbn. by rewrite decide_False.
  - rewrite Rst, Asm.upd_eq, Asm.upd_eq. rewrite Z.clearbit_eqb. by rewrite Z.eqb_refl, andb_false_r.
Qed.


(** ** The life of a process *)

Section Lifecycle.
Context {K U : Type} `{PageSourceLaws K} `{UserPoolLaws U} {F : Type} `{BitflagsLaws F}.

(** [s'] is [s] without what a process had: the tables [held0] and the pages [T0]
    are in use, with what they contained. *)
Definition given_back (held0 T0 : gset Z) (s s' : AW K U) : Prop :=
  ps_held (aw_pt s') held0 ∧ up_held (aw_user s') T0 ∧
  (∀ b k, b ∈ held0 → 0 ≤ k < 512 → ps_mem (aw_pt s') !! (b + 8 * k) = ps_mem (aw_pt s) !! (b + 8 * k)) ∧
  same_bytes T0 (aw_user s) (aw_user s').

(** [destroy] frees every table and page of a user table, once, and nothing else. *)
Lemma destroy_run (s : AW K U) root held0 T0 T :
  owns (F := F) s root held0 T0 T → up_held (aw_user s) T →
  ∃ s', destroy F root s = Ret ((), s') ∧ given_back held0 T0 s s'.
Proof.
  intros (P & Tu & held & -> & Hd & US) Hu.
  destruct (user_space_owned _ _ _ _ _ _ US) as (ts & ps & Eo & Nt & Np & Et & Ep).
  assert (Es : held ∖ list_to_set ts = held0).
  { apply set_eq. intros x. rewrite elem_of_difference, elem_of_list_to_set, Et. split.
    - intros [Hx Hn]. destruct (decide (x ∈ held0)); tauto.
    - intros Hx. split; [apply (us_held _ _ _ _ _ _ US); by left|tauto]. }
  assert (Ev : (P ∪ T0) ∖ list_to_set ps = T0).
  { apply set_eq. intros x. rewrite elem_of_difference, elem_of_union, elem_of_list_to_set, Ep. split; [tauto|].
    intros Hx. split; [by right|]. intros Hp. by apply (Hd x). }
  destruct (destroys_all (F := F) 2 root s held (P ∪ T0) ts ps) as (s' & R & Hf);
    [apply (us_inv _ _ _ _ _ _ US)|exact Hu|exact Eo|exact Nt| |exact Np| |].
  - intros x Hx%elem_of_list_to_set. by apply Et.
  - intros x Hx%elem_of_list_to_set. apply elem_of_union. left. by apply Ep.
  - exists s'. split; [exact R|]. unfold freed in Hf. rewrite Es, Ev in Hf.
    destruct Hf as (? & ? & Hw & ?). split_and!; try done.
    intros b k Hb Hk. apply (Hw b); [done|rewrite PG_SIZE_pow2; lia].
Qed.

(** A clone of the kernel's table maps nothing in the lower half, and owns its
    root. *)
Lemma clone_owns (s : AW K U) kroot Tk held0 T :
  pt_inv (F := F) (aw_pt s) Tk kroot held0 → upper (F := F) (aw_pt s) Tk → up_held (aw_user s) T →
  (∃ pn, on_pt (pt_clone kroot) s = Panic pn ∧ pn ≠ OutOfFuel) ∨
  ∃ root s1, on_pt (pt_clone kroot) s = Ret (root, s1) ∧ (root ∉ held0) ∧ aw_user s1 = aw_user s ∧
    owns (F := F) s1 root held0 T T ∧ space_ok (F := F) s1 root T ∧
    (∀ va, mapping (F := F) (aw_pt s1) root va = mapping (F := F) (aw_pt s) kroot va) ∧
    (∀ va, 0 ≤ va < 2 ^ 38 → mapping (F := F) (aw_pt s1) root va = None) ∧
    (∀ b k, b ∈ held0 → 0 ≤ k < 512 → ps_mem (aw_pt s1) !! (b + 8 * k) = ps_mem (aw_pt s) !! (b + 8 * k)).
Proof.
  intros Hpt Hup Hu. unfold on_pt. unmonad.
  destruct (user_space_clone (aw_pt s) kroot Tk held0 Hpt Hup)
    as [(pn & -> & Hpn)|(root & k1 & -> & US & Hm & Hk)]; [left; eauto|right].
  pose proof (us_inv _ _ _ _ _ _ US) as Hpt1.
  exists root, (mkAW k1 (aw_user s)). cbn [aw_pt aw_user]. split_and!; try done.
  - apply (us_own _ _ _ _ _ _ US []); [by intros i r [=]|by rewrite lookup_insert_eq].
  - exists ∅, (<[[] := root]> Tk), ({[root]} ∪ held0).
    split; [by rewrite (left_id_L ∅ (∪))|]. split; [apply disjoint_empty_l|exact US].
  - split; [by eexists _, _|done].
  - intros va Hva. rewrite (mapping_vleaf k1 _ root _ va Hpt1).
    destruct (vleaf k1 (<[[] := root]> Tk) va) as [e|] eqn:Ev; [|done].
    destruct (us_leaf _ _ _ _ _ _ US va e) as (_ & _ & Hp); [|done|by apply elem_of_empty in Hp].
    rewrite px_div by lia. change (2 ^ (12 + 9 * 2)) with (2 ^ 30). change (2 ^ 9) with 512.
    assert (0 ≤ va / 2 ^ 30 < 256) by (split; [apply Z.div_pos; lia|apply Z.div_lt_upper_bound; lia]).
    rewrite Z.mod_small; lia.
Qed.
End Lifecycle.

(** ** [execute] *)

Section Execute.
Context {W V K U Sc : Type} `{VnodeLaws W V} `{PageSourceLaws K} `{UserPoolLaws U} `{ScheduleLaws Sc}.
Context {F : Type} `{BitflagsLaws F} `{ElfCrate}.

Lemma on_load_run {B} (m : M (LW W V K U) B) l (k : Kernel Sc) : on_load m (mkEW l k) =
  match m l with Ret (b, l') => Ret (b, mkEW l' k) | Panic p => Panic p end.
Proof. unfold on_load, mbind, outcome_bind. cbn [ew_load ew_kern]. by destruct (m l) as [[]|]. Qed.

(** The thread that [execute] spawns in the page table [pt]. *)
Definition proc_thread (tid stk proc pt : Z) : Thread :=
  build tid stk (set_b_userproc proc (set_b_pagetable pt builder_new)).

Lemma file_go_run (w : W) (f : File V) : file_deny f = false → file_go (w, f) = Ret ((), (w, f)).
Proof. intros Hf. unfold file_go, file_drop. by rewrite Hf. Qed.

End Execute.

(** ** [Drop for Thread] *)

Section Drop.
Context `{HeapLayout} {U : Type} `{UserPoolLaws U} {F : Type} `{BitflagsLaws F}.

Definition stack_obj (stk : Z) : Obj := mkObj stk STACK_SIZE STACK_ALIGN.

Lemma stack_layout : req_ok STACK_SIZE STACK_ALIGN ∧ layout_ok STACK_SIZE STACK_ALIGN = Ret ().
Proof. split; [|reflexivity]. split; [by vm_compute|]. exists 4. by vm_compute. Qed.

Lemma kfree_stack region h objs stk : objs_inv region h objs → stack_obj stk ∈ objs →
  ∃ h' objs', kfree stk STACK_SIZE STACK_ALIGN h = Ret ((), h') ∧ objs ≡ₚ stack_obj stk :: objs' ∧
    objs_inv region h' objs' ∧ keeps objs' h h'.
Proof.
  intros Hi Hin. apply elem_of_Permutation in Hin as [objs' Hp].
  destruct (heap_dealloc_spec region h objs (stack_obj stk) objs' Hi Hp) as (h' & E & Hi' & Hk).
  exists h', objs'. split; [|done]. unfold kfree. unmonad.
  rewrite (proj2 stack_layout). exact E.
Qed.

(** The pages held are still held when the stack is gone. *)
Lemma kfree_stack_held region h h' objs objs' stk held :
  objs ≡ₚ stack_obj stk :: objs' → objs_inv region h' objs' → keeps objs' h h' →
  (∀ a, a ∈ region → VM_OFFSET ≤ a) → (∀ a, a ∈ held → page_obj a ∈ objs) →
  ps_held h' held ∧ ∀ b k, b ∈ held → 0 ≤ k < 512 → ps_mem h' !! (b + 8 * k) = ps_mem h !! (b + 8 * k).
Proof.
  intros Hp Hi Hk Hr Hin.
  assert (Hin' : ∀ a, a ∈ held → page_obj a ∈ objs').
  { intros a Ha. specialize (Hin a Ha). rewrite Hp in Hin. apply elem_of_cons in Hin as [E|?]; [|done].
    apply (f_equal o_size) in E. by vm_compute in E. }
  split; [by exists region, objs'|]. intros b k Hb Hkr.
  apply (keeps_page objs' h h' b _ Hk); [by apply Hin'|rewrite PG_SIZE_pow2; lia].
Qed.

End Drop.

(** ** A process *)

#[local] Existing Instances InMem.mem_vnode InMem.mem_spec InMem.mem_laws.
#[local] Existing Instances Load.demo_crate Load.demo_pool.

Definition demo_hart : Hart := mkHart true true true 0 [].

Lemma demo_manager : ∃ k, manager_new (Sc := PriorityScheduler) 0x1000 0x2000 demo_hart = Ret k ∧ wf k ∧
  TID k = 2 ∧ all k = [0; 1].
Proof.
  assert (Ha : match manager_new (Sc := PriorityScheduler) 0x1000 0x2000 demo_hart with
    | Ret k => bool_decide (all k = [0; 1]) | Panic _ => false end = true) by (by vm_compute).
  destruct (manager_new_run (Sc := PriorityScheduler) 0x1000 0x2000 demo_hart)
    as (k & Ek & W & Ec & _ & ET & _); [reflexivity|split; [discriminate|reflexivity]..|].
  rewrite Ek in Ha. apply bool_decide_eq_true in Ha. by exists k.
Qed.

Definition demo_execute : outcome ((Z * option Frame) * EW InMem.MemFs nat Heap BuddyAllocator PriorityScheduler) :=
  t ← demo_table ;
  u ← insert_range demo_base demo_start demo_end (Palloc.empty demo_memory) ;
  k ← manager_new (Sc := PriorityScheduler) 0x1000 0x2000 demo_hart ;
  execute byte_flags t.1 8192 0x3000 7 (mkEW (mkLW demo_file (mkAW t.2 u.2)) k).


(** A process that has not been loaded, with its page table and its stack. *)
Definition demo_drop : outcome (unit * AW Heap BuddyAllocator) :=
  t ← demo_table ;
  c ← pt_clone t.1 t.2 ;
  st ← kalloc STACK_SIZE STACK_ALIGN c.2 ;
  u ← insert_range demo_base demo_start demo_end (Palloc.empty demo_memory) ;
  thread_drop byte_flags (proc_thread 3 st.1 7 c.1) (mkAW st.2 u.2).


(** The frame at 0x8000. *)
Definition demo_start_state : State :=
  mkState (λ i, i) (λ c, match c with Sstatus => 0x100 | _ => 0 end)
    (λ a, if decide (a = 0x8010) then stack_hi else if decide (a = 0x8108) then 0x10000 else 0).

Lemma start_enters_user_witness : ∃ r, start demo_addr 0x8000 demo_start_state = (r, Some JSret) ∧
  csrs r Sepc = 0x10000 ∧ x r sp = 0x80500000.
Proof.
  destruct (start_enters_user demo_addr 0x8000 (mkExecInfo 0x10000 stack_hi) demo_start_state)
    as (r & HR & Hep & Hsp & _).
  - intros i Hi. cbn [demo_start_state mem initial_frame f_x init_sp].
    repeat case_decide; (reflexivity || lia).
  - reflexivity.
  - lia.
  - reflexivity.
  - exists r. split; [exact HR|]. split; [exact Hep|exact Hsp].
Defined.
