(* ===== verification/Donation.v ===== *)
(** * Priority donation

    The donations of [sync/sleep.rs] and [thread/imp.rs] along a chain of waiting
    threads: [acquire] of a held lock raises the holder ([donation_wrapped]) and
    then, with [find_and_donate], whoever the holder waits for, and so on.  The
    operations are the frames of [Sync.v]; here they run without another thread
    taking over at the calls of [schedule]. *)

From S2P Require Import Prelude Intr Thread Scheduler Manager Sync.

Section Donation.
Context {Sc : Type} `{SI : Schedule Sc}.
Abbreviation S := (Sys Sc).
Implicit Types (s : S) (x y : Z).

(** The frames of a thread that keeps running. *)
Fixpoint unpreempted (fuel : nat) (fs : list frame) (s : S) : outcome (unit * S) :=
  match fs with
  | [] => Ret ((), s)
  | f :: fs =>
      match fuel with
      | O => Panic OutOfFuel
      | Datatypes.S fuel =>
          match f with
          | FSchedule => unpreempted fuel fs s
          | _ => '(new, s') ← exec f s ; unpreempted fuel (new ++ fs) s'
          end
      end
  end.

(** The threads that [x] has donated to for other locks than [l]. *)
Definition followed (l : Z) (q : list DonationData) : list Z :=
  map acceptor (filter (λ i, is_donner i = true ∧ dd_lockid i ≠ l) q).
Definition targets (l : Z) s x : list Z := followed l (donationq (thread (kern s) x)).

Definition prio_of s x : Z := priority (thread (kern s) x).

(** The frames [fs] take the state from [s] to [s']. *)
Definition runs (fs : list frame) s s' : Prop :=
  ∃ n : nat, ∀ k rest, unpreempted (n + k) (fs ++ rest) s = unpreempted k rest s'.

Lemma runs_nil s : runs [] s s.
Proof. by exists 0%nat. Qed.

Lemma runs_app fs1 fs2 s1 s2 s3 : runs fs1 s1 s2 → runs fs2 s2 s3 → runs (fs1 ++ fs2) s1 s3.
Proof.
  intros [n Hn] [m Hm]. exists (n + m)%nat. intros k rest.
  by rewrite <-(assoc_L (++)), <-Nat.add_assoc, Hn, Hm.
Qed.

Lemma runs_exec f new s s1 s2 : f ≠ FSchedule → exec f s = Ret (new, s1) → runs new s1 s2 → runs [f] s s2.
Proof.
  intros Hf He [n Hn]. exists (Datatypes.S n). intros k rest. cbn [app plus unpreempted].
  rewrite <-Hn. destruct f; try done; rewrite He; reflexivity.
Qed.

Lemma runs_schedule s : runs [FSchedule] s s.
Proof. by exists 1%nat. Qed.

(** Nothing but priorities and records of the lock [l] changes. *)
Record donated (l : Z) s s' : Prop := {
  dn_same : ∃ ts, s' = with_kern (with_threads ts (kern s)) s;
  dn_dom x : is_Some (threads (kern s') !! x) ↔ is_Some (threads (kern s) !! x);
  dn_targets x : targets l s' x = targets l s x;
  dn_up x : prio_of s x ≤ prio_of s' x
}.

Lemma donated_refl l s : donated l s s.
Proof. split; try done. exists (threads (kern s)). by destruct s as [[]]. Qed.

Lemma donated_trans l s1 s2 s3 : donated l s1 s2 → donated l s2 s3 → donated l s1 s3.
Proof.
  intros [[ts1 E1] D1 T1 U1] [[ts2 E2] D2 T2 U2]. split.
  - exists ts2. by rewrite E2, E1.
  - intros x. by rewrite D2, D1.
  - intros x. by rewrite T2, T1.
  - intros x. etrans; [apply U1|apply U2].
Qed.

(** An assignment to fields of a thread. *)
Definition upd_thread (t : Z) (f : Thread → Thread) s : S :=
  with_kern (with_threads (on_thread t f (threads (kern s))) (kern s)) s.

Lemma update_upd t f s : on_kern (update t f) s = Ret ((), upd_thread t f s).
Proof. done. Qed.

Lemma thread_upd x t f s : is_Some (threads (kern s) !! t) →
  thread (kern (upd_thread t f s)) x = if decide (x = t) then f (thread (kern s) t) else thread (kern s) x.
Proof.
  intros [th Ht]. unfold thread, upd_thread. cbn [kern with_kern threads with_threads].
  rewrite (lookup_total_on_thread _ t f x th Ht). case_decide; [|done].
  by rewrite (lookup_total_correct _ _ _ Ht).
Qed.

Lemma dom_upd x t f s : is_Some (threads (kern (upd_thread t f s)) !! x) ↔ is_Some (threads (kern s) !! x).
Proof.
  unfold upd_thread. cbn [kern with_kern threads with_threads]. rewrite on_thread_lookup.
  case_decide; subst; [|done]. apply fmap_is_Some.
Qed.

Lemma donated_upd l t f s : is_Some (threads (kern s) !! t) →
  (∀ th, th = thread (kern s) t → priority th ≤ priority (f th) ∧ followed l (donationq (f th)) = followed l (donationq th)) →
  donated l s (upd_thread t f s).
Proof.
  intros Ht Hf. destruct (Hf _ eq_refl) as [Hp Hq]. split.
  - by eexists.
  - intros x. apply dom_upd.
  - intros x. unfold targets. rewrite thread_upd by done. case_decide; subst; done.
  - intros x. unfold prio_of. rewrite thread_upd by done. case_decide; subst; [done|lia].
Qed.

(** A record of the lock itself, or of an acceptor, is not followed. *)
Lemma followed_push l d q : is_donner d = false ∨ dd_lockid d = l → followed l (push_back d q) = followed l q.
Proof.
  intros Hd. unfold followed, push_back. rewrite filter_app, filter_cons_False, filter_nil, app_nil_r; [done|].
  intros [H1 H2]. destruct Hd; congruence.
Qed.

Lemma add_donation_run l t d s : is_Some (threads (kern s) !! t) → dd_lockid d = l →
  ∃ s', add_donation t d s = Ret ((), s') ∧ donated l s s' ∧ ∀ x, prio_of s' x = prio_of s x.
Proof.
  intros Ht Hd. unfold add_donation. rewrite update_upd. eexists. split; [done|]. split.
  - apply donated_upd; [done|]. intros th _. split; [done|]. apply followed_push. by right.
  - intros x. unfold prio_of. rewrite thread_upd by done. by case_decide; subst.
Qed.

Lemma donate_exec d a l s : is_Some (threads (kern s) !! d) → is_Some (threads (kern s) !! a) →
  ∃ new s', exec (FDonate d a l) s = Ret (new, s') ∧ (new = [] ∨ new = [FSchedule]) ∧ donated l s s' ∧
    prio_of s d ≤ prio_of s' a ∧ (∀ x, x ≠ a → prio_of s' x = prio_of s x).
Proof.
  intros Hd Ha.
  assert (Hexec : exec (FDonate d a l) s = donation_wrapped d a l s) by done.
  unfold donation_wrapped, thr in Hexec. revert Hexec. unmonad. case_bool_decide as Hlt.
  2: { intros Hexec. exists [], s. split; [exact Hexec|]. split; [by left|].
       split; [apply donated_refl|]. split; [unfold prio_of; lia|done]. }
  rewrite update_upd. set (s1 := upd_thread a _ s).
  assert (D1 : donated l s s1) by (apply donated_upd; [done|]; intros th ->; split; [cbn; lia|done]).
  destruct (add_donation_run l d (mkDonation d a (priority (thread (kern s) d)) (priority (thread (kern s) a)) true l) s1)
    as (s2 & -> & D2 & P2); [by apply (dn_dom _ _ _ D1)|done|].
  destruct (add_donation_run l a (mkDonation d a (priority (thread (kern s) d)) (priority (thread (kern s) a)) false l) s2)
    as (s3 & -> & D3 & P3); [by apply (dn_dom _ _ _ D2), (dn_dom _ _ _ D1)|done|].
  intros Hexec. exists [FSchedule], s3. split; [exact Hexec|]. split; [by right|].
  split; [by eapply donated_trans, donated_trans|]. split.
  - rewrite P3, P2. unfold prio_of, s1. rewrite thread_upd by done. by rewrite decide_True.
  - intros x Hx. rewrite P3, P2. unfold prio_of, s1. rewrite thread_upd by done. by rewrite decide_False.
Qed.

Lemma donate_run d a l s : is_Some (threads (kern s) !! d) → is_Some (threads (kern s) !! a) →
  ∃ s', runs [FDonate d a l] s s' ∧ donated l s s' ∧
    prio_of s d ≤ prio_of s' a ∧ (∀ x, x ≠ a → prio_of s' x = prio_of s x).
Proof.
  intros Hd Ha. destruct (donate_exec d a l s Hd Ha) as (new & s' & E & Hnew & Hrest).
  exists s'. split; [|exact Hrest]. eapply runs_exec; [done|exact E|].
  destruct Hnew as [-> | ->]; [apply runs_nil|apply runs_schedule].
Qed.

(** ** The chain *)

Section Chain.
Context (l : Z) (tg : Z → list Z).

Definition waits x y : Prop := y ∈ tg x.

(** [tg] is what the queues of [s] say. *)
Definition chain s : Prop := ∀ x, targets l s x = tg x ∧
  (is_Some (threads (kern s) !! x) → ∀ y, y ∈ tg x → is_Some (threads (kern s) !! y)).

Lemma chain_donated s s' : chain s → donated l s s' → chain s'.
Proof.
  intros Hc D x. destruct (Hc x) as [Ht Hd]. rewrite (dn_targets _ _ _ D). split; [done|].
  intros Hx y Hy. apply (dn_dom _ _ _ D). apply Hd; [by apply (dn_dom _ _ _ D)|done].
Qed.

(** Below [x] nobody has a lower priority than one that waits for him. *)
Definition served s x : Prop := ∀ u v, rtc waits x u → waits u v → prio_of s u ≤ prio_of s v.

Lemma find_frames x s :
  exec (FFindAndDonate x l) s =
    Ret (concat (map (λ a, [FDonate x a l; FFindAndDonate a l]) (targets l s x)), s).
Proof.
  assert (Hexec : exec (FFindAndDonate x l) s = find_and_donate x l s) by done. rewrite Hexec.
  unfold find_and_donate, thr, targets, followed. unmonad. do 2 f_equal.
  induction (donationq (thread (kern s) x)) as [|i q IH]; [done|]. cbn [map concat].
  rewrite filter_cons. destruct (is_donner i) eqn:Ed; cbn [andb].
  - case_bool_decide.
    + rewrite decide_True by done. cbn [map concat]. by rewrite IH.
    + rewrite decide_False by tauto. done.
  - rewrite decide_False by (intros [? _]; done). done.
Qed.

(** The waiting threads form no cycle. *)
Section Acyclic.
Context (rank : Z → nat) (Hrank : ∀ x y, y ∈ tg x → (rank y < rank x)%nat).

Lemma rank_tc x y : tc waits x y → (rank y < rank x)%nat.
Proof.
  induction 1 as [x y Hxy|x y z Hxy _ IH]; [by apply Hrank|]. apply Hrank in Hxy. lia.
Qed.

(** What a visit of [x] does. *)
Record visited s s' x : Prop := {
  vs_donated : donated l s s';
  vs_below y : prio_of s' y ≠ prio_of s y → tc waits x y;
  vs_served : served s' x;
  vs_keeps y : served s y → served s' y
}.

(** Raising [a] and visiting it. *)
Lemma donate_visit x a s s1 s2 : waits x a → donated l s s1 →
  (∀ y, y ≠ a → prio_of s1 y = prio_of s y) → visited s1 s2 a →
  donated l s s2 ∧ (∀ y, prio_of s2 y ≠ prio_of s y → tc waits x y) ∧ (∀ y, served s y → served s2 y).
Proof.
  intros Hxa D P V. pose proof (vs_donated _ _ _ V) as D2. split; [by eapply donated_trans|]. split.
  - intros y Hy. destruct (decide (y = a)) as [->|Hne]; [by apply tc_once|].
    eapply tc_l; [exact Hxa|]. apply (vs_below _ _ _ V). by rewrite P.
  - intros y Hs u v Hu Huv. destruct (decide (u = a)) as [->|Hne]; [by apply (vs_served _ _ _ V a v)|].
    destruct (decide (prio_of s2 u = prio_of s1 u)) as [E|E].
    + rewrite E, P by done. etrans; [by apply Hs|]. etrans; [apply (dn_up _ _ _ D)|apply (dn_up _ _ _ D2)].
    + apply (vs_served _ _ _ V); [|done]. apply tc_rtc. by apply (vs_below _ _ _ V).
Qed.

(** The frames of a visit, for the rest of the targets. *)
Lemma visit_targets x : ∀ ts s,
  (∀ a s, a ∈ tg x → chain s → is_Some (threads (kern s) !! a) →
     ∃ s', runs [FFindAndDonate a l] s s' ∧ visited s s' a) →
  ts ⊆ tg x → chain s → is_Some (threads (kern s) !! x) →
  ∃ s', runs (concat (map (λ a, [FDonate x a l; FFindAndDonate a l]) ts)) s s' ∧ donated l s s' ∧
    (∀ y, prio_of s' y ≠ prio_of s y → tc waits x y) ∧ (∀ y, served s y → served s' y) ∧
    ∀ a, a ∈ ts → prio_of s' x ≤ prio_of s' a ∧ served s' a.
Proof.
  induction ts as [|a ts IH]; intros s Hvis Hts Hc Hx; cbn [map concat].
  { exists s. split; [apply runs_nil|]. split; [apply donated_refl|].
    split; [done|]. split; [done|]. by intros a Ha%elem_of_nil. }
  assert (Ha : a ∈ tg x) by (apply Hts; left).
  destruct (donate_run x a l s Hx) as (s1 & R1 & D1 & Q1 & P1); [by apply (Hc x)|].
  destruct (Hvis a s1 Ha) as (s2 & R2 & V2); [by eapply chain_donated|by apply (dn_dom _ _ _ D1), (Hc x)|].
  destruct (donate_visit x a s s1 s2 Ha D1 P1 V2) as (D & B & Kp).
  destruct (IH s2 Hvis) as (s3 & R3 & D3 & B3 & K3 & A3);
    [intros y Hy; apply Hts; by right|by eapply chain_donated|by apply (dn_dom _ _ _ D)|].
  assert (Hself : ∀ y, tc waits x y → y ≠ x) by (intros y Hy%rank_tc ->; lia).
  exists s3. split; [eapply (runs_app [_; _]); [eapply (runs_app [_] [_]); [exact R1|exact R2]|exact R3]|].
  split; [by eapply donated_trans|]. split; [|split; [by intros y Hy; apply K3, Kp|]].
  - intros y Hy. destruct (decide (prio_of s3 y = prio_of s2 y)) as [E|E]; [|by apply B3].
    apply B. congruence.
  - intros b [->|Hb]%elem_of_cons; [|by apply A3]. split; [|apply K3, V2].
    assert (E3 : prio_of s3 x = prio_of s x).
    { destruct (decide (prio_of s3 x = prio_of s2 x)) as [E|E]; [|by destruct (Hself x (B3 x E))].
      destruct (decide (prio_of s2 x = prio_of s x)) as [E'|E']; [congruence|by destruct (Hself x (B x E'))]. }
    rewrite E3. etrans; [exact Q1|]. etrans; [apply (dn_up _ _ _ (vs_donated _ _ _ V2))|apply (dn_up _ _ _ D3)].
Qed.

Lemma find_run n : ∀ x s, (rank x < n)%nat → chain s → is_Some (threads (kern s) !! x) →
  ∃ s', runs [FFindAndDonate x l] s s' ∧ visited s s' x.
Proof.
  induction n as [|n IH]; intros x s Hn Hc Hx; [lia|].
  destruct (visit_targets x (tg x) s) as (s' & R & D & B & Kp & A); [|done..|].
  { intros a s0 Ha Hc0 Ha0. apply IH; [|done..]. apply Hrank in Ha. lia. }
  exists s'. split.
  - eapply runs_exec; [done|apply find_frames|]. by rewrite (proj1 (Hc x)).
  - split; [done|done| |done]. intros u v Hu Huv.
    apply rtc_inv in Hu as [<-|(a & Ha & Hu)]; [by apply A|]. by apply (proj2 (A a Ha) u v).
Qed.
End Acyclic.

(** *** A cycle *)

(** Frames of donations between existing threads. *)
Definition donation_frame s (f : frame) : Prop :=
  match f with
  | FDonate d a l' => l' = l ∧ is_Some (threads (kern s) !! d) ∧ is_Some (threads (kern s) !! a)
  | FFindAndDonate d l' => l' = l ∧ is_Some (threads (kern s) !! d)
  | FSchedule => True
  | _ => False
  end.

Lemma donation_frame_donated s s' f : donated l s s' → donation_frame s f → donation_frame s' f.
Proof.
  intros D. destruct f; cbn; try done.
  - intros (? & ? & ?). split_and!; [done|by apply (dn_dom _ _ _ D)..].
  - intros (? & ?). split; [done|by apply (dn_dom _ _ _ D)].
Qed.

Lemma target_frames s x ts : chain s → is_Some (threads (kern s) !! x) → ts ⊆ tg x →
  Forall (donation_frame s) (concat (map (λ a, [FDonate x a l; FFindAndDonate a l]) ts)).
Proof.
  intros Hc Hx. induction ts as [|a ts IH]; intros Hts; cbn [map concat]; [constructor|].
  assert (Ha : is_Some (threads (kern s) !! a)) by (apply (Hc x); [done|]; apply Hts; left).
  apply Forall_app. split; [repeat constructor; done|]. apply IH. intros y Hy. apply Hts. by right.
Qed.

(** Such frames are done with, or there was not enough fuel. *)
Lemma donations_run fuel : ∀ fs s rest, chain s → Forall (donation_frame s) fs →
  unpreempted fuel (fs ++ rest) s = Panic OutOfFuel ∨
  ∃ fuel' s', (fuel' ≤ fuel)%nat ∧ donated l s s' ∧
    unpreempted fuel (fs ++ rest) s = unpreempted fuel' rest s'.
Proof.
  induction fuel as [|fuel IH]; intros [|f fs] s rest Hc Hfs; cbn [app].
  - right. exists 0%nat, s. split; [lia|]. by split; [apply donated_refl|].
  - by left.
  - right. exists (Datatypes.S fuel), s. split; [lia|]. by split; [apply donated_refl|].
  - apply Forall_cons in Hfs as [Hf Hfs].
    assert (Hstep : ∀ new s1, exec f s = Ret (new, s1) → f ≠ FSchedule → donated l s s1 → Forall (donation_frame s1) new →
      unpreempted (Datatypes.S fuel) (f :: fs ++ rest) s = Panic OutOfFuel ∨
      ∃ fuel' s', (fuel' ≤ Datatypes.S fuel)%nat ∧ donated l s s' ∧
        unpreempted (Datatypes.S fuel) (f :: fs ++ rest) s = unpreempted fuel' rest s').
    { intros new s1 E Hns D Hnew.
      assert (Eu : unpreempted (Datatypes.S fuel) (f :: fs ++ rest) s = unpreempted fuel ((new ++ fs) ++ rest) s1).
      { rewrite <-(assoc_L (++)). cbn [unpreempted]. destruct f; try done; rewrite E; reflexivity. }
      rewrite Eu. destruct (IH (new ++ fs) s1 rest) as [?|(fuel' & s' & Hle & D' & E')]; [by eapply chain_donated| |by left|].
      - apply Forall_app. split; [done|]. eapply Forall_impl; [exact Hfs|]. intros g. by apply donation_frame_donated.
      - right. exists fuel', s'. split; [lia|]. split; [by eapply donated_trans|done]. }
    destruct f; try done.
    + cbn [unpreempted]. destruct (IH fs s rest) as [?|(fuel' & s' & Hle & D' & E')]; [done|done|by left|right].
      exists fuel', s'. split; [lia|done].
    + destruct Hf as (-> & Hd & Ha). destruct (donate_exec donner acceptor l s Hd Ha) as (new & s1 & E & Hnew & D & _).
      apply (Hstep new s1 E); [done|done|]. destruct Hnew as [-> | ->]; repeat constructor.
    + destruct Hf as (-> & Hd). apply (Hstep _ _ (find_frames donner s)); [done|apply donated_refl|].
      apply target_frames; [done|done|]. by rewrite (proj1 (Hc donner)).
Qed.

(** A thread from which a cycle can be reached. *)
Definition looping x : Prop := ∃ z, rtc waits x z ∧ tc waits z z.

Lemma looping_next x : looping x → ∃ y, waits x y ∧ looping y.
Proof.
  intros (z & Hr & Hz). apply rtc_inv in Hr as [->|(y & Hy & Hr)].
  - inversion Hz as [? ? Hzz|? y ? Hy Ht]; subst.
    + exists z. split; [done|]. by exists z.
    + exists y. split; [done|]. exists z. split; [by apply tc_rtc|done].
  - exists y. split; [done|]. by exists z.
Qed.

Lemma looping_run fuel : ∀ x s rest, chain s → is_Some (threads (kern s) !! x) → looping x →
  unpreempted fuel (FFindAndDonate x l :: rest) s = Panic OutOfFuel.
Proof.
  induction fuel as [fuel IH] using lt_wf_ind. intros x s rest Hc Hx Hl.
  destruct fuel as [|fuel]; [done|]. cbn [unpreempted].
  assert (E : exec (FFindAndDonate x l) s = _) by apply find_frames. rewrite E. cbn [mbind outcome_bind].
  rewrite (proj1 (Hc x)). destruct (looping_next x Hl) as (y & Hy & Hly).
  apply list_elem_of_split in Hy as (ts1 & ts2 & Ets).
  assert (Hsub : ts1 ++ [y] ⊆ tg x).
  { rewrite Ets. intros z [Hz| ->%list_elem_of_singleton]%elem_of_app; apply elem_of_app; [by left|right; left]. }
  pose proof (target_frames s x (ts1 ++ [y]) Hc Hx Hsub) as Hfs.
  rewrite Ets, !map_app, !concat_app in *. cbn [map concat] in *. rewrite app_nil_r in Hfs.
  apply Forall_app in Hfs as [Hfs [Hd Hf]%Forall_cons].
  replace ((concat (map _ ts1) ++ [FDonate x y l; FFindAndDonate y l] ++ _) ++ rest)
    with ((concat (map (λ a, [FDonate x a l; FFindAndDonate a l]) ts1) ++ [FDonate x y l]) ++
      FFindAndDonate y l :: (concat (map (λ a, [FDonate x a l; FFindAndDonate a l]) ts2) ++ rest))
    by (by rewrite <-!(assoc_L (++))).
  edestruct (donations_run fuel) as [->|(fuel' & s' & Hle & D & ->)]; [exact Hc| |done|].
  - apply Forall_app. split; [exact Hfs|]. by apply Forall_singleton.
  - apply IH; [lia|by eapply chain_donated| |done].
    apply (dn_dom _ _ _ D). by apply Forall_singleton in Hf as [_ ?].
Qed.
End Chain.

End Donation.

(** Thread 3 asks for lock 7, held by 2, which waits for 4, for lock 5. *)
Definition demo_thread (t p : Z) (q : list DonationData) : Thread :=
  with_donationq q (with_priority p (build t 0x1000 builder_new)).

Definition demo_chain (back : list DonationData) : Sys PriorityScheduler :=
  mkSys (mkKernel (mkHart true true true 0 []) 5
    {[ 2 := demo_thread 2 31 [mkDonation 2 4 31 20 true 5]; 3 := demo_thread 3 40 [];
       4 := demo_thread 4 31 back ]} sched_default 3 [2; 3; 4] None) ∅ ∅ ∅ 0 0 [] ∅.

Lemma demo_chain_targets back x y : y ∈ targets 7 (demo_chain back) x → x = 2 ∧ y = 4 ∨ x = 4 ∧ y ∈ followed 7 back.
Proof.
  destruct (decide (x = 2)) as [->|]; [intros Hy; change (y ∈ [4]) in Hy; apply list_elem_of_singleton in Hy; by left|].
  destruct (decide (x = 3)) as [->|]; [intros Hy; change (y ∈ []) in Hy; by apply elem_of_nil in Hy|].
  destruct (decide (x = 4)) as [->|]; [intros Hy; change (y ∈ followed 7 back) in Hy; by right|].
  unfold targets, thread. cbn [kern demo_chain threads]. rewrite lookup_total_alt, !lookup_insert_ne, lookup_singleton_ne by done.
  by intros Hy%elem_of_nil.
Qed.

