(* ===== verification/Condvar.v ===== *)
(** * Condition variables

    [sync/condvar.rs] on the machine of [Sync.v]: what [wait] leaves behind, which
    waiter [notify_one] chooses, that a waiter notified between giving up its lock
    and blocking does not block, and that [notify_all] wakes every waiter. *)

From S2P Require Import Prelude Intr Thread Scheduler Manager Sync SyncSafe Wakeups Donation.

Section Condvar.
Context {Sc : Type} `{SI : Schedule Sc} `{SL : !ScheduleLaws Sc}.
Implicit Types s : Sys Sc.

(** The semaphores queued at a condition variable, and the threads blocked on one
    of them: none while its thread is on the way from [release] to [down]. *)
Definition cvq s c : list Z := cv_queue (condvars s !!! c).
Definition on_sema s n : list Z := waiters (semas s !!! n).

(** The priority [notify_one] goes by: 0 for a thread that has not blocked yet. *)
Definition urgency s n : Z := match on_sema s n with [] => 0 | t :: _ => prio_at s t end.

(** Fresh semaphores, of one thread each, not up yet. *)
Record semas_ok s (ns : list Z) : Prop := {
  so_nodup : NoDup ns;
  so_zero n : n ∈ ns → sema_value (semas s !!! n) = 0;
  so_one n : n ∈ ns → on_sema s n = [] ∨ ∃ t, on_sema s n = [t];
  so_waiters n : n ∈ ns → waiters_ok s (on_sema s n);
  so_distinct n m t : n ∈ ns → m ∈ ns → t ∈ on_sema s n → t ∈ on_sema s m → n = m
}.

Record cv_ok s c : Prop := {
  cv_free : cv_borrows (condvars s !!! c) = 0;
  cv_old n : n ∈ cvq s c → n < next_sema s;
  cv_semas : semas_ok s (cvq s c)
}.

(** ** The choice of [notify_one] *)

Lemma choose_sema_max prio ss i chosen mp :
  choose_sema prio ss i chosen mp =
  (maxpriority_from (λ p, p) (map (λ x, (get_maxpriority prio (waiters x)).2) ss) i chosen mp).1.
Proof.
  revert i chosen mp. induction ss as [|x ss IH]; intros i chosen mp; [done|].
  cbn [choose_sema map maxpriority_from].
  destruct (get_maxpriority prio (waiters x)) as [j p]. cbn [snd].
  destruct (bool_decide (mp ≤ p)); apply IH.
Qed.

Lemma urgency_max s ns n : semas_ok s ns → n ∈ ns →
  (get_maxpriority (prio_at s) (on_sema s n)).2 = urgency s n ∧ 0 ≤ urgency s n.
Proof.
  intros Ho Hn. unfold urgency. destruct (so_one _ _ Ho n Hn) as [->|[t Et]]; [done|].
  pose proof (so_waiters _ _ Ho n Hn) as Hw. rewrite Et in Hw |- *.
  apply Forall_cons in Hw as [(_ & Hp & _) _]. unfold get_maxpriority. cbn [maxpriority_from].
  by rewrite bool_decide_eq_true_2.
Qed.

Lemma choose_sema_spec s ns :
  semas_ok s ns → ns ≠ [] →
  let i := choose_sema (prio_at s) (map (λ n, semas s !!! n) ns) 0 0 0 in
  ∃ n, ns !! i = Some n ∧
    ∀ j m, ns !! j = Some m → urgency s m ≤ urgency s n ∧ ((i < j)%nat → urgency s m < urgency s n).
Proof.
  intros Ho Hne i. subst i. rewrite choose_sema_max, map_map.
  set (us := map _ ns). assert (us = map (urgency s) ns) as Eus.
  { unfold us. apply map_ext_in. intros n Hn%list_elem_of_In. by apply (urgency_max s ns). }
  pose proof (get_maxpriority_spec (λ p, p) us) as Hg. cbn zeta in Hg.
  fold (get_maxpriority (λ p : Z, p) us).
  destruct (get_maxpriority (λ p, p) us) as [i mp]. cbn [fst snd] in *.
  destruct Hg as (u & Hu & -> & Hall).
  - rewrite Eus. by destruct ns.
  - rewrite Eus. apply Forall_map, Forall_forall. intros n Hn. by apply (urgency_max s ns).
  - rewrite Eus, list_lookup_fmap in Hu. apply fmap_Some in Hu as (n & Hn & ->).
    exists n. split; [done|]. intros j m Hj. apply Hall.
    by rewrite Eus, list_lookup_fmap, Hj.
Qed.
(** ** [up] on one of these semaphores *)

Lemma up_empty s n : wf (kern s) → sema_value (semas s !!! n) = 0 → on_sema s n = [] →
  up (SemaAt n) s = Ret ([], with_semas (<[n := mkSemaphore 1 []]> (semas s)) s).
Proof.
  unfold on_sema. intros W Hz Hw. destruct (up_run s (SemaAt n) W) as (H & _ & _).
  { cbn. rewrite Hw. constructor. }
  cbn in H. rewrite H by done. by rewrite Hz.
Qed.

Lemma up_one s n t : wf (kern s) → sema_value (semas s !!! n) = 0 → on_sema s n = [t] →
  waiters_ok s [t] →
  ∃ k, up (SemaAt n) s = Ret (if bool_decide (prio_at s (current (kern s)) < prio_at s t)
                              then [FSchedule; FUpRet (stimer (hart (kern s)))] else [],
                              with_kern k (with_semas (<[n := mkSemaphore 1 []]> (semas s)) s)) ∧
    queued (scheduler k) ≡ₚ t :: queued (scheduler (kern s)) ∧
    threads k = on_thread t (with_status Ready) (threads (kern s)) ∧
    current k = current (kern s) ∧ wf k.
Proof.
  unfold on_sema. intros W Hz Hw Hok.
  destruct (up_run s (SemaAt n) W) as (_ & _ & H); [cbn; by rewrite Hw|].
  cbn in H. rewrite Hw in H.
  destruct (H ltac:(done) Hz) as (i & u & s' & E & Hi & _ & Hs & Hq & Ht & Hc & _ & Hwf).
  apply list_lookup_singleton_Some in Hi as [-> ->]. exists (kern s').
  rewrite E. cbn [delete list_delete] in Hs. by rewrite <-Hs.
Qed.

Lemma cv_borrow_run s c : cv_borrows (condvars s !!! c) = 0 → cv_borrow_mut c s = Ret (cvq s c, s).
Proof.
  unfold cv_borrow_mut, cvq. unmonad. intros E. cbv beta iota. by rewrite bool_decide_eq_true_2.
Qed.

Lemma cv_borrow_twice s c : cv_borrows (condvars s !!! c) ≠ 0 → cv_borrow_mut c s = Panic AssertFailed.
Proof.
  unfold cv_borrow_mut. unmonad. intros E. cbv beta iota. by rewrite bool_decide_eq_false_2.
Qed.

(** ** [wait] *)

(** The waiter's semaphore is queued before the lock is given up; a [wait] while
    [notify_all] is under way is a second borrow and panics. *)
Lemma cv_wait_run s c l : cv_ok s c →
  ∃ s', cv_wait c l s = Ret ([FRelease l; FDown (SemaAt (next_sema s)); FAcquire l], s') ∧
    cvq s' c = next_sema s :: cvq s c ∧ on_sema s' (next_sema s) = [] ∧ kern s' = kern s ∧ cv_ok s' c.
Proof.
  intros [Hf Ho Hs]. unfold cv_wait, cv_borrow_mut, cv_set. unmonad. cbn.
  rewrite Hf. cbn. eexists. split; [done|].
  assert (∀ n, n ∈ cvq s c → n ≠ next_sema s) as Hne by (intros n Hn E; apply Ho in Hn; lia).
  unfold cvq, on_sema in *. split_and!; cbn.
  1: by rewrite lookup_total_insert_eq.
  1: by rewrite lookup_total_insert_eq.
  1: done.
  split; unfold cvq; cbn; rewrite lookup_total_insert_eq; cbn; [done| |].
  - intros n [->|Hn]%elem_of_cons; [lia|]. apply Ho in Hn. lia.
  - destruct Hs as [H1 H2 H3 H4 H5]. split; unfold on_sema in *; cbn.
    + apply NoDup_cons. split; [|done]. intros Hn. by apply (Hne _ Hn).
    + intros n [->|Hn]%elem_of_cons; [by rewrite lookup_total_insert_eq|].
      rewrite lookup_total_insert_ne by (symmetry; by apply Hne). by apply H2.
    + intros n [->|Hn]%elem_of_cons; [left; by rewrite lookup_total_insert_eq|].
      rewrite lookup_total_insert_ne by (symmetry; by apply Hne). by apply H3.
    + intros n [->|Hn]%elem_of_cons; [rewrite lookup_total_insert_eq; constructor|].
      rewrite lookup_total_insert_ne by (symmetry; by apply Hne). by apply (H4 n).
    + intros n m t Hn Hm.
      apply elem_of_cons in Hn as [->|Hn]; [rewrite lookup_total_insert_eq; by intros ?%not_elem_of_nil|].
      apply elem_of_cons in Hm as [->|Hm]; [rewrite (lookup_total_insert_eq _ (next_sema s)); by intros _ ?%not_elem_of_nil|].
      rewrite !lookup_total_insert_ne by (symmetry; by apply Hne). by apply H5.
Qed.

Lemma down_up s n : wf (kern s) → semas s !!! n = mkSemaphore 1 [] →
  down (SemaAt n) s = Ret ([], with_semas (<[n := mkSemaphore 0 []]> (semas s)) s).
Proof.
  intros W Hn. unfold down, down_loop. unmonad. rewrite set_intr_wf by apply W.
  rewrite sema_at_level. cbn [sema_at]. rewrite Hn. cbn [sema_value waiters].
  rewrite bool_decide_eq_false_2 by done. rewrite set_sema_level, set_intr_wf by (apply (wf_level (kern s) false W)).
  f_equal. f_equal. exact (level_back (with_semas _ s) false (wf_hart _ W)).
Qed.

Lemma notify_one_run s c : cv_borrows (condvars s !!! c) = 0 →
  notify_one c s =
    match deque_remove (choose_sema (prio_at s) (map (λ n, semas s !!! n) (cvq s c)) 0 0 0) (cvq s c) with
    | Some (n, q) => Ret ([FUp (SemaAt n)], with_condvars (<[c := mkCondvar q 0]> (condvars s)) s)
    | None => Ret ([], s)
    end.
Proof.
  unfold notify_one, cv_borrow_mut, cv_set, cvq. unmonad. intros Hf. cbn.
  destruct (condvars s !!! c) as [q b]. cbn in *. subst b.
  rewrite bool_decide_eq_true_2 by done. cbn [assert_].
  by destruct (deque_remove _ q) as [[n q']|].
Qed.

(** C20: [notify_one] on an empty queue does nothing.  Otherwise it takes out of
    the queue the semaphore of the waiter of the highest priority, the one that
    has waited longest among equals, and ups it.  A thread blocked there becomes
    ready, and is yielded to when it outranks the caller.  A thread that has
    released its lock and not yet blocked counts as priority 0, and it loses
    nothing: its semaphore is left at one, and in whatever state it gets to
    [down] with that, [down] returns at once. *)
Theorem notify_one_correct s c :
  wf (kern s) → cv_ok s c →
  (cvq s c = [] → notify_one c s = Ret ([], s)) ∧
  (cvq s c ≠ [] → ∃ i n,
    let s1 := with_condvars (<[c := mkCondvar (delete i (cvq s c)) 0]> (condvars s)) s in
    let s2 := with_semas (<[n := mkSemaphore 1 []]> (semas s)) s1 in
    cvq s c !! i = Some n ∧
    (∀ j m, cvq s c !! j = Some m →
       urgency s m ≤ urgency s n ∧ ((i < j)%nat → urgency s m < urgency s n)) ∧
    notify_one c s = Ret ([FUp (SemaAt n)], s1) ∧
    match on_sema s n with
    | [] => up (SemaAt n) s1 = Ret ([], s2) ∧
        ∀ s3, wf (kern s3) → semas s3 !!! n = semas s2 !!! n →
          down (SemaAt n) s3 = Ret ([], with_semas (<[n := mkSemaphore 0 []]> (semas s3)) s3)
    | t :: _ => ∃ k,
        up (SemaAt n) s1 = Ret (if bool_decide (prio_at s (current (kern s)) < prio_at s t)
                                then [FSchedule; FUpRet (stimer (hart (kern s)))] else [], with_kern k s2) ∧
        queued (scheduler k) ≡ₚ t :: queued (scheduler (kern s)) ∧
        threads k = on_thread t (with_status Ready) (threads (kern s)) ∧ wf k
    end).
Proof.
  intros W [Hf Ho Hs]. rewrite notify_one_run by done. split.
  { intros E. unfold deque_remove. rewrite E. done. }
  intros Hne. destruct (choose_sema_spec s (cvq s c) Hs Hne) as (n & Hn & Hmax).
  set (i := choose_sema _ _ _ _ _) in *. exists i, n.
  assert (n ∈ cvq s c) as Hin by by eapply list_elem_of_lookup_2.
  intros s1 s2. split_and!; [done|done|by unfold deque_remove; rewrite Hn|].
  destruct (so_one _ _ Hs n Hin) as [Ew|[t Ew]]; rewrite Ew.
  - split.
    + apply (up_empty s1 n W); [by apply (so_zero _ _ Hs)|done].
    + intros s3 W3. unfold s2. cbn. rewrite lookup_total_insert_eq. by apply down_up.
  - destruct (up_one s1 n t W) as (k & E & Hq & Ht & _ & Hk); [by apply (so_zero _ _ Hs)|done| |by exists k].
    rewrite <-Ew. by apply (so_waiters _ _ Hs).
Qed.
(** ** [notify_all] *)

Definition blocked_on s (ns : list Z) : list Z := concat (map (on_sema s) ns).

(** The semaphores [ns] have been upped and the threads that waited made ready. *)
Record woken s s' (ns : list Z) : Prop := {
  wk_same : s' = with_kern (kern s') (with_semas (semas s') s);
  wk_semas n : semas s' !!! n = if decide (n ∈ ns) then mkSemaphore 1 [] else semas s !!! n;
  wk_threads t : threads (kern s') !! t =
    if decide (t ∈ blocked_on s ns) then with_status Ready <$> threads (kern s) !! t
    else threads (kern s) !! t;
  wk_queued : queued (scheduler (kern s')) ≡ₚ blocked_on s ns ++ queued (scheduler (kern s));
  wk_current : current (kern s') = current (kern s);
  wk_wf : wf (kern s')
}.

Lemma prio_at_lookup s s' u :
  threads (kern s') !! u = threads (kern s) !! u → prio_at s' u = prio_at s u.
Proof. unfold prio_at, priority_of. rewrite !lookup_total_alt. by intros ->. Qed.

Lemma semas_ok_tail s s1 n ns : semas_ok s (n :: ns) →
  (∀ m, m ∈ ns → semas s1 !!! m = semas s !!! m) →
  (∀ m u, m ∈ ns → u ∈ on_sema s m → threads (kern s1) !! u = threads (kern s) !! u) →
  current (kern s1) = current (kern s) → semas_ok s1 ns.
Proof.
  intros [H1 H2 H3 H4 H5] Hm Ht Hc. apply NoDup_cons in H1 as [_ H1].
  assert (∀ m, m ∈ ns → on_sema s1 m = on_sema s m) as Ho by (intros; unfold on_sema; by rewrite Hm).
  split; [done|..].
  - intros m Hin. rewrite Hm by done. apply H2. by right.
  - intros m Hin. rewrite Ho by done. apply H3. by right.
  - intros m Hin. rewrite Ho by done. pose proof (H4 m ltac:(by right)) as HF.
    apply Forall_forall. intros u Hu. unfold waiters_ok in HF. rewrite Forall_forall in HF.
    destruct (HF u Hu) as (? & ? & th & Hth & Hb). rewrite Hc, (prio_at_lookup s) by by eapply Ht.
    split_and!; [done..|]. exists th. by rewrite (Ht m u).
  - intros m m' u Hm1 Hm2. rewrite !Ho by done. apply H5; by right.
Qed.

Lemma runs_one f new s s1 : f ≠ FSchedule → exec f s = Ret (new, s1) → new = [] → runs [f] s s1.
Proof. intros Hf He ->. eapply runs_exec; [done..|]. apply runs_nil. Qed.

Lemma woken_cons s s1 s2 n ns t :
  on_sema s n = t → n ∉ ns → woken s s1 [n] → woken s1 s2 ns →
  (∀ m, m ∈ ns → on_sema s1 m = on_sema s m) → (∀ u, u ∈ t → u ∉ blocked_on s ns) →
  woken s s2 (n :: ns).
Proof.
  intros Et Hn W1 W2 Ho Hd.
  assert (blocked_on s1 ns = blocked_on s ns) as Eb.
  { unfold blocked_on. f_equal. apply map_ext_in. intros m Hm%list_elem_of_In. by apply Ho. }
  assert (blocked_on s [n] = t) as E1 by (unfold blocked_on; cbn; by rewrite app_nil_r).
  assert (blocked_on s (n :: ns) = t ++ blocked_on s ns) as E2 by (unfold blocked_on; cbn; by rewrite Et).
  destruct W1 as [A1 B1 C1 D1 F1 G1], W2 as [A2 B2 C2 D2 F2 G2]. rewrite E1 in C1, D1. split.
  - rewrite A2, A1. done.
  - intros m. rewrite B2, B1. repeat case_decide; set_solver.
  - intros u. rewrite C2, C1, Eb, E2. pose proof (Hd u) as Hu.
    repeat case_decide; rewrite elem_of_app in *; naive_solver.
  - rewrite E2, D2, Eb, D1, !(assoc_L (++)). f_equiv. apply Permutation_app_comm.
  - by rewrite F2.
  - done.
Qed.

Lemma up_woken s n ns : wf (kern s) → semas_ok s (n :: ns) →
  (∀ t, t ∈ on_sema s n → prio_at s t ≤ prio_at s (current (kern s))) →
  ∃ s1, runs [FUp (SemaAt n)] s s1 ∧ woken s s1 [n].
Proof.
  intros W Ho Hp.
  assert (n ∈ n :: ns) as Hin by left.
  pose proof (so_zero _ _ Ho n Hin) as Hz.
  assert (∀ x m, (<[n := x]> (semas s)) !!! m = if decide (m ∈ [n]) then x else semas s !!! m) as Hs.
  { intros x m. destruct (decide (m ∈ [n])) as [->%list_elem_of_singleton|Hm].
    - by rewrite lookup_total_insert_eq.
    - rewrite lookup_total_insert_ne; [done|]. intros ->. apply Hm. left. }
  destruct (so_one _ _ Ho n Hin) as [E|[t E]].
  - pose proof (up_empty s n W Hz E) as Hu. eexists. split; [by eapply runs_one|].
    assert (blocked_on s [n] = []) as Eb by (unfold blocked_on; cbn; by rewrite E).
    split; try done; rewrite ?Eb; [apply Hs| |done].
    intros u. by rewrite decide_False by apply not_elem_of_nil.
  - pose proof (so_waiters _ _ Ho n Hin) as Hw. rewrite E in Hw.
    destruct (up_one s n t W Hz E Hw) as (k & Hu & Hq & Ht & Hc & Hk).
    rewrite bool_decide_eq_false_2 in Hu by (apply Z.le_ngt, Hp; rewrite E; left).
    eexists. split; [by eapply runs_one|].
    assert (blocked_on s [n] = [t]) as Eb by (unfold blocked_on; cbn; by rewrite E).
    split; try done; rewrite ?Eb; [apply Hs| |done].
    intros u. cbn [kern with_kern]. rewrite Ht, on_thread_lookup.
    destruct (decide (u = t)) as [->|Hne].
    + rewrite decide_True; [done|left].
    + rewrite decide_False; [done|]. by intros ?%list_elem_of_singleton.
Qed.

Lemma ups_woken ns s : wf (kern s) → semas_ok s ns →
  (∀ t, t ∈ blocked_on s ns → prio_at s t ≤ prio_at s (current (kern s))) →
  ∃ s', runs (map (λ n, FUp (SemaAt n)) ns) s s' ∧ woken s s' ns.
Proof.
  revert s. induction ns as [|n ns IH]; intros s W Ho Hp.
  { exists s. split; [apply runs_nil|]. split; try done. by destruct s. }
  assert (blocked_on s (n :: ns) = on_sema s n ++ blocked_on s ns) as Eb by done.
  destruct (up_woken s n ns W Ho) as (s1 & R1 & W1).
  { intros t Ht. apply Hp. rewrite Eb. apply elem_of_app. by left. }
  pose proof (so_nodup _ _ Ho) as [Hn _]%NoDup_cons.
  assert (∀ m u, m ∈ ns → u ∈ on_sema s m → u ∉ on_sema s n) as Hd.
  { intros m u Hm Hu Hu'. apply Hn. rewrite (so_distinct _ _ Ho n m u); [done|left|by right|done..]. }
  assert (blocked_on s [n] = on_sema s n) as E1 by (unfold blocked_on; cbn; apply app_nil_r).
  assert (∀ m, m ∈ ns → semas s1 !!! m = semas s !!! m) as Hsm.
  { intros m Hm. rewrite (wk_semas _ _ _ W1), decide_False; [done|].
    intros ->%list_elem_of_singleton. done. }
  assert (∀ u, u ∉ on_sema s n → threads (kern s1) !! u = threads (kern s) !! u) as Hth.
  { intros u Hu. rewrite (wk_threads _ _ _ W1), E1. by rewrite decide_False. }
  assert (semas_ok s1 ns) as Ho1.
  { apply (semas_ok_tail s s1 n); [done|done| |apply W1]. intros m u Hm Hu. by apply Hth, (Hd m). }
  assert (∀ u, u ∈ blocked_on s ns → u ∉ on_sema s n) as Hb.
  { unfold blocked_on. intros u Hu. apply list_elem_of_In, in_concat in Hu as (l & Hl & Hu).
    apply in_map_iff in Hl as (m & <- & Hm). apply (Hd m); by apply list_elem_of_In. }
  assert (blocked_on s1 ns = blocked_on s ns) as Eb1.
  { unfold blocked_on. f_equal. apply map_ext_in. intros m Hm%list_elem_of_In. unfold on_sema. by rewrite Hsm. }
  destruct (IH s1 (wk_wf _ _ _ W1) Ho1) as (s2 & R2 & W2).
  { intros t. rewrite Eb1. intros Ht. rewrite (wk_current _ _ _ W1), !(prio_at_lookup s s1).
    - apply Hp. rewrite Eb. apply elem_of_app. by right.
    - apply Hth. intros Hc. pose proof (so_waiters _ _ Ho n ltac:(left)) as HF.
      unfold waiters_ok in HF. rewrite Forall_forall in HF. by destruct (HF _ Hc).
    - by apply Hth, Hb. }
  exists s2. split; [by eapply (runs_app [_])|].
  apply (woken_cons s s1 s2 n ns (on_sema s n) eq_refl Hn W1 W2).
  - intros m Hm. unfold on_sema. by rewrite Hsm.
  - intros u Hu Hu'. by apply (Hb u).
Qed.

(** C21: [notify_all] by a thread that no waiter outranks, while it keeps running:
    every thread blocked at the condition variable becomes ready and queued, the
    semaphores of those that have not blocked yet are left at one, the queue is
    empty afterwards, and no other thread or semaphore changes.  Until it is
    through the queue stays borrowed: a thread that calls [wait] or [notify_one] on
    the same condition variable meanwhile panics. *)
Theorem notify_all_correct s c :
  wf (kern s) → cv_ok s c →
  (∀ t, t ∈ blocked_on s (cvq s c) → prio_at s t ≤ prio_at s (current (kern s))) →
  ∃ fs s1 s2 s3, notify_all c s = Ret (fs ++ [FNotifyClear c], s1) ∧
    runs fs s1 s2 ∧ exec (FNotifyClear c) s2 = Ret ([], s3) ∧
    condvars s1 = <[c := mkCondvar (cvq s c) 1]> (condvars s) ∧
    s3 = with_condvars (<[c := mkCondvar [] 0]> (condvars s2)) s2 ∧
    (∀ n, semas s3 !!! n = if decide (n ∈ cvq s c) then mkSemaphore 1 [] else semas s !!! n) ∧
    (∀ t, threads (kern s3) !! t =
       if decide (t ∈ blocked_on s (cvq s c)) then with_status Ready <$> threads (kern s) !! t
       else threads (kern s) !! t) ∧
    queued (scheduler (kern s3)) ≡ₚ blocked_on s (cvq s c) ++ queued (scheduler (kern s)) ∧
    wf (kern s3) ∧
    ∀ s', condvars s' !!! c = condvars s1 !!! c →
      (∀ l, cv_wait c l s' = Panic AssertFailed) ∧ notify_one c s' = Panic AssertFailed.
Proof.
  intros W [Hf Ho Hs] Hp. unfold notify_all. unmonad. rewrite Hf. fold (cvq s c).
  set (s1 := with_condvars (<[c := mkCondvar (cvq s c) 1]> (condvars s)) s).
  assert (semas_ok s1 (cvq s c)) as Hs1 by (destruct Hs; by split).
  destruct (ups_woken (cvq s c) s1 W Hs1 Hp) as (s2 & R & Wk).
  assert (condvars s2 = condvars s1) as Hcv by (rewrite (wk_same _ _ _ Wk); done).
  eexists _, s1, s2, _. split_and!; [done|done| |done|done|apply (wk_semas _ _ _ Wk)|apply (wk_threads _ _ _ Wk)
    |apply (wk_queued _ _ _ Wk)|apply (wk_wf _ _ _ Wk)|].
  - assert (condvars s2 !!! c = mkCondvar (cvq s c) 1) as E by (rewrite Hcv; apply lookup_total_insert_eq).
    cbn [exec]. unfold notify_clear, cv_set. unmonad. cbv beta iota.
    rewrite cv_borrow_run by (cbn; by rewrite lookup_total_insert_eq, E).
    cbn. by rewrite insert_insert_eq.
  - intros s' E. cbn in E. rewrite lookup_total_insert_eq in E. split.
    + intros l. unfold cv_wait. unmonad. cbv beta iota. by rewrite cv_borrow_twice by (cbn; by rewrite E).
    + unfold notify_one. unmonad. cbv beta iota. by rewrite cv_borrow_twice by (cbn; by rewrite E).
Qed.
End Condvar.

(** ** Runs

    Thread 2, of priority 40, has blocked on semaphore 0; the main thread then
    raises its own priority to 50.  Both semaphores 0 and 1 are put in the queue of
    condition variable 0, the second for a thread that has not blocked yet. *)
Definition cv_main : list op :=
  [OSpawn 0 (set_b_priority 40 builder_new) [ODown (SemaAt 0)]; OSetPriority 50; OYield].

Definition demo_cv (s : Sys PriorityScheduler) : Sys PriorityScheduler :=
  with_next_sema 2 (with_condvars {[0 := mkCondvar [1; 0] 0]} s).

(** The state after [n] steps, with what [n] is for. *)
Definition demo_state (n : nat) (p : Z) s : Prop :=
  demo_run cv_main (replicate n true) = Some (Ret s) ∧
  semas s !!! 0 = mkSemaphore 0 [2] ∧ semas s !!! 1 = mkSemaphore 0 [] ∧
  current (kern s) = 0 ∧ prio_at s 0 = p ∧ prio_at s 2 = 40 ∧ stimer (hart (kern s)) = true.

Lemma demo_state_run : (∃ s, demo_state 7 31 s) ∧ ∃ s, demo_state 10 50 s.
Proof.
  assert (H : ∀ n p,
    match demo_run cv_main (replicate n true) with
    | Some (Ret s) => (semas s !!! 0, semas s !!! 1, current (kern s), prio_at s 0, prio_at s 2,
                       stimer (hart (kern s))) = (mkSemaphore 0 [2], mkSemaphore 0 [], 0, p, 40, true)
    | _ => False end → ∃ s, demo_state n p s).
  { intros n p. unfold demo_state. destruct (demo_run cv_main (replicate n true)) as [[s|q]|]; [|intros []..].
    intros E. exists s. injection E as E1 E2 E3 E4 E5 E6. split_and!; [reflexivity|assumption..]. }
  split; apply H; vm_compute; reflexivity.
Qed.

Lemma demo_state_ok n p s : demo_state n p s →
  wf (kern (demo_cv s)) ∧ cv_ok (demo_cv s) 0 ∧ on_sema (demo_cv s) 0 = [2] ∧ on_sema (demo_cv s) 1 = [].
Proof.
  intros (Hr & H0 & H1 & Hc & _ & Hp & _).
  assert (foldr (λ o P, op_ok (Sc := PriorityScheduler) o ∧ P) True cv_main) as Hok
    by (cbn; unfold pri_ok; repeat split; lia).
  pose proof (demo_run_inv cv_main (replicate n true) Hok) as I. rewrite Hr in I.
  assert (on_sema (demo_cv s) 0 = [2]) as E0 by (unfold on_sema; cbn; by rewrite H0).
  assert (on_sema (demo_cv s) 1 = []) as E1 by (unfold on_sema; cbn; by rewrite H1).
  split_and!; [apply (i_wf _ I)| |done|done].
  assert (cvq (demo_cv s) 0 = [1; 0]) as Eq by done.
  split; rewrite ?Eq; [done| |].
  { intros m. rewrite !elem_of_cons, elem_of_nil. cbn. intros [->|[->|[]]]; lia. }
  split.
  - repeat constructor; rewrite ?elem_of_cons, ?elem_of_nil; naive_solver.
  - intros m. rewrite !elem_of_cons, elem_of_nil. intros [->|[->|[]]]; cbn; [by rewrite H1|by rewrite H0].
  - intros m. rewrite !elem_of_cons, elem_of_nil. intros [->|[->|[]]]; [by left|right; by exists 2].
  - intros m. rewrite !elem_of_cons, elem_of_nil. intros [->|[->|[]]]; [rewrite E1; constructor|].
    rewrite E0. apply Forall_singleton. cbn [demo_cv with_next_sema with_condvars kern]. rewrite Hc.
    split; [done|]. split; [unfold prio_at in *; cbn; lia|].
    destruct (i_waiting _ I (SemaAt 0) 2) as [Hb _]; [|exact Hb].
    cbn. rewrite H0. left.
  - intros m m' t. rewrite !elem_of_cons, !elem_of_nil.
    intros [->|[->|[]]] [->|[->|[]]]; rewrite ?E0, ?E1, ?elem_of_nil; first [tauto|intros; reflexivity].
Qed.

Lemma notify_one_witness :
  ∃ s s1 k, demo_state 7 31 s ∧ notify_one 0 (demo_cv s) = Ret ([FUp (SemaAt 0)], s1) ∧
    up (SemaAt 0) s1 = Ret ([FSchedule; FUpRet true], k).
Proof.
  destruct demo_state_run as [[s Hs] _]. destruct (demo_state_ok _ _ _ Hs) as (W & Hok & E0 & E1).
  destruct (notify_one_correct (demo_cv s) 0 W Hok) as [_ H].
  destruct H as (i & n & Hi & Hmax & Hn & Hu); [discriminate|].
  pose proof Hs as (_ & _ & _ & Hc & H31 & H40 & Ht).
  assert (n = 0) as ->.
  { destruct (Hmax 1%nat 0 eq_refl) as [Hle _].
    assert (urgency (demo_cv s) 0 = 40) as E by (unfold urgency; rewrite E0; exact H40).
    assert (urgency (demo_cv s) 1 = 0) as E' by (unfold urgency; rewrite E1; reflexivity).
    change (cvq (demo_cv s) 0) with [1; 0] in Hi.
    destruct i as [|[|i]]; [injection Hi as <-; lia|injection Hi as <-; reflexivity|discriminate Hi]. }
  rewrite E0 in Hu. destruct Hu as (k & Hu & _).
  assert (prio_at (demo_cv s) (current (kern (demo_cv s))) < prio_at (demo_cv s) 2) as Hlt.
  { change (prio_at s (current (kern s)) < prio_at s 2). rewrite Hc, H31, H40. lia. }
  change (stimer (hart (kern (demo_cv s)))) with (stimer (hart (kern s))) in Hu.
  rewrite (bool_decide_eq_true_2 _ Hlt), Ht in Hu.
  exists s. eexists. eexists. split; [exact Hs|]. split; [exact Hn|exact Hu].
Defined.

Lemma notify_all_witness :
  ∃ s fs s1 s3, demo_state 10 50 s ∧ notify_all 0 (demo_cv s) = Ret (fs ++ [FNotifyClear 0], s1) ∧
    condvars s3 !!! 0 = mkCondvar [] 0 ∧ semas s3 !!! 1 = mkSemaphore 1 [] ∧ 2 ∈ queued (scheduler (kern s3)).
Proof.
  destruct demo_state_run as [_ [s Hs]]. destruct (demo_state_ok _ _ _ Hs) as (W & Hok & E0 & E1).
  assert (blocked_on (demo_cv s) (cvq (demo_cv s) 0) = [2]) as Eb.
  { unfold blocked_on. change (cvq (demo_cv s) 0) with [1; 0]. cbn [map]. rewrite E0, E1. reflexivity. }
  destruct (notify_all_correct (demo_cv s) 0 W Hok) as (fs & s1 & s2 & s3 & Hn & _ & _ & _ & H3 & Hsem & _ & Hq & _).
  - rewrite Eb. intros t Ht%list_elem_of_singleton. subst t. pose proof Hs as (_ & _ & _ & Hc & H50 & H40 & _).
    change (prio_at s 2 ≤ prio_at s (current (kern s))). rewrite Hc, H50, H40. lia.
  - exists s, fs, s1, s3. split; [exact Hs|]. split; [exact Hn|]. split; [|split].
    + rewrite H3. apply lookup_total_insert_eq.
    + rewrite Hsem. reflexivity.
    + rewrite Hq, Eb. left.
Defined.
