(* ===== verification/Statics.v ===== *)
(** * The statics of the memory subsystem

    How the rest of the kernel reaches the allocators and the kernel's page table:
    [Palloc] and [UserPool] of [mem/palloc.rs], statics of type
    [Lazy<Mutex<BuddyAllocator, Intr>>], and [KernelPgTable] of [mem/pagetable.rs],
    a [OnceCell].  The theorem is that a call through the static is the call on the
    allocator: the first one makes it, every one takes and gives back the lock and
    leaves the interrupt level as it was.  So the other files can model a call by
    the operation itself. *)

From S2P Require Import Prelude InMemList Palloc Intr Once.

Section Statics.
Context (base : Z).

(** The static's fields; the rest of the world is the memory, which moves into the
    allocator's state when it is made. *)
Abbreviation Static := (Env (Mutex BuddyAllocator Intr) unit memory).

(** The closure [|| Mutex::new(BuddyAllocator::empty())]. *)
Definition make_allocator (_ : unit) : M Static (Mutex BuddyAllocator Intr) :=
  m ← gets world ; mret (mutex_new (empty m)).

(** A computation on the mutex that [instance] refers to. *)
Definition on_cell {A} (f : M (Hart * Mutex BuddyAllocator Intr) A) : M Static A := λ e,
  match cell e with
  | None => Panic Unreachable
  | Some x =>
      match f (hart e, x) with
      | Ret (a, (h, x)) => Ret (a, mkEnv h (once e) (Some x) (init e) (world e))
      | Panic p => Panic p
      end
  end.
Definition on_instance {A} (f : M (Hart * Mutex BuddyAllocator Intr) A) : M Static A :=
  lazy_get make_allocator ;; on_cell f.

(** [Self::instance().lock().f(..)] *)
Definition with_instance {A} (f : M BuddyAllocator A) : M Static A :=
  on_instance (with_guard (λ s,
    match f s.2 with Ret (a, b) => Ret (a, (s.1, b)) | Panic p => Panic p end)).

Definition palloc_init (start end_ : Z) : M Static unit := with_instance (insert_range base start end_).
Definition palloc_alloc (n : Z) : M Static Z := with_instance (alloc base n).
Definition palloc_dealloc (ptr n : Z) : M Static unit := with_instance (dealloc base ptr n).

(** The allocator that a static stands for: none has been made yet, or it is free. *)
Definition made (h : Hart) (b : BuddyAllocator) (w : memory) : Static :=
  mkEnv h (mkOnce Complete (mkIntr None)) (Some (mkMutex b (mkIntr None))) None w.

Inductive stands_for (h : Hart) (b : BuddyAllocator) : Static → Prop :=
  | not_made w : b = empty w → stands_for h b (lazy_new () h w)
  | is_made w : stands_for h b (made h b w).

Lemma lazy_get_stands h b e : hart_ok h → stands_for h b e →
  ∃ w, lazy_get make_allocator e = Ret (mkMutex b (mkIntr None), made h b w).
Proof.
  intros Hh [w ->|w].
  - exists w. apply lazy_get_first; [done|]. intros [] _ _ <-. done.
  - exists w. by apply lazy_get_complete.
Qed.

(** The static behaves as the allocator.  Whether it has been made before or is made
    now, a call through it returns what the operation returns, or panics as it
    does, and leaves a static that stands for the new allocator, with the lock free
    and the interrupt level as before. *)
Theorem static_correct {A} (f : M BuddyAllocator A) h b e :
  hart_ok h → stands_for h b e →
  match f b with
  | Ret (a, b') => ∃ e', with_instance f e = Ret (a, e') ∧ stands_for h b' e'
  | Panic p => with_instance f e = Panic p
  end.
Proof.
  intros Hh He. destruct (lazy_get_stands h b e Hh He) as [w Hw].
  unfold with_instance, on_instance, on_cell. unmonad. rewrite Hw. cbn [cell made hart].
  destruct (f b) as [[a b']|p] eqn:Hf.
  - rewrite (with_guard_run _ h b a b') by (done || (cbn [fst snd]; by rewrite Hf)).
    eexists. split; [done|]. apply is_made.
  - unfold with_guard. unmonad. rewrite mutex_lock_free by done. unfold on_value. cbn [fst snd value].
    by rewrite Hf.
Qed.

(** A history of calls: the static and the allocator stay in step. *)
Inductive request : Type := RInit (start end_ : Z) | RAlloc (n : Z) | RDealloc (ptr n : Z).

Definition static_step (r : request) : M Static (option Z) :=
  match r with
  | RInit s t => palloc_init s t ;; mret None
  | RAlloc n => p ← palloc_alloc n ; mret (Some p)
  | RDealloc p n => palloc_dealloc p n ;; mret None
  end.
Definition allocator_step (r : request) : M BuddyAllocator (option Z) :=
  match r with
  | RInit s t => insert_range base s t ;; mret None
  | RAlloc n => p ← alloc base n ; mret (Some p)
  | RDealloc p n => dealloc base p n ;; mret None
  end.

Fixpoint answers {S} (step : request → M S (option Z)) (rs : list request) : M S (list (option Z)) :=
  match rs with
  | [] => mret []
  | r :: rs => a ← step r ; l ← answers step rs ; mret (a :: l)
  end.

Lemma static_step_correct r h b e : hart_ok h → stands_for h b e →
  match allocator_step r b with
  | Ret (a, b') => ∃ e', static_step r e = Ret (a, e') ∧ stands_for h b' e'
  | Panic p => static_step r e = Panic p
  end.
Proof.
  intros Hh He. destruct r as [s t|n|p n]; unfold static_step, allocator_step,
    palloc_init, palloc_alloc, palloc_dealloc; unmonad;
  [ pose proof (static_correct (insert_range base s t) h b e Hh He) as H
  | pose proof (static_correct (alloc base n) h b e Hh He) as H
  | pose proof (static_correct (dealloc base p n) h b e Hh He) as H ];
  (match goal with |- context [match ?m b with _ => _ end] => destruct (m b) as [[a b']|q] end;
   [destruct H as (e' & -> & ?); by exists e'|by rewrite H]).
Qed.

(** The page allocator behind its static is the page allocator.  Any history of
    [Palloc::init], [alloc] and [dealloc] through the lazily made, locked static
    gives the answers, or ends in the panic, of the same history on a fresh
    [BuddyAllocator], and the interrupt level is in the end what it was. *)
Theorem static_equivalence rs h w : hart_ok h →
  match answers allocator_step rs (empty w) with
  | Ret (l, b') => ∃ e', answers static_step rs (lazy_new () h w) = Ret (l, e') ∧ stands_for h b' e'
  | Panic p => answers static_step rs (lazy_new () h w) = Panic p
  end.
Proof.
  intros Hh. assert (stands_for h (empty w) (lazy_new () h w)) as He by by apply not_made.
  revert He. generalize (empty w) (lazy_new () h w : Static).
  induction rs as [|r rs IH]; intros b e He; [by exists e|].
  cbn [answers]. unmonad. pose proof (static_step_correct r h b e Hh He) as Hr.
  destruct (allocator_step r b) as [[a b1]|p]; [|by rewrite Hr].
  destruct Hr as (e1 & -> & He1). specialize (IH b1 e1 He1).
  destruct (answers allocator_step rs b1) as [[l b2]|p]; [|by rewrite IH].
  destruct IH as (e2 & -> & He2). by exists e2.
Qed.
End Statics.

(** ** [KernelPgTable]: a [OnceCell] with the root of the kernel's table *)

Section KernelPgTable.
Context {W : Type} (init_inner : M W Z).
Abbreviation Cell := (Env Z unit W).

Definition pgtable_new (h : Hart) (w : W) : Cell := mkEnv h once_new None None w.

(** [init_inner] on the rest of the kernel's state. *)
Definition run_inner : M Cell Z := λ e,
  match init_inner (world e) with
  | Ret (root, w) => Ret (root, mkEnv (hart e) (once e) (cell e) (init e) w)
  | Panic p => Panic p
  end.

Definition pgtable_init : M Cell unit := cell_init run_inner.
Definition pgtable_get : M Cell Z := cell_get.

(** [get] before [init] panics; [init] runs [init_inner] once, with interrupts off,
    and another [init] changes nothing. *)
Lemma pgtable_once h w root w' : hart_ok h → init_inner w = Ret (root, w') →
  pgtable_get (pgtable_new h w) = Panic Unreachable ∧
  ∃ e, pgtable_init (pgtable_new h w) = Ret ((), e) ∧ hart e = h ∧ world e = w' ∧
    pgtable_get e = Ret (root, e) ∧ pgtable_init e = Ret ((), e).
Proof.
  intros Hh Hi. split; [done|].
  exists (mkEnv h (mkOnce Complete (mkIntr None)) (Some root) None w').
  split; [|done]. unfold pgtable_init, cell_init, call_once, is_completed, pgtable_new, once_new. unmonad.
  cbn [inner once]. rewrite bool_decide_eq_false_2 by done.
  rewrite on_once_lock_acquire by done. cbn [inner once].
  unfold run_inner. cbn [world]. rewrite Hi. unfold set_cell, set_inner. unmonad.
  cbn [init hart once cell world once_lock]. rewrite on_once_lock_release by done.
  by rewrite with_level_level, with_level_id.
Qed.
End KernelPgTable.
