(* ===== verification/Console.v ===== *)
(** * Calls of the firmware, the console and the panic handler

    [sbi.rs], [sbi/console.rs] and the panic handler of [main.rs].  The firmware is
    behind the [ecall] instruction and stays a parameter: [Firmware] is the call,
    [FirmwareLaws] what the SBI specification says of the calls used here.  Text is
    a list of code points; what [core::fmt] makes of a format string is the list of
    the pieces it passes to [write_str]. *)

From stdpp Require Import pretty.
From S2P Require Import Prelude Intr.

(** [ecall]: [a7], [a6] and the arguments, to [a0] and [a1]; [None] when the call
    does not return. *)
Class Firmware (W : Type) := { ecall : Z → Z → list Z → W → option ((Z * Z) * W) }.

(** ** [sbi.rs] *)

Definition CONSOLE_PUTCHAR : Z := 0x01.
Definition CONSOLE_GETCHAR : Z := 0x02.
Definition SHUTDOWN : Z := 0x08.
Definition SYSTEM_RESET : Z := 0.
Definition EID_SRST : Z := 0x53525354.

Inductive ResetType : Type := Shutdown | ColdReboot | WarmReboot.
Inductive Reason : Type := NoReason | SystemFailure.
Definition reset_type_code (t : ResetType) : Z :=
  match t with Shutdown => 0 | ColdReboot => 1 | WarmReboot => 2 end.
Definition reason_code (r : Reason) : Z := match r with NoReason => 0 | SystemFailure => 1 end.

(** How a function that returns [!] ends: the machine is off, or a panic. *)
Inductive never : Type := Off.

Section Console.
Context {W : Type} `{FW : Firmware W}.
Abbreviation S := (Hart * W)%type.
Implicit Types s : S.

(** The macro [call!]; the form without a function identifier gives [a0] only. *)
Definition ecall2 (eid fid : Z) (args : list Z) : M S (option (Z * Z)) := λ s,
  match ecall eid fid args s.2 with
  | Some (r, w) => Ret (Some r, (s.1, w))
  | None => Ret (None, s)
  end.
Definition call (eid : Z) (args : list Z) : M S (option Z) :=
  r ← ecall2 eid 0 args ; mret (fst <$> r).

(** Calls that return: a firmware that did not would stop the kernel there. *)
Definition console_putchar (char : Z) : M S unit :=
  r ← call CONSOLE_PUTCHAR [char] ;
  match r with Some _ => mret () | None => fail Deadlock end.
Definition console_getchar : M S Z :=
  r ← call CONSOLE_GETCHAR [] ;
  match r with Some a0 => mret a0 | None => fail Deadlock end.

Definition shutdown : M S never :=
  r ← call SHUTDOWN [] ;
  match r with Some _ => fail Unreachable | None => mret Off end.
Definition reset (t : ResetType) (r : Reason) : M S never :=
  r ← ecall2 EID_SRST SYSTEM_RESET [reset_type_code t; reason_code r] ;
  match r with Some _ => fail Unreachable | None => mret Off end.

(** ** [sbi/console.rs] *)

Definition hart_op {A} (m : M Hart A) : M S A := on_hart m.

(** [StdoutLock]: the interrupt level that [lock] found, put back by [drop]. *)
Record StdoutLock : Type := mkStdoutLock { intr : bool }.
Definition stdout_lock : M S StdoutLock := old ← hart_op (interrupt_set false) ; mret (mkStdoutLock old).
Definition stdout_drop (l : StdoutLock) : M S unit := hart_op (interrupt_set (intr l)) ;; mret ().

(** [write_str] *)
Definition write_str (str : list Z) : M S unit := for_each str console_putchar.

(** [kprint!]: the guard is a temporary, dropped at the end of the statement. *)
Definition kprint (pieces : list (list Z)) : M S unit :=
  l ← stdout_lock ; for_each pieces write_str ;; stdout_drop l.

(** The code points of a string literal, and a number as [Display] writes it. *)
Definition chars (s : string) : list Z := (λ a, Z.of_N (Ascii.N_of_ascii a)) <$> String.list_ascii_of_string s.
Definition display (n : Z) : list Z := chars (pretty (Z.to_N n)).

(** [kprintln!] with arguments: one lock around three prints. *)
Definition COLOR : list Z := [91; 27] ++ chars "[38;2;129;165;113;1m".
Definition COLOR_OFF : list Z := chars " ms" ++ [27] ++ chars "[0m] ".
Definition kprintln (pieces : list (list Z)) : M S unit :=
  l ← stdout_lock ;
  ms ← hart_op time_ms ;
  kprint [COLOR; display ms; COLOR_OFF] ;;
  kprint pieces ;;
  kprint [[10]] ;;
  stdout_drop l.

(** The panic handler of [main.rs]; [info] is the text of the panic. *)
Definition panic_handler (info : list (list Z)) : M S never :=
  hart_op (interrupt_set false) ;;
  kprintln info ;;
  reset Shutdown SystemFailure.
End Console.

(** ** What the SBI specification says of these calls *)

Class FirmwareLaws (W : Type) `{Firmware W} := {
  (** What has been written, and the characters that wait to be read. *)
  written : W → list Z;
  typed : W → list Z;
  putchar_law c w : ∃ r w', ecall CONSOLE_PUTCHAR 0 [c] w = Some (r, w') ∧
    written w' = written w ++ [c] ∧ typed w' = typed w;
  (** Legacy: the character, or -1. *)
  getchar_law w : ∃ b w', ecall CONSOLE_GETCHAR 0 [] w =
      Some (match typed w with c :: _ => (c, b) | [] => (2 ^ 64 - 1, b) end, w') ∧
    written w' = written w ∧ typed w' = tail (typed w);
  reset_law t r w : ecall EID_SRST SYSTEM_RESET [reset_type_code t; reason_code r] w = None
}.

Section ConsoleLaws.
Context {W : Type} `{FL : FirmwareLaws W}.
Implicit Types (h : Hart) (w : W).

(** [w'] is [w] after [text] has been written. *)
Definition prints (text : list Z) w w' : Prop := written w' = written w ++ text ∧ typed w' = typed w.

Lemma prints_nil w : prints [] w w.
Proof. by split; [rewrite app_nil_r|]. Qed.

Lemma prints_app t1 t2 w1 w2 w3 : prints t1 w1 w2 → prints t2 w2 w3 → prints (t1 ++ t2) w1 w3.
Proof. intros [A1 B1] [A2 B2]. split; [by rewrite A2, A1, (assoc_L (++))|by rewrite B2]. Qed.

Lemma putchar_run c h w : ∃ w', console_putchar c (h, w) = Ret ((), (h, w')) ∧ prints [c] w w'.
Proof.
  destruct (putchar_law c w) as (r & w' & E & Hw & Ht). exists w'. split; [|done].
  unfold console_putchar, call, ecall2. unmonad. cbn [snd]. by rewrite E.
Qed.

(** A loop whose turns print, prints all of it. *)
Lemma for_each_prints {A} (f : A → M (Hart * W) unit) (text : A → list Z) l h w :
  (∀ x w, ∃ w', f x (h, w) = Ret ((), (h, w')) ∧ prints (text x) w w') →
  ∃ w', for_each l f (h, w) = Ret ((), (h, w')) ∧ prints (concat (map text l)) w w'.
Proof.
  intros Hf. revert w. induction l as [|x l IH]; intros w; [exists w; split; [done|apply prints_nil]|].
  destruct (Hf x w) as (w1 & E1 & P1). destruct (IH w1) as (w2 & E2 & P2).
  exists w2. split; [|by eapply prints_app]. cbn [for_each]. unmonad. by rewrite E1.
Qed.

Lemma write_str_run str h w : ∃ w', write_str str (h, w) = Ret ((), (h, w')) ∧ prints str w w'.
Proof.
  destruct (for_each_prints console_putchar (λ c, [c]) str h w) as (w' & E & HP).
  { intros c w1. apply putchar_run. }
  exists w'. split; [done|]. replace str with (concat (map (λ c, [c]) str)); [done|].
  clear. induction str as [|c str IH]; [done|]. cbn. by rewrite IH.
Qed.

Lemma level_twice h b : hart_ok h → with_level (stimer h) (with_level b h) = h.
Proof. intros Hh. by rewrite with_level_level, with_level_id. Qed.

(** Printing runs with interrupts off and leaves the level as it was. *)
Lemma kprint_run pieces h w : hart_ok h →
  ∃ w', kprint pieces (h, w) = Ret ((), (h, w')) ∧ prints (concat pieces) w w'.
Proof.
  intros Hh. destruct (for_each_prints write_str id pieces (with_level false h) w) as (w' & E & HP).
  { intros str w1. apply write_str_run. }
  exists w'. split; [|by rewrite map_id in HP].
  unfold kprint, stdout_lock, stdout_drop, hart_op, on_hart. unmonad. cbn [fst snd].
  rewrite interrupt_set_run by done. cbn [fst snd intr]. rewrite E. cbn [fst snd].
  rewrite interrupt_set_run by done. cbn. by rewrite level_twice.
Qed.

(** The line that [kprintln!] prints at a time. *)
Definition line (h : Hart) (pieces : list (list Z)) : list Z :=
  COLOR ++ display (wrap64 (time h * 1000) / CLOCK_PRE_SEC) ++ COLOR_OFF ++ concat pieces ++ [10].

Lemma kprintln_run pieces h w : hart_ok h →
  ∃ w', kprintln pieces (h, w) = Ret ((), (h, w')) ∧ prints (line h pieces) w w'.
Proof.
  intros Hh. set (h0 := with_level false h).
  set (ms := display (wrap64 (time h * 1000) / CLOCK_PRE_SEC)).
  destruct (kprint_run [COLOR; ms; COLOR_OFF] h0 w) as (w1 & E1 & P1); [done|].
  destruct (kprint_run pieces h0 w1) as (w2 & E2 & P2); [done|].
  destruct (kprint_run [[10]] h0 w2) as (w3 & E3 & P3); [done|].
  exists w3. split.
  - unfold kprintln, stdout_lock, stdout_drop, hart_op, on_hart. unmonad. cbn [fst snd].
    rewrite interrupt_set_run by done. cbn [fst snd intr]. fold h0.
    change (time_ms h0) with (@Ret (Z * Hart) (wrap64 (time h * 1000) / CLOCK_PRE_SEC, h0)).
    cbv beta iota. fold ms. rewrite E1, E2, E3. cbn [fst snd].
    rewrite interrupt_set_run by done. cbn. unfold h0. by rewrite level_twice.
  - pose proof (prints_app _ _ _ _ _ P1 (prints_app _ _ _ _ _ P2 P3)) as HP.
    unfold line. fold ms. cbn [concat] in HP. by rewrite !app_nil_r, <-!(assoc_L (++)) in HP.
Qed.

(** A panic stops the machine and says why: whatever the interrupt level, the
    panic handler turns interrupts off for good, prints the line with the text of
    the panic, and powers the machine off; it does not panic itself. *)
Theorem panic_handler_correct info h w : hart_ok h →
  ∃ w', panic_handler info (h, w) = Ret (Off, (with_level false h, w')) ∧ prints (line h info) w w'.
Proof.
  intros Hh. destruct (kprintln_run info (with_level false h) w) as (w' & E & HP); [done|].
  exists w'. split; [|done]. unfold panic_handler, hart_op, on_hart. unmonad. cbn [fst snd].
  rewrite interrupt_set_run by done. cbn [fst snd]. rewrite E.
  unfold reset, ecall2. unmonad. cbn [snd]. by rewrite reset_law.
Qed.
End ConsoleLaws.

(** ** A firmware that keeps the promises *)

(** A firmware that records what is written and reads from a list. *)
#[export] Instance demo_firmware : Firmware (list Z * list Z) := {
  ecall eid fid args w :=
    if bool_decide (eid = CONSOLE_PUTCHAR) then Some ((0, 0), (w.1 ++ args, w.2))
    else if bool_decide (eid = CONSOLE_GETCHAR) then
      Some ((match w.2 with c :: _ => c | [] => 2 ^ 64 - 1 end, 0), (w.1, tail w.2))
    else None
}.

#[export] Instance demo_firmware_laws : FirmwareLaws (list Z * list Z).
Proof.
  refine {| written w := w.1; typed w := w.2 |}.
  - intros c w. by eexists _, _.
  - intros [o [|c t]]; by eexists _, _.
  - by intros [] [].
Defined.

Lemma panic_handler_witness :
  ∃ w', panic_handler [chars "assertion failed"] (mkHart true true true 12500000 [], ([], [])) =
      Ret (Off, (mkHart false false true 12500000 [], w')) ∧
    written w' = COLOR ++ chars "1000" ++ COLOR_OFF ++ chars "assertion failed" ++ [10].
Proof.
  destruct (panic_handler_correct [chars "assertion failed"] (mkHart true true true 12500000 []) ([], []))
    as (w' & E & Hw & _); [reflexivity|].
  exists w'. split; [exact E|]. rewrite Hw. vm_compute. reflexivity.
Defined.
