(* ===== verification/Entry.v ===== *)
(** * The entry of the kernel

    [boot.rs]: the assembly that turns paging on and moves to the high half, and
    the page table it is assembled with.  The kernel is linked at [ENTRY] and
    loaded [VM_OFFSET] lower ([linker.ld]), so the code starts at physical
    addresses, goes on under a table that maps the memory at both places, and then
    jumps to where it was linked.  [mmu] is address translation as the privileged
    architecture defines it (satp, and Sv39); the sizes of the instructions and the
    addresses the linker chooses are parameters. *)

From S2P Require Import Prelude Utils.

(** ** Address translation of the hart *)

Inductive access : Type := Fetch | Load | Store.

Definition vpn (va : Z) (level : nat) : Z := Z.shiftr va (12 + 9 * Z.of_nat level) mod 512.
Definition pte_ppn (e : Z) : Z := Z.shiftr e 10 mod 2 ^ 44.
Definition canonical (va : Z) : bool := bool_decide (0 ≤ va < 2 ^ 38 ∨ 2 ^ 64 - 2 ^ 38 ≤ va < 2 ^ 64).

(** Whether a leaf permits an access in supervisor mode.  An entry whose A bit, or
    for a store D bit, is clear faults, unless the hart sets these bits itself:
    the architecture allows both. *)
Definition permits (sets_ad : bool) (a : access) (e : Z) : bool :=
  Z.testbit e match a with Fetch => 3 | Load => 1 | Store => 2 end && negb (Z.testbit e 4) &&
  (sets_ad || (Z.testbit e 6 && match a with Store => Z.testbit e 7 | _ => true end)).

Section Entry.
Context (sets_ad : bool).

Fixpoint sv39_walk (m : Z → Z) (a : access) (level : nat) (table va : Z) : option Z :=
  let e := m (table + 8 * vpn va level) in
  if negb (Z.testbit e 0) || (Z.testbit e 2 && negb (Z.testbit e 1)) then None
  else if Z.testbit e 1 || Z.testbit e 3 then
    if permits sets_ad a e && bool_decide (pte_ppn e mod 2 ^ (9 * Z.of_nat level) = 0)
    then Some (pte_ppn e * 4096 + va mod 2 ^ (12 + 9 * Z.of_nat level)) else None
  else match level with
       | O => None
       | Datatypes.S level => sv39_walk m a level (pte_ppn e * 4096) va
       end.

Definition mmu (m : Z → Z) (satp : Z) (a : access) (va : Z) : option Z :=
  let mode := Z.shiftr satp 60 in
  if bool_decide (mode = 0) then Some va
  else if bool_decide (mode = 8) && canonical va then sv39_walk m a 2 (satp mod 2 ^ 44 * 4096) va
  else None.

(** ** [boot.rs] *)

Inductive symbol : Type := sym_entry_pgtable | sym_relocated | sym_bootstack_top | sym_main.

Inductive instr : Type :=
  | La (rd : Z) (l : symbol)
  | Srli (rd rs n : Z)
  | Li (rd imm : Z)
  | Or (rd rs1 rs2 : Z)
  | Sfence
  | CsrwSatp (rs : Z)
  | LdSym (rd : Z) (l : symbol)
  | Jr (rs : Z)
  | J (l : symbol).

Abbreviation sp := 2. Abbreviation t0 := 5. Abbreviation t1 := 6.

Definition entry : list instr := [
  La t0 sym_entry_pgtable;
  Srli t0 t0 12;
  Li t1 (Z.shiftl 0x8 60);
  Or t0 t0 t1;
  Sfence;
  CsrwSatp t0;
  Sfence;
  LdSym t0 sym_relocated;
  Jr t0;
  (* relocated: *)
  La sp sym_bootstack_top;
  J sym_main
].

(** The index of the label [relocated], whose address is the word [_relocated]. *)
Definition relocated : nat := 9.

(** The words of the table, and of the zeros that follow it. *)
Definition zero (bytes : Z) : list Z := replicate (Z.to_nat (bytes / 8)) 0.
Definition entry_pgtable : list Z :=
  zero 16 ++ [0x2000002F] ++ zero 2040 ++ [0x2000002F] ++ zero 2048.

(** Where [linker.ld] puts the first section, and where it is loaded. *)
Definition ENTRY : Z := 0xFFFFFFC080200000.
Definition to_phys (a : Z) : Z := a - VM_OFFSET.

(** *** The hart *)

Record Cpu : Type := mkCpu { c_x : Z → Z; c_satp : Z; c_pc : Z; c_mem : Z → Z }.

Definition set_x (rd v : Z) (f : Z → Z) : Z → Z := λ r, if decide (r = rd) then v else f r.

Context (len : instr → Z) (addr : symbol → Z).

(** The linked address of instruction [k]. *)
Fixpoint offset (p : list instr) (k : nat) : Z :=
  match p, k with
  | i :: p, S k => len i + offset p k
  | _, _ => 0
  end.
Definition linked (k : nat) : Z := ENTRY + offset entry k.

Fixpoint find_instr (p : list instr) (pos a : Z) : option instr :=
  match p with
  | [] => None
  | i :: p => if bool_decide (a = pos) then Some i else find_instr p (pos + len i) a
  end.

(** What an instruction does when symbols are at [rel] and the next one at [next]. *)
Definition exec (i : instr) (rel : symbol → Z) (next : Z) (s : Cpu) : option Cpu :=
  match i with
  | La rd l => Some (mkCpu (set_x rd (rel l) (c_x s)) (c_satp s) next (c_mem s))
  | Srli rd rs n => Some (mkCpu (set_x rd (Z.shiftr (c_x s rs) n) (c_x s)) (c_satp s) next (c_mem s))
  | Li rd imm => Some (mkCpu (set_x rd imm (c_x s)) (c_satp s) next (c_mem s))
  | Or rd rs1 rs2 =>
      Some (mkCpu (set_x rd (Z.lor (c_x s rs1) (c_x s rs2)) (c_x s)) (c_satp s) next (c_mem s))
  | Sfence => Some (mkCpu (c_x s) (c_satp s) next (c_mem s))
  | CsrwSatp rs => Some (mkCpu (c_x s) (c_x s rs) next (c_mem s))
  | LdSym rd l =>
      a ← mmu (c_mem s) (c_satp s) Load (rel l) ;
      Some (mkCpu (set_x rd (c_mem s a) (c_x s)) (c_satp s) next (c_mem s))
  | Jr rs => Some (mkCpu (c_x s) (c_satp s) (c_x s rs) (c_mem s))
  | J l => Some (mkCpu (c_x s) (c_satp s) (rel l) (c_mem s))
  end.

(** One instruction; [None] is a page fault (or leaving the code).  Symbols are
    addressed relative to the program counter. *)
Definition step (s : Cpu) : option Cpu :=
  pa ← mmu (c_mem s) (c_satp s) Fetch (c_pc s) ;
  let here := pa + VM_OFFSET in
  i ← find_instr entry ENTRY here ;
  exec i (λ l, wrap64 (c_pc s + (addr l - here))) (wrap64 (c_pc s + len i)) s.

Fixpoint steps (n : nat) (s : Cpu) : option Cpu :=
  match n with
  | O => Some s
  | S n => s ← step s ; steps n s
  end.
End Entry.

(** ** The mappings of the entry table *)

Definition GB : Z := 2 ^ 30.

(** The table is in memory at the physical address [P]. *)
Definition table_at (m : Z → Z) (P : Z) : Prop :=
  ∀ (i : nat) w, entry_pgtable !! i = Some w → m (P + 8 * Z.of_nat i) = w.

Lemma entry_pgtable_words i : 0 ≤ i < 512 →
  entry_pgtable !! Z.to_nat i = Some (if bool_decide (i = 2 ∨ i = 258) then 0x2000002F else 0).
Proof.
  intros Hi.
  assert (forallb (λ k : nat, bool_decide (entry_pgtable !! k =
    Some (if bool_decide (Z.of_nat k = 2 ∨ Z.of_nat k = 258) then 0x2000002F else 0))) (seq 0 512) = true)
    as H by (vm_compute; reflexivity).
  rewrite forallb_forall in H. specialize (H (Z.to_nat i)).
  rewrite bool_decide_eq_true, Z2Nat.id in H by lia. apply H, in_seq. lia.
Qed.

Lemma vpn_div va : vpn va 2 = va / GB mod 512.
Proof. unfold vpn. by rewrite Z.shiftr_div_pow2. Qed.

Lemma canonical_true va : 0 ≤ va < 2 ^ 38 ∨ 2 ^ 64 - 2 ^ 38 ≤ va < 2 ^ 64 → canonical va = true.
Proof. apply bool_decide_eq_true_2. Qed.

(** The value of satp that the code builds for a table at [P]. *)
Definition boot_satp (P : Z) : Z := 2 ^ 63 + P / 4096.

Section Boot_mmu.
Context (sets_ad : bool) (m : Z → Z) (P : Z).
Context (HP : 0 ≤ P < 2 ^ 38) (HA : P mod 4096 = 0) (HT : table_at m P).

Lemma mmu_boot a va : 0 ≤ va < 2 ^ 64 →
  mmu sets_ad m (boot_satp P) a va =
    if canonical va && bool_decide (va / GB mod 512 = 2 ∨ va / GB mod 512 = 258) && sets_ad
    then Some (PM_BASE + va mod GB) else None.
Proof.
  intros Hva. unfold mmu, boot_satp.
  assert (0 ≤ P / 4096 < 2 ^ 26) as Hp by (split; [apply Z.div_pos|apply Z.div_lt_upper_bound]; lia).
  rewrite Z.shiftr_div_pow2 by lia. replace ((2 ^ 63 + P / 4096) / 2 ^ 60) with 8
    by (apply (Z.div_unique _ _ _ (P / 4096)); lia).
  replace ((2 ^ 63 + P / 4096) mod 2 ^ 44) with (P / 4096)
    by (apply (Z.mod_unique _ _ (2 ^ 19)); lia).
  rewrite bool_decide_eq_false_2, bool_decide_eq_true_2 by lia. cbn [andb].
  destruct (canonical va); [|done]. cbn [andb].
  replace (P / 4096 * 4096) with P by (pose proof (Z.div_mod P 4096); lia).
  pose proof (Z.mod_pos_bound (va / GB) 512 ltac:(lia)) as Hi.
  pose proof (HT _ _ (entry_pgtable_words _ Hi)) as Hw. rewrite Z2Nat.id in Hw by lia.
  cbn [sv39_walk]. rewrite vpn_div, Hw.
  destruct (decide (va / GB mod 512 = 2 ∨ va / GB mod 512 = 258)) as [H2|H2].
  - rewrite !(bool_decide_eq_true_2 (_ ∨ _)) by done.
    change (Z.testbit 0x2000002F 0) with true. change (Z.testbit 0x2000002F 1) with true.
    change (Z.testbit 0x2000002F 2) with true. cbn [negb orb andb].
    rewrite (bool_decide_eq_true_2 (pte_ppn _ mod _ = 0)) by (vm_compute; reflexivity).
    unfold permits. rewrite andb_true_r.
    assert (Z.testbit 0x2000002F (match a with Fetch => 3 | Load => 1 | Store => 2 end) = true) as ->
      by (by destruct a).
    change (Z.testbit 0x2000002F 4) with false. change (Z.testbit 0x2000002F 6) with false.
    cbn [negb andb]. rewrite orb_false_r. destruct sets_ad; [|done].
    by change (pte_ppn 0x2000002F * 4096) with PM_BASE.
  - by rewrite !(bool_decide_eq_false_2 (_ ∨ _)) by done.
Qed.

Lemma gb_of base off : 0 ≤ off < GB → base mod GB = 0 →
  (base + off) / GB = base / GB ∧ (base + off) mod GB = off.
Proof.
  intros Ho Hb. unfold GB in *. pose proof (Z.div_mod base (2 ^ 30) ltac:(lia)) as E. split.
  - symmetry. apply (Z.div_unique _ _ _ off); lia.
  - symmetry. apply (Z.mod_unique _ _ (base / 2 ^ 30)); lia.
Qed.

Lemma mmu_low a off : 0 ≤ off < GB →
  mmu sets_ad m (boot_satp P) a (PM_BASE + off) = if sets_ad then Some (PM_BASE + off) else None.
Proof.
  intros Ho. destruct (gb_of PM_BASE off Ho eq_refl) as [E1 E2]. unfold GB in Ho.
  rewrite mmu_boot by (unfold PM_BASE; lia). rewrite canonical_true by (unfold PM_BASE; lia).
  by rewrite E1, E2, bool_decide_eq_true_2 by (left; reflexivity).
Qed.

Lemma mmu_high a off : 0 ≤ off < GB →
  mmu sets_ad m (boot_satp P) a (VM_BASE + off) = if sets_ad then Some (PM_BASE + off) else None.
Proof.
  intros Ho. destruct (gb_of VM_BASE off Ho eq_refl) as [E1 E2]. unfold GB in Ho.
  rewrite mmu_boot by (unfold VM_BASE; lia). rewrite canonical_true by (unfold VM_BASE; lia).
  by rewrite E1, E2, bool_decide_eq_true_2 by (right; reflexivity).
Qed.

(** Nothing else is mapped; the registers of the devices are not. *)
Lemma mmu_other a va : 0 ≤ va < 2 ^ 64 →
  ¬ (PM_BASE ≤ va < PM_BASE + GB) → ¬ (VM_BASE ≤ va < VM_BASE + GB) →
  mmu sets_ad m (boot_satp P) a va = None.
Proof.
  intros Hva H1 H2. rewrite mmu_boot by done. unfold canonical.
  destruct (decide (0 ≤ va < 2 ^ 38 ∨ 2 ^ 64 - 2 ^ 38 ≤ va < 2 ^ 64)) as [Hc|Hc];
    [|by rewrite (bool_decide_eq_false_2 (0 ≤ va < 2 ^ 38 ∨ _))].
  rewrite (bool_decide_eq_true_2 (0 ≤ va < 2 ^ 38 ∨ _)) by done.
  rewrite bool_decide_eq_false_2; [done|].
  unfold PM_BASE, VM_BASE, GB in *. pose proof (Z.div_mod va (2 ^ 30) ltac:(lia)).
  pose proof (Z.mod_pos_bound va (2 ^ 30) ltac:(lia)).
  pose proof (Z.div_mod (va / 2 ^ 30) 512 ltac:(lia)). lia.
Qed.
End Boot_mmu.

(** ** The run of the entry code *)

Section Run.
Context (sets_ad : bool) (len : instr → Z) (addr : symbol → Z).
Context (Hlen : ∀ i, 2 ≤ len i ≤ 32).
(** The linker puts everything into the first gigabyte, the table at a page. *)
Context (Haddr : ∀ l, VM_BASE ≤ addr l < VM_BASE + GB).
Abbreviation P := (to_phys (addr sym_entry_pgtable)).
Context (HA : P mod 4096 = 0).

Lemma find_instr_at p k i pos : p !! k = Some i → find_instr len p pos (pos + offset len p k) = Some i.
Proof.
  revert k pos. induction p as [|i' p IH]; intros k pos Hk; [done|]. destruct k as [|k]; cbn in Hk |- *.
  - injection Hk as ->. by rewrite bool_decide_eq_true_2 by lia.
  - assert (∀ q j, 0 ≤ offset len q j) as Hpos.
    { intros q. induction q as [|? q IHq]; intros [|j]; cbn; try lia.
      specialize (IHq j). specialize (Hlen a). lia. }
    specialize (Hpos p k). pose proof (Hlen i').
    rewrite bool_decide_eq_false_2 by lia.
    replace (pos + (len i' + offset len p k)) with (pos + len i' + offset len p k) by lia. by apply IH.
Qed.

Lemma offset_next p k i : p !! k = Some i → offset len p (S k) = offset len p k + len i.
Proof.
  revert k. induction p as [|i' p IH]; intros k Hk; [done|]. destruct k as [|k].
  - injection Hk as ->. cbn. by destruct p; cbn; lia.
  - cbn in Hk. cbn [offset]. rewrite (IH k Hk). lia.
Qed.

Lemma linked_range k : 0 ≤ linked len k - ENTRY ≤ 32 * 11.
Proof.
  unfold linked. assert (∀ q j, 0 ≤ offset len q j ≤ 32 * Z.of_nat (length q)) as Hpos.
  { intros q. induction q as [|i q IHq]; intros [|j]; cbn [offset length]; try lia.
    specialize (IHq j). specialize (Hlen i). lia. }
  specialize (Hpos entry k). change (Z.of_nat (length entry)) with 11 in Hpos. lia.
Qed.

(** An instruction run where it was loaded, and where it was linked. *)
Lemma step_at (low : bool) s k i :
  let here a := if low then to_phys a else a in
  entry !! k = Some i → c_pc s = here (linked len k) →
  mmu sets_ad (c_mem s) (c_satp s) Fetch (c_pc s) = Some (to_phys (linked len k)) →
  step sets_ad len addr s =
    exec sets_ad i (λ l, here (addr l)) (here (linked len (S k))) s.
Proof.
  intros here Hi Hpc Hf. unfold step. rewrite Hf. cbn [mbind option_bind].
  replace (to_phys (linked len k) + VM_OFFSET) with (linked len k) by (unfold to_phys; lia).
  rewrite (find_instr_at entry k i ENTRY Hi : find_instr len entry ENTRY (linked len k) = _).
  cbn [mbind option_bind]. rewrite Hpc. subst here. cbv beta.
  pose proof (linked_range k) as Hk. pose proof (linked_range (S k)) as Hk'.
  assert (∀ l, wrap64 ((if low then to_phys (linked len k) else linked len k) + (addr l - linked len k)) =
               if low then to_phys (addr l) else addr l) as Hrel.
  { intros l. specialize (Haddr l). unfold GB, VM_BASE in Haddr.
    rewrite wrap_small; destruct low; unfold to_phys, in_range, VM_OFFSET, VM_BASE, PM_BASE, ENTRY in *; lia. }
  assert (wrap64 ((if low then to_phys (linked len k) else linked len k) + len i) =
          if low then to_phys (linked len (S k)) else linked len (S k)) as Hnext.
  { unfold linked in *. rewrite (offset_next _ _ _ Hi) in *. specialize (Hlen i).
    rewrite wrap_small; destruct low; unfold to_phys, in_range, VM_OFFSET, VM_BASE, PM_BASE, ENTRY in *; lia. }
  rewrite Hnext. by destruct i; cbn [exec]; rewrite ?Hrel.
Qed.

(** What the firmware leaves: the program counter at the physical address of
    [_entry], no translation, and the image in memory. *)
Record loaded (s : Cpu) : Prop := {
  ld_pc : c_pc s = to_phys ENTRY;
  ld_satp : c_satp s = 0;
  ld_table : table_at (c_mem s) P;
  ld_relocated : c_mem s (to_phys (addr sym_relocated)) = linked len relocated
}.

Lemma phys_gb a : VM_BASE ≤ a < VM_BASE + GB → to_phys a = PM_BASE + (a - VM_BASE) ∧ 0 ≤ a - VM_BASE < GB.
Proof. unfold to_phys, VM_OFFSET. lia. Qed.

Lemma linked_gb k : VM_BASE ≤ linked len k < VM_BASE + GB.
Proof. pose proof (linked_range k). unfold GB, VM_BASE, ENTRY in *. lia. Qed.

Lemma P_range : 0 ≤ P < 2 ^ 38.
Proof. specialize (Haddr sym_entry_pgtable). unfold to_phys, GB, VM_OFFSET, VM_BASE, PM_BASE in *. lia. Qed.

Lemma satp_value : Z.lor (Z.shiftr P 12) (Z.shiftl 0x8 60) = boot_satp P.
Proof.
  pose proof P_range. rewrite Z.shiftr_div_pow2, Z.lor_comm by lia.
  apply lor_shiftl_small; [lia|].
  split; [apply Z.div_pos|apply Z.div_lt_upper_bound]; unfold PM_BASE in *; lia.
Qed.
Lemma mmu_bare m a va : mmu sets_ad m 0 a va = Some va.
Proof. reflexivity. Qed.

(** The first six instructions, before translation is on. *)
Lemma entry_bare s : loaded s → ∃ f,
  steps sets_ad len addr 6 s = Some (mkCpu f (boot_satp P) (to_phys (linked len 6)) (c_mem s)) ∧
  ∀ r, r ≠ 5 → r ≠ 6 → f r = c_x s r.
Proof.
  intros [Hpc Hs _ _].
  assert (∀ k i s, entry !! k = Some i → c_satp s = 0 → c_pc s = to_phys (linked len k) →
    step sets_ad len addr s =
      exec sets_ad i (λ l, to_phys (addr l)) (to_phys (linked len (Datatypes.S k))) s) as Hstep.
  { intros k i s' Hi Hs' Hp. apply (step_at true s' k i Hi Hp). by rewrite Hs', mmu_bare, Hp. }
  assert (c_pc s = to_phys (linked len 0)) as H0.
  { rewrite Hpc. unfold linked. cbn. by rewrite Z.add_0_r. }
  eexists. split.
  - cbn [steps].
    rewrite (Hstep 0%nat (La 5 sym_entry_pgtable) s eq_refl Hs H0). cbn [exec mbind option_bind c_x c_satp c_mem].
    rewrite (Hstep 1%nat (Srli 5 5 12)) by first [exact Hs|reflexivity]. cbn [exec mbind option_bind c_x c_satp c_mem].
    rewrite (Hstep 2%nat (Li 6 (Z.shiftl 0x8 60))) by first [exact Hs|reflexivity]. cbn [exec mbind option_bind c_x c_satp c_mem].
    rewrite (Hstep 3%nat (Or 5 5 6)) by first [exact Hs|reflexivity]. cbn [exec mbind option_bind c_x c_satp c_mem].
    rewrite (Hstep 4%nat (Sfence)) by first [exact Hs|reflexivity]. cbn [exec mbind option_bind c_x c_satp c_mem].
    rewrite (Hstep 5%nat (CsrwSatp 5)) by first [exact Hs|reflexivity]. cbn [exec mbind option_bind c_x c_satp c_mem].
    rewrite <-satp_value. reflexivity.
  - intros r H5 H6. cbn. unfold set_x. by repeat case_decide.
Qed.

(** The rest, with translation on. *)
Lemma entry_paged f m : sets_ad = true → table_at m P → m (to_phys (addr sym_relocated)) = linked len relocated →
  ∃ f', steps sets_ad len addr 5 (mkCpu f (boot_satp P) (to_phys (linked len 6)) m) =
          Some (mkCpu f' (boot_satp P) (addr sym_main) m) ∧
    f' 2 = addr sym_bootstack_top ∧ ∀ r, r ≠ 2 → r ≠ 5 → f' r = f r.
Proof.
  intros Had HT Hrel. pose proof P_range as HP.
  assert (∀ a va, VM_BASE ≤ va < VM_BASE + GB →
    mmu sets_ad m (boot_satp P) a (to_phys va) = Some (to_phys va) ∧
    mmu sets_ad m (boot_satp P) a va = Some (to_phys va)) as Hmmu.
  { intros a va Hva. destruct (phys_gb va Hva) as [E Ho]. rewrite E. split.
    - by rewrite (mmu_low sets_ad m P HP HA HT a _ Ho), Had.
    - replace va with (VM_BASE + (va - VM_BASE)) at 1 by lia.
      by rewrite (mmu_high sets_ad m P HP HA HT a _ Ho), Had. }
  assert (∀ low k i s, entry !! k = Some i → c_satp s = boot_satp P → c_mem s = m →
    c_pc s = (if low : bool then to_phys (linked len k) else linked len k) →
    step sets_ad len addr s =
      exec sets_ad i (λ l, if low then to_phys (addr l) else addr l)
        (if low then to_phys (linked len (Datatypes.S k)) else linked len (Datatypes.S k)) s) as Hstep.
  { intros low k i s Hi Hs Hm Hp. apply (step_at low s k i Hi Hp). rewrite Hs, Hm, Hp.
    destruct (Hmmu Fetch (linked len k) (linked_gb k)). by destruct low. }
  eexists. split; [|split].
  - cbn [steps].
    rewrite (Hstep true 6%nat Sfence) by reflexivity. cbn [exec mbind option_bind].
    rewrite (Hstep true 7%nat (LdSym 5 sym_relocated)) by reflexivity. cbn [exec mbind option_bind c_satp c_mem].
    destruct (Hmmu Load (addr sym_relocated) (Haddr sym_relocated)) as [-> _].
    cbn [mbind option_bind]. rewrite Hrel.
    rewrite (Hstep true 8%nat (Jr 5)) by reflexivity. cbn [exec mbind option_bind c_x c_satp c_mem].
    rewrite (Hstep false 9%nat (La 2 sym_bootstack_top)) by reflexivity. cbn [exec mbind option_bind c_x c_satp c_mem].
    rewrite (Hstep false 10%nat (J sym_main)) by reflexivity. reflexivity.
  - reflexivity.
  - intros r H2 H5. cbn. unfold set_x. by repeat case_decide.
Qed.

Lemma entry_faults f m : sets_ad = false → table_at m P →
  step sets_ad len addr (mkCpu f (boot_satp P) (to_phys (linked len 6)) m) = None.
Proof.
  intros Had HT. unfold step. cbn [c_mem c_satp c_pc].
  destruct (phys_gb _ (linked_gb 6)) as [-> Ho].
  by rewrite (mmu_low sets_ad m P P_range HA HT Fetch _ Ho), Had.
Qed.

Lemma steps_app n k s s' : steps sets_ad len addr n s = Some s' →
  steps sets_ad len addr (n + k) s = steps sets_ad len addr k s'.
Proof.
  revert s. induction n as [|n IH]; intros s; cbn; [by intros [= ->]|].
  destruct (step sets_ad len addr s); cbn; [apply IH|done].
Qed.
End Run.

(** C11: the kernel's entry.  With the image loaded [VM_OFFSET] below where it is
    linked, eleven instructions take the hart from the physical entry, without
    translation, to [main] at its linked address: the registers in which the
    firmware passes the hart's id and the device tree are as they were, [sp] is the
    top of the boot stack, memory is unchanged, and translation is on with a table
    that maps one gigabyte of memory to itself and to the kernel's half and nothing
    else, so that [main] can reach the image and the stack, but no device before
    [KernelPgTable::init].  This needs a hart that sets the A bits of the entries
    itself, which the architecture leaves open; on another the first fetch after
    the write of satp faults. *)
Theorem boot_entry_correct (sets_ad : bool) len addr s :
  (∀ i, 2 ≤ len i ≤ 32) → (∀ l, VM_BASE ≤ addr l < VM_BASE + GB) →
  to_phys (addr sym_entry_pgtable) mod 4096 = 0 → loaded len addr s →
  if sets_ad then ∃ s', steps sets_ad len addr 11 s = Some s' ∧
    c_pc s' = addr sym_main ∧ c_x s' 2 = addr sym_bootstack_top ∧
    (∀ r, r ≠ 2 → r ≠ 5 → r ≠ 6 → c_x s' r = c_x s r) ∧ c_mem s' = c_mem s ∧
    ∀ a va, 0 ≤ va < 2 ^ 64 → mmu sets_ad (c_mem s') (c_satp s') a va =
      if bool_decide (PM_BASE ≤ va < PM_BASE + GB) then Some va
      else if bool_decide (VM_BASE ≤ va < VM_BASE + GB) then Some (to_phys va) else None
  else (∃ s', steps sets_ad len addr 6 s = Some s') ∧ steps sets_ad len addr 7 s = None.
Proof.
  intros Hlen Haddr HA HL.
  destruct (entry_bare sets_ad len addr Hlen Haddr s HL) as (f & H6 & Hf).
  destruct sets_ad eqn:Had.
  - destruct (entry_paged true len addr Hlen Haddr HA f (c_mem s)) as (f' & H11 & Hsp & Hf');
      [done|apply HL|apply HL|].
    eexists. rewrite (steps_app true len addr 6 5 s _ H6 : steps true len addr 11 s = _), H11. split_and!; [done|done|done| |done|].
    + intros r H2 H5 H6'. cbn. rewrite Hf', Hf by done. done.
    + intros a va Hva. cbn [c_mem c_satp]. pose proof (P_range addr Haddr) as HP.
      assert (table_at (c_mem s) (to_phys (addr sym_entry_pgtable))) as HT by apply HL.
      case_bool_decide as H1; [|case_bool_decide as H2].
      * replace va with (PM_BASE + (va - PM_BASE)) by lia. rewrite (mmu_low true _ _ HP HA HT) by lia. done.
      * replace va with (VM_BASE + (va - VM_BASE)) at 1 by lia.
        rewrite (mmu_high true _ _ HP HA HT) by lia. f_equal. unfold to_phys, VM_OFFSET. lia.
      * by apply (mmu_other true _ _ HP HA HT).
  - split; [eexists; exact H6|]. rewrite (steps_app false len addr 6 1 s _ H6 : steps false len addr 7 s = _). cbn [steps].
    by rewrite entry_faults by (done || apply HL).
Qed.

(** ** A layout

    Uncompressed instructions (two for [la], [ld] of a symbol and [li]), the word
    [_relocated] behind the code, and the data further up. *)
Definition demo_len (i : instr) : Z :=
  match i with La _ _ | LdSym _ _ | Li _ _ => 8 | _ => 4 end.
Definition demo_addr (l : symbol) : Z :=
  match l with
  | sym_entry_pgtable => VM_BASE + 0x309000
  | sym_relocated => ENTRY + 64
  | sym_bootstack_top => VM_BASE + 0x308000
  | sym_main => VM_BASE + 0x212340
  end.
Definition demo_image (a : Z) : Z :=
  if bool_decide (a = to_phys (ENTRY + 64)) then linked demo_len relocated
  else if bool_decide (PM_BASE + 0x309000 ≤ a) then
    default 0 (entry_pgtable !! Z.to_nat ((a - (PM_BASE + 0x309000)) / 8))
  else 0.
Definition demo_cpu : Cpu := mkCpu (λ r, if bool_decide (r = 11) then 0x82200000 else 0) 0 (to_phys ENTRY) demo_image.

Lemma demo_loaded : loaded demo_len demo_addr demo_cpu.
Proof.
  split; [done|done| |done]. intros i w Hi. cbn [c_mem demo_cpu].
  change (to_phys (demo_addr sym_entry_pgtable)) with (PM_BASE + 0x309000).
  unfold demo_image. change (to_phys (ENTRY + 64)) with (PM_BASE + 0x200040).
  rewrite bool_decide_eq_false_2, bool_decide_eq_true_2 by lia.
  replace (PM_BASE + 0x309000 + 8 * Z.of_nat i - (PM_BASE + 0x309000)) with (Z.of_nat i * 8) by lia.
  by rewrite Z.div_mul, Nat2Z.id, Hi by lia.
Qed.

Lemma boot_entry_witness :
  (∃ s', steps true demo_len demo_addr 11 demo_cpu = Some s' ∧ c_pc s' = VM_BASE + 0x212340 ∧
    c_x s' 11 = 0x82200000 ∧ mmu true (c_mem s') (c_satp s') Load (0xC000000 + VM_OFFSET) = None) ∧
  steps false demo_len demo_addr 7 demo_cpu = None.
Proof.
  assert (∀ i, 2 ≤ demo_len i ≤ 32) as Hlen by (intros []; cbn; lia).
  assert (∀ l, VM_BASE ≤ demo_addr l < VM_BASE + GB) as Haddr
    by (intros []; unfold demo_addr, ENTRY, VM_BASE, GB; lia).
  split.
  - destruct (boot_entry_correct true demo_len demo_addr demo_cpu Hlen Haddr eq_refl demo_loaded)
      as (s' & Hs & Hpc & _ & Hx & _ & Hm).
    exists s'. split; [exact Hs|]. split; [exact Hpc|]. split.
    + rewrite Hx by discriminate. reflexivity.
    + rewrite Hm by (unfold VM_OFFSET, VM_BASE, PM_BASE; lia). reflexivity.
  - apply (boot_entry_correct false demo_len demo_addr demo_cpu Hlen Haddr eq_refl demo_loaded).
Defined.
