(* ===== verification/Main.v ===== *)
(** * The body of [main]

    [main.rs] from [trap::set_strap_entry] on: the set-up of traps and devices, one
    call after the other, and what [main] does when the tests or the shell are
    through.  Memory has been set up before ([Boot.v]).  [stvec] is the address of
    the handler, which is unknown until it is set. *)

From S2P Require Import Prelude Intr Console Plic.

Section Main.
Context {P W X : Type} `{PlicLaws P} `{FirmwareLaws W} (trap_entry_k : Z).

Record Machine : Type := mkMachine {
  m_hart : Hart;
  m_plic : PW P;
  m_stvec : option Z;
  m_sum : bool;  (* [sstatus.SUM] *)
}.

Definition with_hart {A} (m : M Hart A) : M Machine A := λ s,
  match m (m_hart s) with
  | Ret (a, h) => Ret (a, mkMachine h (m_plic s) (m_stvec s) (m_sum s))
  | Panic p => Panic p
  end.
Definition with_plic {A} (m : M (PW P) A) : M Machine A := λ s,
  match m (m_plic s) with
  | Ret (a, p) => Ret (a, mkMachine (m_hart s) p (m_stvec s) (m_sum s))
  | Panic p => Panic p
  end.

(** [trap::set_strap_entry], and [set_sie] and [set_sum] of [sstatus]. *)
Definition set_stvec : M Machine unit := modify (λ s,
  mkMachine (m_hart s) (m_plic s) (Some trap_entry_k) (m_sum s)).
Definition sstatus_set_sie : M Machine unit := with_hart (modify (λ h,
  mkHart (stimer h) (sext h) true (time h) (timer_calls h))).
Definition sstatus_set_sum : M Machine unit := modify (λ s,
  mkMachine (m_hart s) (m_plic s) (m_stvec s) true).

(** The calls of [main] that set up traps and devices, in order. *)
Definition main_calls (hart_id : Z) : list (M Machine unit) := [
  set_stvec;
  sstatus_set_sie;
  sstatus_set_sum;
  with_plic (plic_init hart_id);
  with_hart interrupt_init
].
Definition main_devices (hart_id : Z) : M Machine unit := for_each (main_calls hart_id) id.

(** The end of [main]; [unmount] is that of the disk file system. *)
Definition main_end (unmount : M X unit) : M (X * (Hart * W)) never := λ s,
  match unmount s.1 with
  | Panic p => Panic p
  | Ret (_, x) =>
      match (kprintln [chars "Goodbye, World!"] ;; reset Shutdown NoReason) s.2 with
      | Ret (n, hw) => Ret (n, (x, hw))
      | Panic p => Panic p
      end
  end.

(** An interrupt can be taken. *)
Definition interruptible (s : Machine) : bool := sie (m_hart s) && (stimer (m_hart s) || sext (m_hart s)).

(** C12: [main] sets the machine up for interrupts in the right order.  From a
    machine with both interrupts disabled and a controller that has not been
    initialised, the calls succeed; however many of them have been made, an
    interrupt can be taken only when the trap vector is that of the kernel, user
    memory is accessible, and the controller knows the hart and lets the disk's
    interrupt through.  At the end both interrupts are enabled and the firmware has
    been asked for a tick in a tenth of a second. *)
Theorem main_devices_correct s hart_id :
  hart_ok (m_hart s) → stimer (m_hart s) = false → HART_ID (m_plic s) = None → 0 ≤ hart_id < 7936 →
  (∀ n, ∃ s', for_each (take n (main_calls hart_id)) id s = Ret ((), s') ∧
     (interruptible s' = true →
        m_stvec s' = Some trap_entry_k ∧ m_sum s' = true ∧ HART_ID (m_plic s') = Some hart_id ∧
        read_enable VIRTIO0_ID (m_plic s') = Ret (true, m_plic s'))) ∧
  ∃ s', main_devices hart_id s = Ret ((), s') ∧ interruptible s' = true ∧ hart_ok (m_hart s') ∧
    timer_calls (m_hart s') = wrap64 (time (m_hart s) + 1250000) :: timer_calls (m_hart s).
Proof.
  intros Hh Hst Hid Hr. destruct s as [[st se si ti tc] pl sv sm]. unfold hart_ok in Hh. cbn in *. subst.
  destruct (plic_init_done hart_id pl Hr Hid) as (pl' & Hp & Hi' & _ & _ & Hen & _).
  set (h0 := mkHart false false si ti tc). set (h1 := mkHart false false true ti tc).
  assert (E1 : set_stvec (mkMachine h0 pl sv sm) = Ret ((), mkMachine h0 pl (Some trap_entry_k) sm)) by done.
  assert (E2 : sstatus_set_sie (mkMachine h0 pl (Some trap_entry_k) sm) =
    Ret ((), mkMachine h1 pl (Some trap_entry_k) sm)) by done.
  assert (E3 : sstatus_set_sum (mkMachine h1 pl (Some trap_entry_k) sm) =
    Ret ((), mkMachine h1 pl (Some trap_entry_k) true)) by done.
  assert (E4 : with_plic (plic_init hart_id) (mkMachine h1 pl (Some trap_entry_k) true) =
    Ret ((), mkMachine h1 pl' (Some trap_entry_k) true)).
  { unfold with_plic. cbn [m_plic]. by rewrite Hp. }
  set (s5 := mkMachine (mkHart true true true ti (wrap64 (ti + 1250000) :: tc)) pl' (Some trap_entry_k) true).
  assert (E5 : with_hart interrupt_init (mkMachine h1 pl' (Some trap_entry_k) true) = Ret ((), s5)) by done.
  unfold main_devices, main_calls. split.
  - intros n. destruct n as [|[|[|[|[|n]]]]]; cbn [take for_each id]; unmonad; fold h0;
      rewrite ?E1, ?E2, ?E3, ?E4, ?E5, ?take_nil; cbn [for_each]; unmonad;
      (eexists; split; [reflexivity|]); intros Hint; try done.
    all: unfold interruptible in Hint; cbn in Hint; by rewrite andb_false_r in Hint.
  - cbn [for_each id]; unmonad; fold h0. rewrite E1, E2, E3, E4, E5. by exists s5.
Qed.

(** The kernel ends with the line the test tool looks for, and switched off. *)
Lemma main_end_run unmount x x' h w : hart_ok h → unmount x = Ret ((), x') →
  ∃ w', main_end unmount (x, (h, w)) = Ret (Off, (x', (h, w'))) ∧
        prints (line h [chars "Goodbye, World!"]) w w'.
Proof.
  intros Hh Hu. destruct (kprintln_run [chars "Goodbye, World!"] h w Hh) as (w' & E & HP).
  exists w'. split; [|done]. unfold main_end. cbn [fst snd]. rewrite Hu. unmonad. rewrite E.
  unfold reset, ecall2. unmonad. cbn [snd]. by rewrite reset_law.
Qed.
End Main.

(** ** A run *)

Lemma main_devices_witness :
  ∃ s', main_devices (P := Z → Z) 0xFFFFFFC080200100 0
          (mkMachine (mkHart false false false 77 []) (mkPW (λ _, 0) None) None false) = Ret ((), s') ∧
    interruptible s' = true.
Proof.
  destruct (main_devices_correct (P := Z → Z) 0xFFFFFFC080200100
    (mkMachine (mkHart false false false 77 []) (mkPW (λ _, 0) None) None false) 0)
    as [_ (s' & E & Hi & _)]; [reflexivity|reflexivity|reflexivity|lia|].
  exists s'. split; [exact E|exact Hi].
Defined.
