(* ===== verification/Boot.v ===== *)
(** * Memory set-up and the start of the kernel

    [mem::init] of [mem.rs], the part of [main] that reads the memory map and
    calls it ([main.rs]), the table that [mem::get_pte] and [translate] use, and
    the shell loop of [main].  The allocators are those of [PallocClients.v],
    [Malloc.v] and [UserPool.v], the kernel's table that of [PageTable.v]. *)

From S2P Require Import Prelude Utils InMemList Blocks Palloc PallocClients PallocFrame Malloc PageTable UserPool.
From S2P Require Import Intr Thread Scheduler Manager Load Console.

(** ** [mem.rs] *)

Section Mem.
Context `{HeapLayout} `{PoolLayout} (F : Type) `{Bitflags F}.

(** [mem::init] over the memory of the kernel's pool and that of the user pool.
    The heap is made when it is first used, by [KernelPgTable::init]. *)
Definition mem_init (etext : Z) (kmem umem : memory) (ram_base ram_tail pm_len : Z) :
    outcome (Z * AW Heap BuddyAllocator) :=
  let palloc_tail := wrap64 (ram_tail - USER_POOL_LIMIT * PG_SIZE) in
  '(_, k) ← insert_range pool_at ram_base palloc_tail (Palloc.empty kmem) ;
  '(_, u) ← insert_range up_base palloc_tail ram_tail (Palloc.empty umem) ;
  h ← heap_new k ;
  '(root, h) ← init_inner F etext pm_len h ;
  mret (root, mkAW h u).

(** The part of [main] from the memory regions of the device tree on; [ekernel] is
    the linker's symbol and [dtb] the address of the device tree. *)
Definition main_mem (etext ekernel dtb : Z) (kmem umem : memory) (regions : list (Z * option Z)) :
    outcome (Z * AW Heap BuddyAllocator) :=
  match regions with
  | [] => Panic UnwrapNone
  | (pm_base, size) :: rest =>
      assert_ (bool_decide (rest = [])) ;;
      match size with
      | None => Panic UnwrapNone
      | Some pm_len =>
          assert_ (bool_decide (pm_base = PM_BASE)) ;;
          mem_init etext kmem umem ekernel (wrap64 (dtb + VM_OFFSET)) pm_len
      end
  end.
End Mem.

(** [mem::get_pte] and [translate] use the table of the current thread, or that of
    the kernel. *)
Section Current.
Context {K Sc : Type} `{PageSource K} `{Schedule Sc} (F : Type) `{Bitflags F}.

Definition current_root (kernel_root : Z) (k : Kernel Sc) : Z :=
  match pagetable (current_thread k) with Some pt => pt | None => kernel_root end.

Definition current_get_pte (kernel_root : Z) (k : Kernel Sc) (va : Z) : M K (option Z) :=
  get_pte F (current_root kernel_root k) va.

Definition current_translate (kernel_root : Z) (k : Kernel Sc) (va len : Z) : M K (option Z) :=
  translate F (current_root kernel_root k) va len.

(** [Translate] for pointers to values of [size] bytes, and for slices. *)
Definition translate_ptr (kernel_root : Z) (k : Kernel Sc) (size va : Z) : M K (option Z) :=
  current_translate kernel_root k va size.

Definition translate_slice (kernel_root : Z) (k : Kernel Sc) (size ptr len : Z) : M K (option (Z * Z)) :=
  va ← current_translate kernel_root k ptr (wrap64 (len * size)) ;
  mret (va ← va ; Some (va, len)).
End Current.

(** ** The shell of [main.rs] *)

(** [char::from_u32] *)
Definition char_from_u32 (n : Z) : option Z :=
  if bool_decide ((0 ≤ n < 0xD800) ∨ (0xE000 ≤ n < 0x110000)) then Some n else None.

(** A line of input, given what the calls of [console_getchar] return; [None] when
    no more come. *)
Fixpoint read_line (temp : list Z) (input : list Z) : outcome (option (list Z * list Z)) :=
  match input with
  | [] => Ret None
  | newchar :: input =>
      if bool_decide (newchar = 10) then Ret (Some (temp, input))
      else
        match char_from_u32 (wrap32 newchar) with
        | Some c => read_line (temp ++ [c]) input
        | None => Panic UnwrapNone
        end
  end.

(** The loop: what it prints, and whether it was left.  Every turn reads a line. *)
Fixpoint shell (fuel : nat) (input : list Z) : outcome (list string * bool) :=
  match fuel with
  | O => Panic OutOfFuel
  | S fuel =>
      line ← read_line [] input ;
      match line with
      | None => Ret (["PKUOS>"], false)
      | Some (temp, input) =>
          if bool_decide (temp = chars "whoami") then
            '(out, b) ← shell fuel input ; Ret ("PKUOS>" :: "2300012806" :: out, b)
          else if bool_decide (temp = chars "exit") then Ret (["PKUOS>"], true)
          else '(out, b) ← shell fuel input ; Ret ("PKUOS>" :: "invalid command" :: out, b)
      end
  end.

(** What the shell answers to a line. *)
Definition answer (line : list Z) : list string :=
  if bool_decide (line = chars "whoami") then ["PKUOS>"; "2300012806"] else ["PKUOS>"; "invalid command"].

Definition plain (c : Z) : Prop := 0 ≤ c < 0xD800 ∧ c ≠ 10.

Lemma read_line_run line : ∀ temp input, Forall plain line →
  read_line temp (line ++ 10 :: input) = Ret (Some (temp ++ line, input)).
Proof.
  induction line as [|c line IH]; intros temp input Hl; cbn [app read_line].
  - by rewrite bool_decide_eq_true_2, app_nil_r.
  - apply Forall_cons in Hl as [[Hc Hn] Hl]. rewrite bool_decide_eq_false_2 by done.
    rewrite wrap_small by (unfold in_range; lia). unfold char_from_u32. rewrite bool_decide_eq_true_2 by lia.
    rewrite IH by done. by rewrite <-(assoc_L (++)).
Qed.

(** The shell answers line by line until it reads [exit]. *)
Lemma shell_run lines : ∀ input fuel, Forall (Forall plain) lines → chars "exit" ∉ lines →
  (length lines < fuel)%nat →
  shell fuel (concat (List.map (λ l, l ++ [10]) lines) ++ chars "exit" ++ 10 :: input) =
    Ret (concat (List.map answer lines) ++ ["PKUOS>"], true).
Proof.
  induction lines as [|l lines IH]; intros input [|fuel] Hl He Hf; try (cbn in Hf; lia).
  - cbn [List.map concat]. change ([] ++ ?x) with x. cbn [shell].
    rewrite read_line_run by (repeat constructor; (lia || done)). reflexivity.
  - apply Forall_cons in Hl as [Hl Hls]. apply not_elem_of_cons in He as [He Hes].
    cbn [List.map concat shell]. rewrite <-!(assoc_L (++)). cbn [app].
    rewrite read_line_run by done. cbn [mbind outcome_bind app]. unfold answer.
    specialize (IH input fuel Hls Hes ltac:(cbn in Hf; lia)).
    case_bool_decide as Hw.
    + rewrite IH. reflexivity.
    + rewrite bool_decide_eq_false_2 by done. rewrite IH. reflexivity.
Qed.

(** When no character has arrived the firmware returns -1, and the shell panics. *)
Lemma read_line_no_char temp input : read_line temp (2 ^ 64 - 1 :: input) = Panic UnwrapNone.
Proof. reflexivity. Qed.

(** ** Properties *)

Section Init.
Context `{HeapLayout} `{PoolLayout} {F : Type} `{BitflagsLaws F}.

(** The kernel's image, the device tree and the statics lie as [main] expects:
    the pages of the kernel's pool from [ram_base] to [tail] and those of the user
    pool from there to [ram_tail] are mapped and apart from the statics, which are
    zero. *)
Record boot_ok (kmem umem : memory) (ram_base tail ram_tail : Z) : Prop := {
  bo_base : VM_OFFSET ≤ ram_base ∧ ram_base ≤ tail;
  bo_tail : tail = ram_tail - USER_POOL_LIMIT * PG_SIZE ∧ ram_tail < 2 ^ 64;
  bo_pages : seg_start ram_base ≤ seg_end tail ∧ seg_start tail ≤ seg_end ram_tail;
  bo_kfresh : fresh pool_at kmem;
  bo_ufresh : fresh up_base umem;
  bo_kmem : region_ok pool_at kmem (seg_pages ram_base tail);
  bo_umem : region_ok up_base umem (seg_pages tail ram_tail);
  bo_statics : statics_ok (seg_pages ram_base tail);
  bo_heads i : (i < 8)%nat → kmem !! head_at i = Some 0
}.

Lemma seg_pages_range lo hi a : a ∈ seg_pages lo hi → lo ≤ a ∧ a + PG_SIZE ≤ hi.
Proof.
  rewrite PG_SIZE_pow2. unfold seg_pages. intros (k & Hk & ->)%elem_of_page_range.
  unfold seg_start, seg_end in *. rewrite PG_SIZE_pow2 in *.
  rewrite <-Z.mul_sub_distr_r, Z.div_mul in Hk by lia.
  pose proof (ceil_div_bounds lo (2 ^ 12) ltac:(lia)) as [? ?].
  pose proof (Z.mul_div_le hi (2 ^ 12) ltac:(lia)). lia.
Qed.

(** The heap can start on the kernel's pool. *)
Lemma boot_heap kmem umem ram_base tail ram_tail : boot_ok kmem umem ram_base tail ram_tail →
  ∃ k h, insert_range pool_at ram_base tail (Palloc.empty kmem) = Ret ((), k) ∧ heap_new k = Ret h ∧ ps_held h ∅.
Proof.
  intros B. destruct (bo_base _ _ _ _ _ B) as [Hlo Hle]. destruct (bo_tail _ _ _ _ _ B) as [Ht Hhi].
  pose proof PG_SIZE_pow2 as HPG. pose proof VM_OFFSET_mask as HV. unfold USER_POOL_LIMIT in Ht.
  destruct (insert_range_client pool_at kmem ram_base tail) as (k & E & Hci & _);
    [apply B|lia|lia|apply B|unfold in_range; lia|apply B|].
  assert (Hs : heap_start (seg_pages ram_base tail) k).
  { split; [done|apply B|]. intros i Hi. pose proof (bo_statics _ _ _ _ _ B) as Hst.
    rewrite (insert_range_frame pool_at kmem ram_base tail k);
      [by apply B|apply B|lia|lia|apply B|unfold in_range; lia|apply B|done|].
    intros [Hw|(pg & Hpg & Hr)]; [by apply (so_pool _ Hst i)|by apply (so_region _ Hst i pg)]. }
  destruct (heap_new_inv _ k Hs) as (h & Eh & Hi & _). exists k, h. split; [done|]. split; [done|].
  exists (seg_pages ram_base tail), []. split; [done|]. split; [|by intros a Ha%elem_of_empty].
  intros a Ha%seg_pages_range. lia.
Qed.

End Init.

(** ** A concrete machine *)

(** Four pages for the kernel and the 256 of the user pool, above the statics. *)
#[local] Instance boot_pool : PoolLayout := { up_base := VM_BASE + 0x380000 }.

Definition boot_ekernel : Z := VM_BASE + 0x400000.
Definition boot_dtb : Z := PM_BASE + 0x504000.
Definition boot_tail : Z := VM_BASE + 0x404000.
Definition boot_ram_tail : Z := VM_BASE + 0x504000.
Definition boot_kmem : memory := boot_memory demo_base (seg_pages boot_ekernel boot_tail) ∪ zeroed demo_heads.
Definition boot_umem : memory := boot_memory (VM_BASE + 0x380000) (seg_pages boot_tail boot_ram_tail).

Lemma boot_numbers : VM_OFFSET = 2 ^ 64 - 2 ^ 38 ∧ VM_BASE = 2 ^ 64 - 2 ^ 38 + 2 ^ 31 ∧
  boot_ekernel = VM_BASE + 0x400000 ∧ boot_tail = VM_BASE + 0x404000 ∧ boot_ram_tail = VM_BASE + 0x504000 ∧
  demo_base = VM_BASE + 0x100000 ∧ PG_SIZE = 4096.
Proof. done. Qed.

Lemma boot_region base lo hi : 0 < lo → hi ≤ 2 ^ 64 → base + 72 ≤ lo →
  region_ok base (boot_memory base (seg_pages lo hi)) (seg_pages lo hi).
Proof.
  intros Hlo Hhi Hb. apply boot_region_ok; [apply NoDup_page_range|].
  apply Forall_forall. intros a Ha%seg_pages_range. lia.
Qed.

Lemma zeroed_value ws a v : zeroed ws !! a = Some v → v = 0.
Proof.
  intros Hv. apply elem_of_list_to_map_2, list_elem_of_fmap in Hv as (w & E & _). by injection E.
Qed.

Lemma boot_heads i : (i < 8)%nat → boot_kmem !! head_at i = Some 0.
Proof.
  intros Hi. unfold boot_kmem.
  destruct (boot_memory demo_base (seg_pages boot_ekernel boot_tail) !! head_at i) as [v|] eqn:E.
  - pose proof (zeroed_value _ _ _ E) as ->. by apply lookup_union_Some_l.
  - rewrite lookup_union_r by done. apply zeroed_lookup, list_elem_of_fmap. exists i.
    split; [done|]. apply elem_of_seq. lia.
Qed.

Lemma boot_demo_ok : boot_ok boot_kmem boot_umem boot_ekernel boot_tail boot_ram_tail.
Proof.
  pose proof boot_numbers as (N1 & N2 & N3 & N4 & N5 & N6 & N7). split.
  - lia.
  - unfold USER_POOL_LIMIT. lia.
  - by vm_compute.
  - intros i Hi. apply lookup_union_Some_l. by apply boot_fresh.
  - apply boot_fresh.
  - destruct (boot_region demo_base boot_ekernel boot_tail) as [Hnd Hm Hh Hr]; [lia..|].
    split; [exact Hnd| |exact Hh|exact Hr].
    intros a Ha k Hk. destruct (Hm a Ha k Hk) as [v Hv]. exists v. by apply lookup_union_Some_l.
  - apply boot_region; cbn; lia.
  - destruct demo_statics as [S1 S2 S3 S4 _]. split; [exact S1|exact S2|exact S3|exact S4|].
    intros i a Hi Ha%seg_pages_range. cbn. lia.
  - apply boot_heads.
Qed.

