(* ===== verification/Book.v ===== *)
(** * Bookmarks of the test tool

    [tool/src/book.rs], the arguments of [cli.rs] and the calls of make of
    [build.rs].  A bookmark is a file of the directory [bookmarks] that holds test
    cases; the five built-in ones define all cases there are.  The [toml] crate is
    a parameter, and so is the file system but for the files in question: a map
    from paths to contents. *)

From Stdlib Require Import Ascii.
From S2P Require Import Prelude.

(** ** [cli.rs] *)

Record BuildArgs : Type := mkBuildArgs { bd_clean : bool; bd_rebuild : bool; bd_verbose : bool }.

Record TestArgs : Type := mkTestArgs {
  ta_cases : list string;
  ta_books : list string;
  ta_previous_failed : bool;
  ta_dry : bool;
  ta_gdb : bool;
  ta_grade : bool;
  ta_verbose : bool
}.

Record BookArgs : Type := mkBookArgs {
  bk_name : string;
  bk_del : bool;
  bk_cases : list string;
  bk_books : list string;
  bk_previous_failed : bool
}.

Inductive Commands : Type :=
  | CBuild (args : BuildArgs)
  | CTest (args : TestArgs)
  | CBook (args : BookArgs).

(** ** [build.rs]: the targets make is called with, in order *)
Definition build_main (args : BuildArgs) : list (list string) :=
  if bd_rebuild args then [["clean-tacos"]; []]
  else if bd_clean args then [["clean-tacos"]]
  else [[]].

(** ** Cases and files *)

Record Case : Type := mkCase { case_args : string; case_grade : option Z; case_timeout : option Z }.
Abbreviation Cases := (gmap string Case).

Class Toml := { toml_from_str : string → option Cases; toml_to_string : Cases → option string }.

Definition PREVIOUS_FAILED_BOOK_NAME : string := "previous-failed".
Definition DEFAULT_GRADE : Z := 1.
Definition DEFAULT_TIMEOUT : Z := 60.
Definition BUILTIN_NAMES : list string := ["unit"; "lab1"; "lab2"; "lab3"; PREVIOUS_FAILED_BOOK_NAME].

(** A path: whether it is absolute, and its components. *)
Abbreviation Path := (bool * list string)%type.

(** The parts of a string between the separators [c]. *)
Fixpoint split (c : Ascii.ascii) (s : string) : list string :=
  match s with
  | EmptyString => [""]
  | String a s =>
      match split c s with
      | [] => [String a ""]
      | w :: ws => if bool_decide (a = c) then "" :: w :: ws else String a w :: ws
      end
  end.

Fixpoint join (c : Ascii.ascii) (ws : list string) : string :=
  match ws with
  | [] => ""
  | [w] => w
  | w :: ws => w +:+ String c (join c ws)
  end.

(** [Path::components]: separators in a row, and dots, do not count. *)
Definition components (s : string) : list string :=
  filter (λ w, w ≠ "" ∧ w ≠ ".") (split "/"%char s).
Definition is_absolute (s : string) : bool :=
  match s with String a _ => bool_decide (a = "/"%char) | EmptyString => false end.

(** [Path::file_stem] of a file name: what precedes the last dot, unless that is
    nothing. *)
Definition file_stem (w : string) : string :=
  match rev (split "."%char w) with
  | _ :: rest =>
      let stem := join "."%char (rev rest) in
      if bool_decide (stem = "") then w else stem
  | [] => w
  end.

(** [PathBuf::set_extension] *)
Definition set_extension (ext : string) (p : Path) : Path :=
  match rev (p.2) with
  | [] => p
  | w :: rest => if bool_decide (w = "..") then p else (p.1, rev rest ++ [file_stem w +:+ "." +:+ ext])
  end.

Definition book_path (name : string) : Path :=
  let path : Path := (false, ["bookmarks"]) in
  let path := if is_absolute name then (true, components name) else (path.1, path.2 ++ components name) in
  set_extension "toml" path.

Inductive io_result (A : Type) : Type := Done (a : A) | Failed.
Arguments Done {A}. Arguments Failed {A}.

Section Book.
Context `{Toml}.
Abbreviation Files := (gmap (bool * list string) string).

(** [read_book]: a file that is not there is an error, one that is no bookmark
    panics. *)
Definition read_book (name : string) : M Files (io_result Cases) := λ fs,
  match fs !! book_path name with
  | None => Ret (Failed, fs)
  | Some content =>
      match toml_from_str content with
      | Some cases => Ret (Done cases, fs)
      | None => Panic UnwrapNone
      end
  end.

Definition write_book (name : string) (cases : Cases) : M Files unit := λ fs,
  match toml_to_string cases with
  | Some content => Ret ((), <[book_path name := content]> fs)
  | None => Panic UnwrapNone
  end.

(** [std::fs::remove_file] *)
Definition remove_file (path : Path) : M Files (io_result unit) := λ fs,
  match fs !! path with
  | Some _ => Ret (Done (), delete path fs)
  | None => Ret (Failed, fs)
  end.

(** [if let Ok(cases) = read_book(name) { .. }] *)
Definition book_or_empty (name : string) : M Files Cases :=
  r ← read_book name ;
  mret (match r with Done cases => cases | Failed => ∅ end).

(** The static [BUILTINS], and [ALL_BUILTIN]: a case of a later book replaces that
    of an earlier one.  They are read when first used, and no file has been
    written then. *)
Fixpoint read_books (names : list string) : M Files (list Cases) :=
  match names with
  | [] => mret []
  | name :: names => c ← book_or_empty name ; cs ← read_books names ; mret (c :: cs)
  end.
Definition BUILTINS : M Files (list Cases) := read_books BUILTIN_NAMES.
Definition all_of (books : list Cases) : Cases := foldl (λ all b, b ∪ all) ∅ books.
Definition ALL_BUILTIN : M Files Cases := b ← BUILTINS ; mret (all_of b).
Definition builtin (i : nat) : M Files Cases := b ← BUILTINS ; mret (default ∅ (b !! i)).

(** [grade] and [timeout] *)
Definition grade (case : string) : M Files (option Z) :=
  all ← ALL_BUILTIN ; mret (c ← all !! case ; Some (default DEFAULT_GRADE (case_grade c))).
Definition timeout (case : string) : M Files (option Z) :=
  all ← ALL_BUILTIN ; mret (c ← all !! case ; Some (default DEFAULT_TIMEOUT (case_timeout c))).

(** The action of [main] on a case: [remove] or [insert]. *)
Definition act (del : bool) (k : string) (v : Case) (map : Cases) : Cases :=
  if del then delete k map else <[k := v]> map.

(** The three loops of [action]. *)
Fixpoint act_cases (del : bool) (cs : list string) (map : Cases) : M Files Cases :=
  match cs with
  | [] => mret map
  | case :: cs =>
      all ← ALL_BUILTIN ;
      act_cases del cs (match all !! case with Some v => act del case v map | None => map end)
  end.

Fixpoint act_entries (del : bool) (l : list (string * Case)) (map : Cases) : M Files Cases :=
  match l with
  | [] => mret map
  | (k, v) :: l =>
      all ← ALL_BUILTIN ;
      act_entries del l (if bool_decide (is_Some (all !! k)) then act del k v map else map)
  end.

Fixpoint act_books (del : bool) (books : list string) (map : Cases) : M Files Cases :=
  match books with
  | [] => mret map
  | b :: books =>
      c ← book_or_empty b ;
      map ← act_entries del (map_to_list c) map ;
      act_books del books map
  end.

Definition action (args : BookArgs) (cases : Cases) : M Files Cases :=
  let del := bk_del args in
  cases ← act_cases del (bk_cases args) cases ;
  cases ← act_books del (bk_books args) cases ;
  if bk_previous_failed args then p ← builtin 4 ; act_entries del (map_to_list p) cases
  else mret cases.

(** [book::main] *)
Definition book_main (args : BookArgs) : M Files (io_result unit) :=
  if bool_decide (bk_name args ∈ BUILTIN_NAMES) then mret Failed
  else
    original ← book_or_empty (bk_name args) ;
    cases ← action args original ;
    if bk_del args && bool_decide (bk_cases args = []) then remove_file (book_path (bk_name args))
    else write_book (bk_name args) cases ;; mret (Done ()).

(** [test_cases] *)
Fixpoint select_books (books : list string) (selected : gset string) : M Files (gset string) :=
  match books with
  | [] => mret selected
  | b :: books => c ← book_or_empty b ; select_books books (selected ∪ dom c)
  end.

Definition from_builtin (i : nat) (selected : gset string) : M Files Cases :=
  b ← builtin i ; mret (filter (λ kv, kv.1 ∈ selected) b).

Definition test_cases (args : TestArgs) : M Files (Cases * Cases * Cases * Cases) :=
  let selected : gset string := list_to_set (ta_cases args) in
  selected ← select_books (ta_books args) selected ;
  selected ← (if ta_previous_failed args then p ← builtin 4 ; mret (selected ∪ dom p) else mret selected) ;
  unit ← from_builtin 0 selected ;
  lab1 ← from_builtin 1 selected ;
  lab2 ← from_builtin 2 selected ;
  lab3 ← from_builtin 3 selected ;
  mret (unit, lab1, lab2, lab3).

(** [write_previous_failed] *)
Fixpoint failed_cases (cases : list string) (acc : Cases) : M Files Cases :=
  match cases with
  | [] => mret acc
  | case :: cases =>
      all ← ALL_BUILTIN ;
      failed_cases cases (match all !! case with Some v => <[case := v]> acc | None => acc end)
  end.

Definition write_previous_failed (cases : list string) : M Files unit :=
  previous_failed ← failed_cases cases ∅ ;
  write_book PREVIOUS_FAILED_BOOK_NAME previous_failed.

(** ** What the runs compute *)

(** The bookmark file of [name] is missing or parses. *)
Definition readable (fs : Files) (name : string) : Prop :=
  ∀ content, fs !! book_path name = Some content → is_Some (toml_from_str content).

(** The cases of the bookmark [name]; none when it is missing. *)
Definition book (fs : Files) (name : string) : Cases :=
  default ∅ (content ← fs !! book_path name ; toml_from_str content).

Definition all_cases (fs : Files) : Cases := all_of (book fs <$> BUILTIN_NAMES).

(** The cases of [m] that are built in. *)
Definition known (fs : Files) (m : Cases) : Cases := filter (λ kv, is_Some (all_cases fs !! kv.1)) m.

(** The cases the arguments select, with what is recorded for them: those of the
    last run's failures first, then those of the bookmarks from the last to the
    first, then those that are named. *)
Definition named (fs : Files) (cs : list string) : Cases :=
  filter (λ kv, kv.1 ∈ cs) (all_cases fs).
Definition selection (fs : Files) (args : BookArgs) : Cases :=
  (if bk_previous_failed args then known fs (book fs PREVIOUS_FAILED_BOOK_NAME) else ∅) ∪
  (foldl (λ acc b, known fs (book fs b) ∪ acc) ∅ (bk_books args) ∪ named fs (bk_cases args)).

(** The bookmark [m] after a selection is added to it or deleted from it. *)
Definition edited (del : bool) (sel m : Cases) : Cases := if del then m ∖ sel else sel ∪ m.

Lemma book_or_empty_run fs name : readable fs name → book_or_empty name fs = Ret (book fs name, fs).
Proof.
  unfold book_or_empty, read_book, readable, book. intros Hr. unmonad.
  destruct (fs !! book_path name) as [content|]; [|done]. cbn.
  destruct (Hr content eq_refl) as [c ->]. done.
Qed.

Lemma book_or_empty_unreadable fs name : ¬ readable fs name → book_or_empty name fs = Panic UnwrapNone.
Proof.
  unfold book_or_empty, read_book, readable. intros Hr. unmonad.
  destruct (fs !! book_path name) as [content|]; [|by destruct Hr].
  destruct (toml_from_str content) eqn:E; [|done].
  destruct Hr. intros ? [= <-]. by eexists.
Qed.

Lemma read_books_run fs names :
  Forall (readable fs) names → read_books names fs = Ret (book fs <$> names, fs).
Proof.
  induction 1 as [|name names Hn _ IH]; [done|]. cbn [read_books]. unmonad.
  rewrite book_or_empty_run by done. by rewrite IH.
Qed.

Section Readable.
Context (fs : Files) (Hb : Forall (readable fs) BUILTIN_NAMES).

Lemma ALL_BUILTIN_run : ALL_BUILTIN fs = Ret (all_cases fs, fs).
Proof. unfold ALL_BUILTIN, BUILTINS. unmonad. by rewrite read_books_run. Qed.

Lemma builtin_run i name : BUILTIN_NAMES !! i = Some name → builtin i fs = Ret (book fs name, fs).
Proof.
  intros Hi. unfold builtin, BUILTINS. unmonad. rewrite read_books_run by done.
  by rewrite list_lookup_fmap, Hi.
Qed.

Lemma edited_one del k v sel m :
  act del k v (edited del sel m) = edited del (<[k := v]> sel) m.
Proof.
  destruct del; cbn; apply map_eq; intros j.
  - rewrite lookup_delete, !lookup_difference, lookup_insert. by repeat case_decide.
  - rewrite lookup_insert, !lookup_union, lookup_insert. repeat case_decide; [|done].
    by destruct (m !! j).
Qed.
Lemma act_cases_run del cs sel m :
  act_cases del cs (edited del sel m) fs = Ret (edited del (named fs cs ∪ sel) m, fs).
Proof.
  revert sel. induction cs as [|k cs IH]; intros sel; cbn [act_cases]; unmonad.
  { do 3 f_equal. apply map_eq. intros j. rewrite lookup_union.
    replace (named fs [] !! j) with (@None Case); [by destruct (sel !! j)|].
    symmetry. apply map_lookup_filter_None_2. right. intros ? _. apply not_elem_of_nil. }
  rewrite ALL_BUILTIN_run.
  set (sel' := match all_cases fs !! k with Some v => <[k := v]> sel | None => sel end).
  replace (match all_cases fs !! k with Some v => act del k v (edited del sel m) | None => edited del sel m end)
    with (edited del sel' m).
  2: { subst sel'. destruct (all_cases fs !! k); [by rewrite edited_one|done]. }
  rewrite IH. do 3 f_equal. apply map_eq. intros j. subst sel'.
  rewrite !lookup_union. unfold named. rewrite !map_lookup_filter.
  destruct (decide (k = j)) as [->|Hkj].
  - destruct (all_cases fs !! j) as [v|] eqn:Ej; [|done].
    rewrite lookup_insert_eq. cbn. rewrite (option_guard_True (j ∈ j :: cs)) by (left).
    case_guard; by destruct (sel !! j).
  - replace (match all_cases fs !! k with Some v => <[k := v]> sel | None => sel end !! j) with (sel !! j)
      by (destruct (all_cases fs !! k); [by rewrite lookup_insert_ne|done]).
    destruct (all_cases fs !! j) as [v|]; [|done]. cbn. f_equal.
    destruct (decide (j ∈ cs)) as [Hj|Hj].
    + rewrite (option_guard_True (j ∈ cs)), (option_guard_True (j ∈ k :: cs)); [done|by right|done].
    + rewrite (option_guard_False (j ∈ cs)), (option_guard_False (j ∈ k :: cs)); [done| |done].
      rewrite elem_of_cons. naive_solver.
Qed.

Lemma act_entries_run del l sel m :
  NoDup l.*1 →
  act_entries del l (edited del sel m) fs = Ret (edited del (known fs (list_to_map l) ∪ sel) m, fs).
Proof.
  revert sel. induction l as [|[k v] l IH]; intros sel Hl; cbn [act_entries]; unmonad.
  { do 3 f_equal. unfold known. cbn. rewrite map_filter_empty. by rewrite (left_id_L ∅ (∪)). }
  rewrite fmap_cons in Hl. apply NoDup_cons in Hl as [Hk Hl].
  rewrite ALL_BUILTIN_run.
  destruct (decide (is_Some (all_cases fs !! k))) as [Hs|Hs].
  - rewrite bool_decide_eq_true_2 by done. rewrite edited_one, IH by done. do 3 f_equal.
    unfold known. cbn [list_to_map foldr uncurry fst snd]. rewrite map_filter_insert_True by done.
    rewrite <- insert_union_l. symmetry. apply insert_union_r. apply map_lookup_filter_None_2. left.
    by apply not_elem_of_list_to_map_1.
  - rewrite bool_decide_eq_false_2 by done. rewrite IH by done. do 3 f_equal.
    unfold known. cbn [list_to_map foldr uncurry fst snd]. rewrite map_filter_insert_False by done.
    rewrite delete_id; [done|]. by apply not_elem_of_list_to_map_1.
Qed.

Corollary act_entries_book del c sel m :
  act_entries del (map_to_list c) (edited del sel m) fs = Ret (edited del (known fs c ∪ sel) m, fs).
Proof. rewrite act_entries_run by apply NoDup_fst_map_to_list. by rewrite list_to_map_to_list. Qed.

Lemma act_books_run del books sel m :
  Forall (readable fs) books →
  act_books del books (edited del sel m) fs =
    Ret (edited del (foldl (λ acc b, known fs (book fs b) ∪ acc) sel books) m, fs).
Proof.
  intros Hr. revert sel. induction Hr as [|b books Hr _ IH]; intros sel; cbn [act_books]; unmonad; [done|].
  rewrite book_or_empty_run by done. rewrite act_entries_book. apply IH.
Qed.

Lemma foldl_union_acc (f : string → Cases) books sel :
  foldl (λ acc b, f b ∪ acc) sel books = foldl (λ acc b, f b ∪ acc) ∅ books ∪ sel.
Proof.
  revert sel. induction books as [|b books IH]; intros sel; cbn; [by rewrite (left_id_L ∅ (∪))|].
  rewrite IH. rewrite (IH (f b ∪ ∅)). rewrite (right_id_L ∅ (∪)). by rewrite (assoc_L (∪)).
Qed.

Lemma action_run args m :
  Forall (readable fs) (bk_books args) →
  action args m fs = Ret (edited (bk_del args) (selection fs args) m, fs).
Proof.
  intros Hr. unfold action, selection. unmonad.
  assert (m = edited (bk_del args) ∅ m) as Hm.
  { unfold edited. destruct (bk_del args); [by rewrite map_difference_empty|by rewrite (left_id_L ∅ (∪))]. }
  rewrite Hm at 1. rewrite act_cases_run, act_books_run by done.
  rewrite (right_id_L ∅ (∪)), foldl_union_acc.
  destruct (bk_previous_failed args).
  - rewrite (builtin_run 4 PREVIOUS_FAILED_BOOK_NAME) by done. apply act_entries_book.
  - by rewrite (left_id_L ∅ (∪)).
Qed.

(** ** Test runs *)

(** The names of the cases the arguments of a test run select. *)
Definition wanted (args : TestArgs) : gset string :=
  list_to_set (ta_cases args) ∪
  (foldl (λ acc b, acc ∪ dom (book fs b)) ∅ (ta_books args) ∪
   (if ta_previous_failed args then dom (book fs PREVIOUS_FAILED_BOOK_NAME) else ∅)).

Definition picked (sel : gset string) (name : string) : Cases :=
  filter (λ kv, kv.1 ∈ sel) (book fs name).

Lemma select_books_run books sel :
  Forall (readable fs) books →
  select_books books sel fs = Ret (sel ∪ foldl (λ acc b, acc ∪ dom (book fs b)) ∅ books, fs).
Proof.
  intros Hr. revert sel. assert (∀ l (X : gset string),
    foldl (λ acc b, acc ∪ dom (book fs b)) X l = X ∪ foldl (λ acc b, acc ∪ dom (book fs b)) ∅ l) as Hf.
  { intros l. induction l as [|b l IH]; intros X; cbn; [by rewrite (right_id_L ∅ (∪))|].
    rewrite IH, (IH (∅ ∪ _)). by rewrite (left_id_L ∅ (∪)), (assoc_L (∪)). }
  induction Hr as [|b books Hr _ IH]; intros sel; cbn [select_books foldl]; unmonad.
  { by rewrite (right_id_L ∅ (∪)). }
  rewrite book_or_empty_run by done. rewrite IH. do 2 f_equal.
  rewrite (Hf books (∅ ∪ _)). by rewrite (left_id_L ∅ (∪)), (assoc_L (∪)).
Qed.

Lemma test_cases_run args :
  Forall (readable fs) (ta_books args) →
  test_cases args fs =
    Ret (picked (wanted args) "unit", picked (wanted args) "lab1",
         picked (wanted args) "lab2", picked (wanted args) "lab3", fs).
Proof.
  intros Hr. unfold test_cases, from_builtin, wanted. unmonad. rewrite select_books_run by done.
  destruct (ta_previous_failed args); cbv beta iota;
    rewrite ?(builtin_run 4 PREVIOUS_FAILED_BOOK_NAME) by done;
    rewrite (builtin_run 0 "unit"), (builtin_run 1 "lab1"), (builtin_run 2 "lab2"), (builtin_run 3 "lab3") by done;
    unfold picked; [by rewrite (assoc_L (∪))|by rewrite (right_id_L ∅ (∪))].
Qed.

Lemma failed_cases_run cases acc :
  failed_cases cases acc fs = Ret (named fs cases ∪ acc, fs).
Proof.
  replace (failed_cases cases acc fs) with (act_cases false cases acc fs).
  { replace acc with (edited false acc ∅) by apply (right_id_L ∅ (∪)).
    rewrite act_cases_run. unfold edited. by rewrite !(right_id_L ∅ (∪)). }
  revert acc. induction cases as [|k cases IH]; intros acc; cbn [act_cases failed_cases]; unmonad; [done|].
  rewrite ALL_BUILTIN_run. apply IH.
Qed.
End Readable.

Lemma book_other fs name other content :
  book_path name ≠ book_path other → book (<[book_path other := content]> fs) name = book fs name.
Proof. unfold book. intros Hne. by rewrite lookup_insert_ne. Qed.

Lemma readable_other fs name other content :
  book_path name ≠ book_path other → readable fs name → readable (<[book_path other := content]> fs) name.
Proof. unfold readable. intros Hne Hr c. rewrite lookup_insert_ne by done. apply Hr. Qed.

Lemma built_in_known fs name k : name ∈ BUILTIN_NAMES → is_Some (book fs name !! k) → is_Some (all_cases fs !! k).
Proof.
  unfold all_cases, BUILTIN_NAMES, all_of. cbn [fmap list_fmap foldl].
  rewrite !elem_of_cons, elem_of_nil, !lookup_union. intros Hn [v Hv].
  destruct Hn as [->|[->|[->|[->|[->|[]]]]]]; rewrite Hv;
    repeat match goal with |- context [book fs ?n !! k] => destruct (book fs n !! k) end; by eexists.
Qed.

(** C40: what the bookmark command does.  A built-in name is refused and nothing
    changes.  Otherwise the cases selected by [--previous-failed], by [--books]
    (a later bookmark before an earlier one) and by [--cases], in this order of
    precedence and restricted to built-in cases, are added to the bookmark, or
    deleted from it with [--del]; the bookmark is the only file that changes.
    Deleting without [--cases] removes the file, and fails when there is none. *)
Theorem book_main_correct fs args :
  Forall (readable fs) (BUILTIN_NAMES ++ bk_name args :: bk_books args) →
  book_main args fs =
    if bool_decide (bk_name args ∈ BUILTIN_NAMES) then Ret (Failed, fs)
    else if bk_del args && bool_decide (bk_cases args = [])
    then if bool_decide (is_Some (fs !! book_path (bk_name args)))
         then Ret (Done (), delete (book_path (bk_name args)) fs) else Ret (Failed, fs)
    else match toml_to_string (edited (bk_del args) (selection fs args) (book fs (bk_name args))) with
         | Some content => Ret (Done (), <[book_path (bk_name args) := content]> fs)
         | None => Panic UnwrapNone
         end.
Proof.
  intros Hr. apply Forall_app in Hr as [Hb Hr]. apply Forall_cons in Hr as [Hn Hbs].
  unfold book_main. destruct (decide (bk_name args ∈ BUILTIN_NAMES)) as [Hin|Hin].
  { by rewrite !(bool_decide_eq_true_2 (bk_name args ∈ BUILTIN_NAMES)) by exact Hin. }
  rewrite !(bool_decide_eq_false_2 (bk_name args ∈ BUILTIN_NAMES)) by exact Hin. unmonad.
  rewrite book_or_empty_run, action_run by done.
  destruct (bk_del args && bool_decide (bk_cases args = [])).
  - unfold remove_file. destruct (fs !! book_path (bk_name args));
      [rewrite bool_decide_eq_true_2 by done|rewrite bool_decide_eq_false_2 by by intros [? ?]]; done.
  - unfold write_book. by destruct (toml_to_string _).
Qed.

(** The failures of a test run are what the next run with
    [--previous-failed] selects: after [write_previous_failed failed], [test_cases]
    returns, of every built-in bookmark, exactly the cases that are in [failed]. *)
Theorem failed_rerun fs failed content dry gdb grd verbose :
  (∀ c s, toml_to_string c = Some s → toml_from_str s = Some c) →
  Forall (readable fs) BUILTIN_NAMES →
  toml_to_string (named fs failed) = Some content →
  ∃ fs', write_previous_failed failed fs = Ret ((), fs') ∧
    (∀ path, path ≠ book_path PREVIOUS_FAILED_BOOK_NAME → fs' !! path = fs !! path) ∧
    test_cases (mkTestArgs [] [] true dry gdb grd verbose) fs' =
      Ret (filter (λ kv, kv.1 ∈ failed) (book fs "unit"), filter (λ kv, kv.1 ∈ failed) (book fs "lab1"),
           filter (λ kv, kv.1 ∈ failed) (book fs "lab2"), filter (λ kv, kv.1 ∈ failed) (book fs "lab3"), fs').
Proof.
  intros Hlaw Hb Hc. exists (<[book_path PREVIOUS_FAILED_BOOK_NAME := content]> fs).
  set (fs' := <[_ := _]> fs).
  assert (book fs' PREVIOUS_FAILED_BOOK_NAME = named fs failed) as Hp.
  { unfold book, fs'. rewrite lookup_insert_eq. cbn. by rewrite (Hlaw _ _ Hc). }
  assert (∀ name, name ∈ ["unit"; "lab1"; "lab2"; "lab3"] → book_path name ≠ book_path PREVIOUS_FAILED_BOOK_NAME) as Hne.
  { intros name. rewrite !elem_of_cons, elem_of_nil. by intros [->|[->|[->|[->|[]]]]]. }
  assert (Forall (readable fs') BUILTIN_NAMES) as Hb'.
  { rewrite Forall_forall in Hb |- *. intros name Hn.
    destruct (decide (name ∈ ["unit"; "lab1"; "lab2"; "lab3"])) as [Hin|Hin].
    - apply readable_other; [by apply Hne|by apply Hb].
    - assert (name = PREVIOUS_FAILED_BOOK_NAME) as ->.
      { clear -Hn Hin. unfold BUILTIN_NAMES in Hn. set_solver. }
      intros c. unfold fs'. rewrite lookup_insert_eq. intros [= <-]. rewrite (Hlaw _ _ Hc). by eexists. }
  split_and!.
  - unfold write_previous_failed. unmonad. rewrite failed_cases_run by done.
    rewrite (right_id_L ∅ (∪)). unfold write_book. by rewrite Hc.
  - intros path Hpath. by apply lookup_insert_ne.
  - rewrite test_cases_run by done. unfold wanted. cbn [ta_cases ta_books ta_previous_failed foldl list_to_set].
    rewrite Hp. assert (∀ name, name ∈ ["unit"; "lab1"; "lab2"; "lab3"] →
      picked fs' (∅ ∪ (∅ ∪ dom (named fs failed))) name = filter (λ kv, kv.1 ∈ failed) (book fs name)) as Hpick.
    { intros name Hn. unfold picked, fs'. rewrite (book_other fs name PREVIOUS_FAILED_BOOK_NAME) by by apply Hne.
      apply map_filter_ext. intros k v Hv. cbn. rewrite !elem_of_union, elem_of_dom.
      assert (is_Some (all_cases fs !! k)) as [w Hw].
      { apply (built_in_known fs name); [|by eexists]. clear -Hn. unfold BUILTIN_NAMES. set_solver. }
      split.
      - intros [?|[?|[x Hx]]]; [set_solver|set_solver|]. by apply map_lookup_filter_Some in Hx as [_ ?].
      - intros Hk. right. right. exists w. by apply map_lookup_filter_Some. }
    by rewrite !Hpick by (rewrite !elem_of_cons; naive_solver).
Qed.
End Book.

(** ** A concrete instance *)

#[export] Instance Case_eq_dec : EqDecision Case.
Proof. solve_decision. Defined.

Definition c_sum : Case := mkCase "1 2" None (Some 10).
Definition c_old : Case := mkCase "1" (Some 3) None.
Definition demo_texts : list (string * Cases) :=
  [("sum", {["sum" := c_sum]}); ("mem", {["memory" := c_old]}); ("empty", ∅); ("old", {["sum" := c_old]});
   ("both", {["sum" := c_old; "memory" := c_old]})].

Definition demo_find (s : string) : option Cases :=
  snd ∘ snd <$> list_find (λ e : string * Cases, e.1 = s) demo_texts.
Definition demo_name (c : Cases) : option string :=
  fst ∘ snd <$> list_find (λ e : string * Cases, e.2 = c) demo_texts.

#[local] Instance demo_toml : Toml := { toml_from_str := demo_find; toml_to_string := demo_name }.

Lemma demo_roundtrip c s : demo_name c = Some s → demo_find s = Some c.
Proof.
  unfold demo_name. destruct (list_find (λ e : string * Cases, e.2 = c) demo_texts) as [[i e]|] eqn:E; [|discriminate].
  intros [= <-]. apply list_find_Some in E as (Hi & <- & _).
  do 5 (destruct i as [|i]; [by injection Hi as <-|]). discriminate Hi.
Qed.

(** The files of a test run: the built-in bookmarks [unit] and [lab1], and one that
    holds other values of their cases. *)
Definition demo_files : gmap (bool * list string) string :=
  {[book_path "unit" := "mem"; book_path "lab1" := "sum"; book_path "mine" := "both"]}.

Ltac all_readable := cbn [app bk_name bk_books BUILTIN_NAMES];
  repeat (first [apply Forall_cons; split | apply Forall_nil; exact I]);
  intros ? Hc; vm_compute in Hc; first [discriminate Hc | injection Hc as <-; by eexists].

Lemma book_main_witness :
  book_main (mkBookArgs "mine" true ["memory"; "nothing"] [] false) demo_files =
    Ret (Done (), <[book_path "mine" := "old"]> demo_files).
Proof.
  rewrite (book_main_correct demo_files (mkBookArgs "mine" true ["memory"; "nothing"] [] false)).
  - assert (toml_to_string (edited true (selection demo_files (mkBookArgs "mine" true ["memory"; "nothing"] [] false))
              (book demo_files "mine")) = Some "old") as He by (vm_compute; reflexivity).
    cbn [bk_name bk_del bk_cases]. rewrite He. reflexivity.
  - all_readable.
Defined.

Lemma failed_rerun_witness :
  ∃ fs', write_previous_failed ["sum"; "nothing"] demo_files = Ret ((), fs') ∧
    test_cases (mkTestArgs [] [] true false false false false) fs' = Ret (∅, {["sum" := c_sum]}, ∅, ∅, fs').
Proof.
  destruct (failed_rerun demo_files ["sum"; "nothing"] "sum" false false false false) as (fs' & Hw & _ & Ht).
  - exact demo_roundtrip.
  - all_readable.
  - reflexivity.
  - exists fs'. split; [exact Hw|]. rewrite Ht. reflexivity.
Defined.

(** The check of the name does not protect the built-in bookmarks: a name with an
    extension denotes the same file. *)
Example builtin_overwritten :
  match book_main (mkBookArgs "unit.old" true ["memory"] [] false) demo_files with
  | Ret (Done _, fs') => fs' !! book_path "unit"
  | _ => None
  end = Some "empty".
Proof. vm_compute. reflexivity. Qed.

(** [--del] with bookmarks only removes the file with the cases of other bookmarks
    in it. *)
Example delete_with_books :
  match book_main (mkBookArgs "mine" true [] ["lab1"] false) demo_files with
  | Ret (Done _, fs') => fs' !! book_path "mine"
  | _ => Some "not deleted"
  end = None.
Proof. vm_compute. reflexivity. Qed.

Example paths :
  book_path "unit" = (false, ["bookmarks"; "unit.toml"]) ∧
  book_path "unit.old" = (false, ["bookmarks"; "unit.toml"]) ∧
  book_path ".x" = (false, ["bookmarks"; ".x.toml"]) ∧
  book_path "a/b.c.d" = (false, ["bookmarks"; "a"; "b.c.toml"]) ∧
  book_path ".." = (false, ["bookmarks"; ".."]) ∧
  book_path "/tmp/x" = (true, ["tmp"; "x.toml"]) ∧
  book_path "" = (false, ["bookmarks.toml"]).
Proof. by vm_compute. Qed.
